(* ===== verification/_CoqProject ===== *)
-Q . S2P
Prelude.v
Machine.v
F64.v
Text.v
Time.v
Rounding.v
Shaper.v
Generator.v
Profile.v
Peak.v
Clocked.v
Suspendable.v
RateControl.v
Histogram.v
Stat.v
Metrics.v
Seam.v
Produce.v
Pool.v
Task.v
Conformance.v
Keeping.v
Udp.v
Ledger.v
Exchange.v
Http.v
HttpRaw.v
Http3.v
Jsonline.v
Dpdk.v
Ui.v
Widgets.v
Stream.v
Summary.v
Report.v
Cfg.v
System.v
Books.v
Achieve.v
Runtime.v
Netlink.v
Eal.v
Bindings.v
DpdkInit.v
Transport.v
Engine.v
Whole.v
Main.v
Backend.v
Client.v
Hosting.v
Tests.v
Bench.v
