(* ===== verification/Prelude.v ===== *)
(** * DWD: a verification library for the traffic generator

    DWD shoots requests at a target at a rate that follows a load profile.  This
    library models the program's logic — from the command line to the counters
    on the screen — and proves what makes each part correct.  Paths below are
    under [src/]; [core] stands for [dwd-core/src].

    ** The program and its files

    - A profile ([core/generator.rs]) gives a rate for every instant:
      [Generator.v] has the configuration and the running generators, [Profile.v]
      what they produce, [Peak.v] the most they ever ask for, [Clocked.v] the
      methods that read the clock themselves.
      [SuspendableGenerator] wraps one so that control events can suspend it,
      resume it or hold a rate: [Suspendable.v].
    - The rate-control loop ([core/engine.rs], [run_generator]) polls it, applies
      an event and spreads the rate over the limits of the workers:
      [RateControl.v].  Jobs and their limits are dealt to threads as in
      [engine/*/engine.rs] and [engine/runtime.rs]: [Pool.v]; [Engine.v] is the
      construction and the run of the engines behind [trait Engine].
    - A worker ([core/engine/coro.rs]) executes its task as often as its token
      bucket ([core/shaper.rs]) grants: [Task.v] and [Shaper.v]; [Conformance.v]
      puts the two together, and states as a class ([RateWorker]) what a worker
      of any engine promises; [Keeping.v] is the other side, what one that keeps
      up with its ticks delivers ([RateWorkerKeeps]).  [System.v] runs the loop
      and the workers side by side, one access to the shared limits and flag at
      a time; [Books.v] adds what the workers count, [Achieve.v] what they
      deliver when they keep up, and [Whole.v] puts the profile, the engine, the
      system and the counters of a run together.
    - The tasks are the engines' workers: UDP ([Udp.v]), HTTP/1 over hyper
      ([Http.v]), HTTP/1 over a raw socket ([HttpRaw.v]) and HTTP/3 ([Http3.v]);
      what the last three share is [Exchange.v], and [Ledger.v] the books they
      keep.  Under them are the buffer adapter and TLS ([engine/http/io.rs],
      [tls.rs]): [Transport.v].  Bind addresses and requests come from cycling
      producers ([core/lib.rs]): [Produce.v]; requests from payload files
      ([core/engine/http/payload/jsonline.rs]): [Jsonline.v].
    - The DPDK engine ([core/worker/dpdk.rs], [dpdk/src]) has loops of its own:
      [Dpdk.v] is the worker, [DpdkInit.v] how workers and ports are set up and
      shut down, [Netlink.v] the neighbour table of the kernel, [Eal.v] the
      arguments of the library, [Bindings.v] its memory, errors and life.
    - Workers count into statistics ([core/stat/percpu.rs]) that
      readers add up, latencies into logarithmic histograms
      ([core/histogram.rs]): [Stat.v] and [Histogram.v].  Readers are the
      Prometheus endpoint ([core/api/metrics.rs], [Metrics.v]), the gRPC seam
      ([core/grpc/], [dwd/src/grpc/client.rs], [Seam.v]; its two flows, the
      snapshots and the control events, are [Stream.v]), the terminal interface
      behind it ([dwd/src/ui.rs]: [Ui.v] for keys and modes, [Widgets.v] for what
      the screen shows), and the end-of-run summary ([core/summary.rs]:
      [Summary.v] for the figures, [Report.v] for the lines).
    - [dwd/src/cmd.rs] and the configurations resolve the command line: [Cfg.v].
      [dwd/src/runtime.rs] starts all of this and waits for its end:
      [Runtime.v], with the signals, Stop requests, the interface, the result of
      the engine and the joins as events of a process.  [dwd/src/main.rs] goes from the command line to the exit
      code: [Main.v], with the log ([logging.rs]), the whole configuration
      ([cfg.rs]) and what the servers bind ([core/api/server.rs],
      [core/grpc/mod.rs]).
    - [dwd-backend/src] is the server the generator is tried against:
      [Backend.v], up to what an HTTP/3 worker of [Http3.v] counts of its
      answers, with its example client in [Client.v]; between the two ends lies
      the documented contract of a QUIC stream, which may break at any await.  [Hosting.v] is the pipe between the service
      and the built-in interface.
    - [Tests.v] runs the repository's own unit tests on these definitions, and
      [Bench.v] the closures of its benchmarks ([dwd-core/benches]).

    [Machine.v], [F64.v], [Time.v], [Rounding.v] and [Text.v] hold the machine:
    wrapping 64-bit integers, IEEE-754 doubles with the rounding of every
    operation, instants and durations, bounds on the rounding, and numbers as
    text.  This file holds outcomes ([res]: value, error or panic), computations
    that leave a trace ([traced]), the tactics and the lemmas all the others
    share.

    ** How the code is read

    - A struct is a [Record], an enum an [Inductive], a trait a [Class]; a
      method is a [Definition] of the same name that returns the new state.  A
      [?] is [let!], a panic (index, division by zero, [unwrap]) is [Panic]: the
      release profile aborts on it.  Integers wrap, as in the release profile.
    - The clock, the kernel, the network, tokio, hyper, quinn, httparse, the
      DPDK driver, the mathematical library and the parsers are not read: their
      answers are the environment of a step (records named [Tick], [...Env]), or
      parameters with the documented behaviour as hypotheses or class laws
      ([Counter], [BoundedChannel], [HeaderMap]).
    - An [async] body is a computation that at each awaited future may return,
      fail or be dropped by the timeout around it; the state keeps what was
      written before.
    - A worker is modelled alone wherever nothing it shares decides what it
      does: the producers' indices come from the environment, and the tasks of a
      thread count into one [PerCpuStat] on one thread, by additions only, so
      its books are the sum of theirs.  Where sharing matters it is modelled:
      limits and flag in [System], channels and the mirror in [Stream], the
      references of a packet in [Dpdk], the names of limits and statistics in
      [Engine].
    - Loops that end with the run ([run_generator], the worker loops, the
      sampler) are folds over the list of what they read, so a theorem about
      every list is one about every prefix of every run; [System], [Stream] and
      [Runtime] are step functions whose runs are lists of steps.  [current_at]
      recurses through nested sequences: its fuel is the depth of the generator,
      and [Generator.v] proves that more fuel never changes the result.  The walk
      through a datagram ([Netlink]) has the size of the receive buffer as fuel,
      which [walk_total] proves enough; the loops over units ([Report]) have the
      number of units, past which the code stops too, and those over digits
      ([Text]) more than a 64-bit number has.

    ** What the theorems show

    - Rate: a worker never executes more than the integral of its limit over
      time, up to an explicit rounding error (Conformance), nor more than 32
      times a round (Task), and its bucket refills in a second (Shaper); all the
      workers together stay under the peak of the profile in every interleaving,
      and leave their loops when the flag is cleared (System); the limits always
      add up to the published rate (RateControl), and every engine starts exactly
      one worker for each (Engine, Pool); the numbers a run reports stay within
      what its profile and the rates typed allow (Books, Whole); a worker that
      keeps up achieves its rate up to an explicit shortfall (Keeping), and so do
      a pool and a whole run (Achieve, Whole); linear profiles
      follow their line, nested ones end no earlier than their duration and never
      exceed their peak, reduced ones split (Profile, Peak); suspension freezes the profile's clock and the wrapper refines
      an abstract control mode (Suspendable).
    - Accounting: every execution of an engine's worker is counted exactly once
      whatever fails and wherever the timeout fires, nothing panics, sockets are
      renewed in time (Udp, Http, HttpRaw, Http3); a DPDK iteration reports what
      the driver took and packets are never freed under it (Dpdk); the sums,
      the scrape, the snapshot, the screen and the report show what was counted
      (Stat, Metrics, Seam, Widgets, Report); a recorded latency is in one bucket
      and quantiles are found (Histogram); the report is final, and the process
      ends the way its engine did (Runtime).
    - Control and configuration: the mirror follows the engine by a bounded lag,
      and an event goes from the keyboard or a remote client to the loop once and
      in the order of its source, or is dropped where a channel is full (Stream,
      Seam); as long as the keys are the only source, the mode on the screen is
      the generator's mode, and a typed number is the rate asked for (Ui); producers cycle
      (Produce); raw requests read back (Jsonline); configurations are what the
      command line says (Cfg); the parts of a run start in order or not at all
      (Runtime), those the flags ask for, and the exit code says how it went
      (Main); cores, queues, neighbours and arguments of DPDK are those of its
      configuration (DpdkInit, Netlink, Eal), its boxes own their memory and its
      log is closed while it is up (Bindings); the test backend comes up as
      configured or fails with what it had started, and the HTTP/3 worker counts
      its answers, or their loss, exactly once (Backend), and the example client shows exactly the content however it is
      cut up on the way (Client); the in-memory server has one connection and
      never runs out of them (Hosting); the buffer adapter is transparent
      and TLS takes any certificate but no wrong key (Transport).
    - Agreement: the definitions pass the program's own unit tests (Tests), and
      the benchmarks run the branches they mean to, but one (Bench).
    - Limits of the code, stated as they are: profiles of zero duration panic
      and slow ramps are flat (Profile); a suspension after a manual rate is
      ignored (Suspendable); the exported histogram counts twice (Metrics);
      fewer jobs than threads panic after the threads with jobs have started
      (Engine), and so does an empty list of bind addresses (Produce, Cfg); an
      engine that refuses its configuration is noticed at the end of the profile
      (Engine); a lost socket leaves its counter to the next (Http); only the
      last read of a response head is counted (HttpRaw); an oversized packet
      overflows its buffer (Dpdk); a full channel makes the screen disagree with
      the generator (Ui); the open interface outlives the run, answers no
      request then and leaves a signal to kill the process, and an error of the
      engine takes the report with it (Runtime); a core number of 128 or more
      launches a core without a worker (DpdkInit); bind addresses are taken
      whatever their scope (Cfg); [Host] headers are sent twice (Jsonline).

    ** What is not modelled

    - Serving itself: axum, tonic and actix-web accept and answer; what is bound,
      logged and spawned around them is in [Main], [Runtime] and [Backend].
    - The messages of [dwd-proto] and their encoding, the text encoding of the
      metrics, the layout of the terminal, the parsers of arguments, YAML and
      JSON: generated code and libraries.
    - Of the DPDK bindings, the accessors of packets and queues, wrappers around
      a single call of the library; their effect is in [Dpdk].
    - The tests that need a socket, a clock or the last bits of the logarithm
      ([Tests] names them), and the harness of the benchmarks. *)
From stdpp Require Export base tactics option list numbers strings gmap.
From Stdlib Require Export ZArith Lia.

#[global] Open Scope Z_scope.

(** ** Outcomes

    A Rust function either returns, returns an [Err] through [?], or panics
    (the release profile aborts the process on a panic). *)
Inductive res (A : Type) : Type :=
  | Ok (a : A)
  | Err (msg : string)
  | Panic (msg : string).
Arguments Ok {A} a.
Arguments Err {A} msg.
Arguments Panic {A} msg.

Definition res_bind {A B} (m : res A) (f : A → res B) : res B :=
  match m with
  | Ok a => f a
  | Err e => Err e
  | Panic e => Panic e
  end.

Declare Scope dwd_scope.
Delimit Scope dwd_scope with dwd.
Notation "'let!' x ':=' m 'in' k" := (res_bind m (λ x, k))
  (at level 10, x pattern, m at level 100, k at level 200,
   format "'let!'  x  ':='  m  'in' '//' k") : dwd_scope.
#[global] Open Scope dwd_scope.

Definition is_panic {A} (m : res A) : bool :=
  match m with Panic _ => true | _ => false end.

Fixpoint res_mapM {A B} (f : A → res B) (l : list A) : res (list B) :=
  match l with
  | [] => Ok []
  | x :: l => let! y := f x in let! ys := res_mapM f l in Ok (y :: ys)
  end.

Lemma res_bind_Ok {A B} (m : res A) (f : A → res B) b :
  res_bind m f = Ok b ↔ ∃ a, m = Ok a ∧ f a = Ok b.
Proof.
  split; [|by intros (a & -> & ?)].
  destruct m as [a| |]; intros H; [by exists a|done..].
Qed.

Lemma res_mapM_Ok {A B} (f : A → res B) l k :
  res_mapM f l = Ok k ↔ Forall2 (λ x y, f x = Ok y) l k.
Proof.
  revert k. induction l as [|x l IH]; intros k; simpl.
  - split; [intros [= <-]; constructor | by intros ->%Forall2_nil_inv_l].
  - rewrite res_bind_Ok. setoid_rewrite res_bind_Ok. split.
    + intros (y & ? & ys & ?%IH & [= <-]). by constructor.
    + intros (y & ys & ? & ?%IH & ->)%Forall2_cons_inv_l. eauto 6.
Qed.

Lemma res_mapM_total {A B} (f : A → res B) l :
  (∀ x, x ∈ l → ∃ y, f x = Ok y) → ∃ k, res_mapM f l = Ok k.
Proof.
  induction l as [|x l IH]; intros Hf; [by eexists|]. cbn.
  destruct (Hf x) as [y ->]; [left|]. destruct IH as [k ->]; [intros; apply Hf; by right|].
  by eexists.
Qed.

Lemma res_mapM_spec {A B} (f : A → res B) (P : A → B → Prop) l :
  (∀ x, x ∈ l → ∃ y, f x = Ok y ∧ P x y) → ∃ k, res_mapM f l = Ok k ∧ Forall2 P l k.
Proof.
  induction l as [|x l IH]; intros Hf; [by exists []|]. cbn.
  destruct (Hf x) as (y & -> & Hy); [left|]. destruct IH as (k & -> & Hk); [intros; apply Hf; by right|].
  exists (y :: k). by split; [|constructor].
Qed.

Lemma res_mapM_panics {A B} (f : A → res B) l x :
  x ∈ l → is_panic (f x) = true →
  (∀ y, (∃ z, f y = Ok z) ∨ is_panic (f y) = true) → is_panic (res_mapM f l) = true.
Proof.
  intros Hx Hp Hf. induction Hx as [x l|x y l _ IH]; cbn.
  - by destruct (f x).
  - destruct (Hf y) as [[z ->]|Hy]; [cbn|by destruct (f y)].
    specialize (IH Hp). by destruct (res_mapM f l).
Qed.

(** ** Computations that leave a trace

    What was started or sent before a failure stays: the events so far, in
    order, and the outcome. *)
Definition traced (E A : Type) : Type := list E * res A.

Section traced.
Context {E : Type}.

Definition tret {A} (a : A) : traced E A := ([], Ok a).
Definition tcall {A} (r : res A) : traced E A := ([], r).
Definition temit (e : E) : traced E unit := ([e], Ok tt).
Definition tbind {A B} (m : traced E A) (f : A → traced E B) : traced E B :=
  match snd m with
  | Ok a => (fst m ++ fst (f a), snd (f a))
  | Err e => (fst m, Err e)
  | Panic e => (fst m, Panic e)
  end.

Lemma tbind_tcall_Ok {A B} (a : A) (f : A → traced E B) : tbind (tcall (Ok a)) f = f a.
Proof. unfold tbind. cbn. by destruct (f a). Qed.

(** [for x in l { let y = make(x)?; start(y); ys.push(y) }]. *)
Fixpoint start_each {A} (make : A → res E) (l : list A) : traced E (list E) :=
  match l with
  | [] => tret []
  | x :: l =>
      tbind (tcall (make x)) (λ y, tbind (temit y) (λ _, tbind (start_each make l) (λ ys, tret (y :: ys))))
  end.

(** Its outcome is that of making them all; when all can be made, all are
    started; otherwise those before the first failure are. *)
Lemma start_each_result {A} (make : A → res E) l : snd (start_each make l) = res_mapM make l.
Proof.
  induction l as [|x l IH]; [done|]. cbn. destruct (make x); [|done..]. cbn. unfold tbind.
  rewrite <-IH. destruct (start_each make l) as [tr [?| |]]; done.
Qed.

Lemma start_each_trace {A} (make : A → res E) l ys :
  res_mapM make l = Ok ys → start_each make l = (ys, Ok ys).
Proof.
  revert ys. induction l as [|x l IH]; intros ys Hm; [by injection Hm as <-|]. cbn in Hm |- *.
  destruct (make x) as [y| |]; [|done..]. cbn in Hm |- *. destruct (res_mapM make l) as [k| |]; [|done..].
  injection Hm as <-. unfold tbind. rewrite (IH k eq_refl). cbn. by rewrite app_nil_r.
Qed.

Lemma start_each_stops {A} (make : A → res E) l1 x l2 ys msg :
  res_mapM make l1 = Ok ys → make x = Panic msg → start_each make (l1 ++ x :: l2) = (ys, Panic msg).
Proof.
  revert ys. induction l1 as [|z l1 IH]; intros ys Hm Hx; cbn in Hm |- *.
  - injection Hm as <-. by rewrite Hx.
  - destruct (make z) as [y| |]; [|done..]. cbn in Hm |- *. destruct (res_mapM make l1) as [k| |]; [|done..].
    injection Hm as <-. unfold tbind. by rewrite (IH k eq_refl Hx).
Qed.
End traced.

Notation "'let*' x ':=' m 'in' k" := (tbind m (λ x, k))
  (at level 10, x pattern, m at level 100, k at level 200,
   format "'let*'  x  ':='  m  'in' '//' k") : dwd_scope.

(** ** Tactics *)

(** Splits a monadic chain that returned [Ok] into its steps. *)
Ltac res_inv :=
  repeat match goal with
  | H : res_bind _ _ = Ok _ |- _ =>
      apply res_bind_Ok in H; destruct H as (? & ? & ?)
  | H : Ok _ = Ok _ |- _ => injection H as H; subst
  | H : Ok _ = Err _ |- _ => discriminate H
  | H : Ok _ = Panic _ |- _ => discriminate H
  | H : Err _ = Ok _ |- _ => discriminate H
  | H : Panic _ = Ok _ |- _ => discriminate H
  end.

(** Case analysis on the innermost scrutinee of the goal. *)
Ltac break_match :=
  match goal with
  | |- context [match ?x with _ => _ end] =>
      lazymatch x with
      | context [match _ with _ => _ end] => fail
      | _ => destruct x eqn:?
      end
  end.

(** Turns boolean integer tests in the context into propositions. *)
Ltac to_prop :=
  repeat match goal with
  | H : (_ <? _) = true |- _ => apply Z.ltb_lt in H
  | H : (_ <? _) = false |- _ => apply Z.ltb_ge in H
  | H : (_ <=? _) = true |- _ => apply Z.leb_le in H
  | H : (_ <=? _) = false |- _ => apply Z.leb_gt in H
  | H : (_ =? _) = true |- _ => apply Z.eqb_eq in H
  | H : (_ =? _) = false |- _ => apply Z.eqb_neq in H
  | H : (_ && _)%bool = true |- _ => apply andb_true_iff in H; destruct H
  | H : (_ || _)%bool = false |- _ => apply orb_false_iff in H; destruct H
  | H : (_ <? _)%nat = true |- _ => apply Nat.ltb_lt in H
  | H : (_ <? _)%nat = false |- _ => apply Nat.ltb_ge in H
  | H : (_ <=? _)%nat = true |- _ => apply Nat.leb_le in H
  | H : (_ <=? _)%nat = false |- _ => apply Nat.leb_gt in H
  end.

Create HintDb dwd.
Create Rewrite HintDb dwd.

(** ** Sums and counting on lists *)

Definition zsum (l : list Z) : Z := foldr Z.add 0 l.
Arguments zsum : simpl never.

Lemma zsum_nil : zsum [] = 0.
Proof. done. Qed.

Lemma zsum_cons x l : zsum (x :: l) = x + zsum l.
Proof. done. Qed.

Lemma zsum_app l k : zsum (l ++ k) = zsum l + zsum k.
Proof. induction l as [|x l IH]; [done|]. simpl. rewrite !zsum_cons. lia. Qed.

Lemma zsum_nonneg l : Forall (Z.le 0) l → 0 ≤ zsum l.
Proof. induction 1; rewrite ?zsum_cons; [done|lia]. Qed.

Lemma zsum_lookup_le l i x : Forall (Z.le 0) l → l !! i = Some x → x ≤ zsum l.
Proof.
  intros Hl. revert i. induction Hl as [|y l Hy Hl IH]; intros i Hi; [done|].
  pose proof (zsum_nonneg l Hl). rewrite zsum_cons.
  destruct i; simplify_eq/=; [lia|]. specialize (IH _ Hi). lia.
Qed.

Lemma zsum_insert l i x y :
  l !! i = Some x → zsum (<[i := y]> l) = zsum l - x + y.
Proof.
  revert i. induction l as [|z l IH]; intros [|i] Hi; simplify_eq/=; rewrite ?zsum_cons; [lia|].
  rewrite (IH _ Hi). lia.
Qed.

Lemma zsum_replicate n x : zsum (replicate n x) = Z.of_nat n * x.
Proof. induction n as [|n IH]; [done|]. simpl. rewrite zsum_cons, IH. lia. Qed.

Lemma zsum_map_add {A} (f g : A → Z) l :
  zsum ((λ x, f x + g x) <$> l) = zsum (f <$> l) + zsum (g <$> l).
Proof. induction l as [|x l IH]; [done|]. csimpl. rewrite !zsum_cons, IH. lia. Qed.

Lemma zsum_mono {A} (f g : A → Z) l :
  Forall (λ x, f x ≤ g x) l → zsum (f <$> l) ≤ zsum (g <$> l).
Proof. induction 1 as [|x l Hx Hl IH]; [done|]. csimpl. rewrite !zsum_cons. lia. Qed.

Lemma zsum_ext {A} (f g : A → Z) l :
  Forall (λ x, f x = g x) l → zsum (f <$> l) = zsum (g <$> l).
Proof. induction 1 as [|x l Hx Hl IH]; [done|]. csimpl. rewrite !zsum_cons. lia. Qed.

#[export] Hint Rewrite zsum_nil zsum_cons zsum_app zsum_replicate : dwd.

(** ** Folding a step over a list of inputs *)

Section fold_invariant.
Context {S I : Type} (step : S → I → S) (P : S → Prop) (Q : I → Prop).
Hypothesis Hstep : ∀ s i, P s → Q i → P (step s i).

Lemma foldl_invariant s l : P s → Forall Q l → P (foldl step s l).
Proof using Hstep. intros Hs Hl. revert s Hs. induction Hl; simpl; auto. Qed.
End fold_invariant.
