(* ===== verification/Machine.v ===== *)
(** * Machine integers

    Integers of the program are [Z] values kept in the range of their Rust type.
    The release profile of the workspace leaves overflow checks off, so [+], [-]
    and [*] wrap; [/] and [%] panic on a zero divisor (and [i64::MIN / -1]) in
    every profile; [as] casts between integers truncate. *)
From S2P Require Import Prelude.

Definition u64_max : Z := 2 ^ 64 - 1.
Definition is_u64 (z : Z) : Prop := 0 ≤ z < 2 ^ 64.
Definition is_i64 (z : Z) : Prop := - 2 ^ 63 ≤ z < 2 ^ 63.

(** [z as u64], [z as i64], [z as u32], [z as u16]. *)
Definition as_u64 (z : Z) : Z := z `mod` 2 ^ 64.
Definition as_i64 (z : Z) : Z := (z + 2 ^ 63) `mod` 2 ^ 64 - 2 ^ 63.
Definition as_u16 (z : Z) : Z := z `mod` 2 ^ 16.

Definition u64_add (a b : Z) : Z := as_u64 (a + b).
Definition u64_mul (a b : Z) : Z := as_u64 (a * b).
Definition u64_saturating_sub (a b : Z) : Z := Z.max 0 (a - b).
Definition u64_saturating_add (a b : Z) : Z := Z.min u64_max (a + b).
Definition u64_div (a b : Z) : res Z :=
  if b =? 0 then Panic "attempt to divide by zero" else Ok (a / b).
Definition u64_rem (a b : Z) : res Z :=
  if b =? 0 then Panic "attempt to calculate the remainder with a divisor of zero"
  else Ok (a `mod` b).

Definition i64_add (a b : Z) : Z := as_i64 (a + b).
Definition i64_sub (a b : Z) : Z := as_i64 (a - b).
Definition i64_mul (a b : Z) : Z := as_i64 (a * b).
Definition i64_div (a b : Z) : res Z :=
  if b =? 0 then Panic "attempt to divide by zero"
  else if (a =? - 2 ^ 63) && (b =? -1) then Panic "attempt to divide with overflow"
  else Ok (Z.quot a b).

(** [iter().sum::<u64>()]. *)
Definition u64_sum (l : list Z) : Z := foldl u64_add 0 l.

(** ** Range lemmas *)

Lemma as_u64_range z : is_u64 (as_u64 z).
Proof. unfold is_u64, as_u64. apply Z.mod_pos_bound. lia. Qed.

Lemma as_u64_id z : is_u64 z → as_u64 z = z.
Proof. unfold is_u64, as_u64. intros. by apply Z.mod_small. Qed.

Lemma as_i64_range z : is_i64 (as_i64 z).
Proof.
  unfold is_i64, as_i64.
  pose proof (Z.mod_pos_bound (z + 2 ^ 63) (2 ^ 64) ltac:(lia)). lia.
Qed.

Lemma as_i64_id z : is_i64 z → as_i64 z = z.
Proof. unfold is_i64, as_i64. intros. rewrite Z.mod_small; lia. Qed.

Lemma as_u64_add_idemp_l a b : as_u64 (as_u64 a + b) = as_u64 (a + b).
Proof. unfold as_u64. by rewrite Zplus_mod_idemp_l. Qed.

Lemma as_u64_add_idemp_r a b : as_u64 (a + as_u64 b) = as_u64 (a + b).
Proof. unfold as_u64. by rewrite Zplus_mod_idemp_r. Qed.

Lemma u64_add_id a b : 0 ≤ a → 0 ≤ b → a + b < 2 ^ 64 → u64_add a b = a + b.
Proof. intros. apply as_u64_id. unfold is_u64. lia. Qed.

Lemma u64_add_range a b : is_u64 (u64_add a b).
Proof. apply as_u64_range. Qed.

Lemma u64_saturating_sub_range a b : is_u64 a → 0 ≤ b → is_u64 (u64_saturating_sub a b).
Proof. unfold is_u64, u64_saturating_sub. lia. Qed.

#[export] Hint Resolve as_u64_range as_i64_range u64_add_range : dwd.

(** ** Sums *)

Lemma u64_sum_acc l acc : foldl u64_add (as_u64 acc) l = as_u64 (acc + zsum l).
Proof.
  revert acc. induction l as [|x l IH]; intros acc; simpl.
  - by rewrite Z.add_0_r.
  - unfold u64_add at 2. rewrite as_u64_add_idemp_l, IH. f_equal.
    rewrite zsum_cons. lia.
Qed.

(** A Rust [sum] is the mathematical sum reduced modulo 2^64. *)
Lemma u64_sum_wraps l : u64_sum l = as_u64 (zsum l).
Proof. exact (u64_sum_acc l 0). Qed.

Lemma u64_sum_exact l :
  Forall (Z.le 0) l → zsum l < 2 ^ 64 → u64_sum l = zsum l.
Proof.
  intros Hl Hs. rewrite u64_sum_wraps. apply as_u64_id.
  unfold is_u64. pose proof (zsum_nonneg l Hl). lia.
Qed.

Lemma u64_sum_range l : is_u64 (u64_sum l).
Proof. rewrite u64_sum_wraps. apply as_u64_range. Qed.

Lemma is_u64_nonneg l : Forall is_u64 l → Forall (Z.le 0) l.
Proof. intros H. eapply Forall_impl; [exact H|]. unfold is_u64. simpl. lia. Qed.

#[export] Hint Resolve u64_sum_range is_u64_nonneg : dwd.
