(* ===== verification/F64.v ===== *)
(** * IEEE-754 binary64

    [f64] values are the Standard Library's executable specification floats at
    precision 53 and maximal exponent 1024.  The file gives the operations the
    program uses ([as f64], [as u64], [+], [-], [*], [/], the comparisons, [min],
    [max], [round]) and the part of the theory of rounding the components need:
    results are canonical, comparisons agree with the order of the values, and
    rounding never crosses a representable value. *)
From S2P Require Import Prelude Machine.
From Stdlib Require Export SpecFloat.

Definition f64 : Type := spec_float.

(** ** Operations *)

Definition f64_add : f64 → f64 → f64 := SFadd 53 1024.
Definition f64_sub : f64 → f64 → f64 := SFsub 53 1024.
Definition f64_mul : f64 → f64 → f64 := SFmul 53 1024.
Definition f64_div : f64 → f64 → f64 := SFdiv 53 1024.

Definition f64_ltb (x y : f64) : bool := SFltb x y.
Definition f64_leb (x y : f64) : bool := SFleb x y.
Definition f64_gtb (x y : f64) : bool := SFltb y x.
Definition f64_geb (x y : f64) : bool := SFleb y x.

Definition f64_is_nan (x : f64) : bool :=
  match x with S754_nan => true | _ => false end.

(** [f64::min] and [f64::max]: a NaN operand is ignored. *)
Definition f64_min (x y : f64) : f64 :=
  if f64_is_nan x then y else if f64_is_nan y then x
  else if f64_ltb y x then y else x.
Definition f64_max (x y : f64) : f64 :=
  if f64_is_nan x then y else if f64_is_nan y then x
  else if f64_ltb x y then y else x.

(** [n as f64] for an unsigned integer: round to nearest, ties to even. *)
Definition f64_of_u64 (n : Z) : f64 := binary_normalize 53 1024 n 0 false.

(** [i as f64] for a signed integer. *)
Definition f64_of_i64 (n : Z) : f64 := binary_normalize 53 1024 n 0 false.

(** A decimal literal with finitely many binary digits, [m * 2^e]. *)
Definition f64_lit (m e : Z) : f64 := binary_normalize 53 1024 m e false.

Definition f64_zero : f64 := S754_zero false.
Definition f64_one : f64 := f64_of_u64 1.
Definition f64_infinity : f64 := S754_infinity false.

(** [x as u64]: truncation toward zero, saturating; NaN gives 0. *)
Definition f64_to_u64 (x : f64) : Z :=
  match x with
  | S754_nan | S754_zero _ => 0
  | S754_infinity s => if s then 0 else u64_max
  | S754_finite s m e => if s then 0 else Z.min u64_max (Z.shiftl (Z.pos m) e)
  end.

(** [f64::round]: half away from zero. *)
Definition f64_round (x : f64) : f64 :=
  match x with
  | S754_finite s m e =>
      if 0 <=? e then x
      else let n := (Z.pos m + 2 ^ (- e - 1)) / 2 ^ (- e) in
           if n =? 0 then S754_zero s
           else binary_normalize 53 1024 (if s then - n else n) 0 s
  | _ => x
  end.

(** ** Canonical floats and their values

    [scaled x] is the value of a finite float in units of the least positive
    one, 2^-1074; infinities are placed beyond every finite value. *)
Definition f64_valid (x : f64) : bool := valid_binary 53 1024 x.

Definition scaled (x : f64) : Z :=
  match x with
  | S754_finite s m e => (if s then -1 else 1) * (Z.pos m * 2 ^ (e + 1074))
  | S754_infinity s => (if s then -1 else 1) * 2 ^ 2098
  | _ => 0
  end.

(** A number that is not NaN, not negative and in canonical form. *)
Definition f64_nonneg (x : f64) : Prop :=
  f64_valid x = true ∧
  match x with
  | S754_nan => False
  | S754_zero s | S754_infinity s | S754_finite s _ _ => s = false
  end.

Definition f64_finite (x : f64) : Prop :=
  match x with S754_zero _ | S754_finite _ _ _ => True | _ => False end.

Abbreviation fexp64 := (fexp 53 1024).

Lemma fexp64_eq e : fexp64 e = Z.max (e - 53) (-1074).
Proof. unfold fexp, emin. lia. Qed.

Lemma digits2_pos_bounds m :
  2 ^ (Z.pos (digits2_pos m) - 1) ≤ Z.pos m < 2 ^ Z.pos (digits2_pos m).
Proof.
  induction m as [m IH|m IH|]; simpl digits2_pos; [| |done].
  - rewrite Pos2Z.inj_succ. replace (Z.succ _ - 1) with (Z.succ (Z.pos (digits2_pos m) - 1)) by lia.
    rewrite !Z.pow_succ_r by lia. lia.
  - rewrite Pos2Z.inj_succ. replace (Z.succ _ - 1) with (Z.succ (Z.pos (digits2_pos m) - 1)) by lia.
    rewrite !Z.pow_succ_r by lia. lia.
Qed.

Lemma digits2_pos_le m k : 0 ≤ k → Z.pos m < 2 ^ k → Z.pos (digits2_pos m) ≤ k.
Proof.
  intros Hk Hm. pose proof (digits2_pos_bounds m) as [H _].
  destruct (Z.le_gt_cases (Z.pos (digits2_pos m)) k) as [|Hlt]; [done|].
  pose proof (Z.pow_le_mono_r 2 k (Z.pos (digits2_pos m) - 1)). lia.
Qed.

Lemma digits2_pos_ge m k : 0 ≤ k → 2 ^ k ≤ Z.pos m → k < Z.pos (digits2_pos m).
Proof.
  intros Hk Hm. pose proof (digits2_pos_bounds m) as [_ H].
  destruct (Z.le_gt_cases (Z.pos (digits2_pos m)) k) as [Hle|]; [|done].
  pose proof (Z.pow_le_mono_r 2 (Z.pos (digits2_pos m)) k). lia.
Qed.

(** ** Shifting out low bits *)

Definition shr_exact (r : shr_record) : bool := negb (shr_r r || shr_s r).

Lemma shr_1_spec r :
  0 ≤ shr_m r →
  shr_m (shr_1 r) = shr_m r / 2 ∧
  shr_exact (shr_1 r) = shr_exact r && (shr_m r `mod` 2 =? 0).
Proof.
  destruct r as [m b s]; cbn [shr_m]. intros Hm.
  assert (shr_exact (shr_1 (Build_shr_record m b s))
    = negb (b || s) && negb (Z.odd m)) as ->.
  { destruct m as [|[p|p|]|[p|p|]], b, s; try done; lia. }
  assert (shr_m (shr_1 (Build_shr_record m b s)) = Z.div2 m) as ->.
  { destruct m as [|[p|p|]|[p|p|]]; try done; lia. }
  rewrite Z.div2_div. split; [done|]. unfold shr_exact; cbn. f_equal.
  rewrite Zmod_odd. by destruct (Z.odd m).
Qed.

Lemma iter_pos_nat {A} (f : A → A) p x : iter_pos f p x = Nat.iter (Pos.to_nat p) f x.
Proof.
  transitivity (Pos.iter f x p); [|apply Pos2Nat.inj_iter]. revert x.
  induction p as [p IH|p IH|]; intros x; cbn [iter_pos Pos.iter]; rewrite ?IH; [|done..].
  by rewrite <-!Pos.iter_swap.
Qed.

Lemma shr_iter_spec n r :
  0 ≤ shr_m r →
  shr_m (Nat.iter n shr_1 r) = shr_m r / 2 ^ Z.of_nat n ∧
  shr_exact (Nat.iter n shr_1 r) = shr_exact r && (shr_m r `mod` 2 ^ Z.of_nat n =? 0).
Proof.
  intros Hr. induction n as [|n [IHm IHe]].
  - cbn. rewrite Z.div_1_r, Z.mod_1_r, andb_true_r. done.
  - rewrite Nat2Z.inj_succ, Z.pow_succ_r by lia. cbn [Nat.iter nat_rect].
    fold (Nat.iter n shr_1 r).
    assert (0 ≤ shr_m (Nat.iter n shr_1 r)) as H0.
    { rewrite IHm. apply Z.div_pos; lia. }
    destruct (shr_1_spec _ H0) as [-> ->]. rewrite IHm, IHe.
    rewrite (Z.mul_comm 2), Z.div_div by lia. split; [done|].
    rewrite Z.rem_mul_r by lia. rewrite <-andb_assoc. f_equal.
    pose proof (Z.mod_pos_bound (shr_m r) (2 ^ Z.of_nat n) ltac:(lia)) as Hb1.
    pose proof (Z.mod_pos_bound (shr_m r / 2 ^ Z.of_nat n) 2 ltac:(lia)) as Hb2.
    apply eq_true_iff_eq. rewrite andb_true_iff, !Z.eqb_eq. nia.
Qed.

(** Shifting an aligned mantissa down to its canonical exponent. *)
Lemma shr_fexp_spec m e l :
  0 ≤ m → e ≤ fexp64 (Zdigits2 m + e) →
  let r := shr_fexp 53 1024 m e l in
  let E := fexp64 (Zdigits2 m + e) in
  snd r = E ∧ shr_m (fst r) = m / 2 ^ (E - e) ∧
  shr_exact (fst r) = shr_exact (shr_record_of_loc m l) && (m `mod` 2 ^ (E - e) =? 0).
Proof.
  intros Hm He; cbv zeta. unfold shr_fexp, shr.
  set (E := fexp64 (Zdigits2 m + e)) in *. change (Z.sub E e) with (E - e).
  assert (shr_m (shr_record_of_loc m l) = m) as Hsm by (by destruct l as [|[]]).
  destruct (E - e) as [|p|p] eqn:Hd; [| |lia].
  - cbn [fst snd]. rewrite Hsm, Z.div_1_r, Z.mod_1_r, andb_true_r. split; [lia|done].
  - cbn [fst snd]. split; [lia|].
    rewrite iter_pos_nat.
    destruct (shr_iter_spec (Pos.to_nat p) (shr_record_of_loc m l)) as [-> ->];
      rewrite Hsm; [done|].
    rewrite positive_nat_Z. done.
Qed.

(** ** Rounding *)

Lemma Zdigits2_bounds m : 0 < m → 2 ^ (Zdigits2 m - 1) ≤ m < 2 ^ Zdigits2 m.
Proof. intros ?. destruct m; try lia. apply digits2_pos_bounds. Qed.

Lemma Zdigits2_pos m : 0 < m → 0 < Zdigits2 m.
Proof. destruct m; simpl; lia. Qed.

Lemma Zdigits2_le m k : 0 < m → 0 ≤ k → m < 2 ^ k → Zdigits2 m ≤ k.
Proof. intros ?. destruct m; try lia. apply digits2_pos_le. Qed.

Lemma Zdigits2_ge m k : 0 < m → 0 ≤ k → 2 ^ k ≤ m → k < Zdigits2 m.
Proof. intros ?. destruct m; try lia. apply digits2_pos_ge. Qed.

Lemma round_nearest_even_bounds m r :
  shr_m r = m →
  m ≤ round_nearest_even m (loc_of_shr_record r) ≤ m + 1 ∧
  (shr_exact r = true → round_nearest_even m (loc_of_shr_record r) = m).
Proof.
  intros _. destruct r as [? [] []]; cbn; try (split; [lia|done]).
  destruct (Z.even m); split; [lia|done|lia|done].
Qed.

(** What rounding to [m2 * 2^E] can produce. *)
Definition rounded (s : bool) (m2 E : Z) (R : f64) : Prop :=
  f64_valid R = true ∧
  ((m2 = 0 ∧ R = S754_zero s) ∨
   (∃ m3 e3, R = S754_finite s m3 e3 ∧
     Z.pos m3 * 2 ^ (e3 + 1074) = m2 * 2 ^ (E + 1074)) ∨
   (R = S754_infinity s ∧ 2 ^ 2098 ≤ m2 * 2 ^ (E + 1074))).

(** The mantissa kept by a shift to the canonical exponent has at most 53 bits,
    and exactly 53 unless the exponent is the least one. *)
Lemma fexp_kept m e :
  0 < m → e ≤ fexp64 (Zdigits2 m + e) →
  let E := fexp64 (Zdigits2 m + e) in
  -1074 ≤ E ∧ 0 ≤ m / 2 ^ (E - e) < 2 ^ 53 ∧ (-1074 < E → 2 ^ 52 ≤ m / 2 ^ (E - e)).
Proof.
  intros Hm He; cbv zeta. set (E := fexp64 _) in *.
  assert (E = Z.max (Zdigits2 m + e - 53) (-1074)) as HE by apply fexp64_eq.
  pose proof (Zdigits2_bounds m Hm) as [Hlo Hhi].
  pose proof (Zdigits2_pos m Hm) as Hd.
  assert (0 < 2 ^ (E - e)) as Hp by (apply Z.pow_pos_nonneg; lia).
  split; [lia|]. split.
  - split; [apply Z.div_pos; lia|]. apply Z.div_lt_upper_bound; [lia|].
    rewrite <-Z.pow_add_r by lia.
    eapply Z.lt_le_trans; [exact Hhi|]. apply Z.pow_le_mono_r; lia.
  - intros HE'. apply Z.div_le_lower_bound; [lia|].
    rewrite <-Z.pow_add_r by lia. etrans; [|exact Hlo]. apply Z.pow_le_mono_r; lia.
Qed.

Lemma canonical_finite s m2 E m3 e3 :
  0 < m2 ≤ 2 ^ 53 → -1074 ≤ E → (-1074 < E → 2 ^ 52 ≤ m2) →
  (m3, e3) = (if m2 =? 2 ^ 53 then (2 ^ 52, E + 1) else (m2, E)) →
  rounded s m2 E
    (match m3 with
     | Z0 => S754_zero s
     | Z.pos m => if e3 <=? 971 then S754_finite s m e3 else S754_infinity s
     | _ => S754_nan
     end).
Proof.
  intros Hm HE HE' Heq.
  assert (0 < m3 < 2 ^ 53 ∧ -1074 ≤ e3 ∧ (-1074 < e3 → 2 ^ 52 ≤ m3) ∧
    m3 * 2 ^ (e3 + 1074) = m2 * 2 ^ (E + 1074)) as (Hm3 & He3 & Hn & Hv).
  { destruct (Z.eqb_spec m2 (2 ^ 53)) as [->|]; injection Heq as -> ->.
    - replace (E + 1 + 1074) with (Z.succ (E + 1074)) by lia.
      rewrite Z.pow_succ_r by lia. lia.
    - lia. }
  destruct m3 as [|m3|]; [lia| |lia].
  pose proof (digits2_pos_le m3 53 ltac:(lia) ltac:(lia)) as Hd.
  destruct (Z.leb_spec e3 971) as [He|He]; split.
  - unfold f64_valid, valid_binary, bounded, canonical_mantissa.
    apply andb_true_iff. split; [|by apply Z.leb_le].
    apply Z.eqb_eq. rewrite fexp64_eq.
    destruct (Z.eq_dec e3 (-1074)) as [->|]; [lia|].
    pose proof (digits2_pos_ge m3 52 ltac:(lia) ltac:(lia)). lia.
  - right; left. by exists m3, e3.
  - done.
  - right; right. split; [done|]. rewrite <-Hv.
    change 2098 with (52 + (972 + 1074)). rewrite Z.pow_add_r by lia.
    apply Z.mul_le_mono_nonneg; [lia|lia|lia|]. apply Z.pow_le_mono_r; lia.
Qed.

Lemma round_aux_spec s m e l :
  0 < m → e ≤ fexp64 (Zdigits2 m + e) →
  let E := fexp64 (Zdigits2 m + e) in
  ∃ m2, m / 2 ^ (E - e) ≤ m2 ≤ m / 2 ^ (E - e) + 1 ∧
    (l = loc_Exact → m `mod` 2 ^ (E - e) = 0 → m2 = m / 2 ^ (E - e)) ∧
    rounded s m2 E (binary_round_aux 53 1024 s m e l).
Proof.
  intros Hm He; cbv zeta. set (E := fexp64 _) in *.
  destruct (fexp_kept m e Hm He) as (HE & Hk & Hk'). fold E in HE, Hk, Hk'.
  destruct (shr_fexp_spec m e l) as (Hs & Hsm & Hse); [lia|done|]. fold E in Hs, Hsm, Hse.
  unfold binary_round_aux. destruct (shr_fexp 53 1024 m e l) as [r e'].
  cbn [fst snd] in Hs, Hsm, Hse. subst e'.
  destruct (round_nearest_even_bounds (shr_m r) r eq_refl) as [Hb Hx].
  set (m2 := round_nearest_even (shr_m r) (loc_of_shr_record r)) in *.
  exists m2. rewrite Hsm in Hb, Hx. split_and!; [lia|lia| |].
  { intros -> H0. apply Hx. rewrite Hse, H0. done. }
  assert (0 ≤ m2) as [H2|H2]%Z.le_lteq by lia; last first.
  { rewrite <-H2. unfold shr_fexp, shr. change (Zdigits2 0) with 0.
    change (fexp64 (0 + E)) with (fexp64 E). rewrite fexp64_eq.
    replace (Z.max (E - 53) (-1074) - E) with (Z.max (-53) (-1074 - E)) by lia.
    destruct (Z.max (-53) (-1074 - E)) eqn:?; [|lia|]; (split; [done|by left]). }
  pose proof (Zdigits2_pos m2 H2) as Hd0.
  assert (fexp64 (Zdigits2 m2 + E) = if m2 =? 2 ^ 53 then E + 1 else E) as HE2.
  { rewrite fexp64_eq. destruct (Z.eqb_spec m2 (2 ^ 53)) as [->|Hne].
    - change (Zdigits2 (2 ^ 53)) with 54. lia.
    - pose proof (Zdigits2_le m2 53 H2 ltac:(lia) ltac:(lia)).
      destruct (Z.eq_dec E (-1074)); [lia|].
      pose proof (Zdigits2_ge m2 52 H2 ltac:(lia) ltac:(lia)). lia. }
  destruct (shr_fexp_spec m2 E loc_Exact) as (Hs2 & Hsm2 & _);
    [lia|rewrite HE2; destruct (m2 =? 2 ^ 53); lia|].
  destruct (shr_fexp 53 1024 m2 E loc_Exact) as [r2 e2]. cbn [fst snd] in Hs2, Hsm2.
  apply (canonical_finite s m2 E); [lia|done|lia|].
  rewrite Hsm2, Hs2, HE2. destruct (Z.eqb_spec m2 (2 ^ 53)) as [->|].
  - replace (E + 1 - E) with 1 by lia. done.
  - rewrite Z.sub_diag, Z.div_1_r. done.
Qed.

(** ** Bounds on the rounded value *)

Lemma valid_finite_inv s m e :
  f64_valid (S754_finite s m e) = true →
  e = fexp64 (Z.pos (digits2_pos m) + e) ∧ -1074 ≤ e ≤ 971 ∧ Z.pos m < 2 ^ 53.
Proof.
  unfold f64_valid; cbn -[Z.pow]. unfold bounded, canonical_mantissa. intros H.
  to_prop. rewrite fexp64_eq in *.
  pose proof (digits2_pos_bounds m) as [_ Hm].
  split_and!; [lia..|]. eapply Z.lt_le_trans; [exact Hm|]. apply Z.pow_le_mono_r; lia.
Qed.

Lemma scaled_nonneg x : f64_nonneg x → 0 ≤ scaled x.
Proof. destruct x as [[]|[]| |[] m e]; cbn -[Z.pow]; intros [_ ?]; try done; lia. Qed.

Lemma scaled_valid_le x : f64_valid x = true → scaled x ≤ 2 ^ 2098.
Proof.
  destruct x as [[]|[]| |s m e]; intros Hv; try (cbn -[Z.pow]; lia).
  apply valid_finite_inv in Hv as (_ & He & Hm). unfold scaled.
  assert (Z.pos m * 2 ^ (e + 1074) ≤ 2 ^ 53 * 2 ^ 2045).
  { apply Z.mul_le_mono_nonneg; [lia..|]. apply Z.pow_le_mono_r; lia. }
  destruct s; lia.
Qed.

Lemma pow_split a b : 0 ≤ b ≤ a → 2 ^ a = 2 ^ (a - b) * 2 ^ b.
Proof. intros. rewrite <-Z.pow_add_r by lia. f_equal. lia. Qed.

Section round_bounds.
Context (m e b : Z) (y : f64).
Hypothesis Hm : 0 < m.
Hypothesis He : e ≤ fexp64 (Zdigits2 m + e).
Hypothesis Hb : b ≤ e ∧ b ≤ -1074.
Hypothesis Hy : f64_nonneg y.
Let E := fexp64 (Zdigits2 m + e).
Let R := binary_round_aux 53 1024 false m e loc_Exact.

Lemma round_E : E = Z.max (Zdigits2 m + e - 53) (-1074).
Proof using. apply fexp64_eq. Qed.

Lemma round_upper_m2 m2 :
  (m2 ≤ m / 2 ^ (E - e) + 1) →
  (m `mod` 2 ^ (E - e) = 0 → m2 = m / 2 ^ (E - e)) →
  m * 2 ^ (e - b) ≤ scaled y * 2 ^ (-1074 - b) →
  scaled y < 2 ^ 2098 →
  m2 * 2 ^ (E + 1074) ≤ scaled y.
Proof using All.
  intros H1 Hx Hle Hfin. pose proof round_E as HE.
  pose proof (Zdigits2_bounds m Hm) as [Hlo Hhi].
  assert (0 < m * 2 ^ (e - b)) as Hpos by (apply Z.mul_pos_pos; [lia|apply Z.pow_pos_nonneg; lia]).
  destruct y as [[]|[]| |sy my ey]; cbn -[Z.pow] in Hle, Hfin |- *;
    destruct Hy as [Hv Hs]; try lia; try done. subst sy.
  apply valid_finite_inv in Hv as (Hcan & Hey & _). rewrite fexp64_eq in Hcan.
  assert (Zdigits2 m + e ≤ Z.pos (digits2_pos my) + ey) as Hdig.
  { destruct (Z.le_gt_cases (Zdigits2 m + e) (Z.pos (digits2_pos my) + ey)) as [|Hgt]; [done|].
    pose proof (digits2_pos_bounds my) as [_ Hmy]. exfalso.
    assert (2 ^ (Zdigits2 m - 1) * 2 ^ (e - b) ≤ m * 2 ^ (e - b)).
    { apply Z.mul_le_mono_nonneg_r; [apply Z.pow_nonneg; lia|lia]. }
    assert (Z.pos my * 2 ^ (ey - b) < 2 ^ Z.pos (digits2_pos my) * 2 ^ (ey - b)).
    { apply Z.mul_lt_mono_pos_r; [apply Z.pow_pos_nonneg; lia|lia]. }
    assert (1 * (Z.pos my * 2 ^ (ey + 1074)) * 2 ^ (-1074 - b) = Z.pos my * 2 ^ (ey - b)) as Hr.
    { rewrite Z.mul_1_l, <-Z.mul_assoc, <-Z.pow_add_r by lia. do 2 f_equal. lia. }
    pose proof (Zdigits2_pos m Hm).
    rewrite <-!Z.pow_add_r in * by lia.
    pose proof (Z.pow_le_mono_r 2 (Z.pos (digits2_pos my) + (ey - b)) (Zdigits2 m - 1 + (e - b))).
    lia. }
  assert (E ≤ ey) as HEy by lia.
  set (N := Z.pos my * 2 ^ (ey - E)).
  assert (1 * (Z.pos my * 2 ^ (ey + 1074)) = N * 2 ^ (E + 1074)) as ->.
  { unfold N. rewrite Z.mul_1_l, <-Z.mul_assoc, <-Z.pow_add_r by lia. do 2 f_equal. lia. }
  apply Z.mul_le_mono_nonneg_r; [apply Z.pow_nonneg; lia|].
  assert (m ≤ N * 2 ^ (E - e)) as HmN.
  { apply (Z.mul_le_mono_pos_r _ _ (2 ^ (e - b))); [apply Z.pow_pos_nonneg; lia|].
    unfold N. etrans; [exact Hle|]. apply Z.eq_le_incl.
    rewrite Z.mul_1_l, <-!Z.mul_assoc, <-!Z.pow_add_r by (unfold E in *; lia). do 2 f_equal. lia. }
  assert (0 < 2 ^ (E - e)) as Hp by (apply Z.pow_pos_nonneg; unfold E in *; lia).
  pose proof (Z.div_mod m (2 ^ (E - e)) ltac:(lia)) as Hdm.
  pose proof (Z.mod_pos_bound m (2 ^ (E - e)) Hp) as Hmb.
  destruct (Z.eq_dec (m `mod` 2 ^ (E - e)) 0) as [H0|H0].
  - rewrite (Hx H0). rewrite H0 in Hdm. nia.
  - assert (m / 2 ^ (E - e) < N) by nia. lia.
Qed.

Lemma round_lower_m2 m2 :
  m / 2 ^ (E - e) ≤ m2 →
  scaled y * 2 ^ (-1074 - b) ≤ m * 2 ^ (e - b) →
  scaled y < 2 ^ 2098 →
  scaled y ≤ m2 * 2 ^ (E + 1074).
Proof using All.
  intros H1 Hle Hfin. pose proof round_E as HE.
  destruct (fexp_kept m e Hm He) as (HE1 & Hk & Hk'). fold E in HE1, Hk, Hk'.
  destruct y as [[]|[]| |sy my ey]; cbn -[Z.pow] in Hle, Hfin |- *;
    destruct Hy as [Hv Hs]; try lia; try done; try (apply Z.mul_nonneg_nonneg; lia).
  subst sy. apply valid_finite_inv in Hv as (_ & Hey & Hmy).
  rewrite Z.mul_1_l in *.
  destruct (Z.le_gt_cases E ey) as [Hge|Hlt].
  - set (N := Z.pos my * 2 ^ (ey - E)).
    assert (Z.pos my * 2 ^ (ey + 1074) = N * 2 ^ (E + 1074)) as ->.
    { unfold N. rewrite <-Z.mul_assoc, <-Z.pow_add_r by lia. do 2 f_equal. lia. }
    apply Z.mul_le_mono_nonneg_r; [apply Z.pow_nonneg; lia|].
    etrans; [|exact H1]. apply Z.div_le_lower_bound; [apply Z.pow_pos_nonneg; unfold E in *; lia|].
    apply (Z.mul_le_mono_pos_r _ _ (2 ^ (e - b))); [apply Z.pow_pos_nonneg; lia|].
    etrans; [|exact Hle]. apply Z.eq_le_incl. unfold N.
    rewrite (Z.mul_comm (2 ^ (E - e))).
    rewrite <-!Z.mul_assoc, <-!Z.pow_add_r by (unfold E in *; lia). do 2 f_equal. lia.
  - assert (2 ^ 52 ≤ m2) by lia.
    trans (2 ^ 53 * 2 ^ (ey + 1074)).
    { apply Z.mul_le_mono_nonneg_r; [apply Z.pow_nonneg; lia|lia]. }
    trans (2 ^ 52 * 2 ^ (E + 1074)); [|apply Z.mul_le_mono_nonneg_r; [apply Z.pow_nonneg; lia|lia]].
    rewrite <-!Z.pow_add_r by lia. apply Z.pow_le_mono_r; lia.
Qed.

Lemma rounded_scaled s m2 X :
  rounded s m2 E X →
  (s = false → f64_nonneg X) ∧ (s = false → scaled X = Z.min (2 ^ 2098) (m2 * 2 ^ (E + 1074))).
Proof using.
  intros [Hv [[-> ->]|[(m3 & e3 & -> & Heq)|[-> Hle]]]].
  - split; intros ->; [done|]. cbn -[Z.pow]. lia.
  - split; intros ->; [done|]. pose proof (scaled_valid_le _ Hv).
    cbn -[Z.pow Z.mul] in *. lia.
  - split; intros ->; [done|]. cbn -[Z.pow]. lia.
Qed.

Lemma round_upper :
  m * 2 ^ (e - b) ≤ scaled y * 2 ^ (-1074 - b) → scaled R ≤ scaled y.
Proof using All.
  intros Hle. destruct (round_aux_spec false m e loc_Exact Hm He) as (m2 & H1 & Hx & Hr).
  apply rounded_scaled in Hr as [_ Hr]. specialize (Hr eq_refl).
  unfold R. rewrite Hr.
  destruct (Z.lt_ge_cases (scaled y) (2 ^ 2098)) as [Hlt|Hge]; [|lia].
  etrans; [apply Z.le_min_r|]. apply round_upper_m2; auto. exact (proj2 H1).
Qed.

Lemma round_lower :
  scaled y * 2 ^ (-1074 - b) ≤ m * 2 ^ (e - b) → scaled y ≤ scaled R ∨ 2 ^ 2098 ≤ scaled y.
Proof using All.
  intros Hle. destruct (round_aux_spec false m e loc_Exact Hm He) as (m2 & H1 & Hx & Hr).
  apply rounded_scaled in Hr as [_ Hr]. specialize (Hr eq_refl).
  unfold R. rewrite Hr.
  destruct (Z.lt_ge_cases (scaled y) (2 ^ 2098)) as [Hlt|Hge]; [left|by right].
  apply Z.min_glb; [lia|]. apply round_lower_m2; auto. exact (proj1 H1).
Qed.
End round_bounds.

(** ** Aligning before rounding *)

Lemma iter_xO d m : Z.pos (Pos.iter xO m d) = Z.pos m * 2 ^ Z.pos d.
Proof.
  induction d as [|d IH] using Pos.peano_ind.
  - cbn. lia.
  - rewrite Pos.iter_succ, Pos2Z.inj_succ, Z.pow_succ_r by lia.
    change (Z.pos (Pos.iter xO m d)~0) with (2 * Z.pos (Pos.iter xO m d)). rewrite IH. lia.
Qed.

Lemma digits2_iter_xO d m :
  Z.pos (digits2_pos (Pos.iter xO m d)) = Z.pos (digits2_pos m) + Z.pos d.
Proof.
  induction d as [|d IH] using Pos.peano_ind; [cbn; lia|].
  rewrite Pos.iter_succ. cbn [digits2_pos]. lia.
Qed.

Lemma shl_align_spec m e e' :
  let '(mz, ez) := shl_align m e e' in
  ez = Z.min e e' ∧ Z.pos mz = Z.pos m * 2 ^ (e - ez) ∧
  Z.pos (digits2_pos mz) + ez = Z.pos (digits2_pos m) + e.
Proof.
  unfold shl_align. change (Z.sub e' e) with (e' - e).
  destruct (e' - e) as [|p|p] eqn:Hd.
  - split_and!; [lia| |lia]. rewrite Z.sub_diag. lia.
  - split_and!; [lia| |lia]. rewrite Z.sub_diag. lia.
  - split_and!; [lia| |rewrite digits2_iter_xO; lia].
    rewrite iter_xO. do 2 f_equal. lia.
Qed.

(** A positive [m * 2^e] is rounded after alignment. *)
Lemma normalize_aligned m e b s :
  0 < m → b ≤ e → b ≤ -1074 →
  ∃ mz ez, 0 < mz ∧ ez ≤ fexp64 (Zdigits2 mz + ez) ∧ b ≤ ez ∧
    (Zdigits2 mz + ez = Zdigits2 m + e ∧ ez = Z.min e (fexp64 (Zdigits2 m + e))) ∧
    mz * 2 ^ (ez - b) = m * 2 ^ (e - b) ∧
    binary_normalize 53 1024 m e s = binary_round_aux 53 1024 false mz ez loc_Exact ∧
    binary_normalize 53 1024 (- m) e s = binary_round_aux 53 1024 true mz ez loc_Exact.
Proof.
  intros Hm Hb Hb'. destruct m as [|m|]; [lia| |lia]. change (- Z.pos m) with (Z.neg m). cbn [binary_normalize].
  unfold binary_round.
  pose proof (shl_align_spec m e (fexp64 (Z.pos (digits2_pos m) + e))) as Hs.
  change (Z.add (Z.pos (digits2_pos m)) e) with (Z.pos (digits2_pos m) + e).
  rewrite fexp64_eq in *.
  destruct (shl_align m e _) as [mz ez]. destruct Hs as (-> & Hv & Hd).
  exists (Z.pos mz), (Z.min e (Z.max (Z.pos (digits2_pos m) + e - 53) (-1074))).
  cbn [Zdigits2]. rewrite !fexp64_eq. split_and!; try reflexivity; try lia.
  - rewrite Hv, <-Z.mul_assoc, <-Z.pow_add_r by lia. do 2 f_equal. lia.
Qed.

Lemma round_aux_nonneg m e l :
  0 < m → e ≤ fexp64 (Zdigits2 m + e) → f64_nonneg (binary_round_aux 53 1024 false m e l).
Proof.
  intros Hm He. destruct (round_aux_spec false m e l Hm He) as (? & _ & _ & Hr).
  apply rounded_scaled in Hr as [Hr _]. by apply Hr.
Qed.

Lemma normalize_nonneg m e : 0 ≤ m → f64_nonneg (binary_normalize 53 1024 m e false).
Proof.
  intros [Hm|<-]%Z.le_lteq; [|done].
  destruct (normalize_aligned m e (Z.min e (-1074)) false Hm) as (mz & ez & ? & ? & _ & _ & _ & -> & _);
    [lia..|]. by apply round_aux_nonneg.
Qed.

Lemma normalize_upper m e b y :
  0 ≤ m → b ≤ e → b ≤ -1074 → f64_nonneg y →
  m * 2 ^ (e - b) ≤ scaled y * 2 ^ (-1074 - b) →
  scaled (binary_normalize 53 1024 m e false) ≤ scaled y.
Proof.
  intros [Hm|<-]%Z.le_lteq Hb Hb' Hy Hle; [|by apply scaled_nonneg].
  destruct (normalize_aligned m e b false Hm Hb Hb') as (mz & ez & Hmz & Hez & Hbz & _ & Heq & -> & _).
  apply (round_upper mz ez b y); auto. by rewrite Heq.
Qed.

Lemma normalize_lower m e b y :
  0 ≤ m → b ≤ e → b ≤ -1074 → f64_nonneg y → scaled y < 2 ^ 2098 →
  scaled y * 2 ^ (-1074 - b) ≤ m * 2 ^ (e - b) →
  scaled y ≤ scaled (binary_normalize 53 1024 m e false).
Proof.
  intros [Hm|<-]%Z.le_lteq Hb Hb' Hy Hfin Hle.
  - destruct (normalize_aligned m e b false Hm Hb Hb') as (mz & ez & Hmz & Hez & Hbz & _ & Heq & -> & _).
    destruct (round_lower mz ez b y) as [|]; auto; [by rewrite Heq|lia].
  - rewrite Z.mul_0_l in Hle. cbn -[Z.pow].
    assert (0 < 2 ^ (-1074 - b)) by (apply Z.pow_pos_nonneg; lia). nia.
Qed.

Lemma normalize_exact m e :
  0 ≤ m < 2 ^ 53 → -1074 ≤ e ≤ 971 →
  scaled (binary_normalize 53 1024 m e false) = m * 2 ^ (e + 1074).
Proof.
  intros [[Hm|<-]%Z.le_lteq Hm'] He; [|done].
  destruct (normalize_aligned m e (-1074) false Hm)
    as (mz & ez & Hmz & Hez & Hb & [Hd Hz] & Hv & -> & _); [lia..|].
  assert (ez = fexp64 (Zdigits2 mz + ez)) as HE.
  { rewrite Hd. rewrite Hz at 1. rewrite fexp64_eq.
    pose proof (Zdigits2_le m 53 Hm ltac:(lia) Hm'). lia. }
  destruct (round_aux_spec false mz ez loc_Exact Hmz Hez) as (m2 & _ & Hx & Hr).
  apply rounded_scaled in Hr as [_ ->]; [|done].
  rewrite <-HE, Z.sub_diag in *. rewrite Hx, Z.div_1_r by (done || apply Z.mod_1_r).
  replace (ez + 1074) with (ez - -1074) by lia. rewrite Hv.
  replace (e - -1074) with (e + 1074) by lia.
  apply Z.min_r. apply (Z.le_trans _ (2 ^ 53 * 2 ^ 2045)); [|lia].
  apply Z.mul_le_mono_nonneg; [lia..|]. apply Z.pow_le_mono_r; lia.
Qed.

(** ** Conversions from and to integers *)

Lemma of_u64_nonneg n : 0 ≤ n → f64_nonneg (f64_of_u64 n).
Proof. apply normalize_nonneg. Qed.

Lemma of_u64_exact n : 0 ≤ n < 2 ^ 53 → scaled (f64_of_u64 n) = n * 2 ^ 1074.
Proof. intros. unfold f64_of_u64. rewrite normalize_exact by lia. done. Qed.

Lemma of_u64_upper n y :
  0 ≤ n → f64_nonneg y → n * 2 ^ 1074 ≤ scaled y → scaled (f64_of_u64 n) ≤ scaled y.
Proof.
  intros Hn Hy Hle. apply (normalize_upper n 0 (-1074)); [lia..|done|].
  rewrite Z.sub_diag. cbn -[Z.pow Z.mul]. lia.
Qed.

Lemma of_u64_lower n y :
  0 ≤ n → f64_nonneg y → scaled y < 2 ^ 2098 → scaled y ≤ n * 2 ^ 1074 →
  scaled y ≤ scaled (f64_of_u64 n).
Proof.
  intros Hn Hy Hf Hle. apply (normalize_lower n 0 (-1074)); [lia..|done|done|].
  rewrite Z.sub_diag. cbn -[Z.pow Z.mul]. lia.
Qed.

Lemma to_u64_scaled x : f64_nonneg x → f64_to_u64 x = Z.min u64_max (scaled x / 2 ^ 1074).
Proof.
  intros [Hv Hs]. destruct x as [s|s| |s m e]; try done; subst s.
  { unfold scaled. rewrite Z.mul_1_l, (pow_split 2098 1074), Z.div_mul by lia.
    symmetry. change (f64_to_u64 _) with u64_max. apply Z.min_l. unfold u64_max.
    pose proof (Z.pow_le_mono_r 2 64 (2098 - 1074) ltac:(lia) ltac:(lia)). lia. }
  apply valid_finite_inv in Hv as (_ & He & _).
  unfold f64_to_u64, scaled. f_equal. rewrite Z.mul_1_l.
  destruct (Z.le_gt_cases 0 e) as [Hp|Hn].
  - rewrite Z.shiftl_mul_pow2 by lia.
    rewrite Z.pow_add_r, Z.mul_assoc, Z.div_mul by lia. done.
  - rewrite Z.shiftl_div_pow2 by lia.
    rewrite (pow_split 1074 (e + 1074)) by lia.
    replace (1074 - (e + 1074)) with (- e) by lia.
    rewrite Z.div_mul_cancel_r; [done| |]; apply Z.pow_nonzero; lia.
Qed.

Lemma to_u64_range x : is_u64 (f64_to_u64 x).
Proof.
  unfold is_u64, f64_to_u64, u64_max.
  destruct x as [|[]| |[] m e]; try lia.
  assert (0 ≤ Z.shiftl (Z.pos m) e) by (apply Z.shiftl_nonneg; lia). lia.
Qed.

Lemma to_u64_mono x y :
  f64_nonneg x → f64_nonneg y → scaled x ≤ scaled y → f64_to_u64 x ≤ f64_to_u64 y.
Proof.
  intros Hx Hy Hle. rewrite !to_u64_scaled by done.
  pose proof (Z.div_le_mono (scaled x) (scaled y) (2 ^ 1074)). lia.
Qed.

Lemma to_u64_of_u64 n : 0 ≤ n < 2 ^ 53 → f64_to_u64 (f64_of_u64 n) = n.
Proof.
  intros Hn. rewrite to_u64_scaled, of_u64_exact by (lia || by apply of_u64_nonneg; lia).
  rewrite Z.div_mul by lia. unfold u64_max. lia.
Qed.

(** ** Comparisons *)

Lemma nonneg_finite_lt x : f64_nonneg x → f64_finite x → scaled x < 2 ^ 2098.
Proof.
  intros [Hv Hs] Hf. destruct x as [s|s| |s m e]; cbn in Hs, Hf; try done; subst s.
  apply valid_finite_inv in Hv as (_ & He & Hm). unfold scaled. rewrite Z.mul_1_l.
  apply (Z.lt_le_trans _ (2 ^ 53 * 2 ^ (e + 1074))).
  { apply Z.mul_lt_mono_pos_r; [apply Z.pow_pos_nonneg; lia|done]. }
  rewrite <-Z.pow_add_r by lia. apply Z.pow_le_mono_r; lia.
Qed.

Lemma finite_pos m e :
  f64_valid (S754_finite false m e) = true → 0 < scaled (S754_finite false m e).
Proof.
  intros (_ & ? & _)%valid_finite_inv. unfold scaled. rewrite Z.mul_1_l.
  apply Z.mul_pos_pos; [lia|apply Z.pow_pos_nonneg; lia].
Qed.

Lemma nonneg_compare x y :
  f64_nonneg x → f64_nonneg y → SFcompare x y = Some (scaled x ?= scaled y).
Proof.
  intros Hx Hy.
  destruct x as [sx|sx| |sx mx ex]; destruct y as [sy|sy| |sy my ey];
    destruct (Hx) as [Hvx Hsx]; destruct (Hy) as [Hvy Hsy];
    cbn in Hsx, Hsy; try done; subst; try done.
  - unfold SFcompare. f_equal. symmetry. apply Z.compare_lt_iff, (finite_pos my ey Hvy).
  - unfold SFcompare. f_equal. symmetry. apply Z.compare_gt_iff.
    exact (nonneg_finite_lt _ Hy I).
  - unfold SFcompare. f_equal. symmetry. apply Z.compare_gt_iff, (finite_pos mx ex Hvx).
  - unfold SFcompare. f_equal. symmetry. apply Z.compare_lt_iff.
    exact (nonneg_finite_lt _ Hx I).
  - unfold SFcompare, scaled. f_equal. rewrite !Z.mul_1_l.
    apply valid_finite_inv in Hvx as (Hcx & Hex & Hmx).
    apply valid_finite_inv in Hvy as (Hcy & Hey & Hmy).
    rewrite fexp64_eq in Hcx, Hcy.
    pose proof (digits2_pos_bounds mx) as [Hx1 Hx2].
    pose proof (digits2_pos_bounds my) as [Hy1 Hy2].
    assert (∀ m e m' e', -1074 ≤ e < e' → 2 ^ 52 ≤ Z.pos m' → Z.pos m < 2 ^ 53 →
      Z.pos m * 2 ^ (e + 1074) < Z.pos m' * 2 ^ (e' + 1074)) as Hlt.
    { clear. intros m e m' e' He Hm' Hm.
      apply (Z.lt_le_trans _ (2 ^ 53 * 2 ^ (e + 1074))).
      { apply Z.mul_lt_mono_pos_r; [apply Z.pow_pos_nonneg; lia|done]. }
      apply (Z.le_trans _ (2 ^ 52 * 2 ^ (e' + 1074))).
      { rewrite <-!Z.pow_add_r by lia. apply Z.pow_le_mono_r; lia. }
      apply Z.mul_le_mono_nonneg_r; [apply Z.pow_nonneg; lia|done]. }
    change (Z.compare ex ey) with (ex ?= ey). destruct (Z.compare_spec ex ey) as [->|He|He].
    + by rewrite <-Zmult_compare_compat_r by (apply Z.lt_gt, Z.pow_pos_nonneg; lia).
    + symmetry. apply Z.compare_lt_iff, Hlt; [lia| |done].
      replace (Z.pos (digits2_pos my)) with 53 in Hy1 by lia. lia.
    + symmetry. apply Z.compare_gt_iff, Hlt; [lia| |done].
      replace (Z.pos (digits2_pos mx)) with 53 in Hx1 by lia. lia.
Qed.

Lemma ltb_scaled x y :
  f64_nonneg x → f64_nonneg y → f64_ltb x y = (scaled x <? scaled y).
Proof.
  intros Hx Hy. unfold f64_ltb, SFltb. rewrite nonneg_compare by done.
  unfold Z.ltb. by destruct (scaled x ?= scaled y).
Qed.

Lemma leb_scaled x y :
  f64_nonneg x → f64_nonneg y → f64_leb x y = (scaled x <=? scaled y).
Proof.
  intros Hx Hy. unfold f64_leb, SFleb. rewrite nonneg_compare by done.
  unfold Z.leb. by destruct (scaled x ?= scaled y).
Qed.

Lemma nonneg_not_nan x : f64_nonneg x → f64_is_nan x = false.
Proof. by destruct x; intros [? ?]. Qed.

Lemma min_nonneg x y :
  f64_nonneg x → f64_nonneg y →
  f64_nonneg (f64_min x y) ∧ scaled (f64_min x y) = Z.min (scaled x) (scaled y).
Proof.
  intros Hx Hy. unfold f64_min. rewrite ltb_scaled, !nonneg_not_nan by done.
  destruct (Z.ltb_spec (scaled y) (scaled x)); (split; [done|lia]).
Qed.

(** ** Addition and subtraction *)

Lemma align_scaled m e ez :
  ez ≤ e → -1074 ≤ ez →
  Z.pos (fst (shl_align m e ez)) * 2 ^ (ez + 1074) = scaled (S754_finite false m e).
Proof.
  intros He Hz. pose proof (shl_align_spec m e ez) as H.
  destruct (shl_align m e ez) as [mz ez']. destruct H as (-> & Hv & _). cbn [fst].
  rewrite Z.min_r in Hv by lia. rewrite Hv. unfold scaled.
  rewrite Z.mul_1_l, <-Z.mul_assoc, <-Z.pow_add_r by lia. do 2 f_equal. lia.
Qed.

Lemma add_cases x y :
  f64_nonneg x → f64_nonneg y →
  (f64_add x y = x ∧ scaled y = 0) ∨ (f64_add x y = y ∧ scaled x = 0) ∨
  (f64_add x y = f64_infinity ∧ (x = f64_infinity ∨ y = f64_infinity)) ∨
  ∃ m e, 0 ≤ m ∧ -1074 ≤ e ∧ f64_add x y = binary_normalize 53 1024 m e false ∧
    m * 2 ^ (e + 1074) = scaled x + scaled y ∧ Z.max (scaled x) (scaled y) < 2 ^ 2098.
Proof.
  intros Hx Hy.
  destruct x as [sx|sx| |sx mx ex]; destruct y as [sy|sy| |sy my ey];
    destruct (Hx) as [Hvx Hsx]; destruct (Hy) as [Hvy Hsy];
    cbn in Hsx, Hsy; try done; subst; auto 7.
  right; right; right. unfold f64_add, SFadd, cond_Zopp.
  apply valid_finite_inv in Hvx as (_ & Hex & _).
  apply valid_finite_inv in Hvy as (_ & Hey & _).
  eexists _, (Z.min ex ey). split_and!; [|lia|done| |].
  - lia.
  - by rewrite Z.mul_add_distr_r, !align_scaled by lia.
  - apply Z.max_lub_lt; by apply nonneg_finite_lt.
Qed.

Lemma add_nonneg x y : f64_nonneg x → f64_nonneg y → f64_nonneg (f64_add x y).
Proof.
  intros Hx Hy.
  destruct (add_cases x y Hx Hy) as [[-> _]|[[-> _]|[[-> _]|(m & e & Hm & _ & -> & _ & _)]]];
    [done..|by apply normalize_nonneg].
Qed.

(** Adding a non-negative number never lowers the value. *)
Lemma add_lower x y : f64_nonneg x → f64_nonneg y → scaled x ≤ scaled (f64_add x y).
Proof.
  intros Hx Hy. pose proof (scaled_nonneg _ Hx). pose proof (scaled_nonneg _ Hy).
  destruct (add_cases x y Hx Hy) as [[-> _]|[[-> ->]|[[-> _]|(m & e & Hm & He & -> & Hv & Hf)]]];
    [done|done| |].
  - apply (scaled_valid_le x), Hx.
  - apply (normalize_lower m e (-1074)); [done..|lia|].
    rewrite Z.sub_diag, Z.mul_1_r. replace (e - -1074) with (e + 1074) by lia. lia.
Qed.

Lemma add_lower_r x y : f64_nonneg x → f64_nonneg y → scaled y ≤ scaled (f64_add x y).
Proof.
  intros Hx Hy. pose proof (scaled_nonneg _ Hx). pose proof (scaled_nonneg _ Hy).
  destruct (add_cases x y Hx Hy) as [[-> ->]|[[-> _]|[[-> _]|(m & e & Hm & He & -> & Hv & Hf)]]];
    [done|done| |].
  - apply (scaled_valid_le y), Hy.
  - apply (normalize_lower m e (-1074)); [done..|lia|].
    rewrite Z.sub_diag, Z.mul_1_r. replace (e - -1074) with (e + 1074) by lia. lia.
Qed.

(** The sum is at most any representable number above the exact sum. *)
Lemma add_upper x y z :
  f64_nonneg x → f64_nonneg y → f64_nonneg z →
  scaled x + scaled y ≤ scaled z → scaled (f64_add x y) ≤ scaled z.
Proof.
  intros Hx Hy Hz Hle. pose proof (scaled_nonneg _ Hx). pose proof (scaled_nonneg _ Hy).
  destruct (add_cases x y Hx Hy)
    as [[-> ?]|[[-> ?]|[[-> [->| ->]]|(m & e & Hm & He & -> & Hv & Hf)]]]; [lia..| | |].
  - change (scaled f64_infinity) with (1 * 2 ^ 2098) in *. lia.
  - change (scaled f64_infinity) with (1 * 2 ^ 2098) in *. lia.
  - apply (normalize_upper m e (-1074)); [done..|].
    rewrite Z.sub_diag, Z.mul_1_r. replace (e - -1074) with (e + 1074) by lia. lia.
Qed.

(** Subtracting a smaller number stays between zero and the minuend. *)
Lemma sub_cases x y :
  f64_nonneg x → f64_finite x → f64_nonneg y → scaled y ≤ scaled x →
  (f64_sub x y = x ∧ scaled y = 0) ∨
  ∃ m e, 0 ≤ m ∧ -1074 ≤ e ∧ f64_sub x y = binary_normalize 53 1024 m e false ∧
    m * 2 ^ (e + 1074) = scaled x - scaled y.
Proof.
  intros Hx Hf Hy Hle.
  destruct x as [sx|sx| |sx mx ex]; destruct y as [sy|sy| |sy my ey];
    destruct (Hx) as [Hvx Hsx]; destruct (Hy) as [Hvy Hsy];
    cbn in Hsx, Hsy, Hf; try done; subst; auto.
  - pose proof (nonneg_finite_lt _ Hx I). cbn -[Z.pow] in *. lia.
  - pose proof (finite_pos _ _ Hvy). cbn -[Z.pow] in *. lia.
  - pose proof (nonneg_finite_lt _ Hx I). cbn -[Z.pow] in *. lia.
  - right. unfold f64_sub, SFsub, cond_Zopp.
    apply valid_finite_inv in Hvx as (_ & Hex & _).
    apply valid_finite_inv in Hvy as (_ & Hey & _).
    assert (∀ a b, (a - b) * 2 ^ (Z.min ex ey + 1074) =
      a * 2 ^ (Z.min ex ey + 1074) - b * 2 ^ (Z.min ex ey + 1074)) as Hd by (intros; ring).
    eexists _, (Z.min ex ey). split_and!; [|lia|done|].
    + rewrite <-(align_scaled mx ex (Z.min ex ey)), <-(align_scaled my ey (Z.min ex ey)) in Hle by lia.
      apply Z.mul_le_mono_pos_r in Hle; [lia|apply Z.pow_pos_nonneg; lia].
    + by rewrite Hd, !align_scaled by lia.
Qed.

Lemma sub_bounds x y :
  f64_nonneg x → f64_finite x → f64_nonneg y → scaled y ≤ scaled x →
  f64_nonneg (f64_sub x y) ∧ scaled (f64_sub x y) ≤ scaled x.
Proof.
  intros Hx Hf Hy Hle. pose proof (scaled_nonneg _ Hx). pose proof (scaled_nonneg _ Hy).
  destruct (sub_cases x y Hx Hf Hy Hle) as [[-> _]|(m & e & Hm & He & -> & Hv)]; [done|].
  split; [by apply normalize_nonneg|].
  apply (normalize_upper m e (-1074)); [done..|].
  rewrite Z.sub_diag, Z.mul_1_r. replace (e - -1074) with (e + 1074) by lia. lia.
Qed.

(** ** Multiplication and division *)

Lemma mul_aligned mx ex my ey :
  f64_valid (S754_finite false mx ex) = true → f64_valid (S754_finite false my ey) = true →
  ex + ey ≤ fexp64 (Zdigits2 (Z.pos (mx * my)) + (ex + ey)).
Proof.
  intros (Hcx & Hex & _)%valid_finite_inv (Hcy & Hey & _)%valid_finite_inv.
  rewrite fexp64_eq in *.
  assert (∀ a b, Z.pos (digits2_pos a) ≤ Zdigits2 (Z.pos (a * b))) as Hd.
  { intros a b. cbn [Zdigits2]. pose proof (digits2_pos_bounds a) as [Ha _].
    pose proof (digits2_pos_ge (a * b) (Z.pos (digits2_pos a) - 1)). nia. }
  pose proof (Hd mx my). pose proof (Hd my mx) as Hd'. rewrite Pos.mul_comm in Hd'. lia.
Qed.

Lemma mul_nonneg x y :
  f64_nonneg x → f64_nonneg y → f64_finite x → f64_finite y → f64_nonneg (f64_mul x y).
Proof.
  intros Hx Hy Hfx Hfy.
  destruct x as [sx|sx| |sx mx ex]; destruct y as [sy|sy| |sy my ey];
    destruct (Hx) as [Hvx Hsx]; destruct (Hy) as [Hvy Hsy];
    cbn in Hsx, Hsy, Hfx, Hfy; try done; subst; try done.
  apply round_aux_nonneg; [lia|by apply mul_aligned].
Qed.

Lemma mul_scaled mx ex my ey b :
  b = -2148 →
  f64_valid (S754_finite false mx ex) = true → f64_valid (S754_finite false my ey) = true →
  Z.pos (mx * my) * 2 ^ (ex + ey - b) =
    scaled (S754_finite false mx ex) * scaled (S754_finite false my ey).
Proof.
  intros -> (_ & Hex & _)%valid_finite_inv (_ & Hey & _)%valid_finite_inv.
  unfold scaled. rewrite !Z.mul_1_l, Pos2Z.inj_mul.
  replace (ex + ey - -2148) with ((ex + 1074) + (ey + 1074)) by lia.
  rewrite Z.pow_add_r by lia. ring.
Qed.

(** Multiplying by at least one never lowers the value. *)
Lemma mul_lower x y :
  f64_nonneg x → f64_nonneg y → f64_finite x → f64_finite y →
  2 ^ 1074 ≤ scaled y → scaled x ≤ scaled (f64_mul x y).
Proof.
  intros Hx Hy Hfx Hfy Hle.
  pose proof (nonneg_finite_lt _ Hx Hfx).
  destruct x as [sx|sx| |sx mx ex]; destruct y as [sy|sy| |sy my ey];
    destruct (Hx) as [Hvx Hsx]; destruct (Hy) as [Hvy Hsy];
    cbn in Hsx, Hsy, Hfx, Hfy; try done; subst; try done.
  pose proof (mul_aligned _ _ _ _ Hvx Hvy) as Hal.
  destruct (valid_finite_inv _ _ _ Hvx) as (_ & ? & _).
  destruct (valid_finite_inv _ _ _ Hvy) as (_ & ? & _).
  destruct (round_lower (Z.pos (mx * my)) (ex + ey) (-2148) (S754_finite false mx ex))
    as [Hr|Hr]; [done|done|lia|done| |exact Hr|lia].
  rewrite (mul_scaled mx ex my ey) by done.
  apply Z.mul_le_mono_nonneg_l; [by apply scaled_nonneg|exact Hle].
Qed.

(** Multiplying by at most one never raises it. *)
Lemma mul_upper x y :
  f64_nonneg x → f64_nonneg y → f64_finite x → f64_finite y →
  scaled y ≤ 2 ^ 1074 → scaled (f64_mul x y) ≤ scaled x.
Proof.
  intros Hx Hy Hfx Hfy Hle. pose proof (scaled_nonneg _ Hx).
  destruct x as [sx|sx| |sx mx ex]; destruct y as [sy|sy| |sy my ey];
    destruct (Hx) as [Hvx Hsx]; destruct (Hy) as [Hvy Hsy];
    cbn in Hsx, Hsy, Hfx, Hfy; try done; subst; try done.
  pose proof (mul_aligned _ _ _ _ Hvx Hvy) as Hal.
  destruct (valid_finite_inv _ _ _ Hvx) as (_ & ? & _).
  destruct (valid_finite_inv _ _ _ Hvy) as (_ & ? & _).
  apply (round_upper (Z.pos (mx * my)) (ex + ey) (-2148) (S754_finite false mx ex));
    [done|done|lia|done|].
  rewrite (mul_scaled mx ex my ey) by done.
  apply Z.mul_le_mono_nonneg_l; [done|exact Hle].
Qed.

(** A full 53-bit mantissa. *)
Definition f64_normal (m : positive) : Prop := Z.pos (digits2_pos m) = 53.

Lemma div_normal_core m1 e1 m2 e2 :
  f64_normal m1 → f64_normal m2 → -1000 ≤ e1 - e2 ≤ 900 →
  SFdiv_core_binary 53 1024 (Z.pos m1) e1 (Z.pos m2) e2 =
    (Z.pos m1 * 2 ^ 53 / Z.pos m2, e1 - e2 - 53,
     new_location (Z.pos m2) ((Z.pos m1 * 2 ^ 53) `mod` Z.pos m2)).
Proof.
  intros H1 H2 He. unfold SFdiv_core_binary. cbn [Zdigits2].
  rewrite H1, H2. change (Z.sub (Z.add 53 e1) (Z.add 53 e2)) with (53 + e1 - (53 + e2)).
  change (Z.sub e1 e2) with (e1 - e2). rewrite fexp64_eq.
  replace (Z.min _ _) with (e1 - e2 - 53) by lia.
  change (Z.sub (e1 - e2) (e1 - e2 - 53)) with (e1 - e2 - (e1 - e2 - 53)).
  replace (e1 - e2 - (e1 - e2 - 53)) with 53 by lia.
  rewrite Z.shiftl_mul_pow2 by lia. unfold Z.div, Z.modulo.
  change IntDef.Z.div_eucl with Z.div_eucl.
  by destruct (Z.div_eucl (Z.pos m1 * 2 ^ 53) (Z.pos m2)).
Qed.

Lemma div_normal m1 e1 m2 e2 :
  f64_normal m1 → f64_normal m2 → -1000 ≤ e1 - e2 ≤ 900 →
  let q := f64_div (S754_finite false m1 e1) (S754_finite false m2 e2) in
  f64_nonneg q ∧ scaled q ≤ 2 ^ (e1 - e2 + 1075) ∧
  (e1 ≤ e2 → Z.pos m1 ≤ Z.pos m2 → scaled q ≤ 2 ^ 1074).
Proof.
  intros H1 H2 He; cbv zeta.
  unfold f64_div, SFdiv. rewrite div_normal_core by done.
  set (q := Z.pos m1 * 2 ^ 53 / Z.pos m2). set (l := new_location _ _). cbn [xorb].
  pose proof (digits2_pos_bounds m1) as [Hl1 Hu1]. pose proof (digits2_pos_bounds m2) as [Hl2 Hu2].
  rewrite H1 in Hl1, Hu1. rewrite H2 in Hl2, Hu2.
  assert (2 ^ 52 ≤ q) as Hq1 by (apply Z.div_le_lower_bound; lia).
  assert (q < 2 ^ 54) as Hq2 by (apply Z.div_lt_upper_bound; lia).
  pose proof (Zdigits2_ge q 52 ltac:(lia) ltac:(lia) Hq1).
  pose proof (Zdigits2_le q 54 ltac:(lia) ltac:(lia) Hq2).
  assert (e1 - e2 - 53 ≤ fexp64 (Zdigits2 q + (e1 - e2 - 53))) as Hal by (rewrite fexp64_eq; lia).
  split; [apply round_aux_nonneg; [lia|done]|].
  destruct (round_aux_spec false q (e1 - e2 - 53) l ltac:(lia) Hal) as (m & Hm & Hx & Hr).
  destruct (fexp_kept q (e1 - e2 - 53) ltac:(lia) Hal) as (_ & Hk & _).
  apply rounded_scaled in Hr as [_ ->]; [|done].
  rewrite fexp64_eq in *.
  replace (Z.max (Zdigits2 q + (e1 - e2 - 53) - 53) (-1074))
    with (e1 - e2 - 53 + (Zdigits2 q - 53)) in * by lia.
  replace (e1 - e2 - 53 + (Zdigits2 q - 53) - (e1 - e2 - 53)) with (Zdigits2 q - 53) in * by lia.
  split.
  - etrans; [apply Z.le_min_r|].
    trans (2 ^ 53 * 2 ^ (e1 - e2 - 53 + (Zdigits2 q - 53) + 1074)).
    { apply Z.mul_le_mono_nonneg_r; [apply Z.pow_nonneg; lia|lia]. }
    rewrite <-Z.pow_add_r by lia. apply Z.pow_le_mono_r; lia.
  - intros Hle Hmm. etrans; [apply Z.le_min_r|].
    assert (q ≤ 2 ^ 53) as Hq3 by (apply Z.div_le_upper_bound; lia).
    trans (m * 2 ^ (Zdigits2 q - 53 + 1021)).
    { apply Z.mul_le_mono_nonneg_l; [lia|]. apply Z.pow_le_mono_r; lia. }
    destruct (Z.eq_dec q (2 ^ 53)) as [Heq|Hne].
    + assert (Z.pos m1 * 2 ^ 53 = Z.pos m2 * 2 ^ 53) as Hmeq.
      { pose proof (Z.mul_div_le (Z.pos m1 * 2 ^ 53) (Z.pos m2)). fold q in H3. nia. }
      assert (l = loc_Exact) as ->.
      { unfold l. rewrite Hmeq, Z.mul_comm, Z.mod_mul by lia.
        unfold new_location. by destruct (Z.even _). }
      rewrite Heq in *. change (Zdigits2 (2 ^ 53)) with 54 in *.
      rewrite Hx by done. vm_compute; done.
    + pose proof (Zdigits2_le q 53 ltac:(lia) ltac:(lia)).
      replace (Zdigits2 q) with 53 in * by lia.
      change (53 - 53) with 0 in *. rewrite Z.div_1_r in Hm.
      trans (2 ^ 53 * 2 ^ 1021); [|lia].
      apply Z.mul_le_mono_nonneg_r; [lia|lia].
Qed.

(** A non-zero integer below 2^53 is a normal number. *)
Lemma of_u64_normal n k :
  2 ^ k ≤ n < 2 ^ (k + 1) → 0 ≤ k < 53 →
  ∃ m, f64_of_u64 n = S754_finite false m (k - 52) ∧ f64_normal m ∧ Z.pos m = n * 2 ^ (52 - k).
Proof.
  intros Hn Hk. assert (2 ^ (k + 1) ≤ 2 ^ 53) by (apply Z.pow_le_mono_r; lia).
  assert (0 < 2 ^ k) by (apply Z.pow_pos_nonneg; lia).
  pose proof (of_u64_nonneg n ltac:(lia)) as Hnn.
  pose proof (of_u64_exact n ltac:(lia)) as Hv.
  destruct (f64_of_u64 n) as [s|s| |s m e]; destruct Hnn as [Hval Hs]; cbn in Hs; try done; subst s.
  - cbn -[Z.pow] in Hv. lia.
  - cbn -[Z.pow Z.mul] in Hv. exfalso.
    assert (n * 2 ^ 1074 < 2 ^ 1074 * 2 ^ 1024); [|rewrite <-Z.pow_add_r in * by lia].
    { rewrite (Z.mul_comm n). apply Z.mul_lt_mono_pos_l; [lia|].
      apply (Z.lt_le_trans _ (2 ^ 53)); [lia|]. apply Z.pow_le_mono_r; lia. }
    change (1074 + 1024) with 2098 in *. lia.
  - apply valid_finite_inv in Hval as (Hc & He & Hm). rewrite fexp64_eq in Hc.
    unfold scaled in Hv. rewrite Z.mul_1_l in Hv.
    pose proof (digits2_pos_bounds m) as [Hl Hu].
    set (d := Z.pos (digits2_pos m)) in *.
    assert (d + e = k + 1) as Hd.
    { assert (2 ^ (k + 1074) ≤ n * 2 ^ 1074) as A.
      { rewrite Z.pow_add_r by lia. apply Z.mul_le_mono_nonneg_r; lia. }
      assert (n * 2 ^ 1074 < 2 ^ (k + 1 + 1074)) as B.
      { rewrite Z.pow_add_r by lia. apply Z.mul_lt_mono_pos_r; lia. }
      rewrite <-Hv in A, B.
      assert (2 ^ (d - 1 + (e + 1074)) ≤ Z.pos m * 2 ^ (e + 1074)) as C.
      { rewrite Z.pow_add_r by (unfold d; lia). apply Z.mul_le_mono_nonneg_r; [apply Z.pow_nonneg; lia|done]. }
      assert (Z.pos m * 2 ^ (e + 1074) < 2 ^ (d + (e + 1074))) as D.
      { rewrite (Z.pow_add_r 2 d) by (unfold d; lia).
        apply Z.mul_lt_mono_pos_r; [apply Z.pow_pos_nonneg; lia|done]. }
      assert (d - 1 + (e + 1074) < k + 1 + 1074).
      { apply (Z.pow_lt_mono_r_iff 2); [lia|lia|lia]. }
      assert (k + 1074 < d + (e + 1074)).
      { apply (Z.pow_lt_mono_r_iff 2); [lia|unfold d; lia|lia]. }
      lia. }
    assert (d = 53) as Hd53 by lia. assert (e = k - 52) as -> by lia.
    exists m. split_and!; [done|done|].
    rewrite (pow_split 1074 (k - 52 + 1074)), Z.mul_assoc in Hv by lia.
    apply Z.mul_cancel_r in Hv; [|apply Z.pow_nonzero; lia].
    rewrite Hv. do 2 f_equal. lia.
Qed.

(** A finite number of at least [2^k] is one mantissa of 53 bits away. *)
Lemma nonneg_normal x k :
  f64_nonneg x → f64_finite x → -1021 < k → 2 ^ (k + 1074) ≤ scaled x →
  ∃ m e, x = S754_finite false m e ∧ f64_normal m ∧ k - 53 < e ≤ 971.
Proof.
  intros [Hv Hs] Hf Hk Hx. assert (0 < 2 ^ (k + 1074)) as Hp by (apply Z.pow_pos_nonneg; lia).
  destruct x as [s|s| |s m e]; cbn in Hs, Hf; try done; subst; cbn [scaled] in Hx; [lia|].
  apply valid_finite_inv in Hv as (Hc & He & Hm). rewrite fexp64_eq in Hc. exists m, e.
  assert (k - 53 < e).
  { assert (2 ^ (k + 1074) < 2 ^ (53 + (e + 1074))) as Hlt.
    { rewrite (Z.pow_add_r 2 53) by lia. eapply Z.le_lt_trans; [exact Hx|]. rewrite Z.mul_1_l.
      apply Z.mul_lt_mono_pos_r; [apply Z.pow_pos_nonneg; lia|done]. }
    apply Z.pow_lt_mono_r_iff in Hlt; lia. }
  unfold f64_normal. split_and!; [done|lia..].
Qed.

(** Dividing by a power of two is exact. *)
Lemma div_pow2 j x :
  0 ≤ j < 53 → f64_nonneg x → f64_finite x → 2 ^ 1074 ≤ scaled x ≤ 2 ^ (64 + 1074) →
  let q := f64_div x (f64_of_u64 (2 ^ j)) in
  f64_nonneg q ∧ f64_finite q ∧ scaled q * 2 ^ j = scaled x.
Proof.
  intros Hj Hx Hf [Hge Hle] q. destruct (nonneg_normal x 0 Hx Hf ltac:(lia) Hge) as (m & e & -> & Hm & He).
  pose proof (digits2_pos_bounds m) as [Hlo Hu]. rewrite Hm in Hlo, Hu.
  assert (e ≤ 12) as He2.
  { assert (2 ^ (52 + (e + 1074)) ≤ 2 ^ (64 + 1074)) as Hp; [|apply Z.pow_le_mono_r_iff in Hp; lia].
    etrans; [|exact Hle]. cbn [scaled]. rewrite (Z.pow_add_r 2 52), Z.mul_1_l by lia.
    apply Z.mul_le_mono_nonneg_r; [apply Z.pow_nonneg; lia|exact Hlo]. }
  destruct (of_u64_normal (2 ^ j) j) as (m2 & H2 & Hn2 & Hv2).
  { split; [lia|]. apply Z.pow_lt_mono_r; lia. } { lia. }
  rewrite <-Z.pow_add_r, Zplus_minus in Hv2 by lia.
  subst q. rewrite H2. unfold f64_div, SFdiv. rewrite div_normal_core by (done || lia). cbn [xorb].
  rewrite Hv2. replace (Z.pos m * 2 ^ 53) with (Z.pos m~0 * 2 ^ 52) by lia. rewrite Z.div_mul, Z.mod_mul by lia.
  change (new_location (2 ^ 52) 0) with loc_Exact.
  assert (Zdigits2 (Z.pos m~0) = 54) as Hd by (cbn [Zdigits2 digits2_pos]; unfold f64_normal in Hm; lia).
  assert (fexp64 (Zdigits2 (Z.pos m~0) + (e - (j - 52) - 53)) = e - j) as HE by (rewrite fexp64_eq, Hd; lia).
  destruct (round_aux_spec false (Z.pos m~0) (e - (j - 52) - 53) loc_Exact) as (m3 & _ & Hex & Hr); [done|rewrite HE; lia|].
  rewrite HE in Hex, Hr. replace (e - j - (e - (j - 52) - 53)) with 1 in Hex by lia.
  replace (Z.pos m~0) with (2 * Z.pos m) in Hex by lia. rewrite Hex in Hr by (done || (change (2 ^ 1) with 2; rewrite Z.mul_comm; by apply Z.mod_mul)).
  replace (2 * Z.pos m / 2 ^ 1) with (Z.pos m) in Hr by (change (2 ^ 1) with 2; rewrite Z.mul_comm; symmetry; by apply Z.div_mul).
  destruct Hr as [Hv Hr]. set (R := binary_round_aux _ _ _ _ _ _) in *. clearbody R.
  destruct Hr as [[H0 _]|[(m4 & e4 & -> & Heq)|[-> Hbig]]]; [lia| |].
  - split; [by split|]. split; [done|]. cbn [scaled]. rewrite !Z.mul_1_l, Heq.
    rewrite <-Z.mul_assoc, <-Z.pow_add_r by lia. do 2 f_equal. lia.
  - exfalso. assert (Z.pos m * 2 ^ (e - j + 1074) < 2 ^ (53 + 2035)); [|assert (2 ^ (53 + 2035) < 2 ^ 2098) by (apply Z.pow_lt_mono_r; lia); lia].
    rewrite (Z.pow_add_r 2 53) by lia. apply (Z.lt_le_trans _ (2 ^ 53 * 2 ^ (e - j + 1074))).
    + apply Z.mul_lt_mono_pos_r; [apply Z.pow_pos_nonneg; lia|done].
    + apply Z.mul_le_mono_nonneg_l; [lia|]. apply Z.pow_le_mono_r; lia.
Qed.

(** Dividing by 1024 is exact. *)
Lemma div_1024 x :
  f64_nonneg x → f64_finite x → 2 ^ (10 + 1074) ≤ scaled x ≤ 2 ^ (64 + 1074) →
  let q := f64_div x (f64_of_u64 1024) in
  f64_nonneg q ∧ f64_finite q ∧ scaled q * 1024 = scaled x.
Proof.
  intros Hx Hf [Hge Hle]. apply (div_pow2 10 x); [done|done|done|].
  split; [etrans; [|exact Hge]; apply Z.pow_le_mono_r; lia|exact Hle].
Qed.
