(* ===== verification/Text.v ===== *)
(** * Numbers as text

    What [format!] prints: unsigned integers in a base, with or without leading
    zeros, floats with a fixed number of decimals; how such numbers read back,
    and the strings that cannot be handed to C. *)
From S2P Require Import Prelude Machine F64.
From Stdlib Require Ascii.

(** ** Digits *)

(** The character of a digit below sixteen, in lower case. *)
Definition digit (d : Z) : Ascii.ascii := Ascii.ascii_of_N (Z.to_N (if d <? 10 then 48 + d else 87 + d)).

Definition digit_value (c : Ascii.ascii) : option Z :=
  let n := Z.of_N (Ascii.N_of_ascii c) in
  if (48 <=? n) && (n <=? 57) then Some (n - 48)
  else if (97 <=? n) && (n <=? 102) then Some (n - 87)
  else None.

(** At least [width] and at most [fuel] digits of [v], least significant last. *)
Fixpoint digits_loop (base : Z) (fuel width : nat) (v : Z) (acc : string) : string :=
  match fuel with
  | O => acc
  | S fuel =>
      let acc := String (digit (v `mod` base)) acc in
      if (v / base =? 0) && (width <=? 1)%nat then acc
      else digits_loop base fuel (pred width) (v / base) acc
  end.

(** [{}] of a [u64], [{:02}], and [{:x}] of a [u128]. *)
(** What was printed before stands behind. *)
Lemma digits_loop_app base fuel width v s acc :
  digits_loop base fuel width v (s +:+ acc) = digits_loop base fuel width v s +:+ acc.
Proof.
  revert width v s. induction fuel as [|fuel IH]; intros width v s; [done|]. cbn [digits_loop].
  change (String ?c (s +:+ acc)) with (String c s +:+ acc).
  destruct (_ && _); [done|]. apply IH.
Qed.

Definition fmt_u64 (v : Z) : string := digits_loop 10 20 1 v "".
Definition fmt_02 (v : Z) : string := digits_loop 10 20 2 v "".
Definition fmt_hex (v : Z) : string := digits_loop 16 32 1 v "".

(** How a number reads. *)
Fixpoint read_digits (base acc : Z) (s : string) : option Z :=
  match s with
  | EmptyString => Some acc
  | String c s => match digit_value c with
                  | Some d => if d <? base then read_digits base (acc * base + d) s else None
                  | None => None
                  end
  end.

Lemma digit_spec d : 0 ≤ d < 16 → digit_value (digit d) = Some d ∧ Ascii.N_of_ascii (digit d) ≠ 0%N.
Proof.
  intros Hd. assert (d ∈ Z.of_nat <$> seq 0 16) as Hin.
  { apply list_elem_of_fmap. exists (Z.to_nat d). split; [lia|]. apply elem_of_seq. lia. }
  clear Hd. revert d Hin. apply Forall_forall. repeat (apply Forall_cons; split; [done|]). by apply Forall_nil.
Qed.

(** A reader [rd] that takes digits one after the other, most significant first,
    reads a printed number. *)
Lemma digits_loop_read {A} (rd : Z → string → A) base fuel width v acc :
  2 ≤ base ≤ 16 →
  (∀ d c s, 0 ≤ d < base → rd c (String (digit d) s) = rd (c * base + d) s) →
  0 ≤ v < base ^ Z.of_nat fuel → rd 0 (digits_loop base fuel width v acc) = rd v acc.
Proof.
  intros Hbase Hrd. revert width v acc. induction fuel as [|fuel IH]; intros width v acc Hv.
  - rewrite Z.pow_0_r in Hv. by replace v with 0 by lia.
  - cbn [digits_loop]. pose proof (Z.mod_pos_bound v base ltac:(lia)) as Hm.
    pose proof (Z.div_mod v base ltac:(lia)) as Hdm.
    assert (rd (v / base) (String (digit (v `mod` base)) acc) = rd v acc) as Hread.
    { rewrite Hrd by lia. f_equal. lia. }
    destruct (Z.eqb_spec (v / base) 0) as [H0|H0]; cbn [andb].
    2: { rewrite IH; [done|]. split; [apply Z.div_pos; lia|]. apply Z.div_lt_upper_bound; [lia|].
         rewrite <-Z.pow_succ_r, <-Nat2Z.inj_succ by lia. apply Hv. }
    destruct (width <=? 1)%nat; [rewrite H0 in Hread; exact Hread|]. rewrite IH; [exact Hread|].
    rewrite H0. split; [done|]. apply Z.pow_pos_nonneg; lia.
Qed.

Lemma read_digits_loop base fuel width v acc :
  2 ≤ base ≤ 16 → 0 ≤ v < base ^ Z.of_nat fuel →
  read_digits base 0 (digits_loop base fuel width v acc) = read_digits base v acc.
Proof.
  intros Hbase. apply digits_loop_read; [done|]. intros d c s Hd. cbn [read_digits].
  destruct (digit_spec d) as [-> _]; [lia|]. by destruct (Z.ltb_spec d base); [|lia].
Qed.

(** What is printed reads back. *)
Lemma read_fmt_u64 v acc : is_u64 v → read_digits 10 0 (digits_loop 10 20 1 v acc) = read_digits 10 v acc.
Proof. intros [H0 H1]. apply read_digits_loop; [lia|]. split; [done|]. etrans; [exact H1|done]. Qed.

Lemma read_fmt_hex v : 0 ≤ v < 2 ^ 128 → read_digits 16 0 (fmt_hex v) = Some v.
Proof. intros Hv. by apply (read_digits_loop 16 32 1 v ""). Qed.

(** ** Strings for C *)

Fixpoint has_nul (s : string) : bool :=
  match s with
  | EmptyString => false
  | String c s => (Ascii.N_of_ascii c =? 0)%N || has_nul s
  end.

Lemma has_nul_app s t : has_nul (s +:+ t) = has_nul s || has_nul t.
Proof. induction s as [|c s IH]; [done|]. cbn. by rewrite <-orb_assoc, <-IH. Qed.

Lemma digits_no_nul base fuel width v acc :
  2 ≤ base ≤ 16 → has_nul acc = false → has_nul (digits_loop base fuel width v acc) = false.
Proof.
  intros Hb. revert width v acc. induction fuel as [|fuel IH]; intros width v acc Ha; cbn [digits_loop]; [done|].
  assert (has_nul (String (digit (v `mod` base)) acc) = false) as Hc.
  { cbn [has_nul]. rewrite Ha, orb_false_r. pose proof (Z.mod_pos_bound v base ltac:(lia)).
    apply N.eqb_neq, digit_spec. lia. }
  destruct ((v / base =? 0) && (width <=? 1)%nat); [done|]. by apply IH.
Qed.

(** ** Floats with a fixed number of decimals *)

(** To the nearest, ties to even. *)
Definition round_half_even (num den : Z) : Z :=
  let q := num / den in let r := num `mod` den in
  if 2 * r <? den then q else if den <? 2 * r then q + 1 else if Z.even q then q else q + 1.

Lemma round_half_even_near num den :
  0 < den → 2 * num - den ≤ 2 * den * round_half_even num den ≤ 2 * num + den.
Proof.
  intros Hd. unfold round_half_even. pose proof (Z.div_mod num den ltac:(lia)).
  pose proof (Z.mod_pos_bound num den Hd).
  destruct (Z.ltb_spec (2 * (num `mod` den)) den); [nia|].
  destruct (Z.ltb_spec den (2 * (num `mod` den))); [nia|]. destruct (Z.even _); nia.
Qed.

(** The value of a finite float in units of [10 ^ -prec]. *)
Definition decimals (prec : nat) (m e : Z) : Z :=
  let n := m * 10 ^ Z.of_nat prec in
  if 0 <=? e then n * 2 ^ e else round_half_even n (2 ^ (- e)).

(** An integer number of units of [10 ^ -prec], with its point; a finite float
    has at most 309 digits before it. *)
Definition fmt_point (prec : nat) (n : Z) : string :=
  digits_loop 10 310 1 (n / 10 ^ Z.of_nat prec) "" +:+
  match prec with
  | O => ""
  | _ => "." +:+ digits_loop 10 prec prec (n `mod` 10 ^ Z.of_nat prec) ""
  end.

(** [format!("{:.prec}")] of an [f64]. *)
Definition fmt_fixed (prec : nat) (x : f64) : string :=
  match x with
  | S754_nan => "NaN"
  | S754_infinity s => if s then "-inf" else "inf"
  | S754_zero s => (if s then "-" else "") +:+ fmt_point prec 0
  | S754_finite s m e => (if s then "-" else "") +:+ fmt_point prec (decimals prec (Z.pos m) e)
  end.

(** The number printed is the nearest there is with that many decimals. *)
Lemma decimals_near prec m e :
  -1074 ≤ e → 0 ≤ m →
  Z.abs (decimals prec m e * 2 ^ 1074 - m * 2 ^ (e + 1074) * 10 ^ Z.of_nat prec) * 2 ≤ 2 ^ 1074.
Proof.
  intros He Hm. unfold decimals. set (D := 10 ^ Z.of_nat prec). destruct (Z.leb_spec 0 e) as [H0|H0].
  - rewrite Z.pow_add_r by lia. replace (_ - _) with 0 by ring. done.
  - assert (2 ^ 1074 = 2 ^ (- e) * 2 ^ (e + 1074)) as -> by (rewrite <-Z.pow_add_r by lia; f_equal; lia).
    pose proof (Z.pow_pos_nonneg 2 (- e) ltac:(lia) ltac:(lia)) as HP.
    pose proof (Z.pow_pos_nonneg 2 (e + 1074) ltac:(lia) ltac:(lia)) as HQ.
    pose proof (round_half_even_near (m * D) _ HP) as Hr. revert Hr HP HQ.
    generalize (2 ^ (- e)) (2 ^ (e + 1074)) (round_half_even (m * D) (2 ^ (- e))). intros P Q r Hr HP HQ.
    replace (r * (P * Q) - m * Q * D) with ((r * P - m * D) * Q) by ring. rewrite Z.abs_mul, (Z.abs_eq Q) by lia. nia.
Qed.
