(* ===== verification/Time.v ===== *)
(** * Instants and durations

    [std::time::Instant] and [std::time::Duration] as integers counting
    nanoseconds, with the conversions the program uses.  [duration_since]
    saturates at zero.  The subtraction of a duration from an instant is exact:
    the clock is far from the limits of its representation. *)
From S2P Require Import Prelude Machine F64.

Abbreviation Instant := Z (only parsing).
Abbreviation Duration := Z (only parsing).

Definition NANOS_PER_SEC : Z := 1000000000.

Definition duration_from_secs (s : Z) : Duration := s * NANOS_PER_SEC.
Definition as_nanos (d : Duration) : Z := d.
Definition as_secs (d : Duration) : Z := d / NANOS_PER_SEC.
Definition as_micros (d : Duration) : Z := d / 1000.
Definition as_millis (d : Duration) : Z := d / 1000000.
Definition subsec_nanos (d : Duration) : Z := d `mod` NANOS_PER_SEC.
Definition duration_since (now earlier : Instant) : Duration := Z.max 0 (now - earlier).

(** [Duration::as_secs_f64]. *)
Definition as_secs_f64 (d : Duration) : f64 :=
  f64_add (f64_of_u64 (as_secs d))
    (f64_div (f64_of_u64 (subsec_nanos d)) (f64_of_u64 NANOS_PER_SEC)).

(** A duration that fits [std::time::Duration]. *)
Definition is_duration (d : Duration) : Prop := 0 ≤ as_secs d < 2 ^ 64.

Lemma is_duration_iff d : is_duration d ↔ 0 ≤ d < 2 ^ 64 * NANOS_PER_SEC.
Proof.
  unfold is_duration, as_secs, NANOS_PER_SEC. Z.to_euclidean_division_equations. lia.
Qed.

Lemma duration_since_nonneg now t : 0 ≤ duration_since now t.
Proof. unfold duration_since. lia. Qed.

#[export] Hint Resolve duration_since_nonneg : dwd.

(** ** Seconds as a float *)

Lemma subsec_quotient d :
  let q := f64_div (f64_of_u64 (subsec_nanos d)) (f64_of_u64 NANOS_PER_SEC) in
  f64_nonneg q ∧ scaled q ≤ 2 ^ 1074.
Proof.
  cbv zeta.
  assert (0 ≤ subsec_nanos d < NANOS_PER_SEC) as Hn.
  { apply Z.mod_pos_bound. done. }
  generalize dependent (subsec_nanos d). intros n Hn. unfold NANOS_PER_SEC in Hn.
  destruct (Z.eq_dec n 0) as [->|Hn0].
  { vm_compute. done. }
  assert (f64_of_u64 NANOS_PER_SEC = S754_finite false 8388608000000000 (-23)) as ->
    by reflexivity.
  pose proof (Z.log2_spec n ltac:(lia)) as Hl. rewrite <-Z.add_1_r in Hl.
  assert (Z.log2 n < 30) by (apply Z.log2_lt_pow2; lia).
  pose proof (Z.log2_nonneg n).
  destruct (of_u64_normal n (Z.log2 n) Hl) as (m & -> & Hm & Hv); [lia|].
  destruct (div_normal m (Z.log2 n - 52) 8388608000000000 (-23)) as (H1 & _ & H3);
    [done|done|lia|].
  split; [done|].
  destruct (Z.eq_dec (Z.log2 n) 29) as [H29|].
  - apply H3; [lia|]. rewrite Hv, H29. lia.
  - destruct (div_normal m (Z.log2 n - 52) 8388608000000000 (-23)) as (_ & H2 & _);
      [done|done|lia|].
    etrans; [exact H2|]. apply Z.pow_le_mono_r; lia.
Qed.

Lemma as_secs_f64_nonneg d : is_duration d → f64_nonneg (as_secs_f64 d).
Proof.
  intros [H _]. apply add_nonneg; [by apply of_u64_nonneg|apply subsec_quotient].
Qed.

Lemma lit_pow2 k : 0 ≤ k ≤ 971 → f64_nonneg (f64_lit 1 k) ∧ scaled (f64_lit 1 k) = 2 ^ (k + 1074).
Proof.
  intros. split; [by apply normalize_nonneg|].
  unfold f64_lit. rewrite normalize_exact by lia. lia.
Qed.

Lemma as_secs_f64_finite d : is_duration d → f64_finite (as_secs_f64 d).
Proof.
  intros Hd. pose proof (as_secs_f64_nonneg d Hd) as Hn.
  destruct Hd as [H0 H1]. destruct (subsec_quotient d) as [Hq1 Hq2].
  destruct (lit_pow2 64) as [A1 A2]; [lia|]. destruct (lit_pow2 65) as [B1 B2]; [lia|].
  assert (scaled (f64_of_u64 (as_secs d)) ≤ 2 ^ (64 + 1074)).
  { rewrite <-A2. apply of_u64_upper; [done|done|]. rewrite A2, Z.pow_add_r by lia. lia. }
  assert (scaled (as_secs_f64 d) ≤ 2 ^ (65 + 1074)) as Hle.
  { rewrite <-B2. apply add_upper; [by apply of_u64_nonneg|done|done|]. rewrite B2. lia. }
  destruct (as_secs_f64 d) as [|s| |]; destruct Hn as [_ Hs]; cbn in Hs; try done.
  subst s. exfalso. cbn -[Z.pow] in Hle. lia.
Qed.

(** At least one second counts for at least [1.0]. *)
Lemma as_secs_f64_lower d :
  is_duration d → NANOS_PER_SEC ≤ d → 2 ^ 1074 ≤ scaled (as_secs_f64 d).
Proof.
  intros [H0 H1] Hge. destruct (subsec_quotient d) as [Hq1 Hq2].
  etrans; [|apply add_lower; [by apply of_u64_nonneg|done]].
  destruct (lit_pow2 0) as [A1 A2]; [lia|].
  etrans; [apply Z.eq_le_incl; symmetry; exact A2|].
  assert (1 ≤ as_secs d) by (apply Z.div_le_lower_bound; unfold NANOS_PER_SEC in *; lia).
  apply of_u64_lower; [done|done| |]; rewrite A2, Z.add_0_l; lia.
Qed.

(** Less than one second counts for at most [1.0]. *)
Lemma as_secs_f64_subsec d :
  0 ≤ d < NANOS_PER_SEC → scaled (as_secs_f64 d) ≤ 2 ^ 1074.
Proof.
  intros Hd. destruct (subsec_quotient d) as [Hq1 Hq2]. unfold as_secs_f64.
  assert (as_secs d = 0) as -> by (by apply Z.div_small).
  destruct (lit_pow2 0) as [A1 A2]; [lia|]. change (2 ^ 1074) with (2 ^ (0 + 1074)).
  rewrite <-A2. apply add_upper; [done|done|done|]. rewrite A2.
  change (scaled (f64_of_u64 0)) with 0. lia.
Qed.
