(* ===== verification/Rounding.v ===== *)
(** * How far rounding can go

    Bounds on the relative error of the float operations, in both directions: a
    result is within one part in 2^51 of the exact one.  Every bound is an
    inequality between integers. *)
From S2P Require Import Prelude Machine F64 Time.

(** One, and the precision of the bounds. *)
Definition one : Z := 2 ^ 1074.
Definition R : Z := 2 ^ 51.

Lemma one_pos : 0 < one.
Proof. done. Qed.
Lemma R_pos : 0 < R.
Proof. done. Qed.

(** Some representable number is just above any value. *)
Lemma float_above V :
  0 ≤ V < 2 ^ 2090 → ∃ y, f64_nonneg y ∧ V ≤ scaled y ∧ (scaled y - V) * R ≤ V.
Proof.
  intros [[HV|<-]%Z.le_lteq Hlt]; [|by exists f64_zero].
  pose proof (Z.log2_spec V HV) as [Hl Hu]. pose proof (Z.log2_nonneg V).
  assert (Z.log2 V < 2090) by (apply Z.log2_lt_pow2; lia).
  set (l := Z.log2 V) in *. set (k := Z.max 0 (l - 51)).
  assert (0 < 2 ^ k) as Hk by (apply Z.pow_pos_nonneg; lia).
  set (c := (V + 2 ^ k - 1) / 2 ^ k).
  pose proof (Z.div_mod (V + 2 ^ k - 1) (2 ^ k) ltac:(lia)) as Hdm. fold c in Hdm.
  pose proof (Z.mod_pos_bound (V + 2 ^ k - 1) (2 ^ k) Hk).
  assert (V < 2 ^ k * 2 ^ 52) as HVk.
  { rewrite <-Z.pow_add_r by lia. eapply Z.lt_le_trans; [exact Hu|]. apply Z.pow_le_mono_r; lia. }
  assert (0 ≤ c) by (apply Z.div_pos; lia).
  assert (c < 2 ^ 53) by (apply Z.div_lt_upper_bound; lia).
  exists (binary_normalize 53 1024 c (k - 1074) false). rewrite normalize_exact by lia.
  replace (k - 1074 + 1074) with k by lia.
  split; [by apply normalize_nonneg|]. split; [lia|].
  destruct (Z.eq_dec k 0) as [Hk0|Hk0].
  - rewrite Hk0 in *. change (2 ^ 0) with 1 in *. assert (c = V) as -> by lia. lia.
  - assert (2 ^ k * R = 2 ^ l) as HR by (unfold R; rewrite <-Z.pow_add_r by lia; f_equal; lia).
    trans (2 ^ k * R); [apply Z.mul_le_mono_nonneg_r; [done|lia]|lia].
Qed.

(** A result that stays below every representable number above the exact value
    [V] exceeds it by at most one part in [R]. *)
Lemma above_intro V X :
  0 ≤ V < 2 ^ 2090 → (∀ y, f64_nonneg y → V ≤ scaled y → X ≤ scaled y) → X * R ≤ V * (R + 1).
Proof.
  intros HV HX. destruct (float_above V HV) as (y & Hy & Hle & Ha).
  pose proof (HX y Hy Hle). pose proof R_pos.
  trans (scaled y * R); [apply Z.mul_le_mono_nonneg_r; lia|lia].
Qed.

Lemma add_above x y :
  f64_nonneg x → f64_nonneg y → scaled x + scaled y < 2 ^ 2090 →
  scaled (f64_add x y) * R ≤ (scaled x + scaled y) * (R + 1).
Proof.
  intros Hx Hy Hlt. pose proof (scaled_nonneg _ Hx). pose proof (scaled_nonneg _ Hy).
  apply above_intro; [lia|]. intros z Hz Hle. by apply add_upper.
Qed.

(** The difference is at most any representable number above the exact one. *)
Lemma sub_upper x y z :
  f64_nonneg x → f64_finite x → f64_nonneg y → scaled y ≤ scaled x → f64_nonneg z →
  scaled x - scaled y ≤ scaled z → scaled (f64_sub x y) ≤ scaled z.
Proof.
  intros Hx Hf Hy Hle Hz Hz'.
  destruct (sub_cases x y Hx Hf Hy Hle) as [[-> ?]|(m & e & Hm & He & -> & Hv)]; [lia|].
  apply (normalize_upper m e (-1074)); [done..|].
  rewrite Z.sub_diag, Z.mul_1_r. replace (e - -1074) with (e + 1074) by lia. lia.
Qed.

Lemma sub_above x y :
  f64_nonneg x → f64_finite x → f64_nonneg y → scaled y ≤ scaled x → scaled x < 2 ^ 2090 →
  scaled (f64_sub x y) * R ≤ (scaled x - scaled y) * (R + 1).
Proof.
  intros Hx Hf Hy Hle Hlt. pose proof (scaled_nonneg _ Hy).
  apply above_intro; [lia|]. intros z Hz Hz'. by apply sub_upper.
Qed.

Lemma mul_above x y V :
  f64_nonneg x → f64_nonneg y → f64_finite x → f64_finite y → 0 ≤ V < 2 ^ 2090 →
  scaled x * scaled y ≤ V * one → scaled (f64_mul x y) * R ≤ V * (R + 1).
Proof.
  intros Hx Hy Hfx Hfy HV Hle. apply above_intro; [done|]. intros z Hz Hz'.
  pose proof (scaled_nonneg _ Hz) as Hz0.
  destruct x as [sx|sx| |sx mx ex]; destruct y as [sy|sy| |sy my ey];
    destruct (Hx) as [Hvx Hsx]; destruct (Hy) as [Hvy Hsy];
    cbn in Hsx, Hsy, Hfx, Hfy; try done; subst; try done.
  pose proof (mul_aligned _ _ _ _ Hvx Hvy) as Hal.
  destruct (valid_finite_inv _ _ _ Hvx) as (_ & ? & _).
  destruct (valid_finite_inv _ _ _ Hvy) as (_ & ? & _).
  apply (round_upper (Z.pos (mx * my)) (ex + ey) (-2148) z); [done|done|lia|done|].
  rewrite (mul_scaled mx ex my ey) by done. etrans; [exact Hle|].
  apply Z.mul_le_mono_nonneg_r; [done|exact Hz'].
Qed.

Lemma of_u64_above n : 0 ≤ n < 2 ^ 1000 → scaled (f64_of_u64 n) * R ≤ n * one * (R + 1).
Proof.
  intros Hn. apply above_intro; [|intros y Hy Hle; apply of_u64_upper; [lia|done|exact Hle]].
  unfold one. split; [lia|]. change 2090 with (1016 + 1074). rewrite Z.pow_add_r by lia.
  apply Z.mul_lt_mono_pos_r; [done|]. apply (Z.lt_trans _ (2 ^ 1000)); [apply Hn|]. apply Z.pow_lt_mono_r; lia.
Qed.

(** ** From below *)

(** Some representable number is just below any value. *)
Lemma float_below V :
  0 ≤ V < 2 ^ 2090 → ∃ y, f64_nonneg y ∧ scaled y ≤ V ∧ (V - scaled y) * R ≤ V.
Proof.
  intros [[HV|<-]%Z.le_lteq Hlt]; [|by exists f64_zero].
  pose proof (Z.log2_spec V HV) as [Hl Hu]. pose proof (Z.log2_nonneg V).
  assert (Z.log2 V < 2090) by (apply Z.log2_lt_pow2; lia).
  set (l := Z.log2 V) in *. set (k := Z.max 0 (l - 51)).
  assert (0 < 2 ^ k) as Hk by (apply Z.pow_pos_nonneg; lia).
  pose proof (Z.div_mod V (2 ^ k) ltac:(lia)) as Hdm. pose proof (Z.mod_pos_bound V (2 ^ k) Hk).
  set (c := V / 2 ^ k) in *.
  assert (V < 2 ^ k * 2 ^ 52) as HVk.
  { rewrite <-Z.pow_add_r by lia. eapply Z.lt_le_trans; [exact Hu|]. apply Z.pow_le_mono_r; lia. }
  assert (0 ≤ c) by (apply Z.div_pos; lia).
  assert (c < 2 ^ 53) by (apply Z.div_lt_upper_bound; lia).
  exists (binary_normalize 53 1024 c (k - 1074) false). rewrite normalize_exact by lia.
  replace (k - 1074 + 1074) with k by lia.
  split; [by apply normalize_nonneg|]. split; [lia|].
  destruct (Z.eq_dec k 0) as [Hk0|Hk0].
  - rewrite Hk0 in *. change (2 ^ 0) with 1 in *. assert (c = V) as -> by lia. lia.
  - assert (2 ^ k * R = 2 ^ l) as HR by (unfold R; rewrite <-Z.pow_add_r by lia; f_equal; lia).
    trans (2 ^ k * R); [apply Z.mul_le_mono_nonneg_r; [done|lia]|lia].
Qed.

(** A result that stays above every representable number below the exact value
    [V] falls short of it by at most one part in [R]. *)
Lemma below_intro V X :
  0 ≤ V < 2 ^ 2090 → (∀ y, f64_nonneg y → scaled y < 2 ^ 2098 → scaled y ≤ V → scaled y ≤ X) →
  V * (R - 1) ≤ X * R.
Proof.
  intros HV HX. destruct (float_below V HV) as (y & Hy & Hle & Ha).
  assert (scaled y < 2 ^ 2098) as Hlt.
  { eapply Z.le_lt_trans; [exact Hle|]. eapply Z.lt_trans; [apply HV|]. apply Z.pow_lt_mono_r; lia. }
  pose proof (HX y Hy Hlt Hle). pose proof R_pos.
  trans (scaled y * R); [lia|apply Z.mul_le_mono_nonneg_r; lia].
Qed.

Lemma add_below x y :
  f64_nonneg x → f64_nonneg y → scaled x + scaled y < 2 ^ 2090 →
  (scaled x + scaled y) * (R - 1) ≤ scaled (f64_add x y) * R.
Proof.
  intros Hx Hy Hlt. pose proof (scaled_nonneg _ Hx). pose proof (scaled_nonneg _ Hy).
  apply below_intro; [lia|]. intros z Hz Hf Hle.
  destruct (add_cases x y Hx Hy)
    as [[-> ?]|[[-> ?]|[[-> _]|(m & e & Hm & He & -> & Hv & _)]]]; [lia..| |].
  - change (scaled f64_infinity) with (1 * 2 ^ 2098). lia.
  - apply (normalize_lower m e (-1074)); [done..|].
    rewrite Z.sub_diag, Z.mul_1_r. replace (e - -1074) with (e + 1074) by lia. lia.
Qed.

Lemma sub_below x y :
  f64_nonneg x → f64_finite x → f64_nonneg y → scaled y ≤ scaled x → scaled x < 2 ^ 2090 →
  (scaled x - scaled y) * (R - 1) ≤ scaled (f64_sub x y) * R.
Proof.
  intros Hx Hf Hy Hle Hlt. pose proof (scaled_nonneg _ Hy).
  apply below_intro; [lia|]. intros z Hz Hfz Hz'.
  destruct (sub_cases x y Hx Hf Hy Hle) as [[-> ?]|(m & e & Hm & He & -> & Hv)]; [lia|].
  apply (normalize_lower m e (-1074)); [done..|].
  rewrite Z.sub_diag, Z.mul_1_r. replace (e - -1074) with (e + 1074) by lia. lia.
Qed.

Lemma mul_below x y V :
  f64_nonneg x → f64_nonneg y → f64_finite x → f64_finite y → 0 ≤ V < 2 ^ 2090 →
  V * one ≤ scaled x * scaled y → V * (R - 1) ≤ scaled (f64_mul x y) * R.
Proof.
  intros Hx Hy Hfx Hfy HV Hle. apply below_intro; [done|]. intros z Hz Hfz Hz'.
  pose proof (scaled_nonneg _ Hz) as Hz0. pose proof (mul_nonneg x y Hx Hy Hfx Hfy) as Hm.
  pose proof (scaled_nonneg _ Hm).
  destruct x as [sx|sx| |sx mx ex]; destruct y as [sy|sy| |sy my ey];
    destruct (Hx) as [Hvx Hsx]; destruct (Hy) as [Hvy Hsy];
    cbn in Hsx, Hsy, Hfx, Hfy; try done; subst.
  1-3: change (scaled (S754_zero false)) with 0 in Hle; rewrite ?Z.mul_0_l, ?Z.mul_0_r in Hle; pose proof one_pos; nia.
  pose proof (mul_aligned _ _ _ _ Hvx Hvy) as Hal.
  destruct (valid_finite_inv _ _ _ Hvx) as (_ & ? & _).
  destruct (valid_finite_inv _ _ _ Hvy) as (_ & ? & _).
  destruct (round_lower (Z.pos (mx * my)) (ex + ey) (-2148) z) as [Hr|Hr]; [done|done|lia|done| |exact Hr|lia].
  rewrite (mul_scaled mx ex my ey) by done. etrans; [|exact Hle].
  apply Z.mul_le_mono_nonneg_r; [done|exact Hz'].
Qed.

Lemma of_u64_below n : 0 ≤ n < 2 ^ 1000 → n * one * (R - 1) ≤ scaled (f64_of_u64 n) * R.
Proof.
  intros Hn. apply below_intro; [|intros y Hy Hf Hle; apply of_u64_lower; [lia|done|done|exact Hle]].
  unfold one. split; [lia|]. change 2090 with (1016 + 1074). rewrite Z.pow_add_r by lia.
  apply Z.mul_lt_mono_pos_r; [done|]. apply (Z.lt_trans _ (2 ^ 1000)); [apply Hn|]. apply Z.pow_lt_mono_r; lia.
Qed.

(** ** Division *)

(** The quotient of two full mantissas to 53 or 54 bits, and how far from it
    rounding goes. *)
Lemma div_mantissa m1 e1 m2 e2 :
  f64_normal m1 → f64_normal m2 → -1000 ≤ e1 - e2 ≤ 900 →
  let q := Z.pos m1 * 2 ^ 53 / Z.pos m2 in
  2 ^ 52 ≤ q < 2 ^ 54 ∧ ∃ M, q - 1 ≤ M ≤ q + 2 ∧
    scaled (f64_div (S754_finite false m1 e1) (S754_finite false m2 e2)) =
      Z.min (2 ^ 2098) (M * 2 ^ (e1 - e2 + 1021)).
Proof.
  intros H1 H2 He. cbv zeta. unfold f64_div, SFdiv. rewrite div_normal_core by done.
  set (q := Z.pos m1 * 2 ^ 53 / Z.pos m2). set (l := new_location _ _). cbn [xorb].
  pose proof (digits2_pos_bounds m1) as [Hl1 Hu1]. pose proof (digits2_pos_bounds m2) as [Hl2 Hu2].
  rewrite H1 in Hl1, Hu1. rewrite H2 in Hl2, Hu2.
  assert (2 ^ 52 ≤ q) as Hq1 by (apply Z.div_le_lower_bound; lia).
  assert (q < 2 ^ 54) as Hq2 by (apply Z.div_lt_upper_bound; lia).
  pose proof (Zdigits2_ge q 52 ltac:(lia) ltac:(lia) Hq1).
  pose proof (Zdigits2_le q 54 ltac:(lia) ltac:(lia) Hq2).
  assert (e1 - e2 - 53 ≤ fexp64 (Zdigits2 q + (e1 - e2 - 53))) as Hal by (rewrite fexp64_eq; lia).
  destruct (round_aux_spec false q (e1 - e2 - 53) l ltac:(lia) Hal) as (m & Hm & _ & Hr).
  apply rounded_scaled in Hr as [_ ->]; [|done]. rewrite fexp64_eq in *.
  set (j := Zdigits2 q - 53) in *.
  replace (Z.max (Zdigits2 q + (e1 - e2 - 53) - 53) (-1074)) with (e1 - e2 - 53 + j) in * by lia.
  replace (e1 - e2 - 53 + j - (e1 - e2 - 53)) with j in * by lia.
  replace (e1 - e2 - 53 + j + 1074) with (j + (e1 - e2 + 1021)) by lia.
  rewrite (Z.pow_add_r 2 j) by lia.
  split; [done|]. exists (m * 2 ^ j). split; [|by rewrite Z.mul_assoc; [|done..]].
  assert (0 < 2 ^ j ≤ 2) as Hj by (split; [apply Z.pow_pos_nonneg; lia|apply (Z.pow_le_mono_r 2 j 1); lia]).
  pose proof (Z.mul_div_le q (2 ^ j) ltac:(lia)). pose proof (Z.mul_succ_div_gt q (2 ^ j) ltac:(lia)). nia.
Qed.

Section div.
Context (m1 m2 : positive) (e1 e2 : Z).
Hypothesis (H1 : f64_normal m1) (H2 : f64_normal m2) (He : -1000 ≤ e1 - e2 ≤ 900).
Abbreviation quotient := (scaled (f64_div (S754_finite false m1 e1) (S754_finite false m2 e2))).

Lemma div_above : quotient * Z.pos m2 * R ≤ Z.pos m1 * (R + 1) * 2 ^ (e1 - e2 + 1074).
Proof using All.
  destruct (div_mantissa m1 e1 m2 e2 H1 H2 He) as ([Hq1 Hq2] & M & HM & ->).
  pose proof (Z.mul_div_le (Z.pos m1 * 2 ^ 53) (Z.pos m2) ltac:(lia)) as Hqm.
  set (q := _ / Z.pos m2) in *. replace (e1 - e2 + 1074) with (53 + (e1 - e2 + 1021)) by lia.
  rewrite (Z.pow_add_r 2 53) by lia.
  assert (0 < 2 ^ (e1 - e2 + 1021)) as HX by (apply Z.pow_pos_nonneg; lia).
  generalize dependent (2 ^ (e1 - e2 + 1021)). intros X HX.
  assert ((q + 2) * R ≤ q * (R + 1)) as HqR by (unfold R; lia). pose proof R_pos.
  trans ((q + 2) * X * Z.pos m2 * R).
  { apply Z.mul_le_mono_nonneg_r; [done|]. apply Z.mul_le_mono_nonneg_r; [done|].
    etrans; [apply Z.le_min_r|]. nia. }
  replace ((q + 2) * X * Z.pos m2 * R) with ((q + 2) * R * (Z.pos m2 * X)) by ring.
  trans (q * (R + 1) * (Z.pos m2 * X)); [apply Z.mul_le_mono_nonneg_r; lia|].
  replace (q * (R + 1) * (Z.pos m2 * X)) with (Z.pos m2 * q * ((R + 1) * X)) by ring.
  replace (Z.pos m1 * (R + 1) * (2 ^ 53 * X)) with (Z.pos m1 * 2 ^ 53 * ((R + 1) * X)) by ring.
  apply Z.mul_le_mono_nonneg_r; nia.
Qed.

Lemma div_below : Z.pos m1 * (R - 1) * 2 ^ (e1 - e2 + 1074) ≤ quotient * Z.pos m2 * R.
Proof using All.
  destruct (div_mantissa m1 e1 m2 e2 H1 H2 He) as ([Hq1 Hq2] & M & HM & ->).
  pose proof (Z.mul_succ_div_gt (Z.pos m1 * 2 ^ 53) (Z.pos m2) ltac:(lia)) as Hqm.
  set (q := _ / Z.pos m2) in *.
  assert (M * 2 ^ (e1 - e2 + 1021) < 2 ^ 2098) as Hlt.
  { apply (Z.lt_le_trans _ (2 ^ 55 * 2 ^ 1922)); [|rewrite <-Z.pow_add_r by lia; apply Z.pow_le_mono_r; lia].
    apply Z.mul_lt_mono_nonneg; [lia|lia|apply Z.pow_nonneg; lia|apply Z.pow_lt_mono_r; lia]. }
  rewrite Z.min_r by lia. clear Hlt. replace (e1 - e2 + 1074) with (53 + (e1 - e2 + 1021)) by lia.
  rewrite (Z.pow_add_r 2 53) by lia.
  assert (0 < 2 ^ (e1 - e2 + 1021)) as HX by (apply Z.pow_pos_nonneg; lia).
  generalize dependent (2 ^ (e1 - e2 + 1021)). intros X HX.
  assert ((q + 1) * (R - 1) ≤ (q - 1) * R) as HqR by (unfold R in *; lia). pose proof R_pos.
  replace (Z.pos m1 * (R - 1) * (2 ^ 53 * X)) with (Z.pos m1 * 2 ^ 53 * ((R - 1) * X)) by ring.
  trans (Z.pos m2 * (q + 1) * ((R - 1) * X)); [apply Z.mul_le_mono_nonneg_r; nia|].
  replace (Z.pos m2 * (q + 1) * ((R - 1) * X)) with ((q + 1) * (R - 1) * (Z.pos m2 * X)) by ring.
  trans ((q - 1) * R * (Z.pos m2 * X)); [apply Z.mul_le_mono_nonneg_r; lia|].
  replace (M * X * Z.pos m2 * R) with (M * R * (Z.pos m2 * X)) by ring.
  apply Z.mul_le_mono_nonneg_r; nia.
Qed.
End div.

(** ** Seconds *)

Lemma subsec_bounds d :
  let Q := scaled (f64_div (f64_of_u64 (subsec_nanos d)) (f64_of_u64 NANOS_PER_SEC)) in
  subsec_nanos d * one * (R - 1) ≤ Q * NANOS_PER_SEC * R ≤ subsec_nanos d * one * (R + 1).
Proof.
  assert (0 ≤ subsec_nanos d < NANOS_PER_SEC) as Hn by (by apply Z.mod_pos_bound). cbv zeta.
  generalize dependent (subsec_nanos d). intros n Hn. unfold NANOS_PER_SEC in Hn.
  destruct (Z.eq_dec n 0) as [->|Hn0]; [vm_compute; done|].
  assert (f64_of_u64 NANOS_PER_SEC = S754_finite false 8388608000000000 (-23)) as -> by reflexivity.
  pose proof (Z.log2_spec n ltac:(lia)) as Hl. rewrite <-Z.add_1_r in Hl.
  assert (Z.log2 n < 30) by (apply Z.log2_lt_pow2; lia). pose proof (Z.log2_nonneg n).
  destruct (of_u64_normal n (Z.log2 n) Hl) as (m & -> & Hm & Hv); [lia|].
  pose proof (div_above m 8388608000000000 (Z.log2 n - 52) (-23) Hm eq_refl ltac:(lia)) as Hd.
  pose proof (div_below m 8388608000000000 (Z.log2 n - 52) (-23) Hm eq_refl ltac:(lia)) as Hd'.
  rewrite Hv in Hd, Hd'. set (X := scaled _) in *.
  replace (Z.log2 n - 52 - -23 + 1074) with (Z.log2 n + 1045) in * by lia.
  assert (2 ^ (52 - Z.log2 n) * 2 ^ (Z.log2 n + 1045) = 2 ^ 23 * one) as HX.
  { unfold one. rewrite <-!Z.pow_add_r by lia. f_equal. lia. }
  assert (∀ r, n * 2 ^ (52 - Z.log2 n) * r * 2 ^ (Z.log2 n + 1045) = n * one * r * 2 ^ 23) as Hr.
  { intros r. trans (n * r * (2 ^ (52 - Z.log2 n) * 2 ^ (Z.log2 n + 1045))); [ring|]. rewrite HX. ring. }
  rewrite Hr in Hd, Hd'. change (Z.pos 8388608000000000) with (NANOS_PER_SEC * 2 ^ 23) in *.
  split; apply (Z.mul_le_mono_pos_r _ _ (2 ^ 23)); [done| |done|];
    replace (X * NANOS_PER_SEC * R * 2 ^ 23) with (X * (NANOS_PER_SEC * 2 ^ 23) * R) by ring; done.
Qed.

(** [as_secs_f64] exceeds the number of seconds by at most two parts in [R]. *)
Lemma as_secs_above d :
  is_duration d → scaled (as_secs_f64 d) * NANOS_PER_SEC * (R * R) ≤ d * one * ((R + 1) * (R + 1)).
Proof.
  intros [H0 H1]. unfold as_secs_f64. destruct (subsec_quotient d) as [Hq Hq1].
  pose proof (proj2 (subsec_bounds d)) as Hqa. pose proof (of_u64_above (as_secs d) ltac:(lia)) as Hsa.
  pose proof (of_u64_nonneg (as_secs d) H0) as Hs. set (q := f64_div _ _) in *.
  assert (scaled (f64_of_u64 (as_secs d)) + scaled q < 2 ^ 2090) as Hlt.
  { unfold one, R in *. apply (Z.lt_le_trans _ (2 ^ 1200)); [|apply Z.pow_le_mono_r; lia]. lia. }
  pose proof (add_above _ _ Hs Hq Hlt) as Ha. set (X := scaled (f64_add _ _)) in *.
  set (S := scaled (f64_of_u64 _)) in *. set (Q := scaled q) in *.
  assert (d = as_secs d * NANOS_PER_SEC + subsec_nanos d) as Hd.
  { unfold as_secs, subsec_nanos. rewrite Z.mul_comm. by apply Z.div_mod. }
  assert ((S + Q) * NANOS_PER_SEC * R ≤ d * one * (R + 1)) as Hsum.
  { rewrite Hd. pose proof R_pos. unfold NANOS_PER_SEC in *. nia. }
  pose proof R_pos. pose proof one_pos.
  trans ((S + Q) * (R + 1) * (NANOS_PER_SEC * R)).
  { replace (X * NANOS_PER_SEC * (R * R)) with (X * R * (NANOS_PER_SEC * R)) by ring.
    apply Z.mul_le_mono_nonneg_r; [done|exact Ha]. }
  replace ((S + Q) * (R + 1) * (NANOS_PER_SEC * R)) with ((S + Q) * NANOS_PER_SEC * R * (R + 1)) by ring.
  replace (d * one * ((R + 1) * (R + 1))) with (d * one * (R + 1) * (R + 1)) by ring.
  apply Z.mul_le_mono_nonneg_r; [done|exact Hsum].
Qed.

(** ... and falls short of it by at most two. *)
Lemma as_secs_below d :
  is_duration d → d * one * ((R - 1) * (R - 1)) ≤ scaled (as_secs_f64 d) * NANOS_PER_SEC * (R * R).
Proof.
  intros [H0 H1]. unfold as_secs_f64. destruct (subsec_quotient d) as [Hq Hq1].
  pose proof (proj1 (subsec_bounds d)) as Hqa. pose proof (of_u64_below (as_secs d) ltac:(lia)) as Hsb.
  pose proof (of_u64_above (as_secs d) ltac:(lia)) as Hsa.
  pose proof (of_u64_nonneg (as_secs d) H0) as Hs. set (q := f64_div _ _) in *.
  assert (scaled (f64_of_u64 (as_secs d)) + scaled q < 2 ^ 2090) as Hlt.
  { unfold one, R in *. apply (Z.lt_le_trans _ (2 ^ 1200)); [|apply Z.pow_le_mono_r; lia]. lia. }
  pose proof (add_below _ _ Hs Hq Hlt) as Ha. set (X := scaled (f64_add _ _)) in *.
  set (S := scaled (f64_of_u64 _)) in *. set (Q := scaled q) in *.
  assert (d = as_secs d * NANOS_PER_SEC + subsec_nanos d) as Hd.
  { unfold as_secs, subsec_nanos. rewrite Z.mul_comm. by apply Z.div_mod. }
  assert (d * one * (R - 1) ≤ (S + Q) * NANOS_PER_SEC * R) as Hsum.
  { rewrite Hd. pose proof R_pos. unfold NANOS_PER_SEC in *. nia. }
  assert (0 ≤ R - 1) as HR1 by done.
  replace (d * one * ((R - 1) * (R - 1))) with (d * one * (R - 1) * (R - 1)) by ring.
  trans ((S + Q) * NANOS_PER_SEC * R * (R - 1)); [by apply Z.mul_le_mono_nonneg_r|].
  replace ((S + Q) * NANOS_PER_SEC * R * (R - 1)) with ((S + Q) * (R - 1) * (NANOS_PER_SEC * R)) by ring.
  replace (X * NANOS_PER_SEC * (R * R)) with (X * R * (NANOS_PER_SEC * R)) by ring.
  apply Z.mul_le_mono_nonneg_r; [done|exact Ha].
Qed.
