(* ===== verification/Shaper.v ===== *)
(** * The token bucket ([dwd-core/src/shaper.rs])

    [limit] is the value of the atomic shared with the rate controller: every
    call reads it once, so it is an argument of [tick].  Tokens are binary64
    numbers and every rounding is the one the code performs. *)
From S2P Require Import Prelude Machine F64 Time.

Record Shaper := {
  tokens : f64;
  burst_size : Z;
  prev_ts : Instant;
}.

Module Shaper.
(** [Shaper::new]. *)
Definition new (burst_size : Z) (now : Instant) : Shaper :=
  {| tokens := f64_zero; burst_size := burst_size; prev_ts := now |}.

(** [Shaper::tick]: the tokens available at [now] under the current limit. *)
Definition tick (self : Shaper) (now : Instant) (limit : Z) : Shaper * Z :=
  let elapsed := duration_since now (prev_ts self) in
  let t := f64_add (tokens self) (f64_mul (f64_of_u64 limit) (as_secs_f64 elapsed)) in
  let self := {| tokens := t; burst_size := burst_size self; prev_ts := now |} in
  if f64_to_u64 t <? burst_size self then (self, 0)
  else
    let t := f64_min t (f64_of_u64 limit) in
    ({| tokens := t; burst_size := burst_size self; prev_ts := now |}, f64_to_u64 t).

(** [Shaper::consume]. *)
Definition consume (self : Shaper) (num : Z) : Shaper :=
  {| tokens := f64_sub (tokens self) (f64_of_u64 num);
     burst_size := burst_size self; prev_ts := prev_ts self |}.
End Shaper.

(** ** The bucket invariant *)

(** The tokens are a genuine non-negative number, never NaN. *)
Definition shaper_ok (s : Shaper) : Prop := f64_nonneg (tokens s).

Section shaper.
Context (s : Shaper) (now : Instant) (limit : Z).
Hypothesis Hok : shaper_ok s.
Hypothesis Hlim : is_u64 limit.
Hypothesis Hel : is_duration (duration_since now (prev_ts s)).

Let added : f64 :=
  f64_mul (f64_of_u64 limit) (as_secs_f64 (duration_since now (prev_ts s))).
Let t : f64 := f64_add (tokens s) added.

Lemma limit_nonneg : f64_nonneg (f64_of_u64 limit).
Proof using All. apply of_u64_nonneg, Hlim. Qed.

Lemma limit_finite : f64_finite (f64_of_u64 limit).
Proof using All.
  pose proof limit_nonneg as Hn. destruct (lit_pow2 64) as [A1 A2]; [lia|].
  destruct Hlim as [H0 H1].
  assert (scaled (f64_of_u64 limit) ≤ 2 ^ (64 + 1074)) as Hle.
  { rewrite <-A2. apply of_u64_upper; [done|done|]. rewrite A2, Z.pow_add_r by lia. lia. }
  destruct (f64_of_u64 limit) as [|b| |]; destruct Hn as [_ Hs]; cbn in Hs; try done.
  subst b. exfalso. cbn -[Z.pow] in Hle. lia.
Qed.

Lemma added_nonneg : f64_nonneg added.
Proof using All.
  apply mul_nonneg; auto using limit_nonneg, limit_finite, as_secs_f64_nonneg, as_secs_f64_finite.
Qed.

Lemma tick_t_nonneg : f64_nonneg t.
Proof using All. apply add_nonneg; [exact Hok|exact added_nonneg]. Qed.

Lemma tick_ok : shaper_ok (Shaper.tick s now limit).1.
Proof using All.
  unfold Shaper.tick. cbn zeta. cbn [burst_size]. fold added. fold t.
  destruct (_ <? _); [exact tick_t_nonneg|].
  apply min_nonneg; [exact tick_t_nonneg|exact limit_nonneg].
Qed.

(** The result of a tick, through the values of the floats. *)
Lemma tick_result :
  (Shaper.tick s now limit).2 =
    if f64_to_u64 t <? burst_size s then 0
    else Z.min (f64_to_u64 t) (f64_to_u64 (f64_of_u64 limit)).
Proof using All.
  unfold Shaper.tick. cbn zeta. cbn [burst_size]. fold added. fold t.
  destruct (_ <? _); [done|]. cbn [snd].
  pose proof tick_t_nonneg. pose proof limit_nonneg.
  unfold f64_min. rewrite ltb_scaled, !nonneg_not_nan by done.
  destruct (Z.ltb_spec (scaled (f64_of_u64 limit)) (scaled t)).
  - symmetry. apply Z.min_r, to_u64_mono; [done..|lia].
  - symmetry. apply Z.min_l, to_u64_mono; [done..|lia].
Qed.

Lemma tick_t_ge_tokens : scaled (tokens s) ≤ scaled t.
Proof using All. apply add_lower; [exact Hok|exact added_nonneg]. Qed.

(** A tick of at least a second refills the bucket. *)
Lemma tick_t_refilled :
  NANOS_PER_SEC ≤ duration_since now (prev_ts s) → scaled (f64_of_u64 limit) ≤ scaled t.
Proof using All.
  intros Hge. trans (scaled added).
  - apply mul_lower; auto using limit_nonneg, limit_finite, as_secs_f64_nonneg,
      as_secs_f64_finite, as_secs_f64_lower.
  - apply add_lower_r; [exact Hok|exact added_nonneg].
Qed.

(** A tick of less than a second adds at most [limit] tokens. *)
Lemma added_upper :
  duration_since now (prev_ts s) < NANOS_PER_SEC →
  scaled added ≤ scaled (f64_of_u64 limit).
Proof using All.
  intros Hlt. apply mul_upper; auto using limit_nonneg, limit_finite, as_secs_f64_nonneg,
    as_secs_f64_finite.
  apply as_secs_f64_subsec. split; [apply duration_since_nonneg|exact Hlt].
Qed.
End shaper.

(** ** One iteration of a worker loop *)

(** A worker ticks the shaper, performs [n] of the available operations and
    reports them; the clock and the limit are those of the moment. *)
Inductive shaper_step : Shaper → Shaper → Prop :=
  | shaper_step_intro s now limit n :
      is_u64 limit → is_duration (duration_since now (prev_ts s)) →
      0 ≤ n ≤ (Shaper.tick s now limit).2 →
      shaper_step s (Shaper.consume (Shaper.tick s now limit).1 n).

Lemma burst_size_tick s now limit : burst_size (Shaper.tick s now limit).1 = burst_size s.
Proof. unfold Shaper.tick. cbn. by destruct (_ <? _). Qed.

Lemma tick_finite s now limit :
  shaper_ok s → is_u64 limit → is_duration (duration_since now (prev_ts s)) →
  is_u64 (burst_size s) →
  f64_finite (tokens (Shaper.tick s now limit).1).
Proof.
  intros Hok Hlim Hel Hb. unfold Shaper.tick. cbn zeta. cbn [burst_size].
  pose proof (tick_t_nonneg s now limit Hok Hlim Hel) as Ht.
  pose proof (limit_nonneg s now limit Hok Hlim Hel) as Hl.
  pose proof (limit_finite s now limit Hok Hlim Hel) as Hlf.
  set (t := f64_add _ _) in *. destruct (Z.ltb_spec (f64_to_u64 t) (burst_size s)) as [Hlt|Hge];
    cbn [fst tokens].
  - destruct t as [|b| |]; destruct Ht as [_ Hs]; cbn in Hs; try done. subst b.
    cbn in Hlt. unfold is_u64 in Hb. unfold u64_max in Hlt. lia.
  - unfold f64_min. rewrite ltb_scaled, !nonneg_not_nan by done.
    destruct (Z.ltb_spec (scaled (f64_of_u64 limit)) (scaled t)); [done|].
    pose proof (nonneg_finite_lt _ Hl Hlf).
    destruct t as [|b| |]; destruct Ht as [_ Hs]; cbn in Hs; try done. subst b.
    exfalso. cbn -[Z.pow f64_of_u64] in *. lia.
Qed.

(** Consuming no more than was available keeps the tokens a non-negative
    number, and never adds any. *)
Lemma consume_ok s n :
  shaper_ok s → f64_finite (tokens s) → 0 ≤ n ≤ f64_to_u64 (tokens s) →
  shaper_ok (Shaper.consume s n) ∧ scaled (tokens (Shaper.consume s n)) ≤ scaled (tokens s).
Proof.
  intros Hok Hf Hn. apply sub_bounds; [done|done|apply of_u64_nonneg; lia|].
  apply of_u64_upper; [lia|done|].
  rewrite to_u64_scaled in Hn by done.
  pose proof (Z.mul_div_le (scaled (tokens s)) (2 ^ 1074) ltac:(lia)).
  assert (n ≤ scaled (tokens s) / 2 ^ 1074) by lia. nia.
Qed.

Lemma tick_available s now limit :
  shaper_ok s → is_u64 limit → is_duration (duration_since now (prev_ts s)) →
  (Shaper.tick s now limit).2 ≤ f64_to_u64 (tokens (Shaper.tick s now limit).1).
Proof.
  intros. unfold Shaper.tick. cbn -[f64_to_u64]. destruct (_ <? _); [|done].
  cbn [fst snd tokens]. pose proof (to_u64_range (f64_add (tokens s)
    (f64_mul (f64_of_u64 limit) (as_secs_f64 (duration_since now (prev_ts s)))))) as Hr.
  apply Hr.
Qed.

Lemma tick_le_limit s now limit :
  shaper_ok s → 0 ≤ limit < 2 ^ 53 → is_duration (duration_since now (prev_ts s)) →
  0 ≤ (Shaper.tick s now limit).2 ≤ limit.
Proof.
  intros Hok Hl Hel. assert (is_u64 limit) by (unfold is_u64; lia).
  rewrite tick_result, to_u64_of_u64 by done.
  destruct (_ <? _); [lia|].
  match goal with |- context [f64_to_u64 ?x] => pose proof (to_u64_range x) as [? _] end. lia.
Qed.

Lemma shaper_step_ok s s' :
  shaper_step s s' → shaper_ok s → is_u64 (burst_size s) →
  shaper_ok s' ∧ burst_size s' = burst_size s.
Proof.
  intros Hstep Hok Hb. destruct Hstep as [s now limit n Hlim Hel Hn].
  split; [|apply burst_size_tick].
  pose proof (tick_available s now limit Hok Hlim Hel).
  apply consume_ok; [by apply tick_ok|by apply tick_finite|lia].
Qed.

(** ** Properties *)

(** In every execution of a worker loop, under any clock and any sequence
    of limits, the tokens of the bucket are a canonical non-negative number:
    subtracting the consumed operations never makes them negative or NaN, so
    the truncation in [tick] never loses a sign. *)
Theorem shaper_never_overdrawn burst t0 s :
  is_u64 burst → rtc shaper_step (Shaper.new burst t0) s →
  f64_nonneg (tokens s) ∧ burst_size s = burst.
Proof.
  intros Hb Hr.
  assert (shaper_ok (Shaper.new burst t0) ∧ burst_size (Shaper.new burst t0) = burst) as Hi by done.
  remember (Shaper.new burst t0) as s0 eqn:He. clear He.
  induction Hr as [s|s1 s2 s3 Hst _ IH]; [exact Hi|].
  destruct Hi as [Hok Hbs]. subst burst.
  destruct (shaper_step_ok s1 s2 Hst Hok Hb) as [Hok' Hb']. apply IH. auto.
Qed.

(** A tick never makes more than one second's worth of operations
    available, withholds them while fewer than [burst_size] have gathered, and
    otherwise makes at least [min(burst_size, limit)] available. *)
Theorem shaper_tick_bounds s now limit :
  f64_nonneg (tokens s) → 0 ≤ limit < 2 ^ 53 → is_duration (duration_since now (prev_ts s)) →
  let n := (Shaper.tick s now limit).2 in
  0 ≤ n ≤ limit ∧ (n = 0 ∨ Z.min (burst_size s) limit ≤ n).
Proof.
  intros Hok Hl Hel; cbv zeta. split; [by apply tick_le_limit|].
  assert (is_u64 limit) by (unfold is_u64; lia).
  rewrite tick_result, to_u64_of_u64 by done.
  match goal with |- context [?x <? _] => destruct (Z.ltb_spec x (burst_size s)) end; [by left|right; lia].
Qed.

(** After a second without a tick the whole limit is available, whatever
    was left in the bucket; a limit of zero makes nothing available. *)
Theorem shaper_tick_refills s now limit :
  f64_nonneg (tokens s) → 0 ≤ limit < 2 ^ 53 → is_duration (duration_since now (prev_ts s)) →
  burst_size s ≤ limit → NANOS_PER_SEC ≤ duration_since now (prev_ts s) →
  (Shaper.tick s now limit).2 = limit ∧ (Shaper.tick s now 0).2 = 0.
Proof.
  intros Hok Hl Hel Hb Hs. assert (is_u64 limit) as Hu by (unfold is_u64; lia).
  split.
  - rewrite tick_result, to_u64_of_u64 by done.
    pose proof (tick_t_refilled s now limit Hok Hu Hel Hs) as Hr.
    apply to_u64_mono in Hr; [|apply of_u64_nonneg; lia|by apply tick_t_nonneg].
    rewrite to_u64_of_u64 in Hr by done.
    destruct (Z.ltb_spec (f64_to_u64 (f64_add (tokens s) (f64_mul (f64_of_u64 limit)
      (as_secs_f64 (duration_since now (prev_ts s)))))) (burst_size s)); lia.
  - pose proof (tick_le_limit s now 0 Hok ltac:(lia) Hel). lia.
Qed.

(** ** Instances *)

Definition example_shaper : Shaper := Shaper.new 32 0.

Lemma shaper_never_overdrawn_witness :
  f64_nonneg (tokens (Shaper.consume (Shaper.tick example_shaper 500000000 1000).1 400)).
Proof.
  apply (shaper_never_overdrawn 32 0); [done|].
  apply rtc_once. constructor; vm_compute; done.
Defined.

Lemma shaper_tick_bounds_witness :
  let n := (Shaper.tick example_shaper 500000000 1000).2 in
  n = 500 ∧ 0 ≤ n ≤ 1000 ∧ (n = 0 ∨ Z.min 32 1000 ≤ n).
Proof.
  split; [vm_compute; done|].
  apply (shaper_tick_bounds example_shaper 500000000 1000); vm_compute; done.
Defined.

Lemma shaper_tick_refills_witness :
  (Shaper.tick example_shaper 2500000000 1000).2 = 1000 ∧
  (Shaper.tick example_shaper 2500000000 0).2 = 0.
Proof.
  apply (shaper_tick_refills example_shaper 2500000000 1000); vm_compute; done.
Defined.
