(* ===== verification/Generator.v ===== *)
(** * Load profiles ([dwd-core/src/generator.rs])

    [Config] is the profile as written in a file, [Gen] the running generator
    behind [Box<dyn Generator>].  [create] reads the clock once, as [now]; the
    instants it leaves in the generators are overwritten by [activate_at].  [sin]
    and [asin] of the platform's mathematical library are parameters. *)
From S2P Require Import Prelude Machine F64 Time.

(** ** Configuration *)

Record ConstGeneratorConfig := { const_rps : Z; const_duration : Z }.

Record LineGeneratorConfig := { line_rps : Z * Z; line_duration : Z }.

Record SinGeneratorConfig := {
  pps : Z * Z;
  pps_min : Z;
  pps_max : Z;
  approximate_period : Z;
  sin_duration : Z;
}.

Inductive Config :=
  | Const (c : ConstGeneratorConfig)
  | Line (c : LineGeneratorConfig)
  | Sin (c : SinGeneratorConfig)
  | Seq (generators : list Config)
  | Sum (generators : list Config).

Section config_ind.
Context (P : Config → Prop).
Hypothesis HConst : ∀ c, P (Const c).
Hypothesis HLine : ∀ c, P (Line c).
Hypothesis HSin : ∀ c, P (Sin c).
Hypothesis HSeq : ∀ gs, Forall P gs → P (Seq gs).
Hypothesis HSum : ∀ gs, Forall P gs → P (Sum gs).

Fixpoint Config_ind' (c : Config) : P c :=
  let go := fix go (gs : list Config) : Forall P gs :=
    match gs with
    | [] => List.Forall_nil P
    | g :: gs => List.Forall_cons P g gs (Config_ind' g) (go gs)
    end in
  match c with
  | Const c => HConst c
  | Line c => HLine c
  | Sin c => HSin c
  | Seq gs => HSeq gs (go gs)
  | Sum gs => HSum gs (go gs)
  end.
End config_ind.

(** [GeneratorFactory::reduce]: the share of one of [factor] instances. *)
Definition const_reduce (factor : Z) (c : ConstGeneratorConfig) : ConstGeneratorConfig :=
  {| const_rps := const_rps c / factor; const_duration := const_duration c |}.
Definition line_reduce (factor : Z) (c : LineGeneratorConfig) : LineGeneratorConfig :=
  {| line_rps := (fst (line_rps c) / factor, snd (line_rps c) / factor); line_duration := line_duration c |}.
Definition sin_reduce (factor : Z) (c : SinGeneratorConfig) : SinGeneratorConfig :=
  {| pps := (fst (pps c) / factor, snd (pps c) / factor);
     pps_min := pps_min c / factor; pps_max := pps_max c / factor;
     approximate_period := approximate_period c;
     sin_duration := sin_duration c |}.
Arguments const_reduce _ _ /.
Arguments line_reduce _ _ /.
Arguments sin_reduce _ _ /.

Fixpoint reduce (factor : Z) (c : Config) : Config :=
  match c with
  | Const c => Const (const_reduce factor c)
  | Line c => Line (line_reduce factor c)
  | Sin c => Sin (sin_reduce factor c)
  | Seq gs => Seq (map (reduce factor) gs)
  | Sum gs => Sum (map (reduce factor) gs)
  end.

(** [Duration += Duration]. *)
Definition duration_add (a b : Duration) : res Duration :=
  if as_secs (a + b) <? 2 ^ 64 then Ok (a + b) else Panic "overflow when adding durations".

(** The folds of [SeqGeneratorConfig::duration] and [SumGeneratorConfig::duration]. *)
Definition seq_duration (ds : list (res Duration)) : res Duration :=
  foldl (λ out g, let! out := out in let! d := g in duration_add out d) (Ok (duration_from_secs 0)) ds.
Definition sum_duration (ds : list (res Duration)) : res Duration :=
  foldl (λ out g, let! out := out in let! d := g in Ok (Z.max out d)) (Ok (duration_from_secs 0)) ds.
Arguments seq_duration _ /.
Arguments sum_duration _ /.

(** [GeneratorFactory::duration]. *)
Fixpoint duration (c : Config) : res Duration :=
  match c with
  | Const c => Ok (duration_from_secs (const_duration c))
  | Line c => Ok (duration_from_secs (line_duration c))
  | Sin c => Ok (duration_from_secs (sin_duration c))
  | Seq gs => seq_duration (map duration gs)
  | Sum gs => sum_duration (map duration gs)
  end.

(** ** Running generators *)

Record LineGenerator := { line_k : Z; line_b : Z; line_t0 : Instant; line_dur : Duration }.

Module LineGenerator.
(** [LineGenerator::new]. *)
Definition new (rps0 rps1 : Z) (duration : Duration) (now : Instant) : res LineGenerator :=
  let! k := i64_div (i64_mul (i64_sub (as_i64 rps1) (as_i64 rps0)) 1000000000)
              (as_i64 (as_nanos duration)) in
  Ok {| line_k := k; line_b := rps0; line_t0 := now; line_dur := duration |}.

Definition activate_at (self : LineGenerator) (now : Instant) : LineGenerator :=
  {| line_k := line_k self; line_b := line_b self; line_t0 := now; line_dur := line_dur self |}.

Definition current_at (self : LineGenerator) (now : Instant) : option Z :=
  let elapsed := duration_since now (line_t0 self) in
  if line_dur self <? elapsed then None
  else
    Some (as_u64 (i64_add
      (Z.quot (i64_mul (line_k self) (as_i64 (as_nanos elapsed))) 1000000000)
      (as_i64 (line_b self)))).
End LineGenerator.

Record SinGenerator := {
  pps_mid : f64; sin_a : f64; sin_k : f64; phase : f64;
  sin_t0 : Instant; sin_dur : Duration
}.

Definition f64_abs (x : f64) : f64 := SFabs x.

(** [core::f64::consts::PI]. *)
Definition PI : f64 := f64_lit 7074237752028440 (-51).

Section trigonometry.
Context (sin asin : f64 → f64).

(** One candidate of [find_closest_phase]: the phase, the slope and the
    distance of its period from the wanted one. *)
Definition phase_candidate (self : SinGeneratorConfig) (pps_mid a : f64) (n : Z) : f64 * f64 * f64 :=
  let n := f64_of_i64 n in
  let phase := f64_add (asin (f64_div (f64_sub (f64_of_u64 (fst (pps self))) pps_mid) a))
                 (f64_mul (f64_mul (f64_of_u64 2) PI) n) in
  let k := f64_div
             (f64_sub (asin (f64_div (f64_sub (f64_of_u64 (snd (pps self))) pps_mid) a)) phase)
             (as_secs_f64 (duration_from_secs (sin_duration self))) in
  let period := f64_abs (f64_div (f64_mul (f64_of_u64 2) PI) k) in
  let err := f64_abs (f64_sub period
               (as_secs_f64 (duration_from_secs (approximate_period self)))) in
  (phase, k, err).

Fixpoint find_closest_phase_loop (self : SinGeneratorConfig) (pps_mid a : f64)
    (ns : list Z) (prev_phase prev_k prev_err : f64) : res (f64 * f64) :=
  match ns with
  | [] => Err "failed to find parameters for sin function"
  | n :: ns =>
      let '(phase, k, err) := phase_candidate self pps_mid a n in
      if f64_gtb err prev_err then Ok (prev_phase, prev_k)
      else find_closest_phase_loop self pps_mid a ns phase k err
  end.

Definition find_closest_phase (self : SinGeneratorConfig) (pps_mid a : f64) : res (f64 * f64) :=
  find_closest_phase_loop self pps_mid a (seqZ (-100) 200) f64_zero f64_zero f64_infinity.

Definition SinGenerator_create (self : SinGeneratorConfig) (now : Instant) : res SinGenerator :=
  let a := f64_div (f64_sub (f64_of_u64 (pps_max self)) (f64_of_u64 (pps_min self))) (f64_of_u64 2) in
  let mid := f64_add (f64_of_u64 (pps_min self)) a in
  let! pk := find_closest_phase self mid a in
  Ok {| pps_mid := mid; sin_a := a; sin_k := snd pk; phase := fst pk;
        sin_t0 := now; sin_dur := duration_from_secs (sin_duration self) |}.

Definition SinGenerator_activate_at (self : SinGenerator) (now : Instant) : SinGenerator :=
  {| pps_mid := pps_mid self; sin_a := sin_a self; sin_k := sin_k self; phase := phase self;
     sin_t0 := now; sin_dur := sin_dur self |}.

Definition SinGenerator_current_at (self : SinGenerator) (now : Instant) : option Z :=
  let elapsed := duration_since now (sin_t0 self) in
  if sin_dur self <? elapsed then None
  else
    Some (Z.max 0 (f64_to_u64
      (f64_add (pps_mid self)
         (f64_mul (sin_a self)
            (sin (f64_add (f64_mul (sin_k self) (as_secs_f64 elapsed)) (phase self))))))).
End trigonometry.

Inductive Gen :=
  | GLine (g : LineGenerator)
  | GSin (g : SinGenerator)
  | GSeq (idx : nat) (generators : list Gen)
  | GSum (generators : list Gen).

Section gen_ind.
Context (P : Gen → Prop).
Hypothesis HLine : ∀ g, P (GLine g).
Hypothesis HSin : ∀ g, P (GSin g).
Hypothesis HSeq : ∀ idx gs, Forall P gs → P (GSeq idx gs).
Hypothesis HSum : ∀ gs, Forall P gs → P (GSum gs).

Fixpoint Gen_ind' (g : Gen) : P g :=
  let go := fix go (gs : list Gen) : Forall P gs :=
    match gs with
    | [] => List.Forall_nil P
    | g :: gs => List.Forall_cons P g gs (Gen_ind' g) (go gs)
    end in
  match g with
  | GLine g => HLine g
  | GSin g => HSin g
  | GSeq idx gs => HSeq idx gs (go gs)
  | GSum gs => HSum gs (go gs)
  end.
End gen_ind.

Section generator.
Context (sin asin : f64 → f64).

(** [GeneratorFactory::create]. *)
Definition const_create (now : Instant) (c : ConstGeneratorConfig) : res Gen :=
  let! g := LineGenerator.new (const_rps c) (const_rps c) (duration_from_secs (const_duration c)) now in Ok (GLine g).
Definition line_create (now : Instant) (c : LineGeneratorConfig) : res Gen :=
  let! g := LineGenerator.new (fst (line_rps c)) (snd (line_rps c))
              (duration_from_secs (line_duration c)) now in Ok (GLine g).
Definition seq_create (gs : res (list Gen)) : res Gen := let! gs := gs in Ok (GSeq 0 gs).
Definition sum_create (gs : res (list Gen)) : res Gen := let! gs := gs in Ok (GSum gs).

Fixpoint create (now : Instant) (c : Config) : res Gen :=
  match c with
  | Const c => const_create now c
  | Line c => line_create now c
  | Sin c => let! g := SinGenerator_create asin c now in Ok (GSin g)
  | Seq gs => seq_create (res_mapM (create now) gs)
  | Sum gs => sum_create (res_mapM (create now) gs)
  end.

(** [Generator::activate_at]: of a sequence, only the current element. *)
Fixpoint activate_at (now : Instant) (g : Gen) : Gen :=
  match g with
  | GLine g => GLine (LineGenerator.activate_at g now)
  | GSin g => GSin (SinGenerator_activate_at g now)
  | GSeq idx gs => GSeq idx (alter (activate_at now) idx gs)
  | GSum gs => GSum (map (activate_at now) gs)
  end.

Definition opt_add (out v : option Z) : option Z :=
  match out, v with
  | _, None => out
  | None, Some v => Some v
  | Some o, Some v => Some (u64_add o v)
  end.

(** The loop of [SumGenerator::current_at]. *)
Fixpoint sum_current (cur : Gen → Gen * option Z) (gs : list Gen) (out : option Z) : list Gen * option Z :=
  match gs with
  | [] => ([], out)
  | g :: gs =>
      let '(g', v) := cur g in
      let '(gs', out) := sum_current cur gs (opt_add out v) in
      (g' :: gs', out)
  end.

(** The tail recursion of [SeqGenerator::current_at], at most [n] rounds. *)
Fixpoint seq_current (cur : Gen → Gen * option Z) (act : Gen → Gen)
    (n : nat) (idx : nat) (gs : list Gen) : Gen * option Z :=
  match n, gs !! idx with
  | S n, Some g =>
      let '(g', v) := cur g in
      match v with
      | Some v => (GSeq idx (<[idx := g']> gs), Some v)
      | None => seq_current cur act n (S idx) (alter act (S idx) (<[idx := g']> gs))
      end
  | _, _ => (GSeq idx gs, None)
  end.

Fixpoint current_at_fuel (fuel : nat) (now : Instant) (g : Gen) : Gen * option Z :=
  match g, fuel with
  | GLine l, _ => (g, LineGenerator.current_at l now)
  | GSin s, _ => (g, SinGenerator_current_at sin s now)
  | GSeq idx gs, S fuel =>
      seq_current (current_at_fuel fuel now) (activate_at now) (length gs) idx gs
  | GSum gs, S fuel =>
      let '(gs, out) := sum_current (current_at_fuel fuel now) gs None in (GSum gs, out)
  | _, O => (g, None)
  end.

Fixpoint depth (g : Gen) : nat :=
  match g with
  | GLine _ | GSin _ => 0
  | GSeq _ gs | GSum gs => S (max_list (map depth gs))
  end.

(** [Generator::current_at]. *)
Definition current_at (now : Instant) (g : Gen) : Gen * option Z :=
  current_at_fuel (depth g) now g.
End generator.

Arguments const_create _ _ /.
Arguments line_create _ _ /.
Arguments seq_create _ /.
Arguments sum_create _ /.

(** [load] and [load_config]: reading and parsing the file are parameters. *)
Section load.
Context (sin asin : f64 → f64).
Context (read : string → res (list Z)) (from_slice : list Z → res Config).

Definition load_config (path : string) : res Config :=
  let! data := read path in from_slice data.

Definition load (path : string) (now : Instant) : res Gen :=
  let! cfg := load_config path in create asin now cfg.
End load.

(** ** The recursion of [current_at] never runs out of fuel *)

Section fuel.
Context (sin : f64 → f64).
Abbreviation cur := (current_at_fuel sin).

Lemma activate_at_depth now g : depth (activate_at now g) = depth g.
Proof.
  induction g as [| |idx gs IH|gs IH] using Gen_ind'; [done..| |]; cbn; do 2 f_equal.
  - revert idx. induction IH as [|g gs Hg _ IH]; intros idx; [done|].
    destruct idx as [|idx]; cbn; [by rewrite Hg|]. f_equal. apply IH.
  - induction IH as [|g gs Hg _ IH]; [done|]. cbn. by rewrite Hg, IH.
Qed.

Lemma map_depth_alter now i gs : map depth (alter (activate_at now) i gs) = map depth gs.
Proof.
  revert i. induction gs as [|g gs IH]; intros [|i]; cbn; [done..| |].
  - by rewrite activate_at_depth.
  - f_equal. apply IH.
Qed.

Lemma map_depth_insert i g g' gs :
  gs !! i = Some g → depth g' = depth g → map depth (<[i := g']> gs) = map depth gs.
Proof.
  revert i. induction gs as [|h gs IH]; intros [|i] Hi Hd; simplify_eq/=; [by rewrite Hd|].
  f_equal. by apply IH.
Qed.

(** Polling changes neither the shape nor the depth of a generator. *)
Lemma seq_current_depth (f : Gen → Gen * option Z) now n idx gs :
  (∀ g, depth (f g).1 = depth g) →
  depth (seq_current f (activate_at now) n idx gs).1 = depth (GSeq idx gs).
Proof.
  intros Hf. revert idx gs. induction n as [|n IH]; intros idx gs; cbn [seq_current]; [done|].
  destruct (gs !! idx) as [g|] eqn:Hi; [|done].
  specialize (Hf g). destruct (f g) as [g' [v|]]; cbn [fst] in *.
  - cbn. by rewrite (map_depth_insert _ g).
  - rewrite IH. cbn. by rewrite map_depth_alter, (map_depth_insert _ g).
Qed.

Lemma sum_current_depth (f : Gen → Gen * option Z) gs out :
  (∀ g, depth (f g).1 = depth g) → map depth (sum_current f gs out).1 = map depth gs.
Proof.
  intros Hf. revert out. induction gs as [|g gs IH]; intros out; [done|]. cbn.
  specialize (Hf g). destruct (f g) as [g' v]. specialize (IH (opt_add out v)).
  destruct (sum_current f gs (opt_add out v)) as [gs' o]. cbn in *. by rewrite Hf, IH.
Qed.

Lemma current_at_fuel_depth n now g : depth (cur n now g).1 = depth g.
Proof.
  revert g. induction n as [|n IH]; intros [| |idx gs|gs]; try done.
  - by apply seq_current_depth.
  - cbn. pose proof (sum_current_depth (cur n now) gs None IH) as H.
    destruct (sum_current _ gs None) as [gs' o]. cbn in *. by rewrite H.
Qed.

Lemma seq_current_ext (f f' : Gen → Gen * option Z) now n idx gs d :
  (∀ g, depth (f g).1 = depth g) → (∀ g, (depth g ≤ d)%nat → f g = f' g) →
  (max_list (map depth gs) ≤ d)%nat →
  seq_current f (activate_at now) n idx gs = seq_current f' (activate_at now) n idx gs.
Proof.
  intros Hfd Hext. revert idx gs. induction n as [|n IH]; intros idx gs Hd; [done|]. cbn.
  destruct (gs !! idx) as [g|] eqn:Hi; [|done].
  assert (depth g ≤ d)%nat as Hg.
  { etrans; [|exact Hd]. apply max_list_elem_of_le. apply list_elem_of_fmap. exists g.
    split; [done|]. by eapply list_elem_of_lookup_2. }
  rewrite <-Hext by done. specialize (Hfd g). destruct (f g) as [g' [v|]]; [done|].
  apply IH. by rewrite map_depth_alter, (map_depth_insert _ g).
Qed.

Lemma sum_current_ext (f f' : Gen → Gen * option Z) gs out d :
  (∀ g, (depth g ≤ d)%nat → f g = f' g) → (max_list (map depth gs) ≤ d)%nat →
  sum_current f gs out = sum_current f' gs out.
Proof.
  intros Hext. revert out. induction gs as [|g gs IH]; intros out Hd; [done|]. cbn in *.
  rewrite <-Hext by lia. destruct (f g). by rewrite IH by lia.
Qed.

Lemma current_at_fuel_enough n now g :
  (depth g ≤ n)%nat → cur n now g = current_at sin now g.
Proof.
  unfold current_at. revert g.
  assert (∀ d n g, (depth g ≤ d)%nat → (d ≤ n)%nat → cur n now g = cur d now g) as H.
  { clear. induction d as [|d IH]; intros n g Hd Hn; destruct n as [|n]; try lia; [done| |];
      destruct g as [| |idx gs|gs]; cbn in Hd; try lia; try done; cbn.
    - apply (seq_current_ext _ _ now _ _ _ d); [|intros; apply IH; lia|lia].
      intros; apply current_at_fuel_depth.
    - rewrite (sum_current_ext _ (cur d now) _ _ d); [done|intros; apply IH; lia|lia]. }
  intros g Hg. by apply H.
Qed.

Lemma seq_current_rounds (f : Gen → Gen * option Z) now n m idx gs :
  (length gs ≤ idx + n)%nat → (length gs ≤ idx + m)%nat →
  seq_current f (activate_at now) n idx gs = seq_current f (activate_at now) m idx gs.
Proof.
  revert m idx gs. induction n as [|n IH]; intros m idx gs Hn Hm.
  - destruct m; cbn; [done|]. by rewrite lookup_ge_None_2 by lia.
  - destruct m as [|m]; cbn; [by rewrite lookup_ge_None_2 by lia|].
    destruct (gs !! idx) as [g|] eqn:Hi; [|done].
    destruct (f g) as [g' [v|]]; [done|].
    apply IH; rewrite length_alter, length_insert; lia.
Qed.

(** The code of [SeqGenerator::current_at]. *)
Lemma current_at_seq_eq now idx gs :
  current_at sin now (GSeq idx gs) =
    match gs !! idx with
    | None => (GSeq idx gs, None)
    | Some g =>
        let '(g', v) := current_at sin now g in
        match v with
        | Some v => (GSeq idx (<[idx := g']> gs), Some v)
        | None => current_at sin now (activate_at now (GSeq (S idx) (<[idx := g']> gs)))
        end
    end.
Proof.
  unfold current_at at 1. cbn [depth current_at_fuel].
  set (d := max_list (map depth gs)).
  destruct (gs !! idx) as [g|] eqn:Hi.
  - assert (depth g ≤ d)%nat as Hg.
    { apply max_list_elem_of_le, list_elem_of_fmap. exists g.
      split; [done|]. by eapply list_elem_of_lookup_2. }
    pose proof (lookup_lt_Some _ _ _ Hi) as Hlt.
    destruct (length gs) as [|n] eqn:Hlen; [lia|]. cbn [seq_current]. rewrite Hi.
    rewrite current_at_fuel_enough by done.
    pose proof (current_at_fuel_depth (depth g) now g) as Hd. fold (current_at sin now g) in Hd.
    destruct (current_at sin now g) as [g' [v|]]; [done|].
    cbn [activate_at fst] in *.
    unfold current_at. cbn [depth current_at_fuel].
    rewrite map_depth_alter, (map_depth_insert _ g) by done. fold d.
    apply seq_current_rounds; rewrite length_alter, length_insert; lia.
  - destruct (length gs); cbn; [done|by rewrite Hi].
Qed.

(** The code of [SumGenerator::current_at]. *)
Lemma current_at_sum_eq now gs :
  current_at sin now (GSum gs) =
    let '(gs', out) := sum_current (current_at sin now) gs None in (GSum gs', out).
Proof.
  unfold current_at at 1. cbn [depth current_at_fuel].
  rewrite (sum_current_ext _ (current_at sin now) _ _ (max_list (map depth gs))); [done| |done].
  intros g Hg. by rewrite current_at_fuel_enough.
Qed.
End fuel.
