(* ===== verification/Profile.v ===== *)
(** * What a load profile produces

    Values of the leaf generators, the slope error of [LineGenerator], when a
    nested profile ends, and how [reduce] splits a profile between instances. *)
From S2P Require Import Prelude Machine F64 Time Generator.
From Stdlib Require Import Sorted.

(** ** Lines *)

(** The offset from the first rate after [el] nanoseconds of a line that
    changes by [diff] in [dur] nanoseconds, without wrap-around. *)
Definition line_slope (diff dur : Z) : Z := Z.quot (diff * 1000000000) dur.
Definition line_offset (diff dur el : Z) : Z := Z.quot (line_slope diff dur * el) 1000000000.

Lemma line_offset_opp diff dur el :
  dur ≠ 0 → line_offset (- diff) dur el = - line_offset diff dur el.
Proof.
  intros Hd. unfold line_offset, line_slope.
  rewrite Z.mul_opp_l, Z.quot_opp_l, Z.mul_opp_l, Z.quot_opp_l by lia. done.
Qed.

Lemma line_slope_bounds diff dur :
  0 ≤ diff → 0 < dur →
  0 ≤ line_slope diff dur ∧
  diff * 1000000000 - dur < line_slope diff dur * dur ≤ diff * 1000000000.
Proof.
  intros Hd Hdur. unfold line_slope. rewrite Z.quot_div_nonneg by lia.
  pose proof (Z.div_mod (diff * 1000000000) dur ltac:(lia)).
  pose proof (Z.mod_pos_bound (diff * 1000000000) dur ltac:(lia)).
  split; [apply Z.div_pos; lia|]. lia.
Qed.

Lemma line_offset_pos diff dur el :
  0 ≤ diff → 0 < dur → 0 ≤ el ≤ dur →
  0 ≤ line_slope diff dur * el ≤ diff * 1000000000 ∧ 0 ≤ line_offset diff dur el ≤ diff.
Proof.
  intros Hd Hdur Hel. destruct (line_slope_bounds diff dur Hd Hdur) as [H1 H2].
  assert (0 ≤ line_slope diff dur * el ≤ diff * 1000000000) as H by nia.
  split; [done|]. unfold line_offset. rewrite Z.quot_div_nonneg by lia.
  split; [apply Z.div_pos; lia|apply Z.div_le_upper_bound; lia].
Qed.

Lemma line_offset_mono diff dur e1 e2 :
  0 ≤ diff → 0 < dur → 0 ≤ e1 ≤ e2 → line_offset diff dur e1 ≤ line_offset diff dur e2.
Proof.
  intros Hd Hdur He. destruct (line_slope_bounds diff dur Hd Hdur) as [H1 _].
  unfold line_offset. apply Z.quot_le_mono; nia.
Qed.

(** The truncated offset is never past the ideal one, and short of it by less
    than one plus one for each second elapsed. *)
Lemma line_offset_near diff secs el :
  0 ≤ diff → 0 < secs → 0 ≤ el →
  0 ≤ diff * el - line_offset diff (duration_from_secs secs) el * duration_from_secs secs
    < secs * (el + NANOS_PER_SEC).
Proof.
  intros Hd Hs He. set (D := duration_from_secs secs).
  assert (D = secs * 1000000000) as HD by done. change NANOS_PER_SEC with 1000000000.
  destruct (line_slope_bounds diff D Hd ltac:(lia)) as [H1 H2].
  unfold line_offset. rewrite Z.quot_div_nonneg by nia. set (k := line_slope diff D) in *.
  pose proof (Z.div_mod (k * el) 1000000000 ltac:(lia)).
  pose proof (Z.mod_pos_bound (k * el) 1000000000 ltac:(lia)). set (q := k * el / 1000000000) in *.
  rewrite HD in *. clearbody q k D. split; nia.
Qed.

(** The documented domain of [LineGenerator::new]. *)
Definition line_domain (rps0 rps1 secs : Z) : Prop :=
  0 ≤ rps0 < 2 ^ 63 ∧ 0 ≤ rps1 < 2 ^ 63 ∧ Z.abs (rps1 - rps0) ≤ 1000000000 ∧
  0 < secs ∧ duration_from_secs secs < 2 ^ 63.

Lemma line_new_ok rps0 rps1 secs now :
  line_domain rps0 rps1 secs →
  LineGenerator.new rps0 rps1 (duration_from_secs secs) now =
    Ok {| line_k := line_slope (rps1 - rps0) (duration_from_secs secs); line_b := rps0;
          line_t0 := now; line_dur := duration_from_secs secs |}.
Proof.
  intros (H0 & H1 & Hd & Hs & Hdur). unfold LineGenerator.new, i64_div, i64_sub, i64_mul, as_nanos.
  unfold duration_from_secs, NANOS_PER_SEC in *.
  rewrite !(as_i64_id rps0), !(as_i64_id rps1), (as_i64_id (rps1 - rps0)),
    (as_i64_id ((rps1 - rps0) * 1000000000)), (as_i64_id (secs * 1000000000)) by (unfold is_i64; lia).
  destruct (Z.eqb_spec (secs * 1000000000) 0); [lia|].
  destruct (Z.eqb_spec (secs * 1000000000) (-1)); [lia|]. by rewrite andb_false_r.
Qed.

Section line.
Context (rps0 rps1 secs : Z) (g : LineGenerator) (now : Instant).
Hypothesis Hdom : line_domain rps0 rps1 secs.
Hypothesis Hk : line_k g = line_slope (rps1 - rps0) (duration_from_secs secs).
Hypothesis Hb : line_b g = rps0.
Hypothesis Hdur : line_dur g = duration_from_secs secs.

Lemma line_current el :
  el = duration_since now (line_t0 g) → el ≤ duration_from_secs secs →
  LineGenerator.current_at g now =
    Some (rps0 + line_offset (rps1 - rps0) (duration_from_secs secs) el) ∧
  Z.min rps0 rps1 ≤ rps0 + line_offset (rps1 - rps0) (duration_from_secs secs) el ≤ Z.max rps0 rps1.
Proof using All.
  intros Hel Hle. destruct Hdom as (H0 & H1 & Hd & Hs & Hd63).
  set (D := duration_from_secs secs) in *.
  assert (0 < D) as HD by (unfold D, duration_from_secs, NANOS_PER_SEC in *; lia).
  assert (0 ≤ el) as Hel0 by (subst el; apply duration_since_nonneg).
  set (diff := rps1 - rps0) in *.
  assert (Z.abs (line_slope diff D * el) ≤ 1000000000 * 1000000000 ∧
    (0 ≤ diff → 0 ≤ line_offset diff D el ≤ diff) ∧
    (diff ≤ 0 → diff ≤ line_offset diff D el ≤ 0)) as (Hm & Hp & Hn).
  { destruct (Z.le_ge_cases 0 diff) as [Hge|Hneg].
    - destruct (line_offset_pos diff D el Hge HD) as [? ?]; [lia|].
      split_and!; [lia|done|]. intros. lia.
    - destruct (line_offset_pos (- diff) D el ltac:(lia) HD) as [Ha Hb']; [lia|].
      rewrite line_offset_opp in Hb' by lia.
      assert (line_slope (- diff) D = - line_slope diff D) as Hso.
      { unfold line_slope. rewrite Z.mul_opp_l, Z.quot_opp_l by lia. done. }
      rewrite Hso in Ha. split_and!; [lia|intros; lia|lia]. }
  split; [|lia].
  unfold LineGenerator.current_at. rewrite <-Hel, Hdur, Hk, Hb.
  destruct (Z.ltb_spec D el); [lia|]. f_equal.
  unfold i64_mul, i64_add, as_nanos.
  rewrite (as_i64_id el), (as_i64_id rps0), (as_i64_id (line_slope diff D * el)) by (unfold is_i64; lia).
  change (Z.quot (line_slope diff D * el) 1000000000) with (line_offset diff D el).
  rewrite as_i64_id, as_u64_id by (unfold is_i64, is_u64; lia). lia.
Qed.
End line.

(** C12: inside the documented domain a line profile runs for exactly its
    duration; every rate it yields lies between its two rates, without
    wrap-around, starts at the first one, moves monotonically, and follows the
    ideal line: it is never past it, and at every instant short of it by less
    than one operation per second plus one for each second elapsed — the slope is
    truncated, so that at the end up to [duration + 1] are missing, and a ramp
    slower than one per second each second stays flat ([line_slow_ramp_is_flat]). *)
Theorem line_profile_spec rps0 rps1 secs t0 :
  line_domain rps0 rps1 secs →
  ∃ g, LineGenerator.new rps0 rps1 (duration_from_secs secs) t0 = Ok g ∧
    ∀ now, t0 ≤ now →
      (now - t0 ≤ duration_from_secs secs →
        ∃ v, LineGenerator.current_at g now = Some v ∧
          Z.min rps0 rps1 ≤ v ≤ Z.max rps0 rps1 ∧
          0 ≤ Z.abs (rps1 - rps0) * (now - t0) - Z.abs (v - rps0) * duration_from_secs secs
            < secs * (now - t0 + NANOS_PER_SEC) ∧
          (now = t0 → v = rps0) ∧
          (now - t0 = duration_from_secs secs → Z.abs (rps1 - v) ≤ secs + 1) ∧
          (∀ now' v', now ≤ now' → LineGenerator.current_at g now' = Some v' →
             if rps0 <=? rps1 then v ≤ v' else v' ≤ v)) ∧
      (duration_from_secs secs < now - t0 → LineGenerator.current_at g now = None).
Proof.
  intros Hdom. rewrite line_new_ok by done. eexists. split; [done|].
  set (g := {| line_k := _ |}). intros now Hnow.
  set (D := duration_from_secs secs) in *. set (diff := rps1 - rps0) in *.
  assert (0 < D) as HD by (unfold D, duration_from_secs, NANOS_PER_SEC; unfold line_domain in Hdom; lia).
  assert (∀ n, t0 ≤ n → duration_since n (line_t0 g) = n - t0) as Hds.
  { intros. unfold duration_since. cbn. lia. }
  split; last first.
  { intros Hlt. unfold LineGenerator.current_at. rewrite Hds by done. cbn [line_dur g].
    destruct (Z.ltb_spec D (now - t0)); [done|lia]. }
  intros Hle.
  destruct (line_current rps0 rps1 secs g now Hdom eq_refl eq_refl eq_refl (now - t0)) as [Hc Hr];
    [by rewrite Hds|done|].
  eexists. split; [exact Hc|]. split; [exact Hr|]. split_and!.
  1, 2: rewrite Z.add_simpl_l; destruct (Z.le_ge_cases 0 diff) as [Hge|Hneg];
    [pose proof (line_offset_near diff secs (now - t0) Hge) as Hnear
    |pose proof (line_offset_near (- diff) secs (now - t0) ltac:(lia)) as Hnear; rewrite line_offset_opp in Hnear by lia];
    pose proof (line_offset_pos (Z.abs diff) D (now - t0) ltac:(lia) HD ltac:(lia)) as [_ Hpos];
    fold D in Hnear; fold diff; fold D; unfold line_domain in Hdom;
    [rewrite !Z.abs_eq by (rewrite Z.abs_eq in Hpos; lia); lia
    |rewrite !Z.abs_neq by (rewrite Z.abs_neq, line_offset_opp in Hpos; lia); lia].
  - intros ->. rewrite Z.sub_diag. unfold line_offset. rewrite Z.mul_0_r. change (Z.quot 0 1000000000) with 0. lia.
  - intros ->. fold diff. fold D.
    assert (∀ df, 0 ≤ df → df - (secs + 1) ≤ line_offset df D D ≤ df) as Hend.
    { intros df Hdf. destruct (line_slope_bounds df D Hdf HD) as [Hs0 Hsb].
      destruct (line_offset_pos df D D Hdf HD) as [_ Hub]; [lia|].
      split; [|lia]. unfold line_offset. rewrite Z.quot_div_nonneg by nia.
      apply Z.div_le_lower_bound; [lia|].
      assert (D = secs * 1000000000) as HDs by done. clearbody D. lia. }
    destruct (Z.le_ge_cases 0 diff) as [Hge|Hneg].
    + specialize (Hend diff Hge). unfold diff in *. lia.
    + specialize (Hend (- diff) ltac:(lia)). rewrite line_offset_opp in Hend by lia. unfold diff in *. lia.
  - intros now' v' Hn' Hv'.
    assert (now' - t0 ≤ D) as Hle'.
    { unfold LineGenerator.current_at in Hv'. rewrite Hds in Hv' by lia. cbn [line_dur g] in Hv'.
      by destruct (Z.ltb_spec D (now' - t0)). }
    destruct (line_current rps0 rps1 secs g now' Hdom eq_refl eq_refl eq_refl (now' - t0)) as [Hc' _];
      [by rewrite Hds by lia|done|].
    rewrite Hc' in Hv'. injection Hv' as <-. fold diff. fold D.
    destruct (Z.leb_spec rps0 rps1).
    + pose proof (line_offset_mono diff D (now - t0) (now' - t0)). unfold diff in *. lia.
    + pose proof (line_offset_mono (- diff) D (now - t0) (now' - t0)) as Hm.
      rewrite !line_offset_opp in Hm by lia. unfold diff in *. lia.
Qed.

Lemma line_profile_spec_witness :
  line_domain 100 1100 10 ∧
  ∃ g, LineGenerator.new 100 1100 (duration_from_secs 10) 7 = Ok g ∧
    LineGenerator.current_at g 7 = Some 100.
Proof.
  assert (line_domain 100 1100 10) as Hd by (vm_compute; intuition discriminate).
  split; [done|]. destruct (line_profile_spec 100 1100 10 7 Hd) as (g & Hg & H).
  exists g. split; [done|]. destruct (H 7 ltac:(lia)) as [H1 _].
  destruct H1 as (v & Hv & _ & _ & H0 & _); [vm_compute; discriminate|].
  rewrite Hv. f_equal. by apply H0.
Defined.

(** The slope is truncated to a whole number of billionths, so a line that
    grows by less than one operation per second every second never moves: a
    ramp to [rps1] over a longer duration stays at [rps0] until it ends. *)
Theorem line_slow_ramp_is_flat rps0 rps1 secs t0 now :
  line_domain rps0 rps1 secs → Z.abs (rps1 - rps0) < secs →
  t0 ≤ now ≤ t0 + duration_from_secs secs →
  ∃ g, LineGenerator.new rps0 rps1 (duration_from_secs secs) t0 = Ok g ∧
    LineGenerator.current_at g now = Some rps0.
Proof.
  intros Hdom Hslow Hnow. rewrite line_new_ok by done. eexists. split; [done|].
  set (g := {| line_k := _ |}).
  destruct (line_current rps0 rps1 secs g now Hdom eq_refl eq_refl eq_refl (now - t0)) as [-> _];
    [unfold duration_since; cbn; lia|lia|].
  f_equal. unfold line_offset. replace (line_slope _ _) with 0; [rewrite Z.mul_0_l; change (Z.quot 0 1000000000) with 0; lia|].
  symmetry. unfold line_slope. apply Z.quot_small_iff; unfold line_domain, duration_from_secs, NANOS_PER_SEC in *; lia.
Qed.

Lemma line_slow_ramp_is_flat_witness :
  ∃ g, LineGenerator.new 0 100 (duration_from_secs 1000) 0 = Ok g ∧
    LineGenerator.current_at g (duration_from_secs 1000) = Some 0.
Proof. apply (line_slow_ramp_is_flat 0 100 1000 0); vm_compute; intuition discriminate. Defined.

(** ** When a nested profile ends *)

(** The time a generator runs for once activated. *)
Fixpoint span (g : Gen) : Duration :=
  match g with
  | GLine g => line_dur g
  | GSin g => sin_dur g
  | GSeq idx gs => zsum (drop idx (map span gs))
  | GSum gs => foldr Z.max 0 (map span gs)
  end.

Lemma foldr_max_witness l : 0 < foldr Z.max 0 l → foldr Z.max 0 l ∈ l.
Proof.
  induction l as [|x l IH]; simpl; [lia|]. intros H.
  destruct (Z.max_spec x (foldr Z.max 0 l)) as [[? ->]|[? ->]]; [right|left].
  apply IH. lia.
Qed.

Lemma span_activate now g : span (activate_at now g) = span g.
Proof.
  induction g as [| |idx gs IH|gs IH] using Gen_ind'; [done..| |]; cbn; f_equal.
  - f_equal. generalize idx. induction IH as [|g gs Hg _ IH]; intros [|i]; cbn; [done..| |].
    + by rewrite Hg.
    + by rewrite IH.
  - induction IH as [|g gs Hg _ IH]; [done|]. cbn. by rewrite Hg, IH.
Qed.

Lemma drop_span_alter f i gs : map span (drop (S i) (alter f i gs)) = map span (drop (S i) gs).
Proof.
  revert i. induction gs as [|g gs IH]; intros [|i]; cbn; done.
Qed.

Lemma drop_map_span i gs g :
  gs !! i = Some g →
  zsum (drop i (map span gs)) = span g + zsum (map span (drop (S i) gs)).
Proof.
  revert i. induction gs as [|h gs IH]; intros [|i] Hi; simplify_eq/=; [done|]. by apply IH.
Qed.

(** [lasts floor g E]: polled at or after [floor], [g] does not end before
    [E]. *)
Inductive lasts (floor : Instant) : Gen → Instant → Prop :=
  | lasts_floor g E : E ≤ floor → lasts floor g E
  | lasts_line g E : 0 ≤ line_dur g → E ≤ line_t0 g + line_dur g → lasts floor (GLine g) E
  | lasts_sin g E : 0 ≤ sin_dur g → E ≤ sin_t0 g + sin_dur g → lasts floor (GSin g) E
  | lasts_seq idx gs g E1 E :
      gs !! idx = Some g → lasts floor g E1 → E ≤ E1 + zsum (map span (drop (S idx) gs)) →
      lasts floor (GSeq idx gs) E
  | lasts_sum gs g E : g ∈ gs → lasts floor g E → lasts floor (GSum gs) E.

(** Activation starts the clock of the generator. *)
Lemma activate_lasts now g : lasts now (activate_at now g) (now + span g).
Proof.
  induction g as [| |idx gs IH|gs IH] using Gen_ind'; cbn.
  - destruct (Z.le_gt_cases 0 (line_dur g)); [by apply lasts_line|apply lasts_floor; lia].
  - destruct (Z.le_gt_cases 0 (sin_dur g)); [by apply lasts_sin|apply lasts_floor; lia].
  - destruct (gs !! idx) as [g|] eqn:Hi.
    + rewrite Forall_forall in IH.
      eapply lasts_seq; [rewrite list_lookup_alter, decide_True, Hi by done; reflexivity| |].
      * apply IH. by eapply list_elem_of_lookup_2.
      * rewrite drop_span_alter, (drop_map_span _ _ g) by done. lia.
    + apply lasts_floor. rewrite drop_ge by (rewrite length_map; by apply lookup_ge_None).
      change (zsum []) with 0. lia.
  - destruct (decide (0 < foldr Z.max 0 (map span gs))) as [Hpos|Hz]; [|apply lasts_floor; lia].
    apply foldr_max_witness in Hpos as (g & Hg & Hin)%list_elem_of_fmap.
    rewrite Forall_forall in IH. eapply lasts_sum; [|rewrite Hg; by apply IH].
    apply list_elem_of_fmap. eauto.
Qed.

(** What a poll at [now] of a generator last polled at [floor] preserves. *)
Definition poll_ok (floor now : Instant) (g : Gen) (p : Gen * option Z) : Prop :=
  ∀ E, lasts floor g E →
    match p.2 with None => E ≤ now | Some _ => lasts now p.1 E end.

Section poll.
Context (sin : f64 → f64) (now : Instant).

Lemma line_poll_ok floor g :
  floor ≤ now → poll_ok floor now (GLine g) (GLine g, LineGenerator.current_at g now).
Proof.
  intros Hf E HE. unfold LineGenerator.current_at, duration_since. cbn [fst snd].
  inversion HE; subst; destruct (Z.ltb_spec (line_dur g) (Z.max 0 (now - line_t0 g))).
  - lia.
  - apply lasts_floor. lia.
  - lia.
  - by apply lasts_line.
Qed.

Lemma sin_poll_ok floor g :
  floor ≤ now → poll_ok floor now (GSin g) (GSin g, SinGenerator_current_at sin g now).
Proof.
  intros Hf E HE. unfold SinGenerator_current_at, duration_since. cbn [fst snd].
  inversion HE; subst; destruct (Z.ltb_spec (sin_dur g) (Z.max 0 (now - sin_t0 g))).
  - lia.
  - apply lasts_floor. lia.
  - lia.
  - by apply lasts_sin.
Qed.

Lemma seq_current_ok (cur : Gen → Gen * option Z) n idx gs floor d :
  floor ≤ now → (length gs ≤ idx + n)%nat →
  (∀ g f, (depth g ≤ d)%nat → f ≤ now → poll_ok f now g (cur g)) →
  (∀ g, depth (cur g).1 = depth g) →
  (max_list (map depth gs) ≤ d)%nat →
  poll_ok floor now (GSeq idx gs) (seq_current cur (activate_at now) n idx gs).
Proof.
  intros Hf Hn Hcur Hdep. revert idx gs floor Hf Hn.
  induction n as [|n IH]; intros idx gs floor Hf Hn Hd E HE; cbn [seq_current].
  { cbn. inversion HE as [? ? ?| | |? ? ? ? ? Hi|]; subst; [lia|].
    apply lookup_lt_Some in Hi. lia. }
  destruct (gs !! idx) as [g|] eqn:Hi; last first.
  { cbn. inversion HE as [? ? ?| | |? ? ? ? ? Hi'|]; subst; [lia|congruence]. }
  assert (depth g ≤ d)%nat as Hg.
  { etrans; [|exact Hd]. apply max_list_elem_of_le, list_elem_of_fmap. exists g.
    split; [done|]. by eapply list_elem_of_lookup_2. }
  pose proof (lookup_lt_Some _ _ _ Hi) as Hlt.
  specialize (Hcur g floor Hg Hf). specialize (Hdep g).
  unfold poll_ok in Hcur. destruct (cur g) as [g' [v|]]; cbn [fst snd] in Hcur, Hdep |- *.
  - inversion HE as [? ? ?| | |? ? ? E1 ? Hi' Hl Hle|]; subst; [apply lasts_floor; lia|].
    rewrite Hi in Hi'. injection Hi' as ->.
    eapply (lasts_seq _ _ _ g' E1); [by rewrite list_lookup_insert, decide_True|by apply Hcur|].
    by rewrite drop_insert_lt by lia.
  - assert (map depth (alter (activate_at now) (S idx) (<[idx:=g']> gs)) = map depth gs) as Hmd.
    { by rewrite map_depth_alter, (map_depth_insert _ g). }
    apply (IH (S idx) _ now); [lia|rewrite length_alter, length_insert; lia|by rewrite Hmd|].
    inversion HE as [? ? ?| | |? ? ? E1 ? Hi' Hl Hle|]; subst; [apply lasts_floor; lia|].
    rewrite Hi in Hi'. injection Hi' as ->. apply Hcur in Hl.
    destruct (gs !! S idx) as [h|] eqn:Hh.
    + eapply lasts_seq.
      * rewrite list_lookup_alter, decide_True, list_lookup_insert_ne, Hh by lia. done.
      * apply activate_lasts.
      * rewrite drop_span_alter, drop_insert_lt by lia.
        rewrite (drop_S _ h (S idx)) in Hle by done. csimpl in *. rewrite zsum_cons in Hle. lia.
    + apply lasts_floor. apply lookup_ge_None in Hh. rewrite drop_ge in Hle by done.
      change (zsum (map span [])) with 0 in Hle. lia.
Qed.

Lemma sum_current_ok (cur : Gen → Gen * option Z) gs out floor :
  floor ≤ now →
  (∀ g, g ∈ gs → poll_ok floor now g (cur g)) →
  let '(gs', out') := sum_current cur gs out in
  (out ≠ None → out' ≠ None) ∧
  (∀ g E, g ∈ gs → lasts floor g E →
    if out' is None then E ≤ now else ∃ g', g' ∈ gs' ∧ lasts now g' E ∨ E ≤ now).
Proof.
  intros Hf. revert out. induction gs as [|g gs IH]; intros out Hcur; cbn.
  { split; [done|]. intros g E Hg. by apply not_elem_of_nil in Hg. }
  pose proof (Hcur g ltac:(left)) as Hg. unfold poll_ok in Hg.
  destruct (cur g) as [g' v]. cbn [fst snd] in Hg.
  specialize (IH (opt_add out v) ltac:(intros; apply Hcur; by right)).
  destruct (sum_current cur gs (opt_add out v)) as [gs' out'].
  destruct IH as [IH1 IH2]. split.
  { intros Ho. apply IH1. by destruct out, v. }
  intros h E [->|Hh]%elem_of_cons HE.
  - specialize (Hg E HE). destruct v as [v|].
    + destruct out' as [o|]; [|destruct (IH1 ltac:(by destruct out)); done].
      exists g'. left. split; [left|done].
    + destruct out'; [by exists g'; right|done].
  - specialize (IH2 h E Hh HE). destruct out' as [o|]; [|done].
    destruct IH2 as (k & [[Hk1 Hk2]|Hk]); exists k; [left; split; [by right|done]|by right].
Qed.

Lemma current_at_poll_ok floor g :
  floor ≤ now → poll_ok floor now g (current_at sin now g).
Proof.
  unfold current_at. intros Hf.
  assert (∀ n g floor, (depth g ≤ n)%nat → floor ≤ now →
    poll_ok floor now g (current_at_fuel sin n now g)) as H; [|by apply H].
  clear. induction n as [|n IH]; intros [| |idx gs|gs] floor Hd Hf; cbn in Hd; try lia;
    try (by apply line_poll_ok); try (by apply sin_poll_ok); cbn [current_at_fuel].
  - apply (seq_current_ok _ _ _ _ _ n); [done|lia|done|apply current_at_fuel_depth|lia].
  - pose proof (sum_current_ok (current_at_fuel sin n now) gs None floor Hf) as Hs.
    destruct (sum_current _ gs None) as [gs' out]. destruct Hs as [_ Hs].
    { intros g Hg. apply IH; [|done]. etrans; [|apply le_S_n, Hd].
      apply max_list_elem_of_le, list_elem_of_fmap. eauto. }
    intros E HE. cbn [fst snd].
    inversion HE as [? ? ?| | | |? g ? Hg Hl]; subst.
    + destruct out; [by apply lasts_floor; lia|lia].
    + specialize (Hs g E Hg Hl). destruct out; [|done].
      destruct Hs as (g' & [[Hin Hl']|Hle]); [by eapply lasts_sum|by apply lasts_floor].
Qed.
End poll.

(** ** Polling a profile until it ends *)

(** The worker of the rate controller polls the profile until it yields
    nothing; the result is the instant at which it ended, if it did. *)
Fixpoint poll_until_end (sin : f64 → f64) (g : Gen) (polls : list Instant) : option Instant :=
  match polls with
  | [] => None
  | now :: polls =>
      match current_at sin now g with
      | (_, None) => Some now
      | (g, Some _) => poll_until_end sin g polls
      end
  end.

Lemma poll_until_end_lasts sin g floor E polls t :
  lasts floor g E → Sorted Z.le (floor :: polls) →
  poll_until_end sin g polls = Some t → E ≤ t.
Proof.
  revert g floor. induction polls as [|now polls IH]; intros g floor HE Hs Hp; [done|].
  cbn in Hp. inversion Hs as [|? ? Hs' Hh]; subst. inversion Hh; subst.
  pose proof (current_at_poll_ok sin now floor g ltac:(done) E HE) as Hok.
  destruct (current_at sin now g) as [g' [v|]]; cbn in Hok.
  - by apply (IH g' now).
  - by injection Hp as ->.
Qed.

(** ** The span of a created profile is the duration of its configuration *)

Lemma line_new_dur rps0 rps1 d now g : LineGenerator.new rps0 rps1 d now = Ok g → line_dur g = d.
Proof. unfold LineGenerator.new. intros H. res_inv. done. Qed.

Lemma foldl_res_add (ds : list (res Duration)) acc d :
  foldl (λ out g, let! out := out in let! d := g in duration_add out d) acc ds = Ok d →
  ∃ a ks, acc = Ok a ∧ Forall2 (λ r k, r = Ok k) ds ks ∧ d = a + zsum ks.
Proof.
  revert acc. induction ds as [|r ds IH]; intros acc H; cbn in H.
  - exists d, []. rewrite zsum_nil. split_and!; [done|constructor|lia].
  - destruct (IH _ H) as (a & ks & Ha & Hks & ->). res_inv.
    unfold duration_add in *. destruct (_ <? _) in *; res_inv.
    eexists _, (_ :: ks). rewrite zsum_cons. split_and!; [done|by constructor|lia].
Qed.

Lemma foldl_res_max (ds : list (res Duration)) acc d :
  foldl (λ out g, let! out := out in let! d := g in Ok (Z.max out d)) acc ds = Ok d →
  ∃ a ks, acc = Ok a ∧ Forall2 (λ r k, r = Ok k) ds ks ∧ d = foldl Z.max a ks.
Proof.
  revert acc. induction ds as [|r ds IH]; intros acc H; cbn in H.
  - exists d, []. split_and!; [done|constructor|done].
  - destruct (IH _ H) as (a & ks & Ha & Hks & ->). res_inv.
    eexists _, (_ :: ks). split_and!; [done|by constructor|done].
Qed.

Lemma foldl_max_foldr a l : foldl Z.max a l = Z.max a (foldr Z.max 0 l) ∨ (a < 0 ∧ foldl Z.max a l ≤ foldr Z.max 0 l).
Proof.
  revert a. induction l as [|x l IH]; intros a; cbn; [lia|].
  destruct (IH (Z.max a x)) as [->|[? ?]]; lia.
Qed.

Lemma create_spans asin now gs hs ks :
  Forall (λ c, ∀ g d, create asin now c = Ok g → duration c = Ok d → span g = d) gs →
  Forall2 (λ c g, create asin now c = Ok g) gs hs →
  Forall2 (λ r k, r = Ok k) (map duration gs) ks → map span hs = ks.
Proof.
  intros HP Hc Hd. revert ks HP Hd.
  induction Hc as [|c g gs hs Hg _ IH]; intros ks HP Hd; cbn in Hd.
  - by apply Forall2_nil_inv_l in Hd as ->.
  - apply Forall2_cons_inv_l in Hd as (k & ks' & Hk & Hks & ->).
    apply Forall_cons in HP as [HP1 HP2]. cbn. f_equal; auto.
Qed.

Lemma create_span asin now c g d :
  create asin now c = Ok g → duration c = Ok d → span g = d.
Proof.
  revert g d. induction c as [c|c|c|gs IH|gs IH] using Config_ind'; intros g d Hc Hd; cbn in Hc, Hd.
  - res_inv. cbn. by apply line_new_dur in H.
  - res_inv. cbn. by apply line_new_dur in H.
  - res_inv. cbn. unfold SinGenerator_create in *. by res_inv.
  - res_inv. apply res_mapM_Ok in H. apply foldl_res_add in Hd as (a & ks & Ha & Hks & ->).
    injection Ha as <-. cbn. by rewrite (create_spans asin now gs _ ks).
  - res_inv. apply res_mapM_Ok in H. apply foldl_res_max in Hd as (a & ks & Ha & Hks & ->).
    injection Ha as <-. cbn. rewrite (create_spans asin now gs _ ks) by done.
    pose proof (foldl_max_foldr (duration_from_secs 0) ks).
    assert (0 ≤ foldr Z.max 0 ks) by (clear; induction ks; cbn; lia).
    unfold duration_from_secs, NANOS_PER_SEC in *. lia.
Qed.

(** C13: a profile of any nesting never ends early: created, activated at [t0]
    and polled at non-decreasing instants, it yields its first [None] no sooner
    than [t0 + duration()], however rarely it is polled. *)
Theorem profile_never_ends_early sin asin c g d t0 now polls t :
  create asin now c = Ok g → duration c = Ok d →
  Sorted Z.le (t0 :: polls) →
  poll_until_end sin (activate_at t0 g) polls = Some t →
  t0 + d ≤ t.
Proof.
  intros Hc Hd Hs Hp. rewrite <-(create_span _ _ _ _ _ Hc Hd).
  eapply poll_until_end_lasts; [apply activate_lasts|exact Hs|exact Hp].
Qed.

Definition example_profile : Config :=
  Seq [Const {| const_rps := 10; const_duration := 1 |};
       Sum [Const {| const_rps := 5; const_duration := 1 |};
            Line {| line_rps := (0, 100); line_duration := 2 |}]].

Lemma profile_never_ends_early_witness :
  duration example_profile = Ok 3000000000 ∧ 0 + 3000000000 ≤ 4100000000.
Proof.
  split; [vm_compute; reflexivity|].
  apply (profile_never_ends_early (λ x, x) (λ x, x) example_profile
    (GSeq 0 [GLine {| line_k := 0; line_b := 10; line_t0 := 0; line_dur := 1000000000 |};
             GSum [GLine {| line_k := 0; line_b := 5; line_t0 := 0; line_dur := 1000000000 |};
                   GLine {| line_k := 50; line_b := 0; line_t0 := 0; line_dur := 2000000000 |}]])
    3000000000 0 0 [500000000; 2000000000; 3500000000; 4100000000]).
  - vm_compute. reflexivity.
  - vm_compute. reflexivity.
  - repeat constructor; lia.
  - vm_compute. reflexivity.
Defined.

(** ** Splitting a profile between instances *)

Lemma foldl_map_ext {A B C} (f : C → B → C) (g h : A → B) l acc :
  Forall (λ x, g x = h x) l → foldl f acc (map g l) = foldl f acc (map h l).
Proof. intros H. revert acc. induction H as [|x l Hx _ IH]; intros acc; [done|]. cbn. by rewrite Hx. Qed.

(** The rates at an instant of the leaf configurations, first and last. *)
Definition leaf_rates (c : Config) : list Z :=
  match c with
  | Const c => [const_rps c]
  | Line c => [fst (line_rps c); snd (line_rps c)]
  | Sin c => [fst (pps c); snd (pps c); pps_min c; pps_max c]
  | _ => []
  end.

Fixpoint leaves (c : Config) : list Config :=
  match c with
  | Seq gs | Sum gs => concat (map leaves gs)
  | c => [c]
  end.

(** C36: [reduce] splits a profile between [factor] instances without touching
    its timing or structure: the duration is the same, every rate of every leaf
    is divided, and the instances together never exceed the original by a
    single operation nor lose [factor] of them. *)
Theorem reduce_splits factor c :
  0 < factor →
  duration (reduce factor c) = duration c ∧
  leaves (reduce factor c) = map (reduce factor) (leaves c) ∧
  ∀ l, l ∈ leaves c →
    Forall2 (λ r r', factor * r' ≤ r < factor * r' + factor) (leaf_rates l) (leaf_rates (reduce factor l)).
Proof.
  intros Hf. split; [|split].
  - induction c as [c|c|c|gs IH|gs IH] using Config_ind'; cbn; [done..| |];
      rewrite map_map; by apply foldl_map_ext.
  - induction c as [c|c|c|gs IH|gs IH] using Config_ind'; cbn; [done..| |];
      (induction IH as [|g gs Hg _ IH]; [done|]; cbn; by rewrite map_app, Hg, IH).
  - intros l _. assert (∀ r, factor * (r / factor) ≤ r < factor * (r / factor) + factor) as H.
    { intros r. pose proof (Z.div_mod r factor ltac:(lia)).
      pose proof (Z.mod_pos_bound r factor Hf). lia. }
    destruct l; cbn; auto using Forall2_nil, Forall2_cons.
Qed.

Lemma reduce_splits_witness :
  duration (reduce 4 example_profile) = Ok 3000000000 ∧
  leaves (reduce 4 example_profile) = map (reduce 4) (leaves example_profile).
Proof.
  destruct (reduce_splits 4 example_profile ltac:(lia)) as (H1 & H2 & _).
  split; [rewrite H1; vm_compute; reflexivity|exact H2].
Defined.

(** ** Profiles that cannot be created *)

Definition zero_duration (leaf : Config) : bool :=
  match leaf with
  | Const c => const_duration c =? 0
  | Line c => line_duration c =? 0
  | _ => false
  end.

Lemma line_new_zero_panics rps0 rps1 now :
  LineGenerator.new rps0 rps1 (duration_from_secs 0) now = Panic "attempt to divide by zero".
Proof. done. Qed.

Lemma zero_leaf_panics asin now leaf :
  zero_duration leaf = true → is_panic (create asin now leaf) = true.
Proof.
  destruct leaf as [c|c| | |]; cbn; try done; rewrite Z.eqb_eq; intros ->; by rewrite line_new_zero_panics.
Qed.

Lemma create_mapM_fails asin now gs leaf :
  Forall (λ c, leaf ∈ leaves c → ∀ g, create asin now c ≠ Ok g) gs →
  leaf ∈ concat (map leaves gs) → ∀ l, res_mapM (create asin now) gs ≠ Ok l.
Proof.
  induction 1 as [|c gs Hc _ IH]; cbn; [by rewrite elem_of_nil|].
  rewrite elem_of_app. intros Hin l Hl. res_inv. destruct Hin as [Hin|Hin]; [by eapply Hc|by eapply IH].
Qed.

(** One leaf of zero duration, constant or linear and however deep in the
    sums and sequences, makes the whole profile impossible to create, and the
    leaf aborts the process instead of being rejected. *)
Theorem zero_duration_panics asin now c leaf :
  leaf ∈ leaves c → zero_duration leaf = true →
  (∀ g, create asin now c ≠ Ok g) ∧ is_panic (create asin now leaf) = true.
Proof.
  intros Hin Hz. pose proof (zero_leaf_panics asin now leaf Hz) as Hp. split; [|done].
  induction c as [c|c|c|gs IH|gs IH] using Config_ind'; cbn [leaves] in Hin;
    try (apply list_elem_of_singleton in Hin as <-; intros g Hg; by rewrite Hg in Hp).
  all: intros g Hg; cbn in Hg; res_inv; by eapply create_mapM_fails.
Qed.

Lemma zero_duration_panics_witness :
  is_panic (create (λ x, x) 0 (Const {| const_rps := 5; const_duration := 0 |})) = true ∧
  create (λ x, x) 0 (Seq [Line {| line_rps := (0, 5); line_duration := 3 |};
                          Const {| const_rps := 5; const_duration := 0 |}]) ≠ Ok (GSeq 0 []).
Proof.
  destruct (zero_duration_panics (λ x, x) 0
    (Seq [Line {| line_rps := (0, 5); line_duration := 3 |}; Const {| const_rps := 5; const_duration := 0 |}])
    (Const {| const_rps := 5; const_duration := 0 |})) as [H1 H2]; [|reflexivity|by split; auto].
  apply elem_of_cons. right. by apply list_elem_of_singleton.
Defined.
