(* ===== verification/Peak.v ===== *)
(** * The peak of a load profile

    However it is nested, a profile never asks for more than its peak: the
    larger rate of a line, the maximum of a sine, the largest of a sequence, the
    sum of a sum.  For the sine this is a fact about rounding: half the span
    around the middle, scaled by at most one, stays within the maximum. *)
From S2P Require Import Prelude Machine F64 Time Generator Profile.

(** ** Signed floats *)

Definition f64_negative (x : f64) : Prop :=
  match x with
  | S754_nan => False
  | S754_zero s | S754_infinity s | S754_finite s _ _ => s = true
  end.

Lemma to_u64_negative x : f64_negative x → f64_to_u64 x = 0.
Proof. by destruct x as [[]|[]| |[] m e]. Qed.

Lemma sign_cases x : x = S754_nan ∨ (f64_valid x = true → f64_nonneg x) ∨ f64_negative x.
Proof. destruct x as [[]|[]| |[] m e]; first [by left|by right; right|by right; left]. Qed.

Lemma round_aux_negative m e l :
  0 < m → e ≤ fexp64 (Zdigits2 m + e) →
  f64_valid (binary_round_aux 53 1024 true m e l) = true ∧ f64_negative (binary_round_aux 53 1024 true m e l).
Proof.
  intros Hm He. destruct (round_aux_spec true m e l Hm He) as (m2 & _ & _ & Hv & Hr). split; [done|].
  by destruct Hr as [[_ ->]|[(m3 & e3 & -> & _)|[-> _]]].
Qed.

Lemma normalize_negative m e : 0 < m → f64_negative (binary_normalize 53 1024 (- m) e false).
Proof.
  intros Hm. destruct (normalize_aligned m e (Z.min e (-1074)) false Hm) as (mz & ez & ? & ? & _ & _ & _ & _ & ->);
    [lia..|]. by apply round_aux_negative.
Qed.

Lemma finite_valid s m e : f64_valid (S754_finite s m e) = f64_valid (S754_finite false m e).
Proof. done. Qed.

Lemma mul_negative x y :
  f64_nonneg x → f64_finite x → f64_valid y = true → f64_finite y → f64_negative y →
  f64_valid (f64_mul x y) = true ∧ f64_negative (f64_mul x y).
Proof.
  intros [Hvx Hsx] Hfx Hvy Hfy Hy.
  destruct x as [sx|sx| |sx mx ex]; cbn in Hsx, Hfx; try done; subst sx;
    destruct y as [sy|sy| |sy my ey]; cbn in Hy, Hfy; try done; subst sy; try done.
  apply round_aux_negative; [lia|by apply mul_aligned].
Qed.

(** Adding a negative number raises nothing. *)
Lemma add_negative x y :
  f64_nonneg x → f64_finite x → f64_valid y = true → f64_negative y →
  f64_to_u64 (f64_add x y) ≤ f64_to_u64 x.
Proof.
  intros Hx Hfx Hvy Hy. pose proof (to_u64_range x) as [H0 _]. pose proof Hx as [Hvx Hsx].
  destruct x as [sx|sx| |sx mx ex]; cbn in Hsx, Hfx; try done; subst sx;
    destruct y as [sy|sy| |sy my ey]; cbn in Hy; try done; subst sy; try done.
  unfold f64_add, SFadd, cond_Zopp.
  apply valid_finite_inv in Hvx as (_ & Hex & _). rewrite finite_valid in Hvy. pose proof (finite_pos _ _ Hvy) as Hpy.
  apply valid_finite_inv in Hvy as (_ & Hey & _).
  set (ez := Z.min ex ey). pose proof (align_scaled mx ex ez ltac:(lia) ltac:(lia)) as Hmx.
  pose proof (align_scaled my ey ez ltac:(lia) ltac:(lia)) as Hmy.
  set (a := fst (shl_align mx ex ez)) in *. set (c := fst (shl_align my ey ez)) in *.
  match goal with |- f64_to_u64 (binary_normalize _ _ ?m _ _) ≤ _ => change m with (Z.pos a + - Z.pos c) end.
  assert (0 < 2 ^ (ez + 1074)) as Hp by (apply Z.pow_pos_nonneg; lia).
  destruct (Z.le_gt_cases (Z.pos c) (Z.pos a)) as [Hle|Hlt].
  - apply to_u64_mono; [apply normalize_nonneg; lia|done|].
    apply (normalize_upper _ ez (-1074)); [lia..|done|].
    rewrite Z.sub_diag, Z.mul_1_r, <-Hmx. replace (ez - -1074) with (ez + 1074) by lia.
    apply Z.mul_le_mono_nonneg_r; lia.
  - replace (Z.pos a + - Z.pos c) with (- (Z.pos c - Z.pos a)) by lia.
    rewrite to_u64_negative by (apply normalize_negative; lia). lia.
Qed.

(** ** The levels of a sine *)

(** What a sine function returns: between minus one and one, or NaN. *)
Definition sine_ok (y : f64) : Prop :=
  y = S754_nan ∨ (f64_valid y = true ∧ f64_finite y ∧ Z.abs (scaled y) ≤ 2 ^ 1074).

Lemma sine_term_upper mid a y top :
  f64_nonneg mid → f64_finite mid → f64_nonneg a → f64_finite a → f64_nonneg top →
  scaled mid + scaled a ≤ scaled top → sine_ok y →
  f64_to_u64 (f64_add mid (f64_mul a y)) ≤ f64_to_u64 top.
Proof.
  intros Hm Hfm Ha Hfa Ht Hle Hy. pose proof (scaled_nonneg _ Ha). destruct (to_u64_range top) as [Ht0 _].
  destruct Hy as [->|(Hv & Hf & Hy)].
  { destruct a as [| | |], mid as [| | |]; try done; lia. }
  destruct (sign_cases y) as [->|[Hn|Hn]]; [done| |].
  - specialize (Hn Hv). apply to_u64_mono; [|done|].
    + apply add_nonneg; [done|]. by apply mul_nonneg.
    + apply add_upper; [done|by apply mul_nonneg|done|].
      pose proof (mul_upper a y Ha Hn Hfa Hf ltac:(lia)). lia.
  - destruct (mul_negative a y Ha Hfa Hv Hf Hn) as [Hv' Hn'].
    etrans; [by apply add_negative|]. apply to_u64_mono; [done..|lia].
Qed.

Lemma nonneg_finite x : f64_nonneg x → scaled x < 2 ^ 2098 → f64_finite x.
Proof. destruct x as [s|s| |s m e]; intros [_ Hs] Hx; cbn in Hs; try done. subst s. cbn -[Z.pow] in Hx. lia. Qed.

Lemma small_finite x n : f64_nonneg x → scaled x ≤ n * 2 ^ 1074 → n < 2 ^ 64 → f64_finite x.
Proof.
  intros Hx Hle Hn. apply nonneg_finite; [done|]. eapply Z.le_lt_trans; [exact Hle|].
  apply (Z.lt_trans _ (2 ^ 64 * 2 ^ 1074)); [apply Z.mul_lt_mono_pos_r; [done|lia]|by vm_compute].
Qed.

(** Half an integer. *)
Lemma half x n :
  f64_nonneg x → scaled x = n * 2 ^ 1074 → 0 ≤ n < 2 ^ 53 →
  let q := f64_div x (f64_of_u64 2) in
  f64_nonneg q ∧ f64_finite q ∧ scaled q * 2 = n * 2 ^ 1074.
Proof.
  intros Hx Hs Hn q. assert (f64_finite x) as Hf by (apply (small_finite x n); [done|lia|lia]).
  destruct (Z.eq_dec n 0) as [->|Hpos].
  - assert (x = S754_zero false) as ->.
    { destruct Hx as [Hv Hsx]. destruct x as [s|s| |s m e]; cbn in Hsx, Hf; try done; subst s; [done|].
      pose proof (finite_pos _ _ Hv). lia. }
    subst q. by vm_compute.
  - pose proof (div_pow2 1 x ltac:(lia) Hx Hf) as Hd. rewrite <-Hs. apply Hd. rewrite Hs. split; [lia|].
    rewrite (Z.pow_add_r 2 64) by lia. apply Z.mul_le_mono_nonneg_r; lia.
Qed.

(** The difference of two integers is exact. *)
Lemma sub_exact m n :
  0 ≤ m ≤ n → n < 2 ^ 53 →
  f64_nonneg (f64_sub (f64_of_u64 n) (f64_of_u64 m)) ∧
  scaled (f64_sub (f64_of_u64 n) (f64_of_u64 m)) = (n - m) * 2 ^ 1074.
Proof.
  intros Hmn Hn. pose proof (of_u64_nonneg n ltac:(lia)) as Hfn. pose proof (of_u64_nonneg m ltac:(lia)) as Hfm.
  pose proof (of_u64_exact n ltac:(lia)) as En. pose proof (of_u64_exact m ltac:(lia)) as Em.
  assert (scaled (f64_of_u64 m) ≤ scaled (f64_of_u64 n)) as Hle by (rewrite En, Em; apply Z.mul_le_mono_nonneg_r; lia).
  assert (f64_finite (f64_of_u64 n)) as Hf by (apply (small_finite _ n); [done|lia|lia]).
  destruct (sub_cases _ _ Hfn Hf Hfm Hle) as [[-> H0]|(k & e & Hk & He & -> & Hv)].
  - split; [done|]. rewrite En. rewrite Em in H0. lia.
  - split; [by apply normalize_nonneg|]. rewrite En, Em, <-Z.mul_sub_distr_r in Hv.
    pose proof (of_u64_nonneg (n - m) ltac:(lia)) as Hd. pose proof (of_u64_exact (n - m) ltac:(lia)) as Ed.
    apply Z.le_antisymm; rewrite <-Ed.
    + apply (normalize_upper k e (-1074)); [lia..|done|]. rewrite Z.sub_diag, Z.mul_1_r, Ed, <-Hv.
      replace (e - -1074) with (e + 1074) by lia. lia.
    + apply (normalize_lower k e (-1074)); [lia..|done| |].
      * apply nonneg_finite_lt; [done|]. apply (small_finite _ (n - m)); [done|lia|lia].
      * rewrite Z.sub_diag, Z.mul_1_r, Ed, <-Hv. replace (e - -1074) with (e + 1074) by lia. lia.
Qed.

(** Amplitude and middle as [SinGeneratorConfig::create] computes them. *)
Definition amplitude (lo hi : Z) : f64 := f64_div (f64_sub (f64_of_u64 hi) (f64_of_u64 lo)) (f64_of_u64 2).
Definition middle (lo hi : Z) : f64 := f64_add (f64_of_u64 lo) (amplitude lo hi).

Lemma sine_levels lo hi :
  0 ≤ lo ≤ hi → hi < 2 ^ 52 →
  f64_nonneg (amplitude lo hi) ∧ f64_finite (amplitude lo hi) ∧
  f64_nonneg (middle lo hi) ∧ f64_finite (middle lo hi) ∧
  scaled (middle lo hi) + scaled (amplitude lo hi) ≤ scaled (f64_of_u64 hi).
Proof.
  intros Hlh Hhi. destruct (sub_exact lo hi Hlh ltac:(lia)) as [Hd Ed].
  destruct (half _ _ Hd Ed ltac:(lia)) as (Ha & Hfa & Ea). fold (amplitude lo hi) in Ha, Hfa, Ea.
  pose proof (of_u64_nonneg (lo + hi) ltac:(lia)) as Hs. pose proof (of_u64_exact (lo + hi) ltac:(lia)) as Es.
  destruct (half _ _ Hs Es ltac:(lia)) as (Hy & Hfy & Ey). set (y := f64_div _ _) in *.
  pose proof (of_u64_nonneg lo ltac:(lia)) as Hl. pose proof (of_u64_exact lo ltac:(lia)) as El.
  pose proof (of_u64_exact hi ltac:(lia)) as Eh.
  assert (f64_nonneg (middle lo hi)) as Hm by by apply add_nonneg.
  assert (scaled (middle lo hi) ≤ scaled y) as Hle by (apply add_upper; [done..|lia]).
  split_and!; [done|done|done| |lia]. apply (small_finite _ (lo + hi)); [done|lia|lia].
Qed.

(** ** The running generator of a configuration *)

(** Rates and durations for which the arithmetic of the generators is exact. *)
Fixpoint profile_ok (c : Config) : Prop :=
  match c with
  | Const c => line_domain (const_rps c) (const_rps c) (const_duration c)
  | Line c => line_domain (fst (line_rps c)) (snd (line_rps c)) (line_duration c)
  | Sin c => 0 ≤ pps_min c ≤ pps_max c ∧ pps_max c < 2 ^ 52
  | Seq gs | Sum gs => foldr (λ c P, profile_ok c ∧ P) True gs
  end.

Fixpoint peak (c : Config) : Z :=
  match c with
  | Const c => const_rps c
  | Line c => Z.max (fst (line_rps c)) (snd (line_rps c))
  | Sin c => pps_max c
  | Seq gs => foldr Z.max 0 (map peak gs)
  | Sum gs => zsum (map peak gs)
  end.

(** What a generator keeps of its configuration, whenever it was activated. *)
Definition line_from (rps0 rps1 secs : Z) (l : LineGenerator) : Prop :=
  line_k l = line_slope (rps1 - rps0) (duration_from_secs secs) ∧ line_b l = rps0 ∧
  line_dur l = duration_from_secs secs.

#[warnings="-register-all"] Inductive made_from : Config → Gen → Prop :=
  | from_const c l :
      line_from (const_rps c) (const_rps c) (const_duration c) l → made_from (Const c) (GLine l)
  | from_line c l :
      line_from (fst (line_rps c)) (snd (line_rps c)) (line_duration c) l → made_from (Line c) (GLine l)
  | from_sin c g :
      pps_mid g = middle (pps_min c) (pps_max c) → sin_a g = amplitude (pps_min c) (pps_max c) →
      made_from (Sin c) (GSin g)
  | from_seq cs idx gs : Forall2 made_from cs gs → made_from (Seq cs) (GSeq idx gs)
  | from_sum cs gs : Forall2 made_from cs gs → made_from (Sum cs) (GSum gs).

Lemma profiles_ok cs : foldr (λ c P, profile_ok c ∧ P) True cs ↔ Forall profile_ok cs.
Proof. induction cs as [|c cs IH]; cbn; [by split; [constructor|]|]. by rewrite IH, Forall_cons. Qed.

Lemma peak_nonneg c : profile_ok c → 0 ≤ peak c.
Proof.
  induction c as [c|c|c|gs IH|gs IH] using Config_ind'; cbn; try (unfold line_domain; lia).
  - intros _. clear IH. induction gs; cbn; [done|lia].
  - intros Hok%profiles_ok. apply zsum_nonneg, Forall_map. rewrite Forall_forall in *. eauto.
Qed.

Lemma Forall2_made {R P : Config → Gen → Prop} cs gs :
  Forall (λ c, ∀ g, profile_ok c → R c g → P c g) cs → Forall profile_ok cs → Forall2 R cs gs → Forall2 P cs gs.
Proof. intros HP Hok HR. induction HR; decompose_Forall_hyps; constructor; auto. Qed.

(** Creation establishes it, activation and polling keep it. *)
Lemma create_made_from asin now c g :
  profile_ok c → create asin now c = Ok g → made_from c g.
Proof.
  revert g. induction c as [c|c|c|gs IH|gs IH] using Config_ind'; intros g Hok Hc; cbn in Hok, Hc.
  - rewrite line_new_ok in Hc by done. injection Hc as <-. by constructor.
  - rewrite line_new_ok in Hc by done. injection Hc as <-. by constructor.
  - res_inv. unfold SinGenerator_create in H. res_inv. by constructor.
  - res_inv. apply res_mapM_Ok in H. apply profiles_ok in Hok. constructor.
    by apply (Forall2_made (R := λ c g, create asin now c = Ok g)).
  - res_inv. apply res_mapM_Ok in H. apply profiles_ok in Hok. constructor.
    by apply (Forall2_made (R := λ c g, create asin now c = Ok g)).
Qed.

Lemma activate_made_from now c g : made_from c g → made_from c (activate_at now g).
Proof.
  revert g. induction c as [c|c|c|gs IH|gs IH] using Config_ind'; intros g Hm; inversion Hm as [| | |? ? hs Hs|? hs Hs]; subst; cbn.
  1-3: by constructor.
  - constructor. apply Forall2_alter_r; [done|]. intros x y Hx Hy Hxy. rewrite Forall_forall in IH.
    apply IH; [by eapply list_elem_of_lookup_2|done].
  - constructor. apply Forall2_fmap_r. clear Hm. induction Hs; decompose_Forall_hyps; constructor; auto.
Qed.

Section poll.
Context (sin : f64 → f64) (now : Instant).
Hypothesis Hsin : ∀ x, sine_ok (sin x).

Definition within (v : option Z) (p : Z) : Prop := ∀ r, v = Some r → 0 ≤ r ≤ p.

Lemma line_within rps0 rps1 secs l :
  line_domain rps0 rps1 secs → line_from rps0 rps1 secs l →
  within (LineGenerator.current_at l now) (Z.max rps0 rps1).
Proof using.
  intros Hdom (Hk & Hb & Hd) r Hr.
  assert (duration_since now (line_t0 l) ≤ duration_from_secs secs) as Hle.
  { unfold LineGenerator.current_at in Hr. rewrite Hd in Hr. by destruct (Z.ltb_spec (duration_from_secs secs) (duration_since now (line_t0 l))). }
  destruct (line_current rps0 rps1 secs l now Hdom Hk Hb Hd _ eq_refl Hle) as [Hc Hb']. rewrite Hc in Hr. injection Hr as <-.
  unfold line_domain in Hdom. lia.
Qed.

Lemma sin_within lo hi g :
  0 ≤ lo ≤ hi → hi < 2 ^ 52 → pps_mid g = middle lo hi → sin_a g = amplitude lo hi →
  within (SinGenerator_current_at sin g now) hi.
Proof using Hsin.
  intros Hlh Hhi Hmid Ha r. unfold SinGenerator_current_at. destruct (_ <? _); [done|]. intros [= <-].
  rewrite Hmid, Ha. destruct (sine_levels lo hi Hlh Hhi) as (H1 & H2 & H3 & H4 & H5).
  pose proof (sine_term_upper _ _ (sin (f64_add (f64_mul (sin_k g) (as_secs_f64 (duration_since now (sin_t0 g)))) (phase g)))
    (f64_of_u64 hi) H3 H4 H1 H2 (of_u64_nonneg hi ltac:(lia)) H5 (Hsin _)) as Hle.
  rewrite to_u64_of_u64 in Hle by lia. lia.
Qed.

Lemma max_peak_lookup cs (i : nat) c : cs !! i = Some c → peak c ≤ foldr Z.max 0 (map peak cs).
Proof using. revert i. induction cs as [|d cs IH]; intros [|i] Hi; simplify_eq/=; [lia|]. apply IH in Hi. lia. Qed.

Lemma seq_within (cur : Gen → Gen * option Z) cs k idx gs :
  (∀ c g, c ∈ cs → made_from c g → made_from c (cur g).1 ∧ within (cur g).2 (peak c)) →
  Forall2 made_from cs gs →
  ∃ idx' gs', (seq_current cur (activate_at now) k idx gs).1 = GSeq idx' gs' ∧ Forall2 made_from cs gs' ∧
    within (seq_current cur (activate_at now) k idx gs).2 (foldr Z.max 0 (map peak cs)).
Proof using.
  intros Hcur. revert idx gs. induction k as [|k IH]; intros idx gs Hgs; cbn [seq_current]; [by exists idx, gs|].
  destruct (gs !! idx) as [g|] eqn:Hg; [|by exists idx, gs].
  destruct (Forall2_lookup_r _ _ _ _ _ Hgs Hg) as (c & Hc & Hm).
  destruct (Hcur c g ltac:(by eapply list_elem_of_lookup_2) Hm) as [Hm' Hw].
  assert (Forall2 made_from cs (<[idx := (cur g).1]> gs)) as Hins.
  { rewrite <-(list_insert_id cs idx c) by done. by apply Forall2_insert. }
  destruct (cur g) as [g' [v|]]; cbn [fst snd] in *.
  - exists idx, (<[idx := g']> gs). split_and!; [done|done|]. intros r [= <-].
    pose proof (max_peak_lookup cs idx c Hc). specialize (Hw v eq_refl). lia.
  - apply IH. apply Forall2_alter_r; [done|]. intros. by apply activate_made_from.
Qed.

Lemma sum_within (cur : Gen → Gen * option Z) cs gs out p :
  (∀ c g, c ∈ cs → made_from c g → made_from c (cur g).1 ∧ within (cur g).2 (peak c)) →
  Forall (λ c, 0 ≤ peak c) cs →
  Forall2 made_from cs gs → within out p → 0 ≤ p →
  Forall2 made_from cs (sum_current cur gs out).1 ∧
  within (sum_current cur gs out).2 (p + zsum (map peak cs)).
Proof using.
  intros Hcur Hpk Hgs. revert out p. induction Hgs as [|c g cs gs Hg Hgs IH]; intros out p Hout Hp.
  { cbn. split; [constructor|]. intros r Hr. rewrite Z.add_0_r. by apply Hout. }
  cbn [sum_current map]. destruct (Hcur c g ltac:(left) Hg) as [Hg' Hv]. apply Forall_cons in Hpk as [Hc Hpk].
  destruct (cur g) as [g' v]. cbn [fst snd] in Hg', Hv.
  destruct (IH ltac:(intros; apply Hcur; [by right|done]) Hpk (opt_add out v) (p + peak c)) as [H1 H2]; [|lia|].
  - intros r Hr. destruct out as [o|], v as [v|]; simplify_eq/=.
    + specialize (Hout o eq_refl). specialize (Hv v eq_refl). unfold u64_add, as_u64.
      pose proof (Z.mod_pos_bound (o + v) (2 ^ 64) ltac:(lia)). pose proof (Z.mod_le (o + v) (2 ^ 64) ltac:(lia) ltac:(lia)). lia.
    + specialize (Hout r eq_refl). lia.
    + specialize (Hv r eq_refl). lia.
  - destruct (sum_current cur gs (opt_add out v)) as [gs' o]. cbn [fst snd] in *. split; [by constructor|].
    rewrite zsum_cons. intros r Hr. specialize (H2 r Hr). lia.
Qed.

Lemma current_within c g :
  profile_ok c → made_from c g →
  made_from c (current_at sin now g).1 ∧ within (current_at sin now g).2 (peak c).
Proof using Hsin.
  unfold current_at. generalize (depth g). intros n. revert n g.
  induction c as [c|c|c|cs IH|cs IH] using Config_ind'; intros n g Hok Hm; cbn in Hok;
    inversion Hm as [? l Hl|? l Hl|? s Hmid Ha|? idx gs Hgs|? gs Hgs]; subst.
  1-3: assert (∀ n x, current_at_fuel sin n now (GLine x) = (GLine x, LineGenerator.current_at x now)) as HL by (by intros []);
       assert (∀ n x, current_at_fuel sin n now (GSin x) = (GSin x, SinGenerator_current_at sin x now)) as HS by (by intros []).
  - rewrite HL. split; [done|]. cbn. rewrite <-(Z.max_id (const_rps c)) at 1. by eapply line_within.
  - rewrite HL. split; [done|]. by eapply line_within.
  - rewrite HS. split; [done|]. destruct Hok. by eapply sin_within.
  - apply profiles_ok in Hok. destruct n as [|n]; [by split|]. cbn [current_at_fuel].
    rewrite Forall_forall in IH, Hok.
    destruct (seq_within (current_at_fuel sin n now) cs (length gs) idx gs) as (idx' & gs' & -> & Hgs' & Hw); [by auto|done|].
    split; [by constructor|exact Hw].
  - apply profiles_ok in Hok. destruct n as [|n]; [by split|]. cbn [current_at_fuel].
    pose proof Hok as Hok'. rewrite Forall_forall in IH, Hok.
    destruct (sum_within (current_at_fuel sin n now) cs gs None 0) as [H1 H2]; [by auto| |done|done|done|].
    { eapply Forall_impl; [exact Hok'|]. intros c. apply peak_nonneg. }
    destruct (sum_current _ _ _) as [gs' o]. split; [by constructor|exact H2].
Qed.
End poll.

(** ** A profile while it runs *)

(** What the polls of a generator yield. *)
Fixpoint rates (sin : f64 → f64) (g : Gen) (polls : list Instant) : list (option Z) :=
  match polls with
  | [] => []
  | now :: polls => let '(g, v) := current_at sin now g in v :: rates sin g polls
  end.

Lemma rates_within sin c g polls :
  (∀ x, sine_ok (sin x)) → profile_ok c → made_from c g →
  Forall (λ v, within v (peak c)) (rates sin g polls).
Proof.
  intros Hsin Hok. revert g. induction polls as [|now polls IH]; intros g Hm; [constructor|]. cbn.
  destruct (current_within sin now Hsin c g Hok Hm) as [Hm' Hw].
  destruct (current_at sin now g) as [g' v]. constructor; [exact Hw|by apply IH].
Qed.

(** C11: a profile of any nesting never asks for more than its peak: created whenever,
    activated whenever and polled at any instants in any order, each rate lies
    between zero and the peak of the configuration, the sines included, whatever
    the library's sine answers between minus one and one. *)
Theorem profile_within_peak sin asin c g now t0 polls :
  (∀ x, sine_ok (sin x)) → profile_ok c → create asin now c = Ok g →
  Forall (λ v, within v (peak c)) (rates sin (activate_at t0 g) polls).
Proof.
  intros Hsin Hok Hc. apply rates_within; [done|done|].
  apply activate_made_from. by eapply create_made_from.
Qed.

Definition waves : Config :=
  Sum [Const {| const_rps := 100; const_duration := 60 |};
       Seq [Line {| line_rps := (0, 500); line_duration := 10 |};
            Sin {| pps := (100, 300); pps_min := 100; pps_max := 301; approximate_period := 10; sin_duration := 30 |}]].

Lemma profile_within_peak_witness :
  ∃ g, create (λ x, x) 0 waves = Ok g ∧ peak waves = 600 ∧
    Forall (λ v, within v 600) (rates (λ _, f64_one) (activate_at 5 g) [duration_from_secs 9; duration_from_secs 20]).
Proof.
  assert (∃ g, create (λ x, x) 0 waves = Ok g) as [g Hg] by (eexists; vm_compute; reflexivity).
  exists g. split; [done|]. split; [done|].
  apply (profile_within_peak (λ _, f64_one) (λ x, x) waves g 0); [|by vm_compute; intuition discriminate|done].
  intros x. right. split; [vm_compute; reflexivity|]. split; [exact I|]. apply Z.leb_le. vm_compute. reflexivity.
Defined.
