(* ===== verification/Clocked.v ===== *)
(** * Generators that read the clock themselves ([dwd-core/src/generator.rs])

    [Generator::activate] and [Generator::current], the methods without an
    instant: every leaf calls [Instant::now()].  The clock is the sequence of
    its readings, threaded through as the number of readings made; [run_generator]
    starts a profile with [activate] and then polls it with [current_at]. *)
From Stdlib Require Import Sorted.
From S2P Require Import Prelude Machine F64 Time Generator Profile.

Section clocked.
Context (sin : f64 → f64) (clock : nat → Instant).

(** [activate]: the generator and the number of readings made. *)
Fixpoint activate (n : nat) (g : Gen) {struct g} : Gen * nat :=
  match g with
  | GLine g => (GLine (LineGenerator.activate_at g (clock n)), S n)
  | GSin g => (GSin (SinGenerator_activate_at g (clock n)), S n)
  | GSeq idx gs =>
      let '(gs, n) := (fix nth (idx : nat) (gs : list Gen) {struct gs} : list Gen * nat :=
        match gs, idx with
        | [], _ => ([], n)
        | g :: gs, O => let '(g, n) := activate n g in (g :: gs, n)
        | g :: gs, S idx => let '(gs, n) := nth idx gs in (g :: gs, n)
        end) idx gs in (GSeq idx gs, n)
  | GSum gs =>
      let '(gs, n) := (fix each (n : nat) (gs : list Gen) {struct gs} : list Gen * nat :=
        match gs with
        | [] => ([], n)
        | g :: gs => let '(g, n) := activate n g in let '(gs, n) := each n gs in (g :: gs, n)
        end) n gs in (GSum gs, n)
  end.

(** The loop of [SumGenerator::current]. *)
Fixpoint sum_now (cur : nat → Gen → Gen * option Z * nat) (n : nat) (gs : list Gen) (out : option Z) :
    list Gen * option Z * nat :=
  match gs with
  | [] => ([], out, n)
  | g :: gs =>
      let '(g', v, n) := cur n g in
      let '(gs', out, n) := sum_now cur n gs (opt_add out v) in
      (g' :: gs', out, n)
  end.

(** The tail recursion of [SeqGenerator::current], at most [k] rounds. *)
Fixpoint seq_now (cur : nat → Gen → Gen * option Z * nat) (k n idx : nat) (gs : list Gen) : Gen * option Z * nat :=
  match k, gs !! idx with
  | S k, Some g =>
      let '(g', v, n) := cur n g in
      match v with
      | Some v => (GSeq idx (<[idx := g']> gs), Some v, n)
      | None =>
          match activate n (GSeq (S idx) (<[idx := g']> gs)) with
          | (GSeq idx gs, n) => seq_now cur k n idx gs
          | (g, n) => (g, None, n)
          end
      end
  | _, _ => (GSeq idx gs, None, n)
  end.

Fixpoint current_fuel (fuel n : nat) (g : Gen) : Gen * option Z * nat :=
  match g, fuel with
  | GLine l, _ => (g, LineGenerator.current_at l (clock n), S n)
  | GSin s, _ => (g, SinGenerator_current_at sin s (clock n), S n)
  | GSeq idx gs, S fuel => seq_now (current_fuel fuel) (length gs) n idx gs
  | GSum gs, S fuel => let '(gs, out, n) := sum_now (current_fuel fuel) n gs None in (GSum gs, out, n)
  | _, O => (g, None, n)
  end.

(** [current]: the fuel is the depth, as for [current_at]. *)
Definition current (n : nat) (g : Gen) : Gen * option Z * nat := current_fuel (depth g) n g.

(** ** Activation *)

Definition activate_nth (n : nat) : nat → list Gen → list Gen * nat :=
  fix nth (idx : nat) (gs : list Gen) {struct gs} : list Gen * nat :=
    match gs, idx with
    | [], _ => ([], n)
    | g :: gs, O => let '(g, n) := activate n g in (g :: gs, n)
    | g :: gs, S idx => let '(gs, n) := nth idx gs in (g :: gs, n)
    end.

Lemma activate_nth_eq n idx gs :
  activate_nth n idx gs =
    match gs !! idx with
    | Some g => let '(g', n') := activate n g in (<[idx := g']> gs, n')
    | None => (gs, n)
    end.
Proof.
  revert idx. induction gs as [|g gs IH]; intros [|idx]; try done; cbn.
  rewrite IH. destruct (gs !! idx) as [h|]; [|done]. by destruct (activate n h).
Qed.

Lemma activate_seq n idx gs :
  activate n (GSeq idx gs) =
    match gs !! idx with
    | Some g => let '(g', n') := activate n g in (GSeq idx (<[idx := g']> gs), n')
    | None => (GSeq idx gs, n)
    end.
Proof.
  change (activate n (GSeq idx gs)) with (let '(gs, n) := activate_nth n idx gs in (GSeq idx gs, n)).
  rewrite activate_nth_eq. destruct (gs !! idx) as [g|]; [|done]. by destruct (activate n g).
Qed.

Fixpoint activate_all (n : nat) (gs : list Gen) : list Gen * nat :=
  match gs with
  | [] => ([], n)
  | g :: gs => let '(g, n) := activate n g in let '(gs, n) := activate_all n gs in (g :: gs, n)
  end.

Lemma activate_sum n gs : activate n (GSum gs) = let '(gs', n') := activate_all n gs in (GSum gs', n').
Proof. done. Qed.

(** The clock does not run backwards. *)
Context (Hclock : ∀ i j, (i ≤ j)%nat → clock i ≤ clock j).

Lemma activate_readings n g : (n ≤ (activate n g).2)%nat.
Proof.
  revert n. induction g as [| |idx gs IH|gs IH] using Gen_ind'; intros n; [cbn; lia..| |].
  - rewrite activate_seq. destruct (gs !! idx) as [g|] eqn:Hi; [|done]. rewrite Forall_forall in IH.
    specialize (IH g ltac:(by eapply list_elem_of_lookup_2) n). by destruct (activate n g).
  - rewrite activate_sum. revert n. induction IH as [|g gs Hg _ IH]; intros n; [done|]. cbn [activate_all].
    specialize (Hg n). destruct (activate n g) as [g' n1]. cbn [snd] in Hg. specialize (IH n1).
    destruct (activate_all n1 gs) as [gs' n2]. cbn [snd] in *. lia.
Qed.

(** Started with readings from [clock n] on, a generator runs for its span at
    least, counted from the first of them. *)
Lemma activate_lasts_clocked n g : lasts (clock n) (activate n g).1 (clock n + span g).
Proof using Hclock.
  assert (∀ g n m, (n ≤ m)%nat → lasts (clock n) (activate m g).1 (clock n + span g)) as H; [|by apply H].
  clear n g. intros g. induction g as [g|g|idx gs IH|gs IH] using Gen_ind'; intros n m Hm; pose proof (Hclock n m Hm) as Hc.
  - cbn. destruct (Z.le_gt_cases 0 (line_dur g)); [apply lasts_line; cbn; lia|apply lasts_floor; lia].
  - cbn. destruct (Z.le_gt_cases 0 (sin_dur g)); [apply lasts_sin; cbn; lia|apply lasts_floor; lia].
  - rewrite activate_seq. cbn [span]. destruct (gs !! idx) as [g|] eqn:Hi.
    + rewrite Forall_forall in IH. specialize (IH g ltac:(by eapply list_elem_of_lookup_2) n m Hm).
      destruct (activate m g) as [g' m']. cbn [fst] in *.
      eapply lasts_seq; [by rewrite list_lookup_insert, decide_True by (split; [done|by eapply lookup_lt_Some])|exact IH|].
      rewrite drop_insert_lt, (drop_map_span _ _ g) by (done || lia). lia.
    + apply lasts_floor. cbn [fst]. rewrite drop_ge by (rewrite length_map; by apply lookup_ge_None).
      change (zsum []) with 0. lia.
  - rewrite activate_sum. cbn [span].
    destruct (decide (0 < foldr Z.max 0 (map span gs))) as [Hpos|Hz]; [|apply lasts_floor; lia].
    apply foldr_max_witness in Hpos as (g & Hg & Hin)%list_elem_of_fmap. rewrite Hg.
    assert (∃ k, (n ≤ k)%nat ∧ (activate k g).1 ∈ (activate_all m gs).1) as (k & Hk & Hel).
    { clear IH Hg Hc. revert m Hm. induction gs as [|h gs IH]; intros m Hm; [by apply not_elem_of_nil in Hin|].
      cbn [activate_all]. apply elem_of_cons in Hin as [<-|Hin].
      - exists m. split; [done|]. destruct (activate m g) as [g' m1]. destruct (activate_all m1 gs) as [gs' m2]. by left.
      - pose proof (activate_readings m h) as Hr. destruct (activate m h) as [h' m1]. cbn [snd] in Hr.
        destruct (IH Hin m1) as (k & Hk & Hel); [lia|]. destruct (activate_all m1 gs) as [gs' m2]. exists k. split; [done|by right]. }
    rewrite Forall_forall in IH. specialize (IH g Hin n k Hk).
    destruct (activate_all m gs) as [gs' m']. by eapply lasts_sum.
Qed.
End clocked.

(** What the program runs: a profile created, started by [activate] and polled by
    [current_at] never ends sooner than its duration after the first reading of
    the clock, however long the start takes. *)
Theorem started_profile_never_ends_early sin asin clock c g d n now polls t :
  (∀ i j, (i ≤ j)%nat → clock i ≤ clock j) →
  create asin now c = Ok g → duration c = Ok d →
  Sorted Z.le (clock (activate clock n g).2 :: polls) →
  poll_until_end sin (activate clock n g).1 polls = Some t →
  clock n + d ≤ t.
Proof.
  intros Hclock Hc Hd Hs Hp. rewrite <-(create_span _ _ _ _ _ Hc Hd).
  eapply poll_until_end_lasts; [by apply activate_lasts_clocked| |exact Hp].
  inversion Hs as [|? ? Hs' Hh]; subst. constructor; [done|]. inversion Hh as [|? ? Hle]; subst; constructor.
  etrans; [|exact Hle]. apply Hclock, activate_readings.
Qed.

(** ** A clock that stands still *)

Section still.
Context (sin : f64 → f64) (now : Instant).
Abbreviation still := (λ _ : nat, now).

Lemma activate_still n g : (activate still n g).1 = activate_at now g.
Proof.
  revert n. induction g as [| |idx gs IH|gs IH] using Gen_ind'; intros n; [done..| |].
  - rewrite activate_seq. cbn [activate_at]. destruct (gs !! idx) as [g|] eqn:Hi.
    + rewrite Forall_forall in IH. specialize (IH g ltac:(by eapply list_elem_of_lookup_2) n).
      destruct (activate still n g) as [g' n']. cbn [fst] in *. f_equal. subst g'.
      apply list_eq. intros j. rewrite list_lookup_alter, list_lookup_insert.
      destruct (decide (idx = j)) as [<-|Hne]; [|by rewrite decide_False by (intros [Heq _]; done)].
      rewrite decide_True by (split; [done|by eapply lookup_lt_Some]). by rewrite Hi.
    + cbn [fst]. f_equal. apply list_eq. intros j. rewrite list_lookup_alter.
      destruct (decide (idx = j)) as [<-|]; [by rewrite Hi|done].
  - rewrite activate_sum. cbn [activate_at]. revert n. induction IH as [|g gs Hg _ IH]; intros n; [done|].
    cbn [activate_all map]. specialize (Hg n). destruct (activate still n g) as [g' n1]. specialize (IH n1).
    destruct (activate_all still n1 gs) as [gs' n2]. cbn [fst] in *. injection IH as ->. by subst g'.
Qed.

Lemma seq_now_still cur cur_at k n idx gs :
  (∀ n g, (cur n g).1 = cur_at g) →
  (seq_now still cur k n idx gs).1 = seq_current cur_at (activate_at now) k idx gs.
Proof.
  intros Hcur. revert n idx gs. induction k as [|k IH]; intros n idx gs; [done|]. cbn [seq_now seq_current].
  destruct (gs !! idx) as [g|]; [|done]. specialize (Hcur n g). destruct (cur n g) as [[g' v] n1]. cbn [fst] in Hcur.
  rewrite <-Hcur. destruct v as [v|]; [done|].
  pose proof (activate_still n1 (GSeq (S idx) (<[idx := g']> gs))) as Ha.
  destruct (activate still n1 _) as [h n2]. cbn [fst activate_at] in Ha. subst h. apply IH.
Qed.

Lemma sum_now_still cur cur_at n gs out :
  (∀ n g, (cur n g).1 = cur_at g) → (sum_now cur n gs out).1 = sum_current cur_at gs out.
Proof.
  intros Hcur. revert n out. induction gs as [|g gs IH]; intros n out; [done|]. cbn [sum_now sum_current].
  specialize (Hcur n g). destruct (cur n g) as [[g' v] n1]. cbn [fst] in Hcur. rewrite <-Hcur.
  specialize (IH n1 (opt_add out v)). destruct (sum_now cur n1 gs _) as [[gs' o] n2]. cbn [fst] in IH. by rewrite <-IH.
Qed.

(** When the clock does not move between its readings, [activate] and [current]
    are [activate_at] and [current_at] at that instant. *)
Theorem clocked_is_at n g :
  (activate still n g).1 = activate_at now g ∧ (current sin still n g).1 = current_at sin now g.
Proof.
  split; [apply activate_still|]. unfold current, current_at. generalize (depth g). intros fuel.
  revert n g. induction fuel as [|fuel IH]; intros n [| |idx gs|gs]; try done; cbn [current_fuel current_at_fuel].
  - by apply seq_now_still.
  - pose proof (sum_now_still (current_fuel sin still fuel) (current_at_fuel sin fuel now) n gs None IH) as Hs.
    destruct (sum_now _ n gs None) as [[gs' o] n2]. cbn [fst] in Hs. by rewrite <-Hs.
Qed.
End still.

Lemma started_profile_never_ends_early_witness :
  ∃ g, create (λ x, x) 0 example_profile = Ok g ∧ 7 + 3000000000 ≤ 4100000000.
Proof.
  eexists. split; [reflexivity|].
  apply (started_profile_never_ends_early (λ x, x) (λ x, x) (λ i, 7 + Z.of_nat i) example_profile
    (GSeq 0 [GLine {| line_k := 0; line_b := 10; line_t0 := 0; line_dur := 1000000000 |};
             GSum [GLine {| line_k := 0; line_b := 5; line_t0 := 0; line_dur := 1000000000 |};
                   GLine {| line_k := 50; line_b := 0; line_t0 := 0; line_dur := 2000000000 |}]])
    3000000000 0%nat 0 [500000000; 2000000000; 3500000000; 4100000000]).
  - intros i j Hij. lia.
  - reflexivity.
  - reflexivity.
  - repeat constructor; vm_compute; congruence.
  - vm_compute. reflexivity.
Defined.
