(* ===== verification/Suspendable.v ===== *)
(** * Suspending and overriding a profile ([SuspendableGenerator])

    The wrapper is generic in the generator it wraps: [Generator] is the class
    of the operations of the trait of the same name; the boxed generators of
    [Generator.v] are an instance, and so is the wrapper itself.  [suspend],
    [resume] and [set] read the clock, given as [now]. *)
From S2P Require Import Prelude Machine F64 Time Generator.

Class Generator (G : Type) := {
  gen_activate_at : Instant → G → G;
  gen_current_at : Instant → G → G * option Z;
}.

#[export] Instance boxed_generator (sin : f64 → f64) : Generator Gen := {
  gen_activate_at := activate_at;
  gen_current_at := current_at sin;
}.

Record SuspendableGenerator (G : Type) := {
  g : G;
  suspended_at : option Instant;
  suspended_duration : Duration;
  value : option Z;
}.
Arguments g {G} _.
Arguments suspended_at {G} _.
Arguments suspended_duration {G} _.
Arguments value {G} _.

(** A control event (lib.rs). *)
Inductive GeneratorEvent :=
  | Suspend
  | Resume
  | Set_ (v : Z).

Module Suspendable.
Section ops.
Context {G : Type} `{Generator G}.
Implicit Types s : SuspendableGenerator G.

Definition new (x : G) : SuspendableGenerator G :=
  {| g := x; suspended_at := None; suspended_duration := 0; value := None |}.

Definition suspend (now : Instant) s : SuspendableGenerator G :=
  match suspended_at s with
  | Some _ => s
  | None =>
      {| g := g s; suspended_at := Some now; suspended_duration := suspended_duration s;
         value := None |}
  end.

Definition resume (now : Instant) s : SuspendableGenerator G :=
  match suspended_at s with
  | Some prev =>
      {| g := g s; suspended_at := None;
         suspended_duration := suspended_duration s + duration_since now prev;
         value := None |}
  | None => s
  end.

Definition set (now : Instant) (v : option Z) s : SuspendableGenerator G :=
  let s := match v with Some _ => suspend now s | None => resume now s end in
  {| g := g s; suspended_at := suspended_at s; suspended_duration := suspended_duration s;
     value := v |}.

Definition activate_at (now : Instant) s : SuspendableGenerator G :=
  {| g := gen_activate_at now (g s); suspended_at := suspended_at s;
     suspended_duration := suspended_duration s; value := value s |}.

Definition current_at (now : Instant) s : SuspendableGenerator G * option Z :=
  match suspended_at s with
  | Some _ => (s, match value s with Some v => Some v | None => Some 0 end)
  | None =>
      let '(x, v) := gen_current_at (now - suspended_duration s) (g s) in
      ({| g := x; suspended_at := None; suspended_duration := suspended_duration s;
          value := value s |}, v)
  end.

(** The dispatch of an event in the rate-control loop (engine.rs). *)
Definition apply_event (now : Instant) (ev : GeneratorEvent) s : SuspendableGenerator G :=
  match ev with
  | Suspend => suspend now s
  | Resume => resume now s
  | Set_ v => set now (Some v) s
  end.
End ops.
End Suspendable.

#[export] Instance suspendable_generator {G} `{Generator G} : Generator (SuspendableGenerator G) := {
  gen_activate_at := Suspendable.activate_at;
  gen_current_at := Suspendable.current_at;
}.

(** ** What the wrapper promises

    A profile is either running or held at a rate since some instant; [paused]
    is the time it has been held for in the past. *)
Inductive Mode :=
  | Running
  | Held (since : Instant) (rate : Z).

Record Control := { mode : Mode; paused : Duration }.

Definition control_event (now : Instant) (ev : GeneratorEvent) (c : Control) : Control :=
  match ev, mode c with
  | Suspend, Running => {| mode := Held now 0; paused := paused c |}
  | Suspend, Held _ _ => c
  | Resume, Running => c
  | Resume, Held t _ => {| mode := Running; paused := paused c + duration_since now t |}
  | Set_ v, Running => {| mode := Held now v; paused := paused c |}
  | Set_ v, Held t _ => {| mode := Held t v; paused := paused c |}
  end.

(** The profile's own clock: it stands still while the profile is held. *)
Definition profile_clock (now : Instant) (c : Control) : Instant :=
  match mode c with
  | Running => now - paused c
  | Held t _ => t - paused c
  end.

Section refinement.
Context {G : Type} `{Generator G}.
Implicit Types s : SuspendableGenerator G.

Definition control_of s : Control :=
  {| mode := match suspended_at s with
             | None => Running
             | Some t => Held t (default 0 (value s))
             end;
     paused := suspended_duration s |}.

Lemma apply_event_refines now ev s :
  control_of (Suspendable.apply_event now ev s) = control_event now ev (control_of s) ∧
  g (Suspendable.apply_event now ev s) = g s.
Proof.
  destruct s as [x [t|] d v]; destruct ev;
    unfold control_of, control_event, Suspendable.apply_event, Suspendable.set,
      Suspendable.suspend, Suspendable.resume; done.
Qed.

Lemma current_at_refines now s :
  control_of (Suspendable.current_at now s).1 = control_of s ∧
  match mode (control_of s) with
  | Held _ r => Suspendable.current_at now s = (s, Some r)
  | Running => g (Suspendable.current_at now s).1 = (gen_current_at (profile_clock now (control_of s)) (g s)).1 ∧
      (Suspendable.current_at now s).2 = (gen_current_at (profile_clock now (control_of s)) (g s)).2
  end.
Proof.
  destruct s as [x [t|] d v]; unfold Suspendable.current_at, profile_clock, control_of; cbn.
  - split; [done|]. by destruct v.
  - destruct (gen_current_at (now - d) x); done.
Qed.
End refinement.

(** An execution: control events and polls, each at its instant. *)
Inductive Action :=
  | Event (ev : GeneratorEvent)
  | Poll.

Section trace.
Context {G : Type} `{Generator G}.

Definition act (s : SuspendableGenerator G) (a : Instant * Action) : SuspendableGenerator G :=
  match a with
  | (now, Event ev) => Suspendable.apply_event now ev s
  | (now, Poll) => (Suspendable.current_at now s).1
  end.

Definition control_act (c : Control) (a : Instant * Action) : Control :=
  match a with
  | (now, Event ev) => control_event now ev c
  | (_, Poll) => c
  end.

Lemma act_refines s a : control_of (act s a) = control_act (control_of s) a.
Proof.
  destruct a as [now [ev|]]; cbn; [apply apply_event_refines|apply current_at_refines].
Qed.
End trace.

(** The instants at which the wrapped generator is polled in a trace. *)
Fixpoint inner_polls (c : Control) (l : list (Instant * Action)) : list Instant :=
  match l with
  | [] => []
  | (now, a) :: l =>
      let rest := inner_polls (control_act c (now, a)) l in
      match a, mode c with
      | Poll, Running => profile_clock now c :: rest
      | _, _ => rest
      end
  end.

(** Running the wrapped generator alone over a list of instants. *)
Definition poll_all {G} `{Generator G} (x : G) (l : list Instant) : G :=
  foldl (λ x t, (gen_current_at t x).1) x l.

(** What the polls of a trace yield, and what they should: a held profile
    yields the rate it is held at, a running one what the wrapped generator
    yields at the profile's own clock. *)
Fixpoint yields {G} `{Generator G} (s : SuspendableGenerator G) (l : list (Instant * Action)) : list (option Z) :=
  match l with
  | [] => []
  | (now, a) :: l =>
      match a with Poll => [(Suspendable.current_at now s).2] | Event _ => [] end ++ yields (act s (now, a)) l
  end.

Fixpoint control_yields {G} `{Generator G} (c : Control) (x : G) (l : list (Instant * Action)) : list (option Z) :=
  match l with
  | [] => []
  | (now, Event ev) :: l => control_yields (control_event now ev c) x l
  | (now, Poll) :: l =>
      match mode c with
      | Held _ r => Some r :: control_yields c x l
      | Running => let '(x, v) := gen_current_at (profile_clock now c) x in v :: control_yields c x l
      end
  end.

(** C7: the wrapper refines the abstract control: over any sequence of events
    and polls its mode is the one the events prescribe, every poll yields what
    that mode prescribes — the rate set by hand or zero while the profile is
    held, the profile's own rate otherwise — and the wrapped generator has been
    polled exactly at the instants of the profile's own clock while it was
    running, and never otherwise. *)
Theorem suspendable_refines_control {G} `{Generator G} (x : G) l :
  let s := foldl act (Suspendable.new x) l in
  control_of s = foldl control_act {| mode := Running; paused := 0 |} l ∧
  yields (Suspendable.new x) l = control_yields {| mode := Running; paused := 0 |} x l ∧
  g s = poll_all x (inner_polls {| mode := Running; paused := 0 |} l).
Proof.
  cbv zeta. change {| mode := Running; paused := 0 |} with (control_of (Suspendable.new x)).
  replace (control_yields (control_of (Suspendable.new x)) x l)
    with (control_yields (control_of (Suspendable.new x)) (g (Suspendable.new x)) l) by done.
  replace (poll_all x) with (poll_all (g (Suspendable.new x))) by done. generalize (Suspendable.new x). clear x.
  unfold poll_all. induction l as [|[now a] l IH]; intros s; [done|]. cbn [foldl inner_polls yields control_yields].
  destruct (IH (act s (now, a))) as (IH1 & IH2 & IH3).
  rewrite IH1, IH2, IH3, act_refines. split; [done|].
  destruct a as [ev|].
  - cbn [act control_act app]. rewrite !(proj2 (apply_event_refines now ev s)). by split.
  - destruct (current_at_refines now s) as [_ Hc]. cbn [act control_act app].
    destruct (mode (control_of s)).
    + destruct Hc as [-> ->]. split; [by destruct (gen_current_at _ _)|done].
    + rewrite Hc. by split.
Qed.

(** A control whose holds lie in the past. *)
Definition control_ok (now : Instant) (c : Control) : Prop :=
  match mode c with Running => True | Held t _ => t ≤ now end.

(** A control event never moves the profile's clock: it stands still from
    the moment the profile is held until it is resumed, and runs at the pace of
    real time otherwise; in particular an outage of any length neither skips
    nor repeats a part of the profile. *)
Theorem suspension_freezes_clock now now' ev c :
  control_ok now c → now ≤ now' →
  profile_clock now (control_event now ev c) = profile_clock now c ∧
  control_ok now' (control_event now ev c) ∧
  profile_clock now' c - profile_clock now c =
    match mode c with Running => now' - now | Held _ _ => 0 end.
Proof.
  destruct c as [[|t r] p]; destruct ev; unfold control_ok, profile_clock, duration_since; cbn;
    unfold duration_since; intros; split_and!; try done; lia.
Qed.

Lemma suspension_freezes_clock_witness :
  profile_clock 50 (control_event 50 Resume {| mode := Held 20 7; paused := 5 |}) = 15.
Proof.
  apply (suspension_freezes_clock 50 60 Resume {| mode := Held 20 7; paused := 5 |});
    vm_compute; discriminate.
Defined.

(** The rate seen by the workers after an event: a suspended profile yields
    zero, a set rate is yielded until the profile is resumed — and a [Suspend]
    that arrives while a rate is set is dropped: the load goes on at that rate. *)
Theorem suspend_does_not_stop_set_rate {G} `{Generator G} (s : SuspendableGenerator G) v t1 t2 now :
  suspended_at s = None →
  let held := Suspendable.apply_event t1 (Set_ v) s in
  (Suspendable.current_at now (Suspendable.apply_event t1 Suspend s)).2 = Some 0 ∧
  (Suspendable.current_at now held).2 = Some v ∧
  Suspendable.apply_event t2 Suspend held = held ∧
  suspended_at (Suspendable.apply_event t2 Resume held) = None.
Proof.
  intros Hs. destruct s as [x [?|] d w]; [done|]. cbn. done.
Qed.

Lemma suspend_does_not_stop_set_rate_witness :
  let s := Suspendable.new (GLine {| line_k := 0; line_b := 9; line_t0 := 0; line_dur := 100 |}) in
  let _ := boxed_generator (λ x, x) in
  (Suspendable.current_at 40 (Suspendable.apply_event 20 Suspend
     (Suspendable.apply_event 10 (Set_ 500) s))).2 = Some 500.
Proof.
  cbv zeta. pose (I := boxed_generator (λ x, x)).
  destruct (suspend_does_not_stop_set_rate (H := I)
    (Suspendable.new (GLine {| line_k := 0; line_b := 9; line_t0 := 0; line_dur := 100 |}))
    500 10 20 40 eq_refl) as (_ & H1 & H2 & _).
  rewrite H2. exact H1.
Defined.
