(* ===== verification/RateControl.v ===== *)
(** * The rate-control loop ([dwd-core/src/engine.rs])

    The loop polls the profile, applies at most one control event, spreads the
    polled rate over the limits of the workers and publishes it.  What it reads
    from outside in an iteration — the clock, the running flag, the control
    channel — is a [Tick]; a run is a list of them. *)
From S2P Require Import Prelude Machine F64 Time Generator Suspendable.

(** ** Spreading a rate over the workers *)

(** The [for] loop over the limits: worker [idx] gets [v / n], the first
    [v % n] workers one more.  The division panics when there is no worker. *)
Definition distribute (v : Z) (n : nat) : res (list Z) :=
  let! lb := u64_div v (Z.of_nat n) in
  let! ub := u64_rem v (Z.of_nat n) in
  Ok ((λ idx, if Z.of_nat idx <? ub then u64_add lb 1 else lb) <$> seq 0 n).

(** ** The loop *)

Record Tick := {
  poll_at : Instant;
  tick_running : bool;
  tick_event : option (GeneratorEvent * Instant);
}.

Record RateState (G : Type) := {
  rs_g : SuspendableGenerator G;
  rs_limits : list Z;
  rs_generator : Z;
  rs_is_running : bool;
}.
Arguments rs_g {G} _.
Arguments rs_limits {G} _.
Arguments rs_generator {G} _.
Arguments rs_is_running {G} _.

(** What an iteration of the loop does: go on, or leave it. *)
Inductive Flow (A : Type) :=
  | Continue (a : A)
  | Break (a : A).
Arguments Continue {A} a.
Arguments Break {A} a.

Section run.
Context {G : Type} `{Generator G}.
Implicit Types s : RateState G.

Definition stop_running s : RateState G :=
  {| rs_g := rs_g s; rs_limits := rs_limits s; rs_generator := rs_generator s;
     rs_is_running := false |}.

(** One evaluation of the [while let] condition and of its body. *)
Definition rate_iteration s (t : Tick) : res (Flow (RateState G)) :=
  let '(g, v) := Suspendable.current_at (poll_at t) (rs_g s) in
  let s := {| rs_g := g; rs_limits := rs_limits s; rs_generator := rs_generator s;
              rs_is_running := rs_is_running s |} in
  match v with
  | None => Ok (Break (stop_running s))
  | Some v =>
      if negb (tick_running t) then Ok (Break (stop_running s))
      else
        let g := match tick_event t with
                 | Some (ev, now) => Suspendable.apply_event now ev g
                 | None => g
                 end in
        let! limits := distribute v (length (rs_limits s)) in
        Ok (Continue {| rs_g := g; rs_limits := limits; rs_generator := v;
                        rs_is_running := rs_is_running s |})
  end.

(** The loop over a list of ticks, with the states after each iteration; the
    flag tells whether the loop was left. *)
Fixpoint rate_loop s (ts : list Tick) : res (list (RateState G) * bool) :=
  match ts with
  | [] => Ok ([], false)
  | t :: ts =>
      let! f := rate_iteration s t in
      match f with
      | Break s => Ok ([s], true)
      | Continue s => let! r := rate_loop s ts in Ok (s :: fst r, snd r)
      end
  end.

(** [run_generator] after [generator_fn.create]: [activate], then the loop. *)
Definition run_generator (g : G) (now : Instant) (limits : list Z) (ts : list Tick) :
    res (list (RateState G) * bool) :=
  rate_loop {| rs_g := Suspendable.activate_at now (Suspendable.new g); rs_limits := limits;
               rs_generator := 0; rs_is_running := true |} ts.
End run.

(** ** Distribution *)

Lemma distribute_Ok v n :
  (0 < n)%nat →
  distribute v n =
    Ok ((λ idx, if Z.of_nat idx <? v `mod` Z.of_nat n then u64_add (v / Z.of_nat n) 1
                else v / Z.of_nat n) <$> seq 0 n).
Proof.
  intros Hn. unfold distribute, u64_div, u64_rem.
  destruct (Z.eqb_spec (Z.of_nat n) 0); [lia|]. done.
Qed.

Lemma distribute_length v n ls : distribute v n = Ok ls → length ls = n.
Proof.
  destruct n as [|n]; [done|]. rewrite distribute_Ok by lia. intros [= <-].
  cbn [length]. f_equal. by rewrite length_fmap, length_seq.
Qed.

Lemma zsum_step_below a c m n :
  zsum ((λ idx, if Z.of_nat idx <? c then a + 1 else a) <$> seq m n) =
    a * Z.of_nat n + Z.max 0 (Z.min (c - Z.of_nat m) (Z.of_nat n)).
Proof.
  revert m. induction n as [|n IH]; intros m.
  - change (zsum _) with 0. lia.
  - cbn [seq]. csimpl. rewrite zsum_cons, IH. destruct (Z.ltb_spec (Z.of_nat m) c); lia.
Qed.

Lemma distribute_spec v n ls :
  is_u64 v → distribute v n = Ok ls →
  length ls = n ∧ zsum ls = v ∧
  Forall (λ l, v / Z.of_nat n ≤ l ≤ v / Z.of_nat n + 1) ls.
Proof.
  intros Hv Hd. assert (0 < n)%nat as Hn by (destruct n; [done|lia]).
  rewrite distribute_Ok in Hd by lia. injection Hd as <-.
  assert (0 < Z.of_nat n) as HN by lia. remember (Z.of_nat n) as N eqn:HeqN.
  pose proof (Z.div_mod v N ltac:(lia)) as Hdm.
  pose proof (Z.mod_pos_bound v N ltac:(lia)) as Hmb.
  assert (0 ≤ v / N) as Hd0 by (apply Z.div_pos; [apply Hv|lia]).
  assert (0 < v `mod` N → u64_add (v / N) 1 = v / N + 1) as Hadd.
  { intros Hm. apply u64_add_id; [done|lia|]. unfold is_u64 in Hv. nia. }
  rewrite (list_fmap_ext _ (λ idx, if Z.of_nat idx <? v `mod` N then v / N + 1 else v / N)).
  2: { intros _ idx _. destruct (Z.ltb_spec (Z.of_nat idx) (v `mod` N)); [|done]. apply Hadd. lia. }
  split_and!.
  - by rewrite length_fmap, length_seq.
  - rewrite zsum_step_below. lia.
  - apply Forall_fmap, Forall_forall. intros idx _. cbn. destruct (_ <? _); lia.
Qed.

(** C5: the rate is spread over the workers without loss: the limits add up to
    it exactly and no two of them differ by more than one, whatever the rate
    and the number of workers; with no worker at all the loop panics. *)
Theorem distribute_exact v n :
  is_u64 v →
  match distribute v n with
  | Ok ls => length ls = n ∧ zsum ls = v ∧ ∀ l l', l ∈ ls → l' ∈ ls → l - l' ≤ 1
  | Err _ => False
  | Panic _ => n = 0%nat
  end.
Proof.
  intros Hv. destruct (distribute v n) as [ls| |] eqn:Hd.
  - destruct (distribute_spec v n ls Hv Hd) as (Hl & Hs & Hf).
    rewrite Forall_forall in Hf. split_and!; [done|done|].
    intros l l' Hin Hin'. pose proof (Hf l Hin). pose proof (Hf l' Hin'). cbn in *. lia.
  - destruct n; [done|]. by rewrite distribute_Ok in Hd by lia.
  - destruct n; [done|]. by rewrite distribute_Ok in Hd by lia.
Qed.

Lemma distribute_exact_witness :
  distribute 1000 3 = Ok [334; 333; 333] ∧
  match distribute 1000 3 with
  | Ok ls => length ls = 3%nat ∧ zsum ls = 1000 ∧ ∀ l l', l ∈ ls → l' ∈ ls → l - l' ≤ 1
  | Err _ => False
  | Panic _ => 3%nat = 0%nat
  end.
Proof. split; [reflexivity|]. apply (distribute_exact 1000 3). done. Defined.

(** ** Executions *)

Section executions.
Context {G : Type} `{Generator G}.
Implicit Types s : RateState G.

(** The state of the loop between two iterations. *)
Definition rate_ok (n : nat) s : Prop :=
  length (rs_limits s) = n ∧ rs_is_running s = true.

Lemma rate_iteration_ok s t n f :
  rate_ok n s → rate_iteration s t = Ok f →
  match f with
  | Continue s' => rate_ok n s' ∧ tick_running t = true ∧
      (Suspendable.current_at (poll_at t) (rs_g s)).2 = Some (rs_generator s') ∧
      distribute (rs_generator s') n = Ok (rs_limits s') ∧
      rs_g s' = match tick_event t with
                | Some (ev, now) => Suspendable.apply_event now ev (Suspendable.current_at (poll_at t) (rs_g s)).1
                | None => (Suspendable.current_at (poll_at t) (rs_g s)).1
                end
  | Break s' => rs_is_running s' = false ∧ rs_limits s' = rs_limits s ∧
      rs_generator s' = rs_generator s ∧
      (tick_running t = false ∨ (Suspendable.current_at (poll_at t) (rs_g s)).2 = None)
  end.
Proof.
  intros [Hn Hr]. unfold rate_iteration.
  destruct (Suspendable.current_at (poll_at t) (rs_g s)) as [g [v|]]; cbn [fst snd rs_limits rs_generator].
  - destruct (tick_running t) eqn:Ht; cbn; intros Hf; [|injection Hf as <-; cbn; auto].
    res_inv. cbn. split_and!; auto. split; cbn; [|done]. by eapply distribute_length.
  - intros Hf. injection Hf as <-. cbn. auto.
Qed.

Lemma rate_loop_ok s ts n l fin :
  rate_ok n s → rate_loop s ts = Ok (l, fin) →
  (∀ i s', l !! i = Some s' → (S i < length l)%nat ∨ fin = false →
     rs_is_running s' = true ∧ distribute (rs_generator s') n = Ok (rs_limits s')) ∧
  (fin = true → ∃ s', last l = Some s' ∧ rs_is_running s' = false).
Proof.
  revert s l fin. induction ts as [|t ts IH]; intros s l fin Hs Hl; cbn in Hl.
  { injection Hl as <- <-. split; [done|done]. }
  apply res_bind_Ok in Hl as (f & Hf & Hl). pose proof (rate_iteration_ok s t n f Hs Hf) as Hok.
  destruct f as [s'|s'].
  - apply res_bind_Ok in Hl as ([l' fin'] & Hl' & [= <- <-]). cbn [fst snd].
    destruct Hok as (Hs' & _ & _ & Hd & _). destruct (IH s' l' fin' Hs' Hl') as [IH1 IH2].
    split.
    + intros [|i] s'' Hi Hc; cbn in Hi; [injection Hi as <-; split; [apply Hs'|done]|].
      apply (IH1 i); [done|]. cbn in Hc. destruct Hc; [left; lia|by right].
    + intros Hfin. destruct (IH2 Hfin) as (s'' & Hlast & Hr). exists s''.
      rewrite last_cons, Hlast. done.
  - injection Hl as <- <-. split.
    + intros [|i] s'' Hi [Hc|Hc]; cbn in *; try lia; done.
    + intros _. exists s'. split; [done|]. apply Hok.
Qed.
End executions.

(** C6: in every execution of the loop, whatever the clock, the control events
    and the moment it is told to stop, after each completed iteration the
    limits of the workers add up to the published rate, and the loop never
    ends without clearing the running flag. *)
Theorem run_generator_tracks_rate {G} `{Generator G} (g : G) now limits ts l fin :
  run_generator g now limits ts = Ok (l, fin) →
  (∀ i s, l !! i = Some s → (S i < length l)%nat ∨ fin = false →
     length (rs_limits s) = length limits ∧ rs_is_running s = true ∧
     (is_u64 (rs_generator s) → zsum (rs_limits s) = rs_generator s)) ∧
  (fin = true → ∃ s, last l = Some s ∧ rs_is_running s = false).
Proof.
  intros Hr. unfold run_generator in Hr.
  apply (rate_loop_ok _ ts (length limits)) in Hr as [H1 H2]; [|done].
  split; [|done]. intros i s Hi Hc. destruct (H1 i s Hi Hc) as [Hrun Hd].
  assert (length (rs_limits s) = length limits) as Hlen.
  { by eapply distribute_length. }
  split_and!; [done|done|]. intros Hu. by apply (distribute_spec _ (length limits)).
Qed.

Definition example_generator : Gen :=
  GLine {| line_k := 0; line_b := 100; line_t0 := 0; line_dur := 1000000000 |}.

Lemma run_generator_tracks_rate_witness :
  let I := boxed_generator (λ x, x) in
  ∃ l, run_generator example_generator 0 [0; 0; 0]
    [{| poll_at := 5; tick_running := true; tick_event := Some (Set_ 7, 6) |};
     {| poll_at := 15; tick_running := true; tick_event := None |};
     {| poll_at := 25; tick_running := false; tick_event := None |}] = Ok (l, true) ∧
  ((λ s, (rs_limits s, rs_generator s)) <$> l) =
    [([34; 33; 33], 100); ([3; 2; 2], 7); ([3; 2; 2], 7)] ∧
  ∃ s, last l = Some s ∧ rs_is_running s = false.
Proof.
  intros I. eexists. split; [reflexivity|]. split; [reflexivity|].
  eapply (run_generator_tracks_rate (H := I) example_generator 0 [0; 0; 0]
    [{| poll_at := 5; tick_running := true; tick_event := Some (Set_ 7, 6) |};
     {| poll_at := 15; tick_running := true; tick_event := None |};
     {| poll_at := 25; tick_running := false; tick_event := None |}]); reflexivity.
Defined.

(** An iteration publishes the rate polled before its control event, so an
    event takes effect in the next iteration, and the loop leaves only when the
    profile is exhausted or it is told to stop — in which case the limits keep
    their last values. *)
Theorem rate_iteration_event_is_next {G} `{Generator G} (s : RateState G) t f :
  rate_iteration s t = Ok f → rs_is_running s = true →
  let polled := Suspendable.current_at (poll_at t) (rs_g s) in
  match f with
  | Continue s' =>
      polled.2 = Some (rs_generator s') ∧
      rs_g s' = match tick_event t with
                | Some (ev, now) => Suspendable.apply_event now ev polled.1
                | None => polled.1
                end
  | Break s' =>
      rs_is_running s' = false ∧ rs_limits s' = rs_limits s ∧
      (tick_running t = false ∨ polled.2 = None)
  end.
Proof.
  intros Hf Hr; cbv zeta.
  pose proof (rate_iteration_ok s t (length (rs_limits s)) f (conj eq_refl Hr) Hf) as Hok.
  destruct f as [s'|s']; destruct_and!; done.
Qed.

Lemma rate_iteration_event_is_next_witness :
  let I := boxed_generator (λ x, x) in
  let s := {| rs_g := Suspendable.new example_generator; rs_limits := [0; 0];
              rs_generator := 0; rs_is_running := true |} in
  ∃ s', rate_iteration s {| poll_at := 3; tick_running := true; tick_event := Some (Suspend, 4) |} =
    Ok (Continue s') ∧ rs_limits s' = [50; 50] ∧ rs_generator s' = 100.
Proof.
  intros I s. eexists. split; [reflexivity|]. split; [reflexivity|].
  destruct (rate_iteration_event_is_next (H := I) s
    {| poll_at := 3; tick_running := true; tick_event := Some (Suspend, 4) |} _ eq_refl eq_refl) as [H _].
  reflexivity.
Defined.
