(* ===== verification/Histogram.v ===== *)
(** * Logarithmic histograms ([dwd-core/src/histogram.rs])

    [ln] and [powf] of the platform's mathematical library are parameters.
    Counters are 64-bit and wrap. *)
From S2P Require Import Prelude Machine F64.

Definition FACTOR : f64 := f64_lit 3 (-1).
(** 2.4663034623764317 *)
Definition INV_LN_FACTOR : f64 := f64_lit 5553621677070531 (-51).

(** ** Recording ([PerCpuLogHistogram]) *)

Section record.
Context (ln : f64 → f64).

(** The index computed by [record] before it is clamped. *)
Definition record_index (us : Z) : Z := f64_to_u64 (f64_mul (ln (f64_of_u64 us)) INV_LN_FACTOR).

Definition record (buckets : list Z) (us : Z) : res (list Z) :=
  let idx := record_index us in
  let idx := Z.min idx (as_u64 (Z.of_nat (length buckets) - 1)) in
  match buckets !! Z.to_nat idx with
  | Some b => Ok (<[Z.to_nat idx := u64_add b 1]> buckets)
  | None => Panic "index out of bounds"
  end.
End record.

(** The loop of [PerCpuLogHistogram::default]. *)
Fixpoint default_loop (fuel : nat) (curr : f64) (buckets : list Z) : option (list Z) :=
  match fuel with
  | O => None
  | S fuel =>
      if f64_geb curr (f64_of_u64 60000000) then Some buckets
      else default_loop fuel (f64_mul curr FACTOR) (buckets ++ [0])
  end.

Definition default_buckets : list Z := default [] (default_loop 64 f64_one []).

(** ** Reading ([LogHistogram]) *)

Section quantile.
Context (powf : f64 → f64 → f64).

(** The interpolation [c_inv]. *)
Definition interpolate (q : f64) (size sum b : Z) (idx : nat) : Z :=
  f64_to_u64 (powf FACTOR
    (f64_add (f64_div (f64_sub (f64_mul q (f64_of_u64 size)) (f64_of_u64 sum)) (f64_of_u64 b))
       (f64_of_u64 (Z.of_nat idx)))).

Fixpoint quantile_loop (q : f64) (size sum : Z) (idx : nat) (snapshot : list Z) : Z :=
  match snapshot with
  | [] => u64_max
  | b :: snapshot =>
      if f64_geb (f64_of_u64 (u64_add sum b)) (f64_mul q (f64_of_u64 size))
      then interpolate q size sum b idx
      else quantile_loop q size (u64_add sum b) (S idx) snapshot
  end.

Definition quantile (snapshot : list Z) (q : f64) : res Z :=
  if f64_leb f64_zero q && f64_leb q f64_one
  then Ok (quantile_loop q (u64_sum snapshot) 0 0 snapshot)
  else Panic "assertion failed: (0.0..=1.0).contains(&q)".
End quantile.

(** ** The default histogram *)

(** The loop of [default] ends, with the same 45 empty buckets for every
    sufficient fuel. *)
Lemma default_loop_terminates fuel :
  (45 < fuel)%nat → default_loop fuel f64_one [] = Some (replicate 45 0).
Proof.
  assert (∀ n curr bs bs', default_loop n curr bs = Some bs' →
    ∀ m, (n ≤ m)%nat → default_loop m curr bs = Some bs') as Hmono.
  { induction n as [|n IH]; intros curr bs bs' H m Hm; [done|].
    destruct m as [|m]; [lia|]. cbn [default_loop] in *.
    destruct (f64_geb curr (f64_of_u64 60000000)); [done|]. apply IH; [done|lia]. }
  intros Hf. apply (Hmono 46%nat); [|lia]. vm_compute. reflexivity.
Qed.

Lemma default_buckets_eq : default_buckets = replicate 45 0.
Proof. unfold default_buckets. by rewrite default_loop_terminates by lia. Qed.

(** ** Recording adds one to one bucket *)

Lemma record_clamped ln buckets us :
  buckets ≠ [] → Z.of_nat (length buckets) < 2 ^ 63 →
  ∃ i b, (i < length buckets)%nat ∧ buckets !! i = Some b ∧
    Z.of_nat i = Z.min (record_index ln us) (Z.of_nat (length buckets) - 1) ∧
    record ln buckets us = Ok (<[i := u64_add b 1]> buckets).
Proof.
  intros Hne Hlen. unfold record.
  assert (0 < length buckets)%nat as Hpos by (destruct buckets; [done|cbn; lia]).
  rewrite as_u64_id by (unfold is_u64; lia).
  pose proof (to_u64_range (f64_mul (ln (f64_of_u64 us)) INV_LN_FACTOR)) as [Hr _].
  fold (record_index ln us) in Hr.
  set (i := Z.min (record_index ln us) (Z.of_nat (length buckets) - 1)).
  assert (Z.to_nat i < length buckets)%nat as Hi by lia.
  destruct (lookup_lt_is_Some_2 _ _ Hi) as [b Hb].
  exists (Z.to_nat i), b. rewrite Hb. split_and!; [done|done|lia|done].
Qed.

(** On any non-empty histogram and for every latency, recording never goes
    out of bounds: exactly one bucket, the last one for long latencies, grows by
    one, whatever the logarithm of the platform returns (even for zero
    microseconds, where it is infinite or NaN). *)
Theorem record_one_bucket ln buckets us :
  buckets ≠ [] → Z.of_nat (length buckets) < 2 ^ 63 →
  Forall is_u64 buckets → zsum buckets < u64_max →
  ∃ buckets', record ln buckets us = Ok buckets' ∧
    length buckets' = length buckets ∧ zsum buckets' = zsum buckets + 1 ∧
    ∃ i, ∀ j, buckets' !! j = (if decide (i = j) then Z.succ <$> buckets !! j else buckets !! j).
Proof.
  intros Hne Hlen Hu Hs. destruct (record_clamped ln buckets us Hne Hlen) as (i & b & Hi & Hb & _ & ->).
  eexists. split; [done|].
  assert (b ≤ zsum buckets) by (eapply zsum_lookup_le; eauto with dwd).
  assert (is_u64 b) as [Hb0 _] by (rewrite Forall_lookup in Hu; eauto).
  rewrite u64_add_id by (unfold u64_max in *; lia).
  split_and!; [by rewrite length_insert|rewrite (zsum_insert _ _ _ _ Hb); lia|].
  exists i. intros j. destruct (decide (i = j)) as [<-|Hne'].
  - rewrite list_lookup_insert, decide_True, Hb by done. reflexivity.
  - by rewrite list_lookup_insert_ne.
Qed.

Lemma record_one_bucket_witness :
  ∃ buckets', record (λ _, S754_infinity true) default_buckets 0 = Ok buckets' ∧
    buckets' !! 0%nat = Some 1 ∧ zsum buckets' = 1.
Proof.
  destruct (record_one_bucket (λ _, S754_infinity true) default_buckets 0)
    as (b & Hb & _ & Hs & _).
  - rewrite default_buckets_eq. done.
  - rewrite default_buckets_eq. done.
  - rewrite default_buckets_eq. apply Forall_replicate. done.
  - rewrite default_buckets_eq. vm_compute. done.
  - exists b. split; [done|]. split; [|by rewrite Hs, default_buckets_eq].
    rewrite default_buckets_eq in Hb. vm_compute in Hb. by injection Hb as <-.
Defined.

(** ** Quantiles *)

Lemma f64_mul_comm x y : f64_mul x y = f64_mul y x.
Proof.
  destruct x as [[]|[]| |[] mx ex]; destruct y as [[]|[]| |[] my ey]; try done;
    unfold f64_mul, SFmul; cbn [xorb]; by rewrite Pos.mul_comm, Z.add_comm.
Qed.

Lemma mul_upper_l x y :
  f64_nonneg x → f64_nonneg y → f64_finite x → f64_finite y →
  scaled x ≤ 2 ^ 1074 → scaled (f64_mul x y) ≤ scaled y.
Proof. rewrite f64_mul_comm. intros. by apply mul_upper. Qed.

(** The bucket the quantile is interpolated in: the first one whose cumulated
    count reaches [q * size]. *)
Definition quantile_bucket (q : f64) (snapshot : list Z) (i : nat) : Prop :=
  (i < length snapshot)%nat ∧
  scaled (f64_mul q (f64_of_u64 (zsum snapshot))) ≤ scaled (f64_of_u64 (zsum (take (S i) snapshot))) ∧
  ∀ j, (j < i)%nat →
    scaled (f64_of_u64 (zsum (take (S j) snapshot))) < scaled (f64_mul q (f64_of_u64 (zsum snapshot))).

Lemma take_S_snoc {A} (l : list A) i x : l !! i = Some x → take (S i) l = take i l ++ [x].
Proof. apply take_S_r. Qed.

Section quantile_proof.
Context (powf : f64 → f64 → f64) (q : f64) (snapshot : list Z).
Hypothesis Hq : f64_nonneg q ∧ scaled q ≤ 2 ^ 1074.
Hypothesis Hu : Forall is_u64 snapshot.
Hypothesis Hs : zsum snapshot < 2 ^ 53.

Let size := zsum snapshot.
Let target := f64_mul q (f64_of_u64 size).

Lemma partial_sum_bounds i : 0 ≤ zsum (take i snapshot) ≤ size.
Proof using All.
  assert (Forall (Z.le 0) snapshot) as H0 by auto with dwd.
  rewrite <-(take_drop i snapshot) in H0. apply Forall_app in H0 as [H1 H2].
  split; [by apply zsum_nonneg|]. unfold size. rewrite <-(take_drop i snapshot) at 2.
  rewrite zsum_app. pose proof (zsum_nonneg _ H2). lia.
Qed.

Lemma target_bounds : f64_nonneg target ∧ scaled target ≤ scaled (f64_of_u64 size).
Proof using All.
  destruct Hq as [Hq1 Hq2]. pose proof (partial_sum_bounds 0) as [H0 _].
  pose proof (partial_sum_bounds (length snapshot)) as [H1 _].
  rewrite take_ge in H1 by done. fold size in H1.
  assert (f64_finite q).
  { destruct q as [s|s| |s m e]; destruct Hq1 as [_ Hn]; cbn in Hn; try done. subst s.
    exfalso. cbn -[Z.pow] in Hq2. lia. }
  assert (f64_finite (f64_of_u64 size)).
  { pose proof (of_u64_nonneg size H1) as Hn.
    pose proof (of_u64_exact size ltac:(unfold size in *; lia)) as He.
    destruct (f64_of_u64 size) as [s|s| |s m e]; destruct Hn as [_ Hn]; cbn in Hn; try done. subst s.
    exfalso. cbn -[Z.pow Z.mul] in He.
    assert (2 ^ 2098 = 2 ^ 1024 * 2 ^ 1074) as Hp by (rewrite <-Z.pow_add_r by lia; done).
    assert (size * 2 ^ 1074 < 2 ^ 1024 * 2 ^ 1074).
    { apply Z.mul_lt_mono_pos_r; [lia|]. unfold size.
      apply (Z.lt_le_trans _ (2 ^ 53)); [done|]. apply Z.pow_le_mono_r; lia. }
    lia. }
  pose proof (of_u64_nonneg size H1).
  split; [by apply mul_nonneg|by apply mul_upper_l].
Qed.

Lemma quantile_loop_finds sum idx :
  (idx < length snapshot)%nat →
  sum = zsum (take idx snapshot) →
  (∀ j, (j < idx)%nat → scaled (f64_of_u64 (zsum (take (S j) snapshot))) < scaled target) →
  ∃ i b, quantile_bucket q snapshot i ∧ snapshot !! i = Some b ∧
    quantile_loop powf q size sum idx (drop idx snapshot) =
      interpolate powf q size (zsum (take i snapshot)) b i.
Proof using All.
  intros Hidx -> Hlow. remember (length snapshot - idx)%nat as n eqn:Hn.
  revert idx Hidx Hlow Hn. induction n as [|n IH]; intros idx Hidx Hlow Hn; [lia|].
  destruct (lookup_lt_is_Some_2 _ _ Hidx) as [b Hb].
  rewrite (drop_S _ b idx) by done. cbn [quantile_loop].
  pose proof (partial_sum_bounds idx) as Hb1. pose proof (partial_sum_bounds (S idx)) as Hb2.
  pose proof target_bounds as [Ht1 Ht2].
  assert (zsum (take (S idx) snapshot) = zsum (take idx snapshot) + b) as Hsum.
  { rewrite (take_S_snoc _ _ b), zsum_app, zsum_cons by done. change (zsum []) with 0. lia. }
  assert (0 ≤ b) by (rewrite Forall_lookup in Hu; specialize (Hu _ _ Hb); apply Hu).
  rewrite u64_add_id by (unfold size in *; lia). rewrite <-Hsum.
  unfold f64_geb. fold (f64_leb (f64_mul q (f64_of_u64 size)) (f64_of_u64 (zsum (take (S idx) snapshot)))).
  fold target. rewrite leb_scaled by (done || apply of_u64_nonneg; lia).
  destruct (Z.leb_spec (scaled target) (scaled (f64_of_u64 (zsum (take (S idx) snapshot))))) as [Hle|Hgt].
  - exists idx, b. split_and!; [split_and!; [done|exact Hle|exact Hlow]|done|done].
  - assert (S idx < length snapshot)%nat as Hidx'.
    { destruct (decide (S idx < length snapshot)%nat); [done|].
      exfalso. rewrite take_ge in Hgt by lia. unfold size in Ht2. lia. }
    apply (IH (S idx) Hidx'); [|lia].
    intros j Hj. destruct (decide (j = idx)) as [->|]; [done|]. apply Hlow. lia.
Qed.
End quantile_proof.

(** C38: for every [q] in [0; 1] the quantile of a histogram with at least one
    bucket is found — the search never runs off the end and never returns
    [u64::MAX] by default — and it is interpolated in the first bucket whose
    cumulated count reaches [q] times the number of samples. *)
Theorem quantile_found powf snapshot q :
  snapshot ≠ [] → Forall is_u64 snapshot → zsum snapshot < 2 ^ 53 →
  f64_nonneg q → scaled q ≤ scaled f64_one →
  ∃ i b, quantile_bucket q snapshot i ∧ snapshot !! i = Some b ∧
    quantile powf snapshot q = Ok (interpolate powf q (zsum snapshot) (zsum (take i snapshot)) b i).
Proof.
  intros Hne Hu Hs Hq1 Hq2. unfold quantile.
  assert (scaled f64_one = 2 ^ 1074) as Hone by (vm_compute; reflexivity).
  rewrite !leb_scaled by (done || vm_compute; done).
  destruct (Z.leb_spec (scaled f64_zero) (scaled q)) as [_|Hlt]; [|pose proof (scaled_nonneg q Hq1); cbn in Hlt; lia].
  destruct (Z.leb_spec (scaled q) (scaled f64_one)); [|lia]. cbn [andb].
  rewrite u64_sum_exact by (eauto with dwd || lia).
  destruct (quantile_loop_finds powf q snapshot ltac:(split; [done|lia]) Hu Hs 0 0) as (i & b & Hi & Hb & Hl).
  - destruct snapshot; [done|cbn; lia].
  - done.
  - intros j. lia.
  - exists i, b. split_and!; [done|done|]. by rewrite <-Hl, drop_0.
Qed.

Lemma quantile_found_witness :
  ∃ i b, quantile_bucket (f64_lit 1 (-1)) [2; 1; 9; 4] i ∧ [2; 1; 9; 4] !! i = Some b ∧
    quantile (λ x y, f64_mul x y) [2; 1; 9; 4] (f64_lit 1 (-1)) =
      Ok (interpolate (λ x y, f64_mul x y) (f64_lit 1 (-1)) 16 (zsum (take i [2; 1; 9; 4])) b i).
Proof.
  apply (quantile_found (λ x y, f64_mul x y) [2; 1; 9; 4] (f64_lit 1 (-1))).
  - done.
  - repeat (apply Forall_cons; split; [done|]). by apply Forall_nil.
  - vm_compute. done.
  - vm_compute. done.
  - vm_compute. done.
Defined.

(** The table in the source's comment puts the shortest latencies in a bucket of
    their own below [f^0]; the code has no such bucket: with the true logarithm
    of one, a latency of one microsecond is counted in bucket 0, so bucket [i]
    starts at [f^i] and not at [f^(i-1)]. *)
Lemma record_one_microsecond ln : ln f64_one = f64_zero → record_index ln 1 = 0.
Proof. intros H. unfold record_index. change (f64_of_u64 1) with f64_one. by rewrite H. Qed.
