(* ===== verification/Stat.v ===== *)
(** * Per-worker statistics ([dwd-core/src/stat.rs], [stat/percpu.rs])

    A thread owns one [PerCpuStat] and is the only one that writes it, its tasks
    by turns; the readers add the threads' counters up.  The traits the rest of
    the program reads statistics through are type classes.  [S]ocket, [R]eception, [T]ransmit,
    [H]TTP and [B]urst parts are parameters of the record as in the code, with
    [unit] for the parts an engine does not have. *)
From S2P Require Import Prelude Machine F64 Histogram.

(** ** Reading interfaces *)

Class CommonStat (S : Type) := { generator : S → Z }.
Class TxStat (S : Type) := { num_requests : S → Z; bytes_tx : S → Z }.
Class BurstTxStat (S : Type) := { num_bursts_tx : S → nat → res Z }.
Class RxStat (S : Type) := {
  num_responses : S → Z; num_timeouts : S → Z; bytes_rx : S → Z; hist : S → list Z
}.
Class SocketStat (S : Type) := {
  num_sock_created : S → Z; num_sock_errors : S → Z; num_retransmits : S → Z
}.
Class HttpStat (S : Type) := {
  num_2xx : S → Z; num_3xx : S → Z; num_4xx : S → Z; num_5xx : S → Z
}.

(** ** The parts of a worker's statistics *)

Record TxWorkerStat := { w_num_requests : Z; w_bytes_tx : Z }.
Record RxWorkerStat := {
  w_num_responses : Z; w_bytes_rx : Z; w_num_timeouts : Z; w_hist : list Z
}.
Record SockWorkerStat := {
  w_num_sock_created : Z; w_num_sock_errors : Z; w_num_retransmits : Z
}.
Record HttpWorkerStat := { w_num_2xx : Z; w_num_3xx : Z; w_num_4xx : Z; w_num_5xx : Z }.
(** 32 counters. *)
Record BurstTxWorkerStat := { w_bursts : list Z }.

Record PerCpuStat (T R S H B : Type) := {
  tx : T; rx : R; sock : S; http : H; bursts_tx : B
}.
Arguments tx {T R S H B} _.
Arguments rx {T R S H B} _.
Arguments sock {T R S H B} _.
Arguments http {T R S H B} _.
Arguments bursts_tx {T R S H B} _.

Class Default (A : Type) := { default_value : A }.
#[export] Instance unit_default : Default unit := {| default_value := tt |}.
#[export] Instance tx_default : Default TxWorkerStat :=
  {| default_value := {| w_num_requests := 0; w_bytes_tx := 0 |} |}.
#[export] Instance rx_default : Default RxWorkerStat :=
  {| default_value := {| w_num_responses := 0; w_bytes_rx := 0; w_num_timeouts := 0;
                         w_hist := default_buckets |} |}.
#[export] Instance sock_default : Default SockWorkerStat :=
  {| default_value := {| w_num_sock_created := 0; w_num_sock_errors := 0; w_num_retransmits := 0 |} |}.
#[export] Instance http_default : Default HttpWorkerStat :=
  {| default_value := {| w_num_2xx := 0; w_num_3xx := 0; w_num_4xx := 0; w_num_5xx := 0 |} |}.
#[export] Instance bursts_default : Default BurstTxWorkerStat :=
  {| default_value := {| w_bursts := replicate 32 0 |} |}.
#[export] Instance percpu_default {T R S H B} `{Default T, Default R, Default S, Default H, Default B} :
    Default (PerCpuStat T R S H B) :=
  {| default_value := {| tx := default_value; rx := default_value; sock := default_value;
                         http := default_value; bursts_tx := default_value |} |}.

(** ** Writing *)

Section on_tx.
Context {R S H B : Type}.
Abbreviation St := (PerCpuStat TxWorkerStat R S H B).
Definition set_tx (t : TxWorkerStat) (s : St) : St :=
  {| tx := t; rx := rx s; sock := sock s; http := http s; bursts_tx := bursts_tx s |}.
Definition on_requests (v : Z) (s : St) : St :=
  set_tx {| w_num_requests := u64_add (w_num_requests (tx s)) v; w_bytes_tx := w_bytes_tx (tx s) |} s.
Definition on_send (n : Z) (s : St) : St :=
  set_tx {| w_num_requests := w_num_requests (tx s); w_bytes_tx := u64_add (w_bytes_tx (tx s)) n |} s.
End on_tx.

Section on_rx.
Context {T S H B : Type} (ln : f64 → f64).
Abbreviation St := (PerCpuStat T RxWorkerStat S H B).
Definition set_rx (r : RxWorkerStat) (s : St) : St :=
  {| tx := tx s; rx := r; sock := sock s; http := http s; bursts_tx := bursts_tx s |}.
(** [on_response]: [us] is the time elapsed in microseconds. *)
Definition on_response (us : Z) (s : St) : res St :=
  let! h := record ln (w_hist (rx s)) us in
  Ok (set_rx {| w_num_responses := u64_add (w_num_responses (rx s)) 1; w_bytes_rx := w_bytes_rx (rx s);
                w_num_timeouts := w_num_timeouts (rx s); w_hist := h |} s).
Definition on_recv (n : Z) (s : St) : St :=
  set_rx {| w_num_responses := w_num_responses (rx s); w_bytes_rx := u64_add (w_bytes_rx (rx s)) n;
            w_num_timeouts := w_num_timeouts (rx s); w_hist := w_hist (rx s) |} s.
Definition on_timeout (us : Z) (s : St) : res St :=
  let! h := record ln (w_hist (rx s)) us in
  Ok (set_rx {| w_num_responses := w_num_responses (rx s); w_bytes_rx := w_bytes_rx (rx s);
                w_num_timeouts := u64_add (w_num_timeouts (rx s)) 1; w_hist := h |} s).
End on_rx.

Section on_sock.
Context {T R H B : Type}.
Abbreviation St := (PerCpuStat T R SockWorkerStat H B).
Definition set_sock (k : SockWorkerStat) (s : St) : St :=
  {| tx := tx s; rx := rx s; sock := k; http := http s; bursts_tx := bursts_tx s |}.
Definition on_sock_created (s : St) : St :=
  set_sock {| w_num_sock_created := u64_add (w_num_sock_created (sock s)) 1;
              w_num_sock_errors := w_num_sock_errors (sock s);
              w_num_retransmits := w_num_retransmits (sock s) |} s.
Definition on_sock_err (s : St) : St :=
  set_sock {| w_num_sock_created := w_num_sock_created (sock s);
              w_num_sock_errors := u64_add (w_num_sock_errors (sock s)) 1;
              w_num_retransmits := w_num_retransmits (sock s) |} s.
Definition on_retransmits (v : Z) (s : St) : St :=
  set_sock {| w_num_sock_created := w_num_sock_created (sock s);
              w_num_sock_errors := w_num_sock_errors (sock s);
              w_num_retransmits := u64_add (w_num_retransmits (sock s)) v |} s.
End on_sock.

Section on_http.
Context {T R S B : Type}.
Abbreviation St := (PerCpuStat T R S HttpWorkerStat B).
Definition set_http (h : HttpWorkerStat) (s : St) : St :=
  {| tx := tx s; rx := rx s; sock := sock s; http := h; bursts_tx := bursts_tx s |}.
Definition on_2xx (s : St) : St :=
  set_http {| w_num_2xx := u64_add (w_num_2xx (http s)) 1; w_num_3xx := w_num_3xx (http s);
              w_num_4xx := w_num_4xx (http s); w_num_5xx := w_num_5xx (http s) |} s.
Definition on_3xx (s : St) : St :=
  set_http {| w_num_2xx := w_num_2xx (http s); w_num_3xx := u64_add (w_num_3xx (http s)) 1;
              w_num_4xx := w_num_4xx (http s); w_num_5xx := w_num_5xx (http s) |} s.
Definition on_4xx (s : St) : St :=
  set_http {| w_num_2xx := w_num_2xx (http s); w_num_3xx := w_num_3xx (http s);
              w_num_4xx := u64_add (w_num_4xx (http s)) 1; w_num_5xx := w_num_5xx (http s) |} s.
Definition on_5xx (s : St) : St :=
  set_http {| w_num_2xx := w_num_2xx (http s); w_num_3xx := w_num_3xx (http s);
              w_num_4xx := w_num_4xx (http s); w_num_5xx := u64_add (w_num_5xx (http s)) 1 |} s.
End on_http.

Section on_bursts.
Context {T R S H : Type}.
Abbreviation St := (PerCpuStat T R S H BurstTxWorkerStat).
(** [hist[v as usize - 1]]: index 32 and beyond, and zero, panic. *)
Definition on_bursts_tx (v : Z) (s : St) : res St :=
  let idx := Z.to_nat (as_u64 (v - 1)) in
  match w_bursts (bursts_tx s) !! idx with
  | Some b => Ok {| tx := tx s; rx := rx s; sock := sock s; http := http s;
                    bursts_tx := {| w_bursts := <[idx := u64_add b 1]> (w_bursts (bursts_tx s)) |} |}
  | None => Panic "index out of bounds"
  end.
End on_bursts.

(** ** All the workers ([Stat]) *)

Record Stat (T R S H B : Type) := {
  shared_generator : Z;
  stats : list (PerCpuStat T R S H B);
}.
Arguments shared_generator {T R S H B} _.
Arguments stats {T R S H B} _.

Definition stat_new {T R S H B} (stats : list (PerCpuStat T R S H B)) : Stat T R S H B :=
  {| shared_generator := 0; stats := stats |}.

(** [SharedGenerator::store], through any of its clones. *)
Definition store_generator {T R S H B} (v : Z) (s : Stat T R S H B) : Stat T R S H B :=
  {| shared_generator := v; stats := stats s |}.

(** One step of the merge of [RxStat::hist]: [resize] when longer, then add. *)
Fixpoint hist_add (snapshot buckets : list Z) : list Z :=
  match snapshot, buckets with
  | _, [] => snapshot
  | [], b :: buckets => u64_add 0 b :: hist_add [] buckets
  | x :: snapshot, b :: buckets => u64_add x b :: hist_add snapshot buckets
  end.

#[export] Instance stat_common {T R S H B} : CommonStat (Stat T R S H B) :=
  {| generator := shared_generator |}.

#[export] Instance stat_tx {R S H B} : TxStat (Stat TxWorkerStat R S H B) :=
  {| num_requests s := u64_sum ((λ v, w_num_requests (tx v)) <$> stats s);
     bytes_tx s := u64_sum ((λ v, w_bytes_tx (tx v)) <$> stats s) |}.

#[export] Instance stat_rx {T S H B} : RxStat (Stat T RxWorkerStat S H B) :=
  {| num_responses s := u64_sum ((λ v, w_num_responses (rx v)) <$> stats s);
     num_timeouts s := u64_sum ((λ v, w_num_timeouts (rx v)) <$> stats s);
     bytes_rx s := u64_sum ((λ v, w_bytes_rx (rx v)) <$> stats s);
     hist s := foldl hist_add [] ((λ v, w_hist (rx v)) <$> stats s) |}.

#[export] Instance stat_socket {T R H B} : SocketStat (Stat T R SockWorkerStat H B) :=
  {| num_sock_created s := u64_sum ((λ v, w_num_sock_created (sock v)) <$> stats s);
     num_sock_errors s := u64_sum ((λ v, w_num_sock_errors (sock v)) <$> stats s);
     num_retransmits s := u64_sum ((λ v, w_num_retransmits (sock v)) <$> stats s) |}.

#[export] Instance stat_http {T R S B} : HttpStat (Stat T R S HttpWorkerStat B) :=
  {| num_2xx s := u64_sum ((λ v, w_num_2xx (http v)) <$> stats s);
     num_3xx s := u64_sum ((λ v, w_num_3xx (http v)) <$> stats s);
     num_4xx s := u64_sum ((λ v, w_num_4xx (http v)) <$> stats s);
     num_5xx s := u64_sum ((λ v, w_num_5xx (http v)) <$> stats s) |}.

#[export] Instance stat_bursts {T R S H} : BurstTxStat (Stat T R S H BurstTxWorkerStat) :=
  {| num_bursts_tx s idx :=
       let! l := res_mapM (λ v, match w_bursts (bursts_tx v) !! idx with
                                | Some b => Ok b
                                | None => Panic "index out of bounds"
                                end) (stats s) in
       Ok (u64_sum l) |}.

(** ** What the counters mean

    A worker's history is the list of the events it reported; a counter is the
    total weight of the events of all the workers. *)
Abbreviation FullStat :=
  (PerCpuStat TxWorkerStat RxWorkerStat SockWorkerStat HttpWorkerStat BurstTxWorkerStat).
Abbreviation FullStats :=
  (Stat TxWorkerStat RxWorkerStat SockWorkerStat HttpWorkerStat BurstTxWorkerStat).

Inductive StatEvent :=
  | EvRequests (v : Z) | EvSend (n : Z)
  | EvResponse (us : Z) | EvRecv (n : Z) | EvTimeout (us : Z)
  | EvSockCreated | EvSockErr | EvRetransmits (v : Z)
  | Ev2xx | Ev3xx | Ev4xx | Ev5xx
  | EvBurst (v : Z).

Inductive Counter :=
  | CRequests | CBytesTx | CResponses | CTimeouts | CBytesRx | CSamples
  | CSockCreated | CSockErrors | CRetransmits | C2xx | C3xx | C4xx | C5xx
  | CBursts.

Definition weight (c : Counter) (e : StatEvent) : Z :=
  match c, e with
  | CRequests, EvRequests v | CBytesTx, EvSend v | CBytesRx, EvRecv v
  | CRetransmits, EvRetransmits v => v
  | CResponses, EvResponse _ | CTimeouts, EvTimeout _
  | CSamples, EvResponse _ | CSamples, EvTimeout _
  | CSockCreated, EvSockCreated | CSockErrors, EvSockErr
  | C2xx, Ev2xx | C3xx, Ev3xx | C4xx, Ev4xx | C5xx, Ev5xx
  | CBursts, EvBurst _ => 1
  | _, _ => 0
  end.

Definition read (c : Counter) (s : FullStat) : Z :=
  match c with
  | CRequests => w_num_requests (tx s) | CBytesTx => w_bytes_tx (tx s)
  | CResponses => w_num_responses (rx s) | CTimeouts => w_num_timeouts (rx s)
  | CBytesRx => w_bytes_rx (rx s) | CSamples => zsum (w_hist (rx s))
  | CSockCreated => w_num_sock_created (sock s) | CSockErrors => w_num_sock_errors (sock s)
  | CRetransmits => w_num_retransmits (sock s)
  | C2xx => w_num_2xx (http s) | C3xx => w_num_3xx (http s)
  | C4xx => w_num_4xx (http s) | C5xx => w_num_5xx (http s)
  | CBursts => zsum (w_bursts (bursts_tx s))
  end.

(** The counter as the readers of the whole [Stat] see it. *)
Definition total (c : Counter) (s : FullStats) : Z :=
  match c with
  | CRequests => num_requests s | CBytesTx => bytes_tx s
  | CResponses => num_responses s | CTimeouts => num_timeouts s
  | CBytesRx => bytes_rx s | CSamples => u64_sum (hist s)
  | CSockCreated => num_sock_created s | CSockErrors => num_sock_errors s
  | CRetransmits => num_retransmits s
  | C2xx => num_2xx s | C3xx => num_3xx s | C4xx => num_4xx s | C5xx => num_5xx s
  | CBursts => u64_sum ((λ v, zsum (w_bursts (bursts_tx v))) <$> stats s)
  end.

Section history.
Context (ln : f64 → f64).

Definition report (e : StatEvent) (s : FullStat) : res FullStat :=
  match e with
  | EvRequests v => Ok (on_requests v s)
  | EvSend n => Ok (on_send n s)
  | EvResponse us => on_response ln us s
  | EvRecv n => Ok (on_recv n s)
  | EvTimeout us => on_timeout ln us s
  | EvSockCreated => Ok (on_sock_created s)
  | EvSockErr => Ok (on_sock_err s)
  | EvRetransmits v => Ok (on_retransmits v s)
  | Ev2xx => Ok (on_2xx s)
  | Ev3xx => Ok (on_3xx s)
  | Ev4xx => Ok (on_4xx s)
  | Ev5xx => Ok (on_5xx s)
  | EvBurst v => on_bursts_tx v s
  end.

(** The events of all the workers in the order they happened. *)
Fixpoint history (s : FullStats) (l : list (nat * StatEvent)) : res FullStats :=
  match l with
  | [] => Ok s
  | (i, e) :: l =>
      match stats s !! i with
      | None => Panic "no such worker"
      | Some w =>
          let! w := report e w in
          history {| shared_generator := shared_generator s; stats := <[i := w]> (stats s) |} l
      end
  end.
End history.

Lemma as_u64_mod_eq a b : a `mod` 2 ^ 64 = b `mod` 2 ^ 64 → as_u64 a = as_u64 b.
Proof. done. Qed.

Lemma zsum_insert_mod l i x v :
  l !! i = Some x → as_u64 (zsum (<[i := u64_add x v]> l)) = as_u64 (zsum l + v).
Proof.
  intros Hx. rewrite (zsum_insert _ _ _ _ Hx). unfold u64_add.
  rewrite (Z.add_comm _ (as_u64 (x + v))), as_u64_add_idemp_l. f_equal. lia.
Qed.

Lemma record_mod ln h us h' : record ln h us = Ok h' → as_u64 (zsum h') = as_u64 (zsum h + 1).
Proof.
  unfold record. destruct (h !! _) as [b|] eqn:Hb; [|done]. intros [= <-]. by apply zsum_insert_mod.
Qed.

Lemma as_u64_idemp z : as_u64 (as_u64 z) = as_u64 z.
Proof. apply as_u64_id, as_u64_range. Qed.

(** One event adds its weight to each counter of its worker. *)
Lemma report_weight ln e s s' c :
  report ln e s = Ok s' → as_u64 (read c s') = as_u64 (read c s + weight c e).
Proof.
  destruct e; cbn [report]; unfold on_response, on_timeout, on_bursts_tx; intros H; res_inv;
    try (destruct (_ !! _) eqn:? in H; [|done]; res_inv);
    destruct c; cbn -[zsum]; rewrite ?Z.add_0_r; try done; unfold u64_add; rewrite ?as_u64_idemp; try done;
    try (by eapply record_mod); by eapply zsum_insert_mod.
Qed.

Lemma hist_add_mod h k : as_u64 (zsum (hist_add h k)) = as_u64 (zsum h + zsum k).
Proof.
  revert h. induction k as [|b k IH]; intros [|x h]; cbn [hist_add]; rewrite ?zsum_cons.
  - done.
  - change (zsum []) with 0. by rewrite Z.add_0_r.
  - unfold u64_add. rewrite as_u64_add_idemp_l.
    rewrite (Z.add_comm (0 + b)), <-as_u64_add_idemp_l, IH, as_u64_add_idemp_l.
    change (zsum []) with 0. f_equal. lia.
  - unfold u64_add. rewrite as_u64_add_idemp_l.
    rewrite (Z.add_comm (x + b)), <-as_u64_add_idemp_l, IH, as_u64_add_idemp_l. f_equal. lia.
Qed.

Lemma hist_merge_mod hs acc :
  as_u64 (zsum (foldl hist_add acc hs)) = as_u64 (zsum acc + zsum (zsum <$> hs)).
Proof.
  revert acc. induction hs as [|h hs IH]; intros acc.
  - cbn. by rewrite Z.add_0_r.
  - cbn [foldl]. rewrite IH. rewrite <-as_u64_add_idemp_l, hist_add_mod, as_u64_add_idemp_l.
    csimpl. rewrite zsum_cons. f_equal. lia.
Qed.

(** The readers see the sum of the workers' counters, modulo 2^64. *)
Lemma total_sum c s : total c s = as_u64 (zsum (read c <$> stats s)).
Proof.
  destruct c; cbn [total]; try apply u64_sum_wraps.
  rewrite u64_sum_wraps. cbn [hist stat_rx]. rewrite hist_merge_mod, <-list_fmap_compose. done.
Qed.

Lemma history_total ln l s s' c :
  history ln s l = Ok s' →
  total c s' = as_u64 (total c s + zsum ((λ p, weight c p.2) <$> l)).
Proof.
  revert s. induction l as [|[i e] l IH]; intros s Hh; cbn [history] in Hh.
  - injection Hh as <-. change (zsum _) with 0. rewrite Z.add_0_r, total_sum, as_u64_idemp. done.
  - destruct (stats s !! i) as [w|] eqn:Hi; [|done].
    apply res_bind_Ok in Hh as (w' & Hw & Hh). rewrite (IH _ Hh).
    csimpl. rewrite zsum_cons, !total_sum. cbn [stats].
    rewrite !as_u64_add_idemp_l. rewrite list_fmap_insert.
    assert ((read c <$> stats s) !! i = Some (read c w)) as Hr by (by rewrite list_lookup_fmap, Hi).
    rewrite (zsum_insert _ _ _ _ Hr).
    pose proof (report_weight ln e w w' c Hw) as Hwt.
    rewrite <-Z.add_assoc, (Z.add_comm (_ - _)), (Z.add_comm (read c w')).
    rewrite (Z.add_comm (_ + _) (_ - _)), Z.add_assoc, <-(as_u64_add_idemp_r _ (read c w')), Hwt, as_u64_add_idemp_r.
    f_equal. lia.
Qed.

(** A worker's statistics as [Default] makes them: histograms are not empty. *)
Definition worker_ok (s : FullStat) : Prop :=
  length (w_hist (rx s)) = 45%nat ∧ length (w_bursts (bursts_tx s)) = 32%nat.

(** The events the engines report: bursts of one to 32 packets. *)
Definition event_ok (n : nat) (p : nat * StatEvent) : Prop :=
  (p.1 < n)%nat ∧ match p.2 with EvBurst v => 1 ≤ v ≤ 32 | _ => True end.

Lemma record_length ln h us : length h = 45%nat → ∃ h', record ln h us = Ok h' ∧ length h' = 45%nat.
Proof.
  intros Hl. destruct (record_clamped ln h us) as (i & b & Hi & Hb & _ & ->).
  - by destruct h.
  - rewrite Hl. done.
  - eexists. split; [done|]. by rewrite length_insert.
Qed.

Lemma report_total ln n e s :
  worker_ok s → event_ok n (0%nat, e) → (0 < n)%nat → ∃ s', report ln e s = Ok s' ∧ worker_ok s'.
Proof.
  intros [Hh Hb] [_ He] _. destruct e; cbn [report snd] in *; try (eexists; split; [done|split; done]).
  - destruct (record_length ln (w_hist (rx s)) us Hh) as (h & Hr & Hl).
    unfold on_response. rewrite Hr. eexists. split; [done|]. by split.
  - destruct (record_length ln (w_hist (rx s)) us Hh) as (h & Hr & Hl).
    unfold on_timeout. rewrite Hr. eexists. split; [done|]. by split.
  - unfold on_bursts_tx. rewrite as_u64_id by (unfold is_u64; lia).
    destruct (lookup_lt_is_Some_2 (w_bursts (bursts_tx s)) (Z.to_nat (v - 1))) as [b ->]; [lia|].
    eexists. split; [done|]. split; [done|]. cbn. by rewrite length_insert.
Qed.

Lemma history_total_ok ln l s :
  Forall worker_ok (stats s) → Forall (event_ok (length (stats s))) l →
  ∃ s', history ln s l = Ok s'.
Proof.
  revert s. induction l as [|[i e] l IH]; intros s Hs Hl; cbn [history]; [by eexists|].
  apply Forall_cons in Hl as [[Hi He] Hl]. cbn in Hi.
  destruct (lookup_lt_is_Some_2 _ _ Hi) as [w Hw]. rewrite Hw.
  assert (worker_ok w) as Hwok by (rewrite Forall_lookup in Hs; eauto).
  destruct (report_total ln (length (stats s)) e w Hwok) as (w' & -> & Hw'); [split; [cbn; lia|done]|lia|].
  apply IH; cbn [stats]; [by apply Forall_insert|by rewrite length_insert].
Qed.

(** C18: no report is lost or counted twice: for any interleaving of the events
    of [n] workers on fresh statistics, no report panics, and every counter a
    reader obtains is the total weight of the events reported, modulo 2^64;
    the latency histogram holds one sample per response or timeout. *)
Theorem stat_counts_events ln n l c :
  Forall (event_ok n) l →
  ∃ s, history ln (stat_new (replicate n default_value)) l = Ok s ∧
    total c s = as_u64 (zsum ((λ p, weight c p.2) <$> l)).
Proof.
  intros Hl.
  destruct (history_total_ok ln l (stat_new (replicate n default_value))) as [s Hs].
  - apply Forall_replicate. split; [|done].
    change (length default_buckets = 45%nat). by rewrite default_buckets_eq.
  - cbn [stats stat_new]. by rewrite length_replicate.
  - exists s. split; [done|]. rewrite (history_total ln l _ _ c Hs), total_sum. cbn [stats stat_new].
    rewrite fmap_replicate, zsum_replicate.
    assert (read c default_value = 0) as ->.
    { by destruct c. }
    by rewrite Z.mul_0_r.
Qed.

Definition example_events : list (nat * StatEvent) :=
  [(0%nat, EvRequests 1); (1%nat, EvRequests 2); (1%nat, EvSend 300); (0%nat, EvResponse 12);
   (1%nat, EvTimeout 70); (0%nat, Ev2xx)].

Lemma stat_counts_events_witness :
  ∃ s, history (λ x, x) (stat_new (replicate 2 default_value)) example_events = Ok s ∧
    total CRequests s = 3.
Proof.
  apply (stat_counts_events (λ x, x) 2 example_events CRequests).
  repeat (apply Forall_cons; split; [split; [cbn; lia|done]|]). by apply Forall_nil.
Defined.
