(* ===== verification/Metrics.v ===== *)
(** * The Prometheus endpoint ([dwd-core/src/api/metrics.rs])

    Counters and gauges belong to the Prometheus client library: [Counter] and
    [Gauge] state what it documents of them.  The registry's text encoding is a
    parameter, and so is [powi].  The histogram is the list of the lines the
    code writes, before the numbers are printed. *)
From S2P Require Import Prelude Machine F64 Histogram Stat.

(** A monotone 64-bit counter with an atomic [fetch_add]. *)
Class Counter (K : Type) := {
  counter_new : K;
  counter_get : K → Z;
  inc_by : K → Z → K;
  counter_new_get : counter_get counter_new = 0;
  inc_by_get : ∀ k v, counter_get (inc_by k v) = as_u64 (counter_get k + v);
}.

Class Gauge (K : Type) := {
  gauge_new : K;
  gauge_get : K → Z;
  gauge_set : K → Z → K;
  gauge_set_get : ∀ k v, gauge_get (gauge_set k v) = v;
}.

(** ** The collector *)

Section metrics.
Context {K Gg : Type} `{Counter K} `{Gauge Gg}.

Record MetricsCollector := {
  generator_rps : Gg;
  requests_total : K; responses_total : K; timeouts_total : K;
  bytes_tx_total : K; bytes_rx_total : K;
  http_2xx_total : K; http_3xx_total : K; http_4xx_total : K; http_5xx_total : K;
  sockets_created_total : K; socket_errors_total : K; retransmits_total : K;
}.

(** [MetricsCollector::new]; the names are those the metrics are registered
    under. *)
Definition collector_new : MetricsCollector :=
  {| generator_rps := gauge_new;
     requests_total := counter_new; responses_total := counter_new; timeouts_total := counter_new;
     bytes_tx_total := counter_new; bytes_rx_total := counter_new;
     http_2xx_total := counter_new; http_3xx_total := counter_new;
     http_4xx_total := counter_new; http_5xx_total := counter_new;
     sockets_created_total := counter_new; socket_errors_total := counter_new;
     retransmits_total := counter_new |}.

Definition metric_names : list string :=
  ["dwd_generator_rps"; "dwd_requests_total"; "dwd_responses_total"; "dwd_timeouts_total";
   "dwd_bytes_tx_total"; "dwd_bytes_rx_total"; "dwd_http_2xx_total"; "dwd_http_3xx_total";
   "dwd_http_4xx_total"; "dwd_http_5xx_total"; "dwd_sockets_created_total";
   "dwd_socket_errors_total"; "dwd_retransmits_total"]%string.

(** [if v > current { counter.inc_by(v - current) }]. *)
Definition catch_up (k : K) (v : Z) : K :=
  let current := counter_get k in
  if current <? v then inc_by k (v - current) else k.

Definition update_common {S} `{CommonStat S} (c : MetricsCollector) (stat : S) : MetricsCollector :=
  {| generator_rps := gauge_set (generator_rps c) (as_i64 (generator stat));
     requests_total := requests_total c; responses_total := responses_total c;
     timeouts_total := timeouts_total c; bytes_tx_total := bytes_tx_total c;
     bytes_rx_total := bytes_rx_total c; http_2xx_total := http_2xx_total c;
     http_3xx_total := http_3xx_total c; http_4xx_total := http_4xx_total c;
     http_5xx_total := http_5xx_total c; sockets_created_total := sockets_created_total c;
     socket_errors_total := socket_errors_total c; retransmits_total := retransmits_total c |}.

Definition update_tx {S} `{TxStat S} (c : MetricsCollector) (stat : S) : MetricsCollector :=
  {| generator_rps := generator_rps c;
     requests_total := catch_up (requests_total c) (num_requests stat);
     responses_total := responses_total c;
     timeouts_total := timeouts_total c;
     bytes_tx_total := catch_up (bytes_tx_total c) (bytes_tx stat);
     bytes_rx_total := bytes_rx_total c; http_2xx_total := http_2xx_total c;
     http_3xx_total := http_3xx_total c; http_4xx_total := http_4xx_total c;
     http_5xx_total := http_5xx_total c; sockets_created_total := sockets_created_total c;
     socket_errors_total := socket_errors_total c; retransmits_total := retransmits_total c |}.

Definition update_rx {S} `{RxStat S} (c : MetricsCollector) (stat : S) : MetricsCollector :=
  {| generator_rps := generator_rps c; requests_total := requests_total c;
     responses_total := catch_up (responses_total c) (num_responses stat);
     timeouts_total := catch_up (timeouts_total c) (num_timeouts stat);
     bytes_tx_total := bytes_tx_total c;
     bytes_rx_total := catch_up (bytes_rx_total c) (bytes_rx stat);
     http_2xx_total := http_2xx_total c;
     http_3xx_total := http_3xx_total c; http_4xx_total := http_4xx_total c;
     http_5xx_total := http_5xx_total c; sockets_created_total := sockets_created_total c;
     socket_errors_total := socket_errors_total c; retransmits_total := retransmits_total c |}.

Definition update_http {S} `{HttpStat S} (c : MetricsCollector) (stat : S) : MetricsCollector :=
  {| generator_rps := generator_rps c; requests_total := requests_total c;
     responses_total := responses_total c; timeouts_total := timeouts_total c;
     bytes_tx_total := bytes_tx_total c; bytes_rx_total := bytes_rx_total c;
     http_2xx_total := catch_up (http_2xx_total c) (num_2xx stat);
     http_3xx_total := catch_up (http_3xx_total c) (num_3xx stat);
     http_4xx_total := catch_up (http_4xx_total c) (num_4xx stat);
     http_5xx_total := catch_up (http_5xx_total c) (num_5xx stat);
     sockets_created_total := sockets_created_total c;
     socket_errors_total := socket_errors_total c; retransmits_total := retransmits_total c |}.

Definition update_socket {S} `{SocketStat S} (c : MetricsCollector) (stat : S) : MetricsCollector :=
  {| generator_rps := generator_rps c; requests_total := requests_total c;
     responses_total := responses_total c; timeouts_total := timeouts_total c;
     bytes_tx_total := bytes_tx_total c; bytes_rx_total := bytes_rx_total c;
     http_2xx_total := http_2xx_total c; http_3xx_total := http_3xx_total c;
     http_4xx_total := http_4xx_total c; http_5xx_total := http_5xx_total c;
     sockets_created_total := catch_up (sockets_created_total c) (num_sock_created stat);
     socket_errors_total := catch_up (socket_errors_total c) (num_sock_errors stat);
     retransmits_total := catch_up (retransmits_total c) (num_retransmits stat) |}.
End metrics.
Arguments MetricsCollector : clear implicits.

(** ** Sources of metrics ([StatSource]) *)

Class StatSource (S : Type) := {
  collect : ∀ {K Gg} `{Counter K} `{Gauge Gg}, S → MetricsCollector K Gg → MetricsCollector K Gg;
  histogram : S → option (list Z);
}.

(** HTTP engines. *)
#[export] Instance http_source {B} :
    StatSource (Stat TxWorkerStat RxWorkerStat SockWorkerStat HttpWorkerStat B) := {
  collect K Gg _ _ s c :=
    update_socket (update_http (update_rx (update_tx (update_common c s) s) s) s) s;
  histogram s := Some (hist s);
}.

(** UDP engine. *)
#[export] Instance udp_source {H B} : StatSource (Stat TxWorkerStat unit SockWorkerStat H B) := {
  collect K Gg _ _ s c := update_socket (update_tx (update_common c s) s) s;
  histogram _ := None;
}.

(** DPDK engine. *)
#[export] Instance dpdk_source : StatSource (Stat TxWorkerStat unit unit unit BurstTxWorkerStat) := {
  collect K Gg _ _ s c := update_tx (update_common c s) s;
  histogram _ := None;
}.

(** ** The latency histogram *)

Definition LATENCY_BUCKETS : list f64 :=
  [f64_lit 5902958103587057 (-70);  (* 5us *)
   f64_lit 5902958103587057 (-69);  (* 10us *)
   f64_lit 7378697629483821 (-68);  (* 25us *)
   f64_lit 7378697629483821 (-67);  (* 50us *)
   f64_lit 7378697629483821 (-66);  (* 100us *)
   f64_lit 1152921504606847 (-62);  (* 250us *)
   f64_lit 1152921504606847 (-61);  (* 500us *)
   f64_lit 1152921504606847 (-60);  (* 1ms *)
   f64_lit 5764607523034235 (-61);  (* 2.5ms *)
   f64_lit 5764607523034235 (-60);  (* 5ms *)
   f64_lit 5764607523034235 (-59);  (* 10ms *)
   f64_lit 3602879701896397 (-57);  (* 25ms *)
   f64_lit 3602879701896397 (-56);  (* 50ms *)
   f64_lit 3602879701896397 (-55);  (* 100ms *)
   f64_lit 1 (-2);                  (* 250ms *)
   f64_lit 1 (-1);                  (* 500ms *)
   f64_lit 1 0;                     (* 1s *)
   f64_lit 5 (-1);                  (* 2.5s *)
   f64_lit 5 0;                     (* 5s *)
   f64_lit 5 1].                    (* 10s *)

(** The numbers of the lines written: one count per bucket bound, the count of
    the [+Inf] bucket, the sum and the count. *)
Record HistogramLines := {
  le_counts : list Z;
  le_inf : Z;
  latency_sum : f64;
  latency_count : Z;
}.

Section encode_histogram.
Context (powi : f64 → Z → f64).

(** Upper bound of a log-bucket in seconds. *)
Definition upper_sec (idx : nat) : f64 :=
  f64_div (powi FACTOR (Z.of_nat idx)) (f64_of_u64 1000000).

Definition midpoint_sec (idx : nat) : f64 :=
  let upper_us := powi FACTOR (Z.of_nat idx) in
  let lower_us := match idx with O => f64_zero | _ => powi FACTOR (Z.of_nat idx - 1) end in
  f64_div (f64_div (f64_add lower_us upper_us) (f64_of_u64 2)) (f64_of_u64 1000000).

(** The body of the first loop. *)
Definition count_bucket (acc : list Z * Z * f64) (idx : nat) (count : Z) : list Z * Z * f64 :=
  let '(bucket_counts, total_count, total_sum) := acc in
  if count =? 0 then acc
  else
    (zip_with (λ bound n, if f64_geb bound (upper_sec idx) then u64_add n count else n)
       LATENCY_BUCKETS bucket_counts,
     u64_add total_count count,
     f64_add total_sum (f64_mul (midpoint_sec idx) (f64_of_u64 count))).

Fixpoint count_buckets (acc : list Z * Z * f64) (idx : nat) (snapshot : list Z) : list Z * Z * f64 :=
  match snapshot with
  | [] => acc
  | count :: snapshot => count_buckets (count_bucket acc idx count) (S idx) snapshot
  end.

(** The second loop, under the comment "Buckets must be cumulative". *)
Fixpoint cumulate (cumulative : Z) (bucket_counts : list Z) : list Z :=
  match bucket_counts with
  | [] => []
  | n :: ns => u64_add cumulative n :: cumulate (u64_add cumulative n) ns
  end.

Definition encode_histogram (snapshot : list Z) : HistogramLines :=
  let '(bucket_counts, total_count, total_sum) :=
    count_buckets (replicate (length LATENCY_BUCKETS) 0, 0, f64_zero) 0 snapshot in
  {| le_counts := cumulate 0 bucket_counts; le_inf := total_count;
     latency_sum := total_sum; latency_count := total_count |}.
End encode_histogram.

(** ** The handler *)

Record MetricsState (S K Gg : Type) := { collector : MetricsCollector K Gg; stat_source : S }.
Arguments collector {S K Gg} _.
Arguments stat_source {S K Gg} _.

Section handler.
Context {S K Gg : Type} `{Counter K} `{Gauge Gg} `{StatSource S}.
(** [prometheus_client::encoding::text::encode] of the registry. *)
Context (encode : MetricsCollector K Gg → string) (powi : f64 → Z → f64).

Definition metrics_handler (state : MetricsState S K Gg) :
    MetricsState S K Gg * (string * option HistogramLines) :=
  let c := collect (stat_source state) (collector state) in
  ({| collector := c; stat_source := stat_source state |},
   (encode c, encode_histogram powi <$> histogram (stat_source state))).
End handler.

(** ** The exported counters follow the statistics *)

Section catch_up.
Context {K : Type} `{Counter K}.

Lemma catch_up_get k v :
  is_u64 (counter_get k) → is_u64 v → counter_get (catch_up k v) = Z.max (counter_get k) v.
Proof.
  unfold is_u64, catch_up. intros Hk Hv. destruct (Z.ltb_spec (counter_get k) v); [|lia].
  rewrite inc_by_get, as_u64_id by (unfold is_u64; lia). lia.
Qed.
End catch_up.

Section collect_proof.
Context {K Gg : Type} `{Counter K} `{Gauge Gg}.
Implicit Types c : MetricsCollector K Gg.

(** The counters of a collector, in the order of [metric_names]. *)
Definition counters c : list Z :=
  counter_get <$> [requests_total c; responses_total c; timeouts_total c; bytes_tx_total c;
    bytes_rx_total c; http_2xx_total c; http_3xx_total c; http_4xx_total c; http_5xx_total c;
    sockets_created_total c; socket_errors_total c; retransmits_total c].

(** The statistics they follow. *)
Definition followed {S} `{TxStat S, RxStat S, HttpStat S, SocketStat S} (s : S) : list Z :=
  [num_requests s; num_responses s; num_timeouts s; bytes_tx s; bytes_rx s;
   num_2xx s; num_3xx s; num_4xx s; num_5xx s;
   num_sock_created s; num_sock_errors s; num_retransmits s].
End collect_proof.

Abbreviation HttpEngineStat :=
  (Stat TxWorkerStat RxWorkerStat SockWorkerStat HttpWorkerStat unit).

(** C36: a scrape of an HTTP engine brings every exported counter to the maximum
    of its previous value and the statistic it follows, and the gauge to the
    published rate: exported counters never decrease, and repeating the scrape
    changes nothing. *)
Theorem scrape_catches_up {K Gg} `{Counter K} `{Gauge Gg} (c : MetricsCollector K Gg) (s : HttpEngineStat) :
  Forall is_u64 (counters c) →
  let c' := collect s c in
  counters c' = zip_with Z.max (counters c) (followed s) ∧
  gauge_get (generator_rps c') = as_i64 (shared_generator s) ∧
  counters (collect s c') = counters c'.
Proof.
  intros Hc; cbv zeta. unfold counters in *. cbn in Hc.
  repeat (apply Forall_cons in Hc as [? Hc]).
  assert (∀ k v, is_u64 (counter_get k) → is_u64 v →
    counter_get (catch_up (catch_up k v) v) = Z.max (counter_get k) v) as Htwice.
  { intros k v Hk Hv. assert (is_u64 (Z.max (counter_get k) v)) by (unfold is_u64 in *; lia).
    rewrite !catch_up_get; rewrite ?catch_up_get; auto. lia. }
  cbn -[u64_sum]. rewrite !catch_up_get by auto with dwd.
  rewrite !Htwice by auto with dwd.
  split_and!; [done|apply gauge_set_get|done].
Qed.

#[export] Instance z_counter : Counter Z.
Proof. refine {| counter_new := 0; counter_get k := k; inc_by k v := as_u64 (k + v) |}; done. Defined.
#[export] Instance z_gauge : Gauge Z.
Proof. refine {| gauge_new := 0; gauge_get k := k; gauge_set _ v := v |}; done. Defined.

Lemma scrape_catches_up_witness :
  counters (collect (stat_new [default_value] : HttpEngineStat) (collector_new : MetricsCollector Z Z)) =
    replicate 12 0.
Proof.
  destruct (scrape_catches_up (collector_new : MetricsCollector Z Z) (stat_new [default_value])) as [-> _].
  - repeat (apply Forall_cons; split; [done|]). by apply Forall_nil.
  - reflexivity.
Defined.

(** ** The exported histogram *)

Lemma count_buckets_total powi acc idx snapshot :
  (count_buckets powi acc idx snapshot).1.2 = foldl u64_add (acc.1.2) (filter (λ n, n ≠ 0) snapshot).
Proof.
  revert acc idx. induction snapshot as [|n l IH]; intros acc idx; [done|]. cbn [count_buckets].
  rewrite IH. destruct acc as [[b t] x]. unfold count_bucket. rewrite filter_cons.
  destruct (Z.eqb_spec n 0); [rewrite decide_False by auto|rewrite decide_True by auto]; done.
Qed.

Lemma zsum_filter_nonzero l : zsum (filter (λ n, n ≠ 0) l) = zsum l.
Proof.
  induction l as [|n l IH]; [done|]. rewrite filter_cons, zsum_cons.
  destruct (decide (n ≠ 0)); rewrite ?zsum_cons, ?IH; lia.
Qed.

Lemma count_buckets_zeros powi acc idx k : count_buckets powi acc idx (replicate k 0) = acc.
Proof. revert idx. induction k as [|k IH]; intros idx; [done|]. cbn. rewrite <-(IH (S idx)) at 2. by destruct acc as [[? ?] ?]. Qed.

Lemma zip_with_all {A} (f : A → bool) (g : Z → Z) l x :
  forallb f l = true →
  zip_with (λ a n, if f a then g n else n) l (replicate (length l) x) = replicate (length l) (g x).
Proof.
  induction l as [|a l IH]; intros H; [done|]. cbn in *.
  apply andb_true_iff in H as [-> H]. by rewrite IH.
Qed.

(** The exported histogram is wrong: [bucket_counts] already counts, for
    every bound, all the samples below it, and the loop that writes the lines
    sums them up once more.  [c] samples of the shortest latency give a count
    of [c] and a [+Inf] bucket of [c], but the bucket of the [i]-th bound holds
    [i * c] — twenty times [c] for ten seconds. *)
Theorem encode_histogram_overcounts powi c k :
  powi FACTOR 0 = f64_one → 0 < c → 20 * c < 2 ^ 64 →
  let h := encode_histogram powi (c :: replicate k 0) in
  latency_count h = c ∧ le_inf h = c ∧
  le_counts h = (λ i, (Z.of_nat i + 1) * c) <$> seq 0 20.
Proof.
  intros Hp Hc Hmax; cbv zeta. unfold encode_histogram. cbn [count_buckets].
  rewrite count_buckets_zeros. unfold count_bucket.
  destruct (Z.eqb_spec c 0); [lia|]. unfold upper_sec. change (Z.of_nat 0) with 0. rewrite Hp.
  rewrite !(zip_with_all (λ bound, f64_geb bound (f64_div f64_one (f64_of_u64 1000000))))
    by (vm_compute; reflexivity).
  change (length LATENCY_BUCKETS) with 20%nat.
  cbn [latency_count le_inf le_counts].
  rewrite !(u64_add_id 0 c) by lia. split_and!; [lia|lia|].
  cbn [replicate cumulate].
  repeat (rewrite (u64_add_id _ c) by lia).
  cbn [seq fmap list_fmap]. repeat (f_equal; [lia|]). f_equal. lia.
Qed.

Lemma encode_histogram_overcounts_witness :
  let h := encode_histogram (λ _ _, f64_one) (7 :: replicate 44 0) in
  latency_count h = 7 ∧ last (le_counts h) = Some 140.
Proof.
  destruct (encode_histogram_overcounts (λ _ _, f64_one) 7 44) as (H1 & _ & H2); [done|lia|lia|].
  split; [exact H1|]. exact (f_equal last H2).
Defined.

(** The [_count] line and the [+Inf] bucket are the number of samples. *)
Lemma encode_histogram_count powi snapshot :
  latency_count (encode_histogram powi snapshot) = u64_sum snapshot ∧
  le_inf (encode_histogram powi snapshot) = u64_sum snapshot.
Proof.
  unfold encode_histogram.
  pose proof (count_buckets_total powi (replicate (length LATENCY_BUCKETS) 0, 0, f64_zero) 0 snapshot) as H.
  destruct (count_buckets _ _ 0 snapshot) as [[b t] x]. cbn [fst snd latency_count le_inf] in *.
  assert (t = u64_sum snapshot) as ->; [|done].
  rewrite H. transitivity (u64_sum (filter (λ n, n ≠ 0) snapshot)); [done|].
  by rewrite !u64_sum_wraps, zsum_filter_nonzero.
Qed.
