(* ===== verification/Seam.v ===== *)
(** * The gRPC seam ([dwd-core/src/grpc/], [dwd/src/grpc/client.rs])

    Messages are those of [dwd-proto/proto]; their encoding is generated code and
    the transport delivers them unchanged.  The server side turns statistics into
    a [StatsSnapshot], the client side ([RemoteStat]) offers the traits of
    [Stat.v] again on top of one.  The bounded channel that carries control
    events is a class with what its library documents. *)
From S2P Require Import Prelude Machine F64 Histogram Stat Suspendable.

(** ** Messages *)

Inductive StatGroup :=
  | GUnspecified | GCommon | GTx | GRx | GRxTimings | GSocket | GHttp | GBurstTx.

#[export] Instance stat_group_eq : EqDecision StatGroup.
Proof. solve_decision. Defined.

(** [g as i32] and [StatGroup::try_from]. *)
Definition stat_group_number (g : StatGroup) : Z :=
  match g with
  | GUnspecified => 0 | GCommon => 1 | GTx => 2 | GRx => 3 | GRxTimings => 4
  | GSocket => 5 | GHttp => 6 | GBurstTx => 7
  end.

Definition stat_group_of_number (n : Z) : option StatGroup :=
  match n with
  | 0 => Some GUnspecified | 1 => Some GCommon | 2 => Some GTx | 3 => Some GRx
  | 4 => Some GRxTimings | 5 => Some GSocket | 6 => Some GHttp | 7 => Some GBurstTx
  | _ => None
  end.

Record TxStats := { m_num_requests : Z; m_bytes_tx : Z }.
Record RxStats := {
  m_num_responses : Z; m_num_timeouts : Z; m_bytes_rx : Z; m_histogram_buckets : list Z
}.
Record SocketStats := {
  m_num_sock_created : Z; m_num_sock_errors : Z; m_num_retransmits : Z
}.
Record HttpStats := { m_num_2xx : Z; m_num_3xx : Z; m_num_4xx : Z; m_num_5xx : Z }.
Record BurstTxStats := { m_num_bursts_tx : list Z }.

Record StatsSnapshot := {
  generator_rps : Z;
  m_tx : option TxStats;
  m_rx : option RxStats;
  m_socket : option SocketStats;
  m_http : option HttpStats;
  m_burst_tx : option BurstTxStats;
}.

Definition snapshot_default : StatsSnapshot :=
  {| generator_rps := 0; m_tx := None; m_rx := None; m_socket := None; m_http := None;
     m_burst_tx := None |}.

Inductive ControlKind :=
  | KSuspend
  | KResume
  | KSet (rps : Z)
  | KStop.

(** ** Describing an engine *)

Inductive EngineKind := HttpEngine | HttpEngineRaw | Http3Engine | UdpEngine | DpdkEngine.

Record EngineDescriptor := { engine_kind : string; groups : list StatGroup }.

(** [Engine::describe] of each engine (engine.rs). *)
Definition describe (e : EngineKind) : EngineDescriptor :=
  match e with
  | HttpEngine =>
      {| engine_kind := "http"; groups := [GCommon; GTx; GRx; GHttp; GSocket; GRxTimings] |}
  | HttpEngineRaw =>
      {| engine_kind := "http/raw"; groups := [GCommon; GTx; GRx; GHttp; GSocket; GRxTimings] |}
  | Http3Engine =>
      {| engine_kind := "http3"; groups := [GCommon; GTx; GRx; GHttp; GSocket; GRxTimings] |}
  | UdpEngine => {| engine_kind := "udp"; groups := [GCommon; GTx; GSocket] |}
  | DpdkEngine => {| engine_kind := "dpdk"; groups := [GCommon; GTx; GBurstTx] |}
  end.

(** [EngineDescriptor::into_response]. *)
Definition into_response (d : EngineDescriptor) : string * list Z :=
  (engine_kind d, stat_group_number <$> groups d).

(** The widgets [build_ui] adds, in order. *)
Inductive Widget :=
  | WCommon | WTx | WRx | WRxTimings | WSock | WHttp | WBurstTx.

Definition build_ui_step (ui : list Widget) (n : Z) : list Widget :=
  match stat_group_of_number n with
  | None => ui
  | Some GCommon => ui ++ [WCommon]
  | Some GTx => ui ++ [WTx]
  | Some GRx => ui ++ [WRx]
  | Some GRxTimings => ui ++ [WRxTimings]
  | Some GSocket => ui ++ [WSock]
  | Some GHttp => ui ++ [WHttp]
  | Some GBurstTx => ui ++ [WBurstTx]
  | Some GUnspecified => ui
  end.

Definition build_ui (groups : list Z) : list Widget := foldl build_ui_step [] groups.

(** ** Snapshots (server) *)

Definition BURST_TX_BUCKETS : nat := 32.

Definition tx_stats {S} `{TxStat S} (s : S) : TxStats :=
  {| m_num_requests := num_requests s; m_bytes_tx := bytes_tx s |}.
Definition rx_stats {S} `{RxStat S} (s : S) : RxStats :=
  {| m_num_responses := num_responses s; m_num_timeouts := num_timeouts s;
     m_bytes_rx := bytes_rx s; m_histogram_buckets := hist s |}.
Definition socket_stats {S} `{SocketStat S} (s : S) : SocketStats :=
  {| m_num_sock_created := num_sock_created s; m_num_sock_errors := num_sock_errors s;
     m_num_retransmits := num_retransmits s |}.
Definition http_stats {S} `{HttpStat S} (s : S) : HttpStats :=
  {| m_num_2xx := num_2xx s; m_num_3xx := num_3xx s; m_num_4xx := num_4xx s;
     m_num_5xx := num_5xx s |}.
Definition burst_tx_stats {S} `{BurstTxStat S} (s : S) : res BurstTxStats :=
  let! l := res_mapM (num_bursts_tx s) (seq 0 BURST_TX_BUCKETS) in
  Ok {| m_num_bursts_tx := l |}.

Class SnapshotSource (S : Type) := { snapshot : S → res StatsSnapshot }.

#[export] Instance http_snapshot {B} :
    SnapshotSource (Stat TxWorkerStat RxWorkerStat SockWorkerStat HttpWorkerStat B) := {
  snapshot s :=
    Ok {| generator_rps := generator s; m_tx := Some (tx_stats s); m_rx := Some (rx_stats s);
          m_socket := Some (socket_stats s); m_http := Some (http_stats s); m_burst_tx := None |};
}.

#[export] Instance udp_snapshot {H B} :
    SnapshotSource (Stat TxWorkerStat unit SockWorkerStat H B) := {
  snapshot s :=
    Ok {| generator_rps := generator s; m_tx := Some (tx_stats s); m_rx := None;
          m_socket := Some (socket_stats s); m_http := None; m_burst_tx := None |};
}.

#[export] Instance dpdk_snapshot :
    SnapshotSource (Stat TxWorkerStat unit unit unit BurstTxWorkerStat) := {
  snapshot s :=
    let! b := burst_tx_stats s in
    Ok {| generator_rps := generator s; m_tx := Some (tx_stats s); m_rx := None;
          m_socket := None; m_http := None; m_burst_tx := Some b |};
}.

(** ** The client's mirror *)

Record RemoteStat := { stored : StatsSnapshot }.

Definition remote_new : RemoteStat := {| stored := snapshot_default |}.
Definition remote_store (_ : RemoteStat) (s : StatsSnapshot) : RemoteStat := {| stored := s |}.

(** [as_ref().map_or(0, f)]. *)
Definition map_or {A} (d : Z) (f : A → Z) (o : option A) : Z :=
  match o with Some a => f a | None => d end.

#[export] Instance remote_common : CommonStat RemoteStat :=
  {| generator r := generator_rps (stored r) |}.
#[export] Instance remote_tx : TxStat RemoteStat :=
  {| num_requests r := map_or 0 m_num_requests (m_tx (stored r));
     bytes_tx r := map_or 0 m_bytes_tx (m_tx (stored r)) |}.
#[export] Instance remote_rx : RxStat RemoteStat :=
  {| num_responses r := map_or 0 m_num_responses (m_rx (stored r));
     num_timeouts r := map_or 0 m_num_timeouts (m_rx (stored r));
     bytes_rx r := map_or 0 m_bytes_rx (m_rx (stored r));
     hist r := default [] (m_histogram_buckets <$> m_rx (stored r)) |}.
#[export] Instance remote_socket : SocketStat RemoteStat :=
  {| num_sock_created r := map_or 0 m_num_sock_created (m_socket (stored r));
     num_sock_errors r := map_or 0 m_num_sock_errors (m_socket (stored r));
     num_retransmits r := map_or 0 m_num_retransmits (m_socket (stored r)) |}.
#[export] Instance remote_http : HttpStat RemoteStat :=
  {| num_2xx r := map_or 0 m_num_2xx (m_http (stored r));
     num_3xx r := map_or 0 m_num_3xx (m_http (stored r));
     num_4xx r := map_or 0 m_num_4xx (m_http (stored r));
     num_5xx r := map_or 0 m_num_5xx (m_http (stored r)) |}.
#[export] Instance remote_bursts : BurstTxStat RemoteStat :=
  {| num_bursts_tx r idx :=
       Ok (default 0 (m_burst_tx (stored r) ≫= λ b, m_num_bursts_tx b !! idx)) |}.

(** ** What the seam preserves *)

(** Two sources of statistics read the same through a trait. *)
Definition tx_agree {S S'} `{TxStat S, TxStat S'} (s : S) (s' : S') : Prop :=
  num_requests s = num_requests s' ∧ bytes_tx s = bytes_tx s'.
Definition rx_agree {S S'} `{RxStat S, RxStat S'} (s : S) (s' : S') : Prop :=
  num_responses s = num_responses s' ∧ num_timeouts s = num_timeouts s' ∧
  bytes_rx s = bytes_rx s' ∧ hist s = hist s'.
Definition socket_agree {S S'} `{SocketStat S, SocketStat S'} (s : S) (s' : S') : Prop :=
  num_sock_created s = num_sock_created s' ∧ num_sock_errors s = num_sock_errors s' ∧
  num_retransmits s = num_retransmits s'.
Definition http_agree {S S'} `{HttpStat S, HttpStat S'} (s : S) (s' : S') : Prop :=
  num_2xx s = num_2xx s' ∧ num_3xx s = num_3xx s' ∧ num_4xx s = num_4xx s' ∧
  num_5xx s = num_5xx s'.

Abbreviation HttpStatOf B := (Stat TxWorkerStat RxWorkerStat SockWorkerStat HttpWorkerStat B).
Abbreviation UdpStat := (Stat TxWorkerStat unit SockWorkerStat unit unit).
Abbreviation DpdkStat := (Stat TxWorkerStat unit unit unit BurstTxWorkerStat).

Lemma dpdk_bursts_total (s : DpdkStat) idx :
  Forall (λ w, length (w_bursts (bursts_tx w)) = 32%nat) (stats s) → (idx < 32)%nat →
  ∃ n, num_bursts_tx s idx = Ok n.
Proof.
  intros Hw Hidx. cbn.
  destruct (res_mapM_total (λ v : PerCpuStat TxWorkerStat unit unit unit BurstTxWorkerStat,
    match w_bursts (bursts_tx v) !! idx with
    | Some b => Ok b
    | None => Panic "index out of bounds"
    end) (stats s)) as [k ->]; [|by eexists].
  intros w Hin. rewrite Forall_forall in Hw. specialize (Hw w Hin).
  destruct (lookup_lt_is_Some_2 (w_bursts (bursts_tx w)) idx) as [b ->]; [lia|]. by eexists.
Qed.

(** A snapshot of each kind of engine, stored and read back. *)
Lemma http_reads (h : HttpStatOf unit) r :
  ∃ s, snapshot h = Ok s ∧ let r := remote_store r s in
    generator r = generator h ∧ tx_agree r h ∧ rx_agree r h ∧ socket_agree r h ∧ http_agree r h.
Proof. eexists. split; [reflexivity|]. done. Qed.

Lemma udp_reads (u : UdpStat) r :
  ∃ s, snapshot u = Ok s ∧ let r := remote_store r s in
    generator r = generator u ∧ tx_agree r u ∧ socket_agree r u ∧
    num_responses r = 0 ∧ hist r = [] ∧ num_2xx r = 0.
Proof. eexists. split; [reflexivity|]. done. Qed.

Lemma dpdk_reads (d : DpdkStat) r :
  Forall (λ w, length (w_bursts (bursts_tx w)) = 32%nat) (stats d) →
  ∃ s, snapshot d = Ok s ∧ let r := remote_store r s in
    generator r = generator d ∧ tx_agree r d ∧ num_sock_created r = 0 ∧ num_responses r = 0 ∧
    ∀ idx, (idx < 32)%nat → num_bursts_tx r idx = num_bursts_tx d idx.
Proof.
  intros Hd. destruct (res_mapM_total (num_bursts_tx d) (seq 0 BURST_TX_BUCKETS)) as [l Hl].
  { intros idx Hidx%elem_of_seq. apply dpdk_bursts_total; [done|unfold BURST_TX_BUCKETS in *; lia]. }
  unfold snapshot, dpdk_snapshot, burst_tx_stats. rewrite Hl.
  eexists. split; [reflexivity|]. split_and!; try done.
  intros idx Hidx. cbn -[num_bursts_tx dpdk_snapshot seq] in *.
  apply res_mapM_Ok in Hl.
  assert (seq 0 BURST_TX_BUCKETS !! idx = Some idx) as Hs.
  { rewrite lookup_seq. unfold BURST_TX_BUCKETS. lia. }
  destruct (Forall2_lookup_l _ _ _ _ _ Hl Hs) as (n & Hn & Heq).
  rewrite Heq. cbn. by rewrite Hn.
Qed.

(** C21: what the client shows is what the engine counted: after a snapshot of
    an engine has been stored, every trait the engine offers reads the same
    through [RemoteStat], the traits it does not offer read as zero, taking a
    snapshot never panics, and the 32 burst counters arrive in order. *)
Theorem snapshot_roundtrip (h : HttpStatOf unit) (u : UdpStat) (d : DpdkStat) r :
  Forall (λ w, length (w_bursts (bursts_tx w)) = 32%nat) (stats d) →
  (∃ s, snapshot h = Ok s ∧ let r := remote_store r s in
    generator r = generator h ∧ tx_agree r h ∧ rx_agree r h ∧ socket_agree r h ∧ http_agree r h) ∧
  (∃ s, snapshot u = Ok s ∧ let r := remote_store r s in
    generator r = generator u ∧ tx_agree r u ∧ socket_agree r u ∧
    num_responses r = 0 ∧ hist r = [] ∧ num_2xx r = 0) ∧
  (∃ s, snapshot d = Ok s ∧ let r := remote_store r s in
    generator r = generator d ∧ tx_agree r d ∧ num_sock_created r = 0 ∧ num_responses r = 0 ∧
    ∀ idx, (idx < 32)%nat → num_bursts_tx r idx = num_bursts_tx d idx).
Proof. intros Hd. split; [apply http_reads|]. split; [apply udp_reads|by apply dpdk_reads]. Qed.

Lemma snapshot_roundtrip_witness :
  ∃ s, snapshot (stat_new [default_value; default_value] : DpdkStat) = Ok s ∧
    num_requests (remote_store remote_new s) = 0 ∧
    num_bursts_tx (remote_store remote_new s) 31 = Ok 0.
Proof.
  destruct (snapshot_roundtrip (stat_new []) (stat_new [])
    (stat_new [default_value; default_value] : DpdkStat) remote_new) as (_ & _ & s & Hs & _ & [Hr _] & _ & _ & Hb).
  - repeat (apply Forall_cons; split; [done|]). by apply Forall_nil.
  - exists s. split; [done|]. rewrite Hr, Hb by lia. done.
Defined.

(** ** Control *)

(** A bounded channel of control events: [try_send] succeeds exactly when there
    is room. *)
Class BoundedChannel (C : Type) := {
  capacity : nat;
  queue : C → list GeneratorEvent;
  try_send : GeneratorEvent → C → C * bool;
  try_recv : C → C * option GeneratorEvent;
  try_send_room : ∀ e c, (length (queue c) < capacity)%nat →
    queue (try_send e c).1 = queue c ++ [e] ∧ (try_send e c).2 = true;
  try_send_full : ∀ e c, (capacity ≤ length (queue c))%nat →
    queue (try_send e c).1 = queue c ∧ (try_send e c).2 = false;
  try_recv_queue : ∀ c,
    queue (try_recv c).1 = tail (queue c) ∧ (try_recv c).2 = head (queue c);
}.

(** [into_control_request] (client). *)
Definition into_control_request (ev : GeneratorEvent) : option ControlKind :=
  Some match ev with
       | Suspend => KSuspend
       | Resume => KResume
       | Set_ rps => KSet rps
       end.

Section control.
Context {C : Type} `{BoundedChannel C}.

(** The part of [DwdService] a control request changes. *)
Record Service := { control_tx : C; is_running : bool }.

(** [DwdService::control]. *)
Definition control (s : Service) (request : option ControlKind) : Service :=
  match request with
  | None => s
  | Some kind =>
      let send ev := {| control_tx := (try_send ev (control_tx s)).1; is_running := is_running s |} in
      match kind with
      | KSuspend => send Suspend
      | KResume => send Resume
      | KSet rps => send (Set_ rps)
      | KStop => {| control_tx := control_tx s; is_running := false |}
      end
  end.

(** A control intent reaches the rate-control loop unchanged when the
    channel has room and is dropped without an error when it has not; control
    never touches the run flag, [Stop] never touches the channel. *)
Theorem control_delivers s ev :
  let s' := control s (into_control_request ev) in
  is_running s' = is_running s ∧
  queue (control_tx s') =
    (if decide (length (queue (control_tx s)) < capacity)%nat
     then queue (control_tx s) ++ [ev] else queue (control_tx s)) ∧
  control s (Some KStop) = {| control_tx := control_tx s; is_running := false |} ∧
  control s None = s.
Proof.
  cbv zeta.
  assert (control s (into_control_request ev) =
    {| control_tx := (try_send ev (control_tx s)).1; is_running := is_running s |}) as ->
    by (by destruct ev).
  split; [done|]. split; [|done]. cbn [control_tx].
  destruct (decide _) as [Hlt|Hge]; [by apply try_send_room|apply try_send_full; lia].
Qed.

(** When the channel is full it is the newest event that is dropped: of a
    series of requests sent before the loop polls again, the first ones are
    obeyed and the later ones, which should supersede them, are lost. *)
Theorem newest_control_is_dropped s first later :
  capacity = 1%nat → queue (control_tx s) = [] →
  let s1 := control s (into_control_request first) in
  let s2 := foldl (λ s ev, control s (into_control_request ev)) s1 later in
  (try_recv (control_tx s2)).2 = Some first ∧
  queue (try_recv (control_tx s2)).1 = [].
Proof.
  intros Hcap Hq; cbv zeta.
  assert (∀ s ev, control s (into_control_request ev) =
    {| control_tx := (try_send ev (control_tx s)).1; is_running := is_running s |}) as Heq
    by (by intros ? []).
  rewrite Heq. set (c := (try_send first (control_tx s)).1).
  assert (queue c = [first]) as Hc.
  { unfold c. destruct (try_send_room first (control_tx s)) as [-> _]; rewrite Hq; cbn; [lia|done]. }
  assert (∀ l c, queue c = [first] → ∀ b, queue (control_tx
    (foldl (λ s ev, control s (into_control_request ev)) {| control_tx := c; is_running := b |} l)) = [first]) as Hl.
  { clear -Heq Hcap. induction l as [|ev l IH]; intros c Hc b; [done|]. cbn [foldl].
    rewrite Heq. apply IH. cbn [control_tx].
    destruct (try_send_full ev c) as [-> _]; rewrite Hc; [cbn; lia|done]. }
  specialize (Hl later c Hc (is_running s)).
  destruct (try_recv_queue (control_tx (foldl (λ s ev, control s (into_control_request ev))
    {| control_tx := c; is_running := is_running s |} later))) as [-> ->].
  by rewrite Hl.
Qed.
End control.
Arguments Service : clear implicits.

(** A channel as the list of what it holds. *)
#[export] Instance list_channel : BoundedChannel (list GeneratorEvent).
Proof.
  refine {| capacity := 1; queue c := c;
            try_send e c := if decide (length c < 1)%nat then (c ++ [e], true) else (c, false);
            try_recv c := (tail c, head c) |}; intros.
  - by destruct (decide _).
  - destruct (decide _); [lia|done].
  - done.
Defined.

Lemma newest_control_is_dropped_witness :
  let s := control {| control_tx := [] : list GeneratorEvent; is_running := true |}
             (into_control_request (Set_ 100)) in
  (try_recv (control_tx (control s (into_control_request (Set_ 200))))).2 = Some (Set_ 100).
Proof.
  apply (newest_control_is_dropped {| control_tx := [] : list GeneratorEvent; is_running := true |}
    (Set_ 100) [Set_ 200]); done.
Defined.

(** The widgets of the TUI are the groups the engine described, in its order. *)
Definition widget_of_group (g : StatGroup) : option Widget :=
  match g with
  | GUnspecified => None | GCommon => Some WCommon | GTx => Some WTx | GRx => Some WRx
  | GRxTimings => Some WRxTimings | GSocket => Some WSock | GHttp => Some WHttp
  | GBurstTx => Some WBurstTx
  end.

Lemma stat_group_roundtrip g : stat_group_of_number (stat_group_number g) = Some g.
Proof. by destruct g. Qed.

Lemma build_ui_groups d : build_ui (into_response d).2 = omap widget_of_group (groups d).
Proof.
  unfold build_ui, into_response. cbn [snd].
  assert (∀ l ui, foldl build_ui_step ui (stat_group_number <$> l) = ui ++ omap widget_of_group l) as H;
    [|by rewrite H].
  induction l as [|g l IH]; intros ui; [by rewrite app_nil_r|]. csimpl. rewrite IH.
  unfold build_ui_step. rewrite stat_group_roundtrip. destruct g; csimpl; by rewrite <-?app_assoc.
Qed.
