(* ===== verification/Produce.v ===== *)
(** * Cycling producers ([Produce], dwd-core/src/lib.rs)

    A producer hands out references to its items for ever.  [VecProduce] keeps
    an atomic index shared by all the workers; [fetch_add] wraps at 2^64. *)
From S2P Require Import Prelude Machine.

Class Produce (P A : Type) := { produce_next : P → res (P * A) }.

Record OneProduce (A : Type) := { one_v : A }.
Arguments one_v {A} _.

#[export] Instance one_produce {A} : Produce (OneProduce A) A :=
  {| produce_next p := Ok (p, one_v p) |}.

Record VecProduce (A : Type) := { vec : list A; idx : Z }.
Arguments vec {A} _.
Arguments idx {A} _.

Definition vec_produce_new {A} (v : list A) : VecProduce A := {| vec := v; idx := 0 |}.

(** The element for an index returned by [fetch_add]: [&self.vec[idx % len]]. *)
Definition vec_produce_at {A} (v : list A) (i : Z) : res A :=
  let! i := u64_rem i (Z.of_nat (length v)) in
  match v !! Z.to_nat i with
  | Some x => Ok x
  | None => Panic "index out of bounds"
  end.

#[export] Instance vec_produce {A} : Produce (VecProduce A) A :=
  {| produce_next p :=
       let! x := vec_produce_at (vec p) (idx p) in
       Ok ({| vec := vec p; idx := u64_add (idx p) 1 |}, x) |}.

(** [n] successive calls. *)
Fixpoint produce_many {P A} `{Produce P A} (n : nat) (p : P) : res (P * list A) :=
  match n with
  | O => Ok (p, [])
  | S n =>
      let! px := produce_next p in
      let! pl := produce_many n (fst px) in
      Ok (fst pl, snd px :: snd pl)
  end.

Lemma vec_produce_at_Ok {A} (v : list A) i :
  v ≠ [] → 0 ≤ i →
  ∃ x, v !! (Z.to_nat (i `mod` Z.of_nat (length v))) = Some x ∧ vec_produce_at v i = Ok x.
Proof.
  intros Hv Hi. assert (0 < length v)%nat by (destruct v; [done|cbn; lia]).
  unfold vec_produce_at, u64_rem. destruct (Z.eqb_spec (Z.of_nat (length v)) 0); [lia|]. cbn.
  pose proof (Z.mod_pos_bound i (Z.of_nat (length v)) ltac:(lia)).
  destruct (lookup_lt_is_Some_2 v (Z.to_nat (i `mod` Z.of_nat (length v)))) as [x Hx]; [lia|].
  exists x. rewrite Hx. done.
Qed.

Lemma produce_many_at {A} (v : list A) n i :
  v ≠ [] → 0 ≤ i → i + Z.of_nat n ≤ 2 ^ 64 - 1 →
  ∃ l, produce_many n {| vec := v; idx := i |} = Ok ({| vec := v; idx := i + Z.of_nat n |}, l) ∧
    length l = n ∧
    ∀ k, (k < n)%nat → l !! k = v !! Z.to_nat ((i + Z.of_nat k) `mod` Z.of_nat (length v)).
Proof.
  intros Hv. revert i. induction n as [|n IH]; intros i Hi Hn.
  - exists []. rewrite Z.add_0_r. split_and!; [done|done|lia].
  - destruct (vec_produce_at_Ok v i Hv Hi) as (x & Hx & Hat).
    destruct (IH (i + 1)) as (l & Hl & Hlen & Hk); [lia|lia|].
    exists (x :: l). cbn [produce_many produce_next vec_produce vec Produce.idx]. rewrite Hat. cbn [res_bind fst snd].
    rewrite u64_add_id by lia. rewrite Hl. cbn [res_bind fst snd].
    split_and!; [do 3 f_equal; lia|by rewrite <-Hlen|].
    intros [|k] Hlt; [by rewrite Z.add_0_r|]. cbn [lookup list_lookup]. 
    change ((x :: l) !! S k) with (l !! k). rewrite Hk by lia. do 3 f_equal. lia.
Qed.

(** A producer over a non-empty list hands its elements out in order,
    starting over at the end, for as many calls as the index can count; over
    the empty list — which [--bind-network] yields when no interface address
    matches — the first call panics. *)
Theorem vec_produce_cycles {A} (v : list A) n :
  Z.of_nat n < 2 ^ 64 →
  (v ≠ [] → ∃ p l, produce_many n (vec_produce_new v) = Ok (p, l) ∧ length l = n ∧
    ∀ k, (k < n)%nat → l !! k = v !! (k `mod` length v)%nat ∧ is_Some (l !! k)) ∧
  (v = [] → is_panic (produce_next (vec_produce_new v)) = true).
Proof.
  intros Hn. split; [|by intros ->]. intros Hv.
  destruct (produce_many_at v n 0 Hv) as (l & Hl & Hlen & Hk); [lia|lia|].
  eexists _, l. split_and!; [exact Hl|done|]. intros k Hlt.
  split; [|apply lookup_lt_is_Some_2; lia].
  rewrite Hk, Z.add_0_l by done. f_equal. rewrite <-Nat2Z.inj_mod. apply Nat2Z.id.
Qed.

Lemma vec_produce_cycles_witness :
  ∃ p l, produce_many 5 (vec_produce_new [10; 20]) = Ok (p, l) ∧ l !! 4%nat = Some 10.
Proof.
  destruct (vec_produce_cycles [10; 20] 5) as [H _]; [done|].
  destruct (H ltac:(done)) as (p & l & Hl & _ & Hk). exists p, l. split; [done|].
  destruct (Hk 4%nat) as [-> _]; [lia|]. reflexivity.
Defined.
