(* ===== verification/Pool.v ===== *)
(** * Threads, tasks and their rate limits

    [Engine::new] of the HTTP engines deals the limits of the concurrent jobs out
    to the threads ([engine/http/engine.rs], [engine_raw.rs], [engine/http3/engine.rs]
    share the loop); [ThreadPool] and [LocalTaskPool] are [engine/runtime.rs].  A
    limit is named by the number of its job. *)
From S2P Require Import Prelude Machine.

(** [while idx < num_jobs { limits[idx % len].push(..); idx += 1 }]. *)
Fixpoint deal (fuel : nat) (idx num_jobs : nat) (limits : list (list nat)) : option (list (list nat)) :=
  match fuel with
  | O => None
  | S fuel =>
      if (idx <? num_jobs)%nat
      then deal fuel (S idx) num_jobs
             (alter (λ l, l ++ [idx]) (idx `mod` length limits)%nat limits)
      else Some limits
  end.

(** The limits of [num_jobs] jobs on [threads] threads. *)
Definition engine_limits (num_jobs threads : nat) : list (list nat) :=
  default [] (deal (S num_jobs) 0 num_jobs (replicate threads [])).

(** [Engine::limits] flattened for the rate-control loop (engine.rs). *)
Definition flat_limits (num_jobs threads : nat) : list nat := concat (engine_limits num_jobs threads).

(** [NonZero::new(limits.len()).unwrap()] in [Engine::run], for each thread. *)
Definition tasks_of_thread (limits : list nat) : res nat :=
  match length limits with
  | O => Panic "called `Option::unwrap()` on a `None` value"
  | S n => Ok (S n)
  end.

(** [ThreadPool::run]: the factory runs for every index in order and its worker
    is spawned at once; then all are joined, the first error is returned. *)
Section thread_pool.
Context {U : Type} (factory : nat → res U) (spawn : nat → res unit) (join : U → res unit).

Definition thread_pool_run (num_threads : nat) : traced U unit :=
  let* threads := start_each (λ idx, let! worker := factory idx in
                                     let! _ := spawn idx in Ok worker) (seq 0 num_threads) in
  let* _ := tcall (res_mapM join threads) in tret tt.
End thread_pool.

(** [LocalTaskPool::run]: every task is spawned, then awaited in order; a task
    that panicked makes [unwrap] panic. *)
Definition local_task_pool_run {T} (runtime : res unit) (factory : nat → res T) (await : T → res unit)
    (num_tasks : nat) : traced T unit :=
  let* _ := tcall runtime in
  let* jobs := start_each factory (seq 0 num_tasks) in
  let* _ := tcall (res_mapM await jobs) in tret tt.

(** A thread's tasks are those its factory makes. *)
Lemma local_task_pool_starts {T} factory (await : T → res unit) n jobs :
  res_mapM factory (seq 0 n) = Ok jobs →
  fst (local_task_pool_run (Ok tt) factory await n) = jobs ∧
  ((∀ j, j ∈ jobs → await j = Ok tt) → snd (local_task_pool_run (Ok tt) factory await n) = Ok tt).
Proof.
  intros Hj. unfold local_task_pool_run. cbn. rewrite (start_each_trace _ _ _ Hj). cbn. split.
  - destruct (res_mapM await jobs); cbn; by rewrite ?app_nil_r.
  - intros Ha. destruct (res_mapM_total await jobs) as [k ->]; [|done]. intros j ?. exists tt. by apply Ha.
Qed.

(** ** Dealing is fair *)

Definition dealt (idx threads : nat) (limits : list (list nat)) : Prop :=
  length limits = threads ∧
  ∀ t l, limits !! t = Some l → l = filter (λ j, (j `mod` threads = t)%nat) (seq 0 idx).

Lemma seq_S_r m n : seq m (S n) = seq m n ++ [(m + n)%nat].
Proof. apply seq_S. Qed.

Lemma dealt_step idx threads limits :
  (0 < threads)%nat → dealt idx threads limits →
  dealt (S idx) threads (alter (λ l, l ++ [idx]) (idx `mod` length limits)%nat limits).
Proof.
  intros Ht [Hlen Hl]. split; [by rewrite length_alter|]. rewrite Hlen.
  intros t l. rewrite list_lookup_alter, seq_S_r, filter_app. cbn [Nat.add].
  destruct (decide ((idx `mod` threads)%nat = t)) as [<-|Hne].
  - destruct (limits !! (idx `mod` threads)%nat) as [k|] eqn:Hk; [|done]. intros [= <-].
    rewrite (Hl _ _ Hk). f_equal. rewrite filter_cons, decide_True by done. done.
  - intros Hk. rewrite (Hl _ _ Hk). rewrite filter_cons, decide_False by done.
    by rewrite filter_nil, app_nil_r.
Qed.

Lemma deal_dealt fuel idx num_jobs threads limits :
  (0 < threads)%nat → (num_jobs < idx + fuel)%nat → (idx ≤ num_jobs)%nat →
  dealt idx threads limits →
  ∃ limits', deal fuel idx num_jobs limits = Some limits' ∧ dealt num_jobs threads limits'.
Proof.
  intros Ht. revert idx limits. induction fuel as [|fuel IH]; intros idx limits Hf Hi Hd; [lia|].
  cbn [deal]. destruct (Nat.ltb_spec idx num_jobs).
  - apply IH; [lia|lia|]. by apply dealt_step.
  - exists limits. assert (idx = num_jobs) as <- by lia. done.
Qed.

Lemma dealt_start threads : dealt 0 threads (replicate threads []).
Proof. split; [by rewrite length_replicate|]. intros t l [-> _]%lookup_replicate. done. Qed.

Lemma engine_limits_dealt num_jobs threads :
  (0 < threads)%nat → dealt num_jobs threads (engine_limits num_jobs threads).
Proof.
  intros Ht. unfold engine_limits.
  destruct (deal_dealt (S num_jobs) 0 num_jobs threads (replicate threads [])) as (l & -> & Hl);
    [done|lia|lia|apply dealt_start|done].
Qed.

(** How many numbers below [n] have a given remainder. *)
Lemma filter_mod_length n threads t :
  (0 < threads)%nat → (t < threads)%nat →
  length (filter (λ j, (j `mod` threads = t)%nat) (seq 0 n)) =
    ((n + threads - 1 - t) / threads)%nat.
Proof.
  intros Ht Hlt. induction n as [|n IH].
  - symmetry. apply Nat.div_small. lia.
  - rewrite seq_S_r, filter_app, length_app, IH, Nat.add_0_l.
    pose proof (Nat.div_mod n threads ltac:(lia)) as Hdm.
    pose proof (Nat.mod_upper_bound n threads ltac:(lia)) as Hmb.
    set (q := (n / threads)%nat) in *. set (r := (n `mod` threads)%nat) in *.
    assert (∀ a b, (a < threads)%nat → ((threads * b + a) / threads = b)%nat) as Hdiv.
    { intros a b Ha. rewrite Nat.mul_comm, Nat.div_add_l by lia. rewrite Nat.div_small by lia. lia. }
    rewrite filter_cons, filter_nil. fold r.
    destruct (decide (r = t)) as [Heq|Hne];
      [change (length [n]) with 1%nat|change (length (@nil nat)) with 0%nat].
    + replace (n + threads - 1 - t)%nat with (threads * q + (threads - 1))%nat by lia.
      replace (S n + threads - 1 - t)%nat with (threads * (q + 1) + 0)%nat by lia.
      rewrite !Hdiv by lia. lia.
    + destruct (decide (t < r)%nat).
      * replace (n + threads - 1 - t)%nat with (threads * (q + 1) + (r - 1 - t))%nat by lia.
        replace (S n + threads - 1 - t)%nat with (threads * (q + 1) + (r - t))%nat by lia.
        rewrite !Hdiv by lia. lia.
      * replace (n + threads - 1 - t)%nat with (threads * q + (r + threads - 1 - t))%nat by lia.
        replace (S n + threads - 1 - t)%nat with (threads * q + (r + threads - t))%nat by lia.
        rewrite !Hdiv by lia. lia.
Qed.

Lemma dealt_lookup num_jobs threads t :
  (t < threads)%nat →
  engine_limits num_jobs threads !! t = Some (filter (λ j, (j `mod` threads = t)%nat) (seq 0 num_jobs)).
Proof.
  intros Ht. destruct (engine_limits_dealt num_jobs threads ltac:(lia)) as [Hlen Hl].
  destruct (lookup_lt_is_Some_2 (engine_limits num_jobs threads) t) as [l Hlk]; [lia|].
  by rewrite Hlk, (Hl _ _ Hlk).
Qed.

(** Together the threads have every job once. *)
Lemma concat_alter_snoc {A} (l : list (list A)) t x :
  (t < length l)%nat → concat (alter (λ k, k ++ [x]) t l) ≡ₚ concat l ++ [x].
Proof.
  revert t. induction l as [|k l IH]; intros [|t] Ht; cbn in *; try lia.
  - rewrite <-!app_assoc. apply Permutation_app_head, Permutation_app_comm.
  - rewrite <-app_assoc. apply Permutation_app_head, IH. lia.
Qed.

Lemma deal_concat fuel idx num_jobs l l' :
  (0 < length l)%nat → (idx ≤ num_jobs)%nat → deal fuel idx num_jobs l = Some l' →
  concat l' ≡ₚ concat l ++ seq idx (num_jobs - idx).
Proof.
  revert idx l. induction fuel as [|fuel IH]; intros idx l Hl Hi Hd; [done|]. cbn [deal] in Hd.
  assert (idx `mod` length l < length l)%nat as Hm by (apply Nat.mod_upper_bound; clear -Hl; lia).
  destruct (Nat.ltb_spec idx num_jobs).
  - apply IH in Hd; [|by rewrite length_alter|lia]. etransitivity; [exact Hd|].
    etransitivity; [apply Permutation_app_tail, (concat_alter_snoc l _ idx Hm)|].
    replace (num_jobs - idx)%nat with (S (num_jobs - S idx)) by lia. cbn [seq]. by rewrite <-app_assoc.
  - injection Hd as <-. replace (num_jobs - idx)%nat with 0%nat by lia. by rewrite app_nil_r.
Qed.

Lemma flat_limits_perm num_jobs threads :
  (0 < threads)%nat → flat_limits num_jobs threads ≡ₚ seq 0 num_jobs.
Proof.
  intros Ht. unfold flat_limits, engine_limits.
  destruct (deal_dealt (S num_jobs) 0 num_jobs threads (replicate threads [])) as (l & Hd & _);
    [done|lia|lia|apply dealt_start|].
  rewrite Hd. cbn [default].
  etransitivity; [exact (deal_concat _ _ _ _ _ ltac:(by rewrite length_replicate) (Nat.le_0_l _) Hd)|].
  rewrite Nat.sub_0_r. replace (concat (replicate threads [])) with (@nil nat); [done|].
  clear. induction threads; [done|by cbn].
Qed.

(** A thread has a job exactly when its number is one. *)
Lemma engine_limits_lookup_nil num_jobs threads t l :
  (0 < threads)%nat → engine_limits num_jobs threads !! t = Some l → (l = [] ↔ (num_jobs ≤ t)%nat).
Proof.
  intros Hp Hl. assert (t < threads)%nat as Ht.
  { rewrite <-(proj1 (engine_limits_dealt num_jobs threads Hp)). by apply lookup_lt_Some in Hl. }
  rewrite (dealt_lookup _ _ _ Ht) in Hl. injection Hl as <-. split.
  - intros Hn. destruct (decide (num_jobs ≤ t)%nat) as [|Hlt]; [done|].
    assert (t ∈ filter (λ j, (j `mod` threads = t)%nat) (seq 0 num_jobs)) as Hin; [|rewrite Hn in Hin; by apply elem_of_nil in Hin].
    apply list_elem_of_filter. rewrite elem_of_seq, Nat.mod_small by lia. lia.
  - intros Hle. apply elem_of_nil_inv. intros j [Hjm Hj]%list_elem_of_filter. apply elem_of_seq in Hj.
    rewrite Nat.mod_small in Hjm by lia. lia.
Qed.

(** The jobs are dealt out evenly and completely: every job belongs to
    exactly one thread, the one its number designates, two threads differ by
    at most one job, and a thread is left without a job — which makes the run
    panic — exactly when there are fewer jobs than threads. *)
Theorem engine_limits_fair num_jobs threads :
  (0 < threads)%nat →
  length (engine_limits num_jobs threads) = threads ∧
  (∀ j t l, engine_limits num_jobs threads !! t = Some l →
     (j ∈ l ↔ (j < num_jobs ∧ j `mod` threads = t)%nat) ∧ NoDup l) ∧
  (∀ t t' l l', engine_limits num_jobs threads !! t = Some l →
     engine_limits num_jobs threads !! t' = Some l' → (length l ≤ S (length l'))%nat) ∧
  (is_panic (res_mapM tasks_of_thread (engine_limits num_jobs threads)) = true ↔
     (num_jobs < threads)%nat).
Proof.
  intros Ht. destruct (engine_limits_dealt num_jobs threads Ht) as [Hlen Hl].
  assert (∀ t l, engine_limits num_jobs threads !! t = Some l →
    (t < threads)%nat ∧ length l = ((num_jobs + threads - 1 - t) / threads)%nat) as Hsz.
  { intros t l Hlk. pose proof (lookup_lt_Some _ _ _ Hlk) as Hlt. rewrite Hlen in Hlt.
    split; [done|]. rewrite (Hl _ _ Hlk). by apply filter_mod_length. }
  split; [done|]. split_and!.
  - intros j t l Hlk. rewrite (Hl _ _ Hlk). split; [|apply NoDup_filter, NoDup_seq].
    rewrite list_elem_of_filter, elem_of_seq. lia.
  - intros t t' l l' Hlk Hlk'. destruct (Hsz _ _ Hlk) as [Hlt ->], (Hsz _ _ Hlk') as [Hlt' ->].
    trans (((num_jobs + threads - 1 - t') + 1 * threads) / threads)%nat;
      [apply Nat.Div0.div_le_mono; lia|]. rewrite Nat.div_add by lia. lia.
  - split.
    + intros Hp. destruct (decide (num_jobs < threads)%nat) as [|Hge]; [done|].
      assert (∃ k, res_mapM tasks_of_thread (engine_limits num_jobs threads) = Ok k) as [k Hk]; [|by rewrite Hk in Hp].
      apply res_mapM_total. intros l (t & Hlk)%list_elem_of_lookup_1.
      destruct (Hsz _ _ Hlk) as [Hlt Hln]. unfold tasks_of_thread.
      assert (1 ≤ length l)%nat.
      { rewrite Hln. apply Nat.div_le_lower_bound; lia. }
      destruct (length l); [lia|]. by eexists.
    + intros Hlt. apply res_mapM_panics with (x := []); [|done|].
      * destruct (lookup_lt_is_Some_2 (engine_limits num_jobs threads) num_jobs) as [l Hlk]; [lia|].
        destruct (Hsz _ _ Hlk) as [_ Hln].
        replace (num_jobs + threads - 1 - num_jobs)%nat with (threads - 1)%nat in Hln by lia.
        rewrite Nat.div_small in Hln by lia. destruct l; [|done].
        by eapply list_elem_of_lookup_2.
      * intros l. unfold tasks_of_thread. destruct (length l); [by right|left; by eexists].
Qed.

Lemma engine_limits_fair_witness :
  engine_limits 5 3 = [[0; 3]; [1; 4]; [2]]%nat ∧
  is_panic (res_mapM tasks_of_thread (engine_limits 2 4)) = true.
Proof.
  split; [reflexivity|]. destruct (engine_limits_fair 2 4) as (_ & _ & _ & H); [lia|].
  apply H. lia.
Defined.
