(* ===== verification/Task.v ===== *)
(** * Tasks and the shaped worker ([dwd-core/src/engine/coro.rs], [trait Task])

    An [async] body is a computation over the worker's state.  The future it
    awaits is answered by the environment: [Ready], an error for [?] to return,
    or [TimedOut] when the [timeout] wrapped around the body fires there and
    drops it — the state keeps what was written before that point.  A panic is
    [Panic] of the outer [res]. *)
From S2P Require Import Prelude Machine F64 Time Shaper.

Inductive poll (A : Type) :=
  | Ready (a : A)
  | Errored
  | TimedOut.
Arguments Ready {A} a.
Arguments Errored {A}.
Arguments TimedOut {A}.

Definition async (St A : Type) : Type := St → res (St * poll A).

Section async.
Context {St : Type}.

Definition aret {A} (a : A) : async St A := λ s, Ok (s, Ready a).

Definition abind {A B} (m : async St A) (f : A → async St B) : async St B := λ s,
  let! sp := m s in
  match snd sp with
  | Ready a => f a (fst sp)
  | Errored => Ok (fst sp, Errored)
  | TimedOut => Ok (fst sp, TimedOut)
  end.

(** Awaiting (or calling) something that can fail. *)
Definition await {A} (p : poll A) : async St A := λ s, Ok (s, p).

(** A call that can panic. *)
Definition lift {A} (r : res A) : async St A := λ s, let! a := r in Ok (s, Ready a).

Definition get : async St St := λ s, Ok (s, Ready s).
Definition modify (f : St → St) : async St unit := λ s, Ok (f s, Ready tt).
Definition modify_res (f : St → res St) : async St unit := λ s, let! s := f s in Ok (s, Ready tt).

(** [match m.await { Ok(a) => f(a), Err(..) => { h; return } }]. *)
Definition or_return {A} (m : async St A) (h : async St unit) (f : A → async St unit) : async St unit := λ s,
  let! sp := m s in
  match snd sp with
  | Ready a => f a (fst sp)
  | Errored => h (fst sp)
  | TimedOut => Ok (fst sp, TimedOut)
  end.

(** A local value whose [Drop] runs [d] when the body is left early. *)
Definition drop_guard {A} (d : St → St) (m : async St A) : async St A := λ s,
  let! sp := m s in
  match snd sp with
  | Ready a => Ok (fst sp, Ready a)
  | p => Ok (d (fst sp), p)
  end.

(** A local value the caller handles after an error, but which is dropped with
    the body when the timeout fires in [m]. *)
Definition drop_on_timeout {A} (d : St → St) (m : async St A) : async St A := λ s,
  let! sp := m s in
  match snd sp with
  | TimedOut => Ok (d (fst sp), TimedOut)
  | p => Ok (fst sp, p)
  end.

(** [if tokio::time::timeout(t, m).await.is_err() { h }]. *)
Definition with_timeout (m : async St unit) (h : St → res St) : St → res St := λ s,
  let! sp := m s in
  match snd sp with
  | TimedOut => h (fst sp)
  | _ => Ok (fst sp)
  end.
End async.

Notation "'let?' x ':=' m 'in' k" := (abind m (λ x, k))
  (at level 10, x pattern, m at level 100, k at level 200,
   format "'let?'  x  ':='  m  'in' '//' k") : dwd_scope.

(** ** Reasoning about asynchronous bodies

    [aspec P m Q E T]: from a state in [P] the body does not panic; it returns in
    [Q], fails in [E] or is dropped by the timeout in [T]. *)
Section aspec.
Context {St : Type}.
Implicit Types P E T : St → Prop.

Definition aspec {A} P (m : async St A) (Q : A → St → Prop) E T : Prop :=
  ∀ s, P s → ∃ s' p, m s = Ok (s', p) ∧
    match p with Ready a => Q a s' | Errored => E s' | TimedOut => T s' end.

Lemma aspec_weaken {A} P (m : async St A) (Q Q' : A → St → Prop) E E' T T' :
  aspec P m Q E T → (∀ a s, Q a s → Q' a s) → (∀ s, E s → E' s) → (∀ s, T s → T' s) →
  aspec P m Q' E' T'.
Proof.
  intros Hm HQ HE HT s Hs. destruct (Hm s Hs) as (s' & p & -> & Hp).
  eexists _, _. split; [done|]. destruct p; auto.
Qed.

Lemma aspec_ret {A} (a : A) (Q : A → St → Prop) E T : aspec (Q a) (aret a) Q E T.
Proof. intros s Hs. by eexists _, _. Qed.

Lemma aspec_bind {A B} P (m : async St A) (f : A → async St B) Q R E T :
  aspec P m Q E T → (∀ a, aspec (Q a) (f a) R E T) → aspec P (abind m f) R E T.
Proof.
  intros Hm Hf s Hs. destruct (Hm s Hs) as (s1 & p & Hs1 & Hp).
  unfold abind. rewrite Hs1. cbn. destruct p; [by apply Hf|eexists _, _; split; [done|done]..].
Qed.

Lemma aspec_await {A} (p : poll A) P E T :
  (∀ s, P s → E s) → (∀ s, P s → T s) → aspec P (await p) (λ _, P) E T.
Proof. intros HE HT s Hs. eexists _, _. split; [done|]. destruct p; auto. Qed.

Lemma aspec_modify f P (Q : St → Prop) E T :
  (∀ s, P s → Q (f s)) → aspec P (modify f) (λ _, Q) E T.
Proof. intros HQ s Hs. eexists _, _. split; [done|]. by apply HQ. Qed.

Lemma aspec_modify_res f P (Q : St → Prop) E T :
  (∀ s, P s → ∃ s', f s = Ok s' ∧ Q s') → aspec P (modify_res f) (λ _, Q) E T.
Proof.
  intros HQ s Hs. destruct (HQ s Hs) as (s' & Hf & Hq). unfold modify_res. rewrite Hf.
  eexists _, _. by split.
Qed.

Lemma aspec_lift {A} (r : res A) (a : A) P E T :
  r = Ok a → aspec P (lift r) (λ _, P) E T.
Proof. intros -> s Hs. eexists _, _. by split. Qed.

Lemma aspec_drop_guard {A} d P (m : async St A) Q E E' T T' :
  aspec P m Q E' T' → (∀ s, E' s → E (d s)) → (∀ s, T' s → T (d s)) →
  aspec P (drop_guard d m) Q E T.
Proof.
  intros Hm HE HT s Hs. destruct (Hm s Hs) as (s1 & p & Hs1 & Hp). unfold drop_guard. rewrite Hs1.
  destruct p; cbn in Hp |- *; eexists _, _; (split; [reflexivity|]); cbn; auto.
Qed.

Lemma aspec_drop_on_timeout {A} d P (m : async St A) Q E T T' :
  aspec P m Q E T' → (∀ s, T' s → T (d s)) → aspec P (drop_on_timeout d m) Q E T.
Proof.
  intros Hm HT s Hs. destruct (Hm s Hs) as (s1 & p & Hs1 & Hp). unfold drop_on_timeout. rewrite Hs1.
  destruct p; cbn in Hp |- *; eexists _, _; (split; [reflexivity|]); cbn; auto.
Qed.

Lemma aspec_or_return {A} P (m : async St A) h f Q (R : unit → St → Prop) E E' T :
  aspec P m Q E' T → (∀ a, aspec (Q a) (f a) R E T) → aspec E' h R E T →
  aspec P (or_return m h f) R E T.
Proof.
  intros Hm Hf Hh s Hs. destruct (Hm s Hs) as (s1 & p & Hs1 & Hp).
  unfold or_return. rewrite Hs1. cbn. destruct p; [by apply Hf|by apply Hh|].
  by eexists _, _.
Qed.

(** A body that handles its errors, under a timeout. *)
Lemma aspec_with_timeout P (m : async St unit) h (R : St → Prop) T s :
  aspec P m (λ _, R) (λ _, False) T → (∀ s, T s → ∃ s', h s = Ok s' ∧ R s') →
  P s → ∃ s', with_timeout m h s = Ok s' ∧ R s'.
Proof.
  intros Hm Hh Hs. destruct (Hm s Hs) as (s1 & p & Hs1 & Hp).
  unfold with_timeout. rewrite Hs1. cbn. destruct p; [by eexists|done|by apply Hh].
Qed.
End aspec.

(** ** Tasks *)

(** [W] is the state of a task, [E] what the environment answers during one
    execution. *)
Class Task (W E : Type) := { execute : E → W → res W }.

Section worker.
Context {W E : Type} `{Task W E}.

(** [for _ in 0..n { task.execute().await }]. *)
Fixpoint execute_all (envs : list E) (w : W) : res W :=
  match envs with
  | [] => Ok w
  | e :: envs => let! w := execute e w in execute_all envs w
  end.

Record ShapedCoroWorker := { task : W; shaper : Shaper }.

(** One round of [ShapedCoroWorker::run]; [env i] answers the [i]-th execution
    of the round. *)
Definition coro_round (self : ShapedCoroWorker) (now : Instant) (limit : Z) (env : nat → E) :
    res (ShapedCoroWorker * Z) :=
  let '(sh, n) := Shaper.tick (shaper self) now limit in
  if n =? 0 then Ok ({| task := task self; shaper := sh |}, 0)
  else
    let n := Z.min n 32 in
    let! t := execute_all (env <$> seq 0 (Z.to_nat n)) (task self) in
    Ok ({| task := t; shaper := Shaper.consume sh n |}, n).

(** What a round reads from outside; [running] is the flag of the loop. *)
Record RoundEnv := { running : bool; round_now : Instant; round_limit : Z; round_env : nat → E }.

(** [ShapedCoroWorker::run] over a list of rounds: the final state and how
    many executions each round made. *)
Fixpoint coro_run (self : ShapedCoroWorker) (rounds : list RoundEnv) : res (ShapedCoroWorker * list Z) :=
  match rounds with
  | [] => Ok (self, [])
  | r :: rounds =>
      if negb (running r) then Ok (self, [])
      else
        let! sn := coro_round self (round_now r) (round_limit r) (round_env r) in
        let! sl := coro_run (fst sn) rounds in
        Ok (fst sl, snd sn :: snd sl)
  end.

(** A task that never panics in states of [I]. *)
Definition task_safe (I : W → Prop) : Prop :=
  ∀ e w, I w → ∃ w', execute e w = Ok w' ∧ I w'.

Lemma execute_all_safe I envs w :
  task_safe I → I w → ∃ w', execute_all envs w = Ok w' ∧ I w'.
Proof.
  intros Hs. revert w. induction envs as [|e envs IH]; intros w Hw; cbn; [by eexists|].
  destruct (Hs e w Hw) as (w' & -> & Hw'). by apply IH.
Qed.

(** A task whose invariant counts its executions, in environments of [Pe]. *)
Lemma execute_all_counts (I : Z → W → Prop) (Pe : E → Prop) :
  (∀ e k w, Pe e → 0 ≤ k → k + 1 < 2 ^ 64 → I k w → ∃ w', execute e w = Ok w' ∧ I (k + 1) w') →
  ∀ envs k w, Forall Pe envs → 0 ≤ k → k + Z.of_nat (length envs) < 2 ^ 64 → I k w →
  ∃ w', execute_all envs w = Ok w' ∧ I (k + Z.of_nat (length envs)) w'.
Proof.
  intros Hstep. induction envs as [|e envs IH]; intros k w He Hk Hn Hw.
  - exists w. split; [done|]. by rewrite Z.add_0_r.
  - apply Forall_cons in He as [He1 He2]. change (length (e :: envs)) with (S (length envs)) in *.
    destruct (Hstep e k w He1 Hk ltac:(lia) Hw) as (w1 & Hw1 & Hi1).
    destruct (IH (k + 1) w1 He2) as (w2 & Hw2 & Hi2); [lia|lia|done|].
    exists w2. cbn [execute_all]. rewrite Hw1. split; [exact Hw2|].
    by replace (k + Z.of_nat (S (length envs))) with (k + 1 + Z.of_nat (length envs)) by lia.
Qed.

Lemma coro_round_safe I self now limit env :
  task_safe I → I (task self) → shaper_ok (shaper self) → is_u64 (burst_size (shaper self)) →
  0 ≤ limit < 2 ^ 53 → is_duration (duration_since now (prev_ts (shaper self))) →
  ∃ self' n, coro_round self now limit env = Ok (self', n) ∧
    0 ≤ n ≤ Z.min 32 limit ∧ I (task self') ∧
    (n ≠ 0 → shaper_step (shaper self) (shaper self')) ∧
    shaper_ok (shaper self') ∧ burst_size (shaper self') = burst_size (shaper self) ∧
    execute_all (env <$> seq 0 (Z.to_nat n)) (task self) = Ok (task self').
Proof.
  intros Hsafe HI Hok Hb Hl Hel. assert (is_u64 limit) as Hu by (unfold is_u64; lia).
  pose proof (tick_le_limit (shaper self) now limit Hok Hl Hel) as Hn.
  unfold coro_round.
  pose proof (tick_ok (shaper self) now limit Hok Hu Hel) as Hok'.
  pose proof (burst_size_tick (shaper self) now limit) as Hbs.
  pose proof (shaper_step_intro (shaper self) now limit
    (Z.min (Shaper.tick (shaper self) now limit).2 32) Hu Hel ltac:(lia)) as Hstep.
  destruct (Shaper.tick (shaper self) now limit) as [sh n]. cbn [fst snd] in *.
  destruct (Z.eqb_spec n 0) as [->|Hne].
  - eexists _, 0. split; [reflexivity|]. cbn. split_and!; try done; lia.
  - destruct (execute_all_safe I (env <$> seq 0 (Z.to_nat (Z.min n 32))) (task self) Hsafe HI)
      as (w' & Hw & HI').
    rewrite Hw. eexists _, _. split; [reflexivity|]. cbn [task shaper].
    destruct (shaper_step_ok _ _ Hstep Hok Hb). split_and!; try done; lia.
Qed.

(** The rounds of an execution: limits below 2^53, a clock that can be
    represented. *)
Fixpoint rounds_ok (prev : Instant) (rounds : list RoundEnv) : Prop :=
  match rounds with
  | [] => True
  | r :: rounds =>
      0 ≤ round_limit r < 2 ^ 53 ∧ is_duration (duration_since (round_now r) prev) ∧
      rounds_ok (round_now r) rounds
  end.

Lemma coro_round_prev_ts self now limit env self' n :
  coro_round self now limit env = Ok (self', n) → prev_ts (shaper self') = now.
Proof.
  unfold coro_round. assert (prev_ts (Shaper.tick (shaper self) now limit).1 = now) as Hp.
  { unfold Shaper.tick. cbn. by destruct (_ <? _). }
  destruct (Shaper.tick (shaper self) now limit) as [sh k]. cbn [fst] in Hp.
  destruct (k =? 0); intros Hr; res_inv; done.
Qed.

(** The shaper after a round of [n] executions, and the environments of those
    executions. *)
Definition paced (sh : Shaper) (r : RoundEnv) (n : Z) : Shaper :=
  let sh := (Shaper.tick sh (round_now r) (round_limit r)).1 in
  if n =? 0 then sh else Shaper.consume sh n.
Definition answers (r : RoundEnv) (n : Z) : list E := round_env r <$> seq 0 (Z.to_nat n).

Lemma coro_round_paced self r self' n :
  coro_round self (round_now r) (round_limit r) (round_env r) = Ok (self', n) → shaper self' = paced (shaper self) r n.
Proof.
  unfold coro_round, paced. destruct (Shaper.tick _ _ _) as [sh k]. destruct (Z.eqb_spec k 0) as [->|Hk].
  - by intros [= <- <-].
  - intros (w & _ & [= <- <-])%res_bind_Ok. cbn. destruct (Z.eqb_spec (Z.min k 32) 0); [lia|done].
Qed.

Lemma execute_all_app es es' w :
  execute_all (es ++ es') w = let! w := execute_all es w in execute_all es' w.
Proof. revert w. induction es as [|e es IH]; intros w; [done|]. cbn. destruct (execute e w); cbn; [apply IH|done..]. Qed.

(** C16: a worker whose task keeps an invariant and does not panic runs until
    its flag is found cleared without a panic; each round performs at most 32
    executions and never more than the limit of the moment; the numbers of the
    rounds are exactly the executions of the task, one after the other, and
    exactly what the shaper is told was consumed, and its tokens stay a
    non-negative number. *)
Theorem coro_run_respects_limits I self rounds :
  task_safe I → I (task self) → f64_nonneg (tokens (shaper self)) →
  is_u64 (burst_size (shaper self)) → rounds_ok (prev_ts (shaper self)) rounds →
  ∃ self' ns, coro_run self rounds = Ok (self', ns) ∧
    I (task self') ∧ f64_nonneg (tokens (shaper self')) ∧
    Forall2 (λ n r, 0 ≤ n ≤ Z.min 32 (round_limit r)) ns (take (length ns) rounds) ∧
    execute_all (concat (zip_with answers rounds ns)) (task self) = Ok (task self') ∧
    shaper self' = foldl (λ sh p, paced sh p.1 p.2) (shaper self) (zip rounds ns) ∧
    Forall (λ r, running r = true) (take (length ns) rounds) ∧
    (∀ r, rounds !! length ns = Some r → running r = false).
Proof.
  intros Hsafe. revert self. induction rounds as [|r rounds IH]; intros self HI Hok Hb Hr.
  - eexists _, []. split; [reflexivity|]. split_and!; try done.
  - cbn [coro_run]. destruct (running r) eqn:Hrun; cbn [negb].
    2: { eexists _, []. split; [reflexivity|]. split_and!; try done. by intros ? [= <-]. }
    destruct Hr as (Hl & Hel & Hr).
    destruct (coro_round_safe I self (round_now r) (round_limit r) (round_env r) Hsafe HI Hok Hb Hl Hel)
      as (s' & n & Hs & Hn & HI' & _ & Hok' & Hb' & Hex).
    pose proof (coro_round_prev_ts _ _ _ _ _ _ Hs) as Hp. pose proof (coro_round_paced _ _ _ _ Hs) as Hsh.
    rewrite Hs. cbn [res_bind fst snd].
    destruct (IH s' HI' Hok' ltac:(by rewrite Hb') ltac:(by rewrite Hp))
      as (s'' & ns & Hc & HI'' & Hok'' & Hf & Hexs & Hshs & Hfr & Hend).
    rewrite Hc. cbn [res_bind fst snd]. eexists _, _. split; [reflexivity|].
    cbn [length take zip_with concat foldl fst snd].
    split_and!; [done|done|by constructor| |by rewrite <-Hsh|by constructor|done].
    rewrite execute_all_app. unfold answers at 1. by rewrite Hex.
Qed.
End worker.
Arguments ShapedCoroWorker : clear implicits.
Arguments RoundEnv : clear implicits.

(** A task that counts its executions. *)
#[export] Instance counting_task : Task Z unit := {| execute _ w := Ok (w + 1) |}.

Lemma coro_run_respects_limits_witness :
  ∃ self' ns,
    coro_run {| task := 0; shaper := Shaper.new 0 0 |}
      [{| running := true; round_now := 10000000; round_limit := 1000; round_env := λ _, tt |};
       {| running := true; round_now := 500000000; round_limit := 1000; round_env := λ _, tt |}]
      = Ok (self', ns) ∧ 0 ≤ task self' ∧ ns = [10; 32].
Proof.
  destruct (coro_run_respects_limits (λ w, 0 ≤ w) {| task := 0; shaper := Shaper.new 0 0 |}
    [{| running := true; round_now := 10000000; round_limit := 1000; round_env := λ _, tt |};
     {| running := true; round_now := 500000000; round_limit := 1000; round_env := λ _, tt |}])
    as (s & ns & Hc & HI & _).
  - intros e w Hw. eexists. split; [reflexivity|]. lia.
  - done.
  - done.
  - done.
  - vm_compute. done.
  - exists s, ns. split_and!; [done|done|]. vm_compute in Hc. by injection Hc as <- <-.
Defined.
