(* ===== verification/Conformance.v ===== *)
(** * A worker keeps to its rate

    The token bucket computes with floats; what is proved here is about the
    integers it is meant to respect: over any run of a worker, the executions
    are at most the integral of the limit over time, up to the rounding of the
    float operations, which is bounded explicitly. *)
From S2P Require Import Prelude Machine F64 Time Rounding Shaper Task.

(** ** One tick *)

Section tick.
Context (s : Shaper) (now : Instant) (limit B : Z).
Hypothesis Hok : shaper_ok s.
Hypothesis Htok : scaled (tokens s) ≤ B * one.
Hypothesis Hlim : 0 ≤ limit ≤ B.
Hypothesis Hburst : is_u64 (burst_size s) ∧ burst_size s ≤ B.
Hypothesis HB : B < 2 ^ 53.
Hypothesis Hel : is_duration (duration_since now (prev_ts s)).

Let el := duration_since now (prev_ts s).
Let t : f64 := f64_add (tokens s) (f64_mul (f64_of_u64 limit) (as_secs_f64 el)).

Lemma seconds_bounded : limit * scaled (as_secs_f64 el) < 2 ^ 1200.
Proof using All.
  pose proof (as_secs_above el Hel) as Ha. pose proof (scaled_nonneg _ (as_secs_f64_nonneg el Hel)).
  apply is_duration_iff in Hel. set (X := scaled (as_secs_f64 el)) in *.
  assert (X ≤ 2 ^ 1140) as HX.
  { unfold NANOS_PER_SEC, R, one in *. fold el in Hel.
    apply (Z.mul_le_mono_pos_r _ _ (1000000000 * (2 ^ 51 * 2 ^ 51))); [done|]. lia. }
  apply (Z.le_lt_trans _ (2 ^ 53 * 2 ^ 1140)); [|rewrite <-Z.pow_add_r by lia; apply Z.pow_lt_mono_r; lia].
  apply Z.mul_le_mono_nonneg; lia.
Qed.

Lemma added_above :
  scaled (f64_mul (f64_of_u64 limit) (as_secs_f64 el)) * NANOS_PER_SEC * R ^ 3 ≤ limit * el * one * (R + 1) ^ 3.
Proof using All.
  assert (is_u64 limit) as Hu by (unfold is_u64; lia).
  pose proof (as_secs_above el Hel) as Ha. pose proof (scaled_nonneg _ (as_secs_f64_nonneg el Hel)) as HX0.
  pose proof seconds_bounded as Hb. pose proof (of_u64_exact limit ltac:(lia)) as HL.
  set (X := scaled (as_secs_f64 el)) in *.
  assert (scaled (f64_mul (f64_of_u64 limit) (as_secs_f64 el)) * R ≤ limit * X * (R + 1)) as Hm.
  { apply mul_above; auto using as_secs_f64_nonneg, as_secs_f64_finite.
    - apply of_u64_nonneg; lia.
    - by apply (limit_finite s now limit).
    - split; [lia|]. etrans; [exact Hb|]. apply Z.pow_lt_mono_r; lia.
    - rewrite HL. fold X. unfold one. lia. }
  set (A := scaled (f64_mul _ _)) in *. pose proof R_pos. pose proof one_pos.
  replace (A * NANOS_PER_SEC * R ^ 3) with (A * R * (NANOS_PER_SEC * (R * R))) by ring.
  trans (limit * X * (R + 1) * (NANOS_PER_SEC * (R * R))); [apply Z.mul_le_mono_nonneg_r; [done|exact Hm]|].
  replace (limit * X * (R + 1) * (NANOS_PER_SEC * (R * R))) with (X * NANOS_PER_SEC * (R * R) * (limit * (R + 1))) by ring.
  replace (limit * el * one * (R + 1) ^ 3) with (el * one * ((R + 1) * (R + 1)) * (limit * (R + 1))) by ring.
  apply Z.mul_le_mono_nonneg_r; [nia|exact Ha].
Qed.

Lemma tick_tokens_le :
  scaled (tokens (Shaper.tick s now limit).1) ≤ scaled t ∧
  scaled (tokens (Shaper.tick s now limit).1) ≤ B * one.
Proof using All.
  assert (is_u64 limit) as Hu by (unfold is_u64; lia).
  pose proof (tick_t_nonneg s now limit Hok Hu Hel) as Ht. pose proof (of_u64_nonneg limit ltac:(lia)) as Hl.
  pose proof (of_u64_exact limit ltac:(lia)) as HL. pose proof one_pos.
  unfold Shaper.tick. cbn zeta. cbn [burst_size]. fold el. fold t. change (f64_nonneg t) in Ht.
  destruct (Z.ltb_spec (f64_to_u64 t) (burst_size s)) as [Hlt|_]; cbn [fst tokens].
  - split; [done|]. rewrite to_u64_scaled in Hlt by done. fold one in Hlt.
    assert (scaled t / one < B) as Hq by (unfold is_u64, u64_max in *; lia).
    pose proof (Z.mul_succ_div_gt (scaled t) one ltac:(lia)). nia.
  - unfold f64_min. rewrite ltb_scaled, !nonneg_not_nan by done.
    fold one in HL. destruct (Z.ltb_spec (scaled (f64_of_u64 limit)) (scaled t)); split; nia.
Qed.

(** What a tick adds to the bucket, in units that make every factor integral. *)
Lemma tick_above :
  scaled (tokens (Shaper.tick s now limit).1) * (NANOS_PER_SEC * R ^ 4) ≤
    scaled (tokens s) * (NANOS_PER_SEC * R ^ 4) + limit * el * one * (R + 1) ^ 4 +
    B * one * (NANOS_PER_SEC * R ^ 3).
Proof using All.
  assert (is_u64 limit) as Hu by (unfold is_u64; lia).
  destruct tick_tokens_le as [Hle _]. pose proof added_above as Ha.
  pose proof (added_nonneg s now limit Hok Hu Hel) as Hn. fold el in Hn.
  set (a := f64_mul _ _) in *. pose proof (scaled_nonneg _ Hn). pose proof (scaled_nonneg _ Hok).
  assert (scaled a * (NANOS_PER_SEC * R ^ 3) < 2 ^ 1600) as Hbig.
  { assert (limit * el < 2 ^ 200) as Hle'.
    { pose proof (proj1 (is_duration_iff _) Hel) as Hd. fold el in Hd. unfold NANOS_PER_SEC in Hd.
      apply (Z.le_lt_trans _ (2 ^ 53 * 2 ^ 100)); [apply Z.mul_le_mono_nonneg; lia|done]. }
    unfold one, R in *. lia. }
  assert (scaled (tokens s) + scaled a < 2 ^ 2090) as Hlt.
  { unfold NANOS_PER_SEC, R, one in *. apply (Z.lt_le_trans _ (2 ^ 1700)); [|apply Z.pow_le_mono_r; lia]. lia. }
  pose proof (add_above _ _ Hok Hn Hlt) as Hadd. fold t in Hadd. pose proof R_pos. pose proof one_pos.
  set (T := scaled (tokens s)) in *. set (A := scaled a) in *. set (T1 := scaled (tokens (Shaper.tick s now limit).1)) in *.
  assert (T1 * R ≤ T * R + B * one + A * (R + 1)) as HT1 by nia.
  assert (0 < NANOS_PER_SEC * R ^ 3) by done.
  replace (T1 * (NANOS_PER_SEC * R ^ 4)) with (T1 * R * (NANOS_PER_SEC * R ^ 3)) by ring.
  trans ((T * R + B * one + A * (R + 1)) * (NANOS_PER_SEC * R ^ 3)); [apply Z.mul_le_mono_nonneg_r; lia|].
  replace ((T * R + B * one + A * (R + 1)) * (NANOS_PER_SEC * R ^ 3))
    with (T * (NANOS_PER_SEC * R ^ 4) + A * NANOS_PER_SEC * R ^ 3 * (R + 1) + B * one * (NANOS_PER_SEC * R ^ 3)) by ring.
  replace (limit * el * one * (R + 1) ^ 4) with (limit * el * one * (R + 1) ^ 3 * (R + 1)) by ring.
  apply Z.add_le_mono_r, Z.add_le_mono_l, Z.mul_le_mono_nonneg_r; [lia|exact Ha].
Qed.

(** Consuming [n] takes [n] away up to the rounding of the subtraction. *)
Lemma consume_above n :
  0 ≤ n ≤ (Shaper.tick s now limit).2 →
  let s1 := (Shaper.tick s now limit).1 in
  (scaled (tokens (Shaper.consume s1 n)) + n * one) * R ≤ scaled (tokens s1) * R + B * one ∧
  scaled (tokens (Shaper.consume s1 n)) ≤ B * one.
Proof using All.
  intros Hn s1. assert (is_u64 limit) as Hu by (unfold is_u64; lia).
  pose proof (tick_le_limit s now limit Hok ltac:(lia) Hel).
  pose proof (tick_ok s now limit Hok Hu Hel) as Hok1. pose proof (tick_finite s now limit Hok Hu Hel (proj1 Hburst)) as Hf1.
  pose proof (tick_available s now limit Hok Hu Hel) as Hav. destruct tick_tokens_le as [_ HB1].
  fold s1 in Hok1, Hf1, Hav, HB1.
  destruct (consume_ok s1 n Hok1 Hf1 ltac:(lia)) as [_ Hc]. split; [|lia].
  rewrite to_u64_scaled in Hav by done. fold one in Hav.
  assert (n * one ≤ scaled (tokens s1)) as Hle.
  { pose proof (Z.mul_div_le (scaled (tokens s1)) one one_pos). pose proof one_pos. nia. }
  pose proof (of_u64_exact n ltac:(lia)) as Hx. fold one in Hx.
  assert (scaled (tokens s1) < 2 ^ 2090) as Hlt.
  { unfold one in *. apply (Z.lt_le_trans _ (2 ^ 1200)); [lia|apply Z.pow_le_mono_r; lia]. }
  pose proof (sub_above (tokens s1) (f64_of_u64 n) Hok1 Hf1 (of_u64_nonneg n ltac:(lia)) ltac:(lia) Hlt) as Hs.
  rewrite Hx in Hs. cbn [Shaper.consume tokens]. pose proof one_pos. nia.
Qed.
End tick.

(** ** One round *)

(** What the bucket holds between rounds. *)
Definition bucket_ok (B : Z) (sh : Shaper) : Prop :=
  shaper_ok sh ∧ scaled (tokens sh) ≤ B * one ∧ is_u64 (burst_size sh) ∧ burst_size sh ≤ B.

(** A round at [now] that executes [n] operations and leaves the bucket [sh']:
    what was executed and what is left is what there was, plus what the limit
    allows in the time elapsed, up to the rounding. *)
Definition round_above (B : Z) (sh : Shaper) (now limit : Z) (sh' : Shaper) (n : Z) : Prop :=
  bucket_ok B sh' ∧ prev_ts sh' = now ∧
  (scaled (tokens sh') + n * one) * (NANOS_PER_SEC * R ^ 4) ≤
    scaled (tokens sh) * (NANOS_PER_SEC * R ^ 4) +
    limit * duration_since now (prev_ts sh) * one * (R + 1) ^ 4 +
    2 * (B * one * (NANOS_PER_SEC * R ^ 3)).

Section round.
Context (B : Z) (HB : B < 2 ^ 53) (sh : Shaper) (now limit : Z).
Hypothesis Hb : bucket_ok B sh.
Hypothesis Hl : 0 ≤ limit ≤ B.
Hypothesis Hel : is_duration (duration_since now (prev_ts sh)).

Lemma prev_ts_tick : prev_ts (Shaper.tick sh now limit).1 = now.
Proof using. unfold Shaper.tick. cbn. by destruct (_ <? _). Qed.

Lemma rounding_nonneg : 0 ≤ B * one * (NANOS_PER_SEC * R ^ 3).
Proof using Hl. apply Z.mul_nonneg_nonneg; [apply Z.mul_nonneg_nonneg|]; done || lia. Qed.

(** Nothing granted. *)
Lemma tick_round_above : round_above B sh now limit (Shaper.tick sh now limit).1 0.
Proof using All.
  destruct Hb as (Hok & Htok & Hburst). assert (is_u64 limit) as Hu by (unfold is_u64; lia).
  pose proof (tick_above _ now limit B Hok Htok Hl Hburst HB Hel) as Ht.
  destruct (tick_tokens_le _ now limit B Hok Htok Hl Hburst HB Hel) as [_ Hle]. pose proof rounding_nonneg.
  split; [|split; [apply prev_ts_tick|lia]].
  split_and!; [by apply tick_ok|done|rewrite burst_size_tick; apply Hburst..].
Qed.

(** [n] granted operations executed and taken from the bucket. *)
Lemma consume_round_above n :
  0 ≤ n ≤ (Shaper.tick sh now limit).2 →
  round_above B sh now limit (Shaper.consume (Shaper.tick sh now limit).1 n) n.
Proof using All.
  intros Hn. destruct Hb as (Hok & Htok & Hburst). assert (is_u64 limit) as Hu by (unfold is_u64; lia).
  pose proof (tick_above _ now limit B Hok Htok Hl Hburst HB Hel) as Ht.
  destruct (consume_above _ now limit B Hok Htok Hl Hburst HB Hel n Hn) as [Hc1 Hc2]. pose proof rounding_nonneg.
  destruct (shaper_step_ok _ _ (shaper_step_intro sh now limit n Hu Hel Hn) Hok (proj1 Hburst)) as [Hok' Hb'].
  split; [split_and!; [done|done|rewrite Hb'; apply Hburst..]|]. split; [apply prev_ts_tick|].
  set (s1 := (Shaper.tick sh now limit).1) in *. set (T2 := scaled (tokens (Shaper.consume s1 n))) in *.
  replace ((T2 + n * one) * (NANOS_PER_SEC * R ^ 4)) with ((T2 + n * one) * R * (NANOS_PER_SEC * R ^ 3)) by ring.
  trans ((scaled (tokens s1) * R + B * one) * (NANOS_PER_SEC * R ^ 3)); [by apply Z.mul_le_mono_nonneg_r|].
  replace ((scaled (tokens s1) * R + B * one) * (NANOS_PER_SEC * R ^ 3))
    with (scaled (tokens s1) * (NANOS_PER_SEC * R ^ 4) + B * one * (NANOS_PER_SEC * R ^ 3)) by ring. lia.
Qed.
End round.

(** ** A run of a worker *)

Section worker.
Context {W E : Type} `{Task W E}.
Context (B : Z) (HB : B < 2 ^ 53).
Implicit Types self : ShapedCoroWorker W.

Lemma coro_round_above self now limit env self' n :
  bucket_ok B (shaper self) → 0 ≤ limit ≤ B → is_duration (duration_since now (prev_ts (shaper self))) →
  coro_round self now limit env = Ok (self', n) →
  round_above B (shaper self) now limit (shaper self') n.
Proof using HB.
  intros Hb Hl Hel Hr. pose proof (tick_round_above B HB _ now limit Hb Hl Hel) as H0.
  pose proof (consume_round_above B HB _ now limit Hb Hl Hel
    (Z.min (Shaper.tick (shaper self) now limit).2 32)) as H1.
  pose proof (tick_le_limit (shaper self) now limit (proj1 Hb) ltac:(lia) Hel) as Hn.
  unfold coro_round in Hr. destruct (Shaper.tick (shaper self) now limit) as [sh k]. cbn [fst snd] in *.
  destruct (Z.eqb_spec k 0) as [Hk|Hk]; [by injection Hr as <- <-|].
  res_inv. cbn [shaper]. apply H1. lia.
Qed.

End worker.

(** ** The interface of a shaped worker

    What the rest of the development relies on: a worker owns a bucket, and a
    round of its loop at [now] under [limit] tells how many operations it
    executed, none of which the bucket did not grant. *)
Class RateWorker (S E : Type) := {
  worker_shaper : S → Shaper;
  worker_round : S → Instant → Z → (nat → E) → res (S * Z);
  round_env_ok : (nat → E) → Prop;
}.

Class RateWorkerLaws (S E : Type) `{RateWorker S E} := {
  worker_round_above B (s : S) now limit env s' n :
    B < 2 ^ 53 → bucket_ok B (worker_shaper s) → 0 ≤ limit ≤ B → round_env_ok env →
    is_duration (duration_since now (prev_ts (worker_shaper s))) →
    worker_round s now limit env = Ok (s', n) →
    0 ≤ n ∧ round_above B (worker_shaper s) now limit (worker_shaper s') n;
}.

(** Workers whose rounds do not panic in states of [I]. *)
Class RateWorkerSafe (S E : Type) `{RateWorker S E} (I : S → Prop) := {
  worker_round_safe B (s : S) now limit env :
    B < 2 ^ 53 → bucket_ok B (worker_shaper s) → I s → 0 ≤ limit ≤ B → round_env_ok env →
    is_duration (duration_since now (prev_ts (worker_shaper s))) →
    ∃ s' n, worker_round s now limit env = Ok (s', n) ∧ I s';
  some_round_env : ∃ env, round_env_ok env;
}.

(** Workers that count: after [k] executions the state satisfies [I k], as long
    as the counters do not overflow, and a round never panics. *)
Class RateWorkerCounts (S E : Type) `{RateWorker S E} (I : Z → S → Prop) := {
  worker_round_counts B (s : S) now limit env k :
    B < 2 ^ 53 → bucket_ok B (worker_shaper s) → 0 ≤ limit ≤ B → round_env_ok env →
    is_duration (duration_since now (prev_ts (worker_shaper s))) →
    0 ≤ k → k + B < 2 ^ 64 → I k s →
    ∃ s' n, worker_round s now limit env = Ok (s', n) ∧ I (k + n) s';
}.

#[export] Instance coro_rate_worker {W E} `{Task W E} : RateWorker (ShapedCoroWorker W) E :=
  {| worker_shaper := shaper; worker_round := coro_round; round_env_ok _ := True |}.

#[export] Instance coro_rate_worker_laws {W E} `{Task W E} : RateWorkerLaws (ShapedCoroWorker W) E.
Proof.
  split. cbn [worker_shaper worker_round coro_rate_worker]. intros B s now limit env s' n HB Hb Hl _ Hel Hr.
  split; [|by eapply coro_round_above].
  pose proof (tick_le_limit (shaper s) now limit (proj1 Hb) ltac:(lia) Hel) as Hn.
  unfold coro_round in Hr. destruct (Shaper.tick (shaper s) now limit) as [sh k]. cbn [snd] in Hn.
  destruct (k =? 0); res_inv; lia.
Qed.

(** A shaped worker counts what its task counts, in environments of [Pe]. *)
Lemma coro_round_counts {W E} `{Task W E} (I : Z → W → Prop) (Pe : E → Prop) B self now limit env k :
  (∀ e k w, Pe e → 0 ≤ k → k + 1 < 2 ^ 64 → I k w → ∃ w', execute e w = Ok w' ∧ I (k + 1) w') →
  B < 2 ^ 53 → bucket_ok B (shaper self) → 0 ≤ limit ≤ B → (∀ i, Pe (env i)) →
  is_duration (duration_since now (prev_ts (shaper self))) →
  0 ≤ k → k + B < 2 ^ 64 → I k (task self) →
  ∃ self' n, coro_round self now limit env = Ok (self', n) ∧ I (k + n) (task self').
Proof.
  intros Hstep HB Hb Hl He Hel Hk Hk' HI.
  pose proof (tick_le_limit (shaper self) now limit (proj1 Hb) ltac:(lia) Hel) as Hn.
  unfold coro_round. destruct (Shaper.tick (shaper self) now limit) as [sh n]. cbn [snd] in Hn.
  destruct (Z.eqb_spec n 0); [eexists _, _; split; [done|]; by rewrite Z.add_0_r|].
  destruct (execute_all_counts I Pe Hstep (env <$> seq 0 (Z.to_nat (Z.min n 32))) k (task self)) as (w & Hw & Hi).
  - apply Forall_fmap, Forall_forall. intros i _. apply He.
  - done.
  - rewrite length_fmap, length_seq. lia.
  - done.
  - rewrite Hw. eexists _, _. split; [done|]. cbn [task]. rewrite length_fmap, length_seq in Hi.
    by rewrite Z2Nat.id in Hi by lia.
Qed.

(** A shaped worker is as safe as its task. *)
Lemma coro_rate_worker_safe {W E} `{Task W E} (I : W → Prop) (e : E) :
  task_safe I → RateWorkerSafe (ShapedCoroWorker W) E (λ w, I (task w)).
Proof.
  intros Hsafe. split; [|by exists (λ _, e)]. cbn [worker_shaper worker_round coro_rate_worker].
  intros B s now limit env HB (Hok & _ & Hb & _) HI Hl _ Hel.
  destruct (coro_round_safe I s now limit env Hsafe HI Hok Hb ltac:(lia) Hel) as (s' & n & Hs & _ & HI' & _).
  by exists s', n.
Qed.

Section run.
Context {W E : Type} `{Task W E}.
Context (B : Z) (HB : B < 2 ^ 53).
Implicit Types self : ShapedCoroWorker W.

(** The integral of the limit over a run, in operations times nanoseconds. *)
Fixpoint refilled (prev : Instant) (rounds : list (RoundEnv E)) : Z :=
  match rounds with
  | [] => 0
  | r :: rounds => round_limit r * duration_since (round_now r) prev + refilled (round_now r) rounds
  end.

Lemma coro_run_above self rounds self' ns :
  bucket_ok B (shaper self) → rounds_ok (prev_ts (shaper self)) rounds →
  Forall (λ r, round_limit r ≤ B) rounds → coro_run self rounds = Ok (self', ns) →
  (scaled (tokens (shaper self')) + zsum ns * one) * (NANOS_PER_SEC * R ^ 4) ≤
    scaled (tokens (shaper self)) * (NANOS_PER_SEC * R ^ 4) +
    refilled (prev_ts (shaper self)) (take (length ns) rounds) * one * (R + 1) ^ 4 +
    2 * Z.of_nat (length ns) * (B * one * (NANOS_PER_SEC * R ^ 3)) ∧ shaper_ok (shaper self').
Proof using HB.
  revert self ns. induction rounds as [|r rounds IH]; intros self ns Hb Hr Hall Hrun; cbn [coro_run] in Hrun.
  { injection Hrun as <- <-. cbn [take refilled length]. rewrite zsum_nil. split; [lia|apply Hb]. }
  destruct (running r); cbn [negb] in Hrun.
  2: { injection Hrun as <- <-. cbn [take refilled length]. rewrite zsum_nil. split; [lia|apply Hb]. }
  destruct Hr as (Hl & Hel & Hr). apply Forall_cons in Hall as [Hlb Hall].
  apply res_bind_Ok in Hrun as ([s1 n] & H1 & Hrun). apply res_bind_Ok in Hrun as ([s2 l] & H2 & [= <- <-]).
  cbn [fst snd] in *. destruct (coro_round_above B HB _ _ _ _ _ _ Hb (conj (proj1 Hl) Hlb) Hel H1) as (Hb1 & Hp & Ha).
  rewrite <-Hp in Hr. destruct (IH s1 l Hb1 Hr Hall H2) as [Hi Hok]. split; [|done].
  rewrite zsum_cons. cbn [length take refilled]. rewrite Hp in Hi. rewrite Nat2Z.inj_succ, <-Z.add_1_r.
  generalize dependent (NANOS_PER_SEC * R ^ 4). generalize dependent ((R + 1) ^ 4).
  generalize dependent (NANOS_PER_SEC * R ^ 3). intros. lia.
Qed.
End run.

(** C3: over any run of a worker, whatever the clock and the limits set during
    it, the executions are at most the integral of the limit over the time of
    the run: with [R] = 2^51, the float operations of the bucket add at most
    four parts in [R] to that integral, and two parts in [R] of the greatest
    limit [B] for every round.  The tokens left are a canonical non-negative
    number. *)
Theorem coro_run_conforms {W E} `{Task W E} B burst t0 (w : W) rounds self' ns :
  is_u64 burst → burst ≤ B → B < 2 ^ 53 → rounds_ok t0 rounds →
  Forall (λ r, round_limit r ≤ B) rounds →
  coro_run {| task := w; shaper := Shaper.new burst t0 |} rounds = Ok (self', ns) →
  zsum ns * NANOS_PER_SEC * R ^ 4 ≤
    refilled t0 (take (length ns) rounds) * (R + 1) ^ 4 +
    2 * Z.of_nat (length ns) * B * NANOS_PER_SEC * R ^ 3 ∧
  f64_nonneg (tokens (shaper self')).
Proof.
  intros Hb HbB HB Hr Hall Hrun. assert (bucket_ok B (Shaper.new burst t0)) as Hok.
  { unfold is_u64 in Hb. pose proof one_pos. split_and!; [done| |done|done]. cbn [tokens Shaper.new].
    change (scaled f64_zero) with 0. nia. }
  destruct (coro_run_above B HB {| task := w; shaper := Shaper.new burst t0 |} rounds self' ns Hok Hr Hall Hrun) as [Hi Hn]. split; [|done].
  cbn [shaper tokens Shaper.new prev_ts] in Hi. change (scaled f64_zero) with 0 in Hi.
  pose proof (scaled_nonneg _ Hn) as H0. pose proof one_pos as H1.
  apply (Z.mul_le_mono_pos_r _ _ one); [done|].
  assert (0 ≤ scaled (tokens (shaper self')) * (NANOS_PER_SEC * R ^ 4)) by (by apply Z.mul_nonneg_nonneg).
  generalize dependent ((R + 1) ^ 4). intros R4 Hi.
  set (T := scaled (tokens (shaper self'))) in *. generalize dependent T. intros T _ HT Hi.
  revert Hi HT. generalize (R ^ 4) (R ^ 3) NANOS_PER_SEC one. intros P Q S u. lia.
Qed.

Lemma coro_run_conforms_witness :
  let rounds := [{| running := true; round_now := 10000000; round_limit := 1000; round_env := λ _, tt |};
                 {| running := true; round_now := 30000000; round_limit := 1000; round_env := λ _, tt |}] in
  ∃ self' ns, coro_run {| task := 0; shaper := Shaper.new 0 0 |} rounds = Ok (self', ns) ∧ ns = [10; 20] ∧
    zsum ns * NANOS_PER_SEC * R ^ 4 ≤
      refilled 0 (take (length ns) rounds) * (R + 1) ^ 4 + 2 * Z.of_nat (length ns) * 1000 * NANOS_PER_SEC * R ^ 3.
Proof.
  intros rounds. eexists _, _. split; [vm_compute; reflexivity|]. split; [reflexivity|].
  eapply (coro_run_conforms 1000 0 0 0 rounds); [done|done|done| | |vm_compute; reflexivity].
  - vm_compute. done.
  - repeat (apply Forall_cons; split; [done|]). by apply Forall_nil.
Defined.
