(* ===== verification/Keeping.v ===== *)
(** * A worker that keeps up achieves its rate

    The counterpart of [Conformance]: a worker that looks at its bucket before
    more has gathered than it may take at once executes at least the integral of
    its limit over time, less the one operation that may be left in the bucket,
    up to the rounding of the floats.  What can be lost otherwise is what the
    bucket caps at one second's worth, and what the loop leaves past its round. *)
From S2P Require Import Prelude Machine F64 Time Rounding Shaper Task Conformance.

(** ** One tick *)

(** What the bucket holds when its worker keeps up: less than two operations. *)
Definition bucket_low (sh : Shaper) : Prop :=
  shaper_ok sh ∧ scaled (tokens sh) ≤ one ∧ burst_size sh = 0.

Lemma bucket_low_new t0 : bucket_low (Shaper.new 0 t0).
Proof. split_and!; [split|..]; done. Qed.

(** The refill since the last round fits a round of [cap] operations and the
    second's worth that the bucket holds, with one operation to spare. *)
Definition keeps_up (cap limit elapsed : Z) : Prop :=
  2 ≤ limit < 2 ^ 53 ∧ limit * elapsed ≤ (Z.min cap limit - 2) * NANOS_PER_SEC.

(** A round at [now] that executes [n] operations and leaves [sh']: what was
    executed and what is left is what there was and all that the limit allows. *)
Definition round_below (sh : Shaper) (now limit : Z) (sh' : Shaper) (n : Z) : Prop :=
  bucket_low sh' ∧
  scaled (tokens sh) * (NANOS_PER_SEC * R ^ 4) + limit * duration_since now (prev_ts sh) * one * (R - 1) ^ 4 ≤
    (scaled (tokens sh') + n * one) * (NANOS_PER_SEC * R ^ 4) + 2 * (one * (NANOS_PER_SEC * R ^ 3)).

Section tick.
Context (sh : Shaper) (now limit cap : Z).
Hypothesis Hlow : bucket_low sh.
Hypothesis Hel : is_duration (duration_since now (prev_ts sh)).
Hypothesis Hcap : cap ≤ 2 ^ 40.
Hypothesis Hkeep : keeps_up cap limit (duration_since now (prev_ts sh)).

Let el := duration_since now (prev_ts sh).
Let added : f64 := f64_mul (f64_of_u64 limit) (as_secs_f64 el).
Let t : f64 := f64_add (tokens sh) added.
Let s1 : Shaper := (Shaper.tick sh now limit).1.
Let m : Z := Z.min cap limit.

Lemma kept_bucket_ok : bucket_ok limit sh.
Proof using All.
  destruct Hlow as (Hok & Ht & Hb), Hkeep as [Hl _]. pose proof one_pos.
  unfold bucket_ok, is_u64. rewrite Hb. split_and!; [done|nia|lia|lia|lia].
Qed.

Lemma kept_added_nonneg : f64_nonneg added.
Proof using All.
  destruct Hkeep as [Hl _]. apply (added_nonneg sh now limit); [apply Hlow|unfold is_u64; lia|done].
Qed.

Lemma added_below : limit * el * one * (R - 1) ^ 3 ≤ scaled added * NANOS_PER_SEC * R ^ 3.
Proof using All.
  destruct Hkeep as [Hl _]. assert (is_u64 limit) as Hu by (unfold is_u64; lia).
  destruct kept_bucket_ok as (Hok & Htok & Hburst).
  pose proof (as_secs_below el Hel) as Ha. pose proof (scaled_nonneg _ (as_secs_f64_nonneg el Hel)) as HX0.
  pose proof (seconds_bounded sh now limit limit Hok Htok ltac:(lia) Hburst ltac:(lia) Hel) as Hb.
  pose proof (of_u64_exact limit ltac:(lia)) as HL. fold el in Hb.
  assert (limit * scaled (as_secs_f64 el) * (R - 1) ≤ scaled added * R) as Hm.
  { apply mul_below; auto using as_secs_f64_nonneg, as_secs_f64_finite.
    - apply of_u64_nonneg; lia.
    - by apply (limit_finite sh now limit).
    - split; [lia|]. etrans; [exact Hb|]. apply Z.pow_lt_mono_r; lia.
    - rewrite HL. unfold one. lia. }
  set (X := scaled (as_secs_f64 el)) in *. set (A := scaled added) in *.
  assert (0 ≤ R - 1) by done. pose proof R_pos.
  replace (limit * el * one * (R - 1) ^ 3) with (el * one * ((R - 1) * (R - 1)) * (limit * (R - 1))) by ring.
  trans (X * NANOS_PER_SEC * (R * R) * (limit * (R - 1))); [apply Z.mul_le_mono_nonneg_r; [nia|exact Ha]|].
  replace (X * NANOS_PER_SEC * (R * R) * (limit * (R - 1))) with (limit * X * (R - 1) * (NANOS_PER_SEC * (R * R))) by ring.
  replace (A * NANOS_PER_SEC * R ^ 3) with (A * R * (NANOS_PER_SEC * (R * R))) by ring.
  apply Z.mul_le_mono_nonneg_r; [done|exact Hm].
Qed.

(** The refill leaves one operation to spare. *)
Lemma kept_added_le : scaled added ≤ (m - 1) * one.
Proof using All.
  destruct Hkeep as [Hl Hk], kept_bucket_ok as (Hok & Htok & Hburst). fold el m in Hk.
  pose proof (added_above sh now limit limit Hok Htok ltac:(lia) Hburst ltac:(lia) Hel) as Ha.
  fold el in Ha. fold added in Ha. set (A := scaled added) in *.
  pose proof (proj1 (is_duration_iff _) Hel) as Hd. fold el in Hd.
  assert (2 ≤ m ≤ 2 ^ 40) as Hm by (unfold NANOS_PER_SEC in Hk; nia).
  assert (0 < NANOS_PER_SEC * R ^ 3) as Hpos by done. pose proof one_pos.
  apply (Z.mul_le_mono_pos_r _ _ (NANOS_PER_SEC * R ^ 3)); [done|].
  replace (A * (NANOS_PER_SEC * R ^ 3)) with (A * NANOS_PER_SEC * R ^ 3) by ring. etrans; [exact Ha|].
  trans ((m - 2) * NANOS_PER_SEC * one * (R + 1) ^ 3); [apply Z.mul_le_mono_nonneg_r; [done|nia]|].
  replace ((m - 2) * NANOS_PER_SEC * one * (R + 1) ^ 3) with ((m - 2) * (R + 1) ^ 3 * (NANOS_PER_SEC * one)) by ring.
  replace ((m - 1) * one * (NANOS_PER_SEC * R ^ 3)) with ((m - 1) * R ^ 3 * (NANOS_PER_SEC * one)) by ring.
  apply Z.mul_le_mono_nonneg_r; [done|]. unfold R. lia.
Qed.

Lemma kept_t_le : f64_nonneg t ∧ scaled t ≤ m * one.
Proof using All.
  destruct Hlow as (Hok & Htok & _), Hkeep as [Hl _]. pose proof kept_added_le as Ha. pose proof kept_added_nonneg as Hn.
  assert (2 ≤ m < 2 ^ 53) as Hm.
  { pose proof (scaled_nonneg _ Hn). pose proof one_pos. destruct (proj1 (is_duration_iff _) Hel) as [? _].
    pose proof (proj2 Hkeep) as Hk. fold el m in Hk. unfold NANOS_PER_SEC in Hk. unfold m in *. nia. }
  split; [by apply add_nonneg|]. change one with (2 ^ 1074) in *. rewrite <-of_u64_exact by lia.
  apply add_upper; [done|done|apply of_u64_nonneg; lia|]. rewrite of_u64_exact by lia. lia.
Qed.

(** Nothing is capped: the tokens are the sum, and all of them are granted. *)
Lemma tick_kept :
  shaper_ok s1 ∧ scaled (tokens s1) = scaled t ∧ burst_size s1 = 0 ∧
  (Shaper.tick sh now limit).2 = scaled t / one ∧ 0 ≤ scaled t / one ≤ m.
Proof using All.
  destruct kept_t_le as [Ht Hle], Hlow as (Hok & Htok & Hb), Hkeep as [Hl _]. pose proof one_pos. pose proof (scaled_nonneg _ Ht).
  assert (0 ≤ scaled t / one ≤ m) as Hq by (split; [apply Z.div_pos|apply Z.div_le_upper_bound]; lia).
  pose proof (of_u64_nonneg limit ltac:(lia)) as HL. destruct (min_nonneg t _ Ht HL) as [Hmin Hs].
  rewrite (of_u64_exact limit) in Hs by lia. fold one in Hs. rewrite Z.min_l in Hs by (unfold m in *; nia).
  unfold s1, shaper_ok, Shaper.tick. cbn zeta. cbn [burst_size]. fold el. fold added. fold t. rewrite Hb.
  destruct (to_u64_range t) as [Hu _]. destruct (Z.ltb_spec (f64_to_u64 t) 0) as [|_]; [lia|]. cbn [fst snd tokens burst_size].
  split_and!; [done|done|done| |lia..]. rewrite to_u64_scaled by done. rewrite Hs. fold one.
  apply Z.min_r. unfold u64_max, m in *. lia.
Qed.

Lemma tick_below :
  scaled (tokens sh) * (NANOS_PER_SEC * R ^ 4) + limit * el * one * (R - 1) ^ 4 ≤
    scaled t * (NANOS_PER_SEC * R ^ 4) + one * (NANOS_PER_SEC * R ^ 3).
Proof using All.
  destruct Hlow as (Hok & Htok & _). pose proof kept_added_nonneg as Hn. pose proof kept_added_le as HA.
  pose proof added_below as Ha. pose proof (scaled_nonneg _ Hn). pose proof (scaled_nonneg _ Hok). pose proof one_pos.
  assert (scaled (tokens sh) + scaled added < 2 ^ 2090) as Hlt.
  { assert (m ≤ 2 ^ 40) by (unfold m; lia). unfold one in *. apply (Z.lt_le_trans _ (2 ^ 1200)); [nia|apply Z.pow_le_mono_r; lia]. }
  pose proof (add_below _ _ Hok Hn Hlt) as Hadd. fold t in Hadd.
  set (T := scaled (tokens sh)) in *. set (A := scaled added) in *. set (S := scaled t) in *.
  assert (T * R + A * (R - 1) ≤ S * R + one) as HS by lia. assert (0 < NANOS_PER_SEC * R ^ 3) by done.
  assert (0 ≤ R - 1) by done.
  replace (limit * el * one * (R - 1) ^ 4) with (limit * el * one * (R - 1) ^ 3 * (R - 1)) by ring.
  trans ((T * R + A * (R - 1)) * (NANOS_PER_SEC * R ^ 3)).
  { replace ((T * R + A * (R - 1)) * (NANOS_PER_SEC * R ^ 3))
      with (T * (NANOS_PER_SEC * R ^ 4) + A * NANOS_PER_SEC * R ^ 3 * (R - 1)) by ring.
    apply Z.add_le_mono_l, Z.mul_le_mono_nonneg_r; [done|exact Ha]. }
  replace (S * (NANOS_PER_SEC * R ^ 4) + one * (NANOS_PER_SEC * R ^ 3)) with ((S * R + one) * (NANOS_PER_SEC * R ^ 3)) by ring.
  apply Z.mul_le_mono_nonneg_r; [lia|exact HS].
Qed.

(** Nothing granted. *)
Lemma tick_round_below : (Shaper.tick sh now limit).2 = 0 → round_below sh now limit s1 0.
Proof using All.
  destruct tick_kept as (Hok & Hs & Hb & -> & _). intros Hq. pose proof tick_below. pose proof one_pos.
  pose proof (Z.mul_succ_div_gt (scaled t) one one_pos). assert (0 < one * (NANOS_PER_SEC * R ^ 3)) by done.
  split; [split_and!; [done|lia|done]|]. rewrite Hs. fold el. lia.
Qed.

(** All that was granted is executed. *)
Lemma consume_round_below n :
  n = (Shaper.tick sh now limit).2 → round_below sh now limit (Shaper.consume s1 n) n.
Proof using All.
  destruct tick_kept as (Hok & Hs & Hb & -> & Hq). intros ->. pose proof tick_below as Ht.
  destruct Hkeep as [Hl _]. assert (m < 2 ^ 53) as Hm by (unfold m; lia).
  pose proof (tick_finite sh now limit (proj1 Hlow) ltac:(unfold is_u64; lia) Hel
    ltac:(rewrite (proj2 (proj2 Hlow)); done)) as Hf. fold s1 in Hf.
  pose proof (Z.mul_div_le (scaled t) one one_pos). pose proof (Z.mul_succ_div_gt (scaled t) one one_pos).
  set (n := scaled t / one) in *. pose proof (of_u64_exact n ltac:(lia)) as Hx. fold one in Hx.
  pose proof (of_u64_nonneg n ltac:(lia)) as Hn. pose proof one_pos.
  assert (scaled (f64_of_u64 n) ≤ scaled (tokens s1)) as Hle by lia.
  assert (scaled (tokens s1) < 2 ^ 2090) as Hlt.
  { pose proof (proj2 kept_t_le). assert (m ≤ 2 ^ 40) by (unfold m; lia).
    unfold one in *. apply (Z.lt_le_trans _ (2 ^ 1200)); [nia|apply Z.pow_le_mono_r; lia]. }
  pose proof (sub_below (tokens s1) _ Hok Hf Hn Hle Hlt) as Hsub. rewrite Hs, Hx in Hsub.
  split; [split_and!; [by apply sub_bounds| |done]|].
  - change one with (scaled f64_one). apply sub_upper; [done..|]. change (scaled f64_one) with one. lia.
  - cbn [Shaper.consume tokens]. fold el. set (X := scaled (f64_sub _ _)) in *.
    assert (scaled t * R ≤ (X + n * one) * R + one) as HX by lia. assert (0 < NANOS_PER_SEC * R ^ 3) by done.
    etrans; [exact Ht|]. replace (scaled t * (NANOS_PER_SEC * R ^ 4)) with (scaled t * R * (NANOS_PER_SEC * R ^ 3)) by ring.
    replace ((X + n * one) * (NANOS_PER_SEC * R ^ 4)) with ((X + n * one) * R * (NANOS_PER_SEC * R ^ 3)) by ring. nia.
Qed.
End tick.

(** A limit of zero grants nothing and empties the bucket. *)
Lemma tick_zero sh now :
  bucket_low sh → is_duration (duration_since now (prev_ts sh)) →
  bucket_low (Shaper.tick sh now 0).1 ∧ (Shaper.tick sh now 0).2 = 0.
Proof.
  intros (Hok & _ & Hb) Hel. pose proof (tick_t_nonneg sh now 0 Hok ltac:(done) Hel) as Ht.
  unfold Shaper.tick. cbn zeta. cbn [burst_size]. rewrite Hb. set (t := f64_add _ _) in *.
  destruct (to_u64_range t) as [Hu _]. destruct (Z.ltb_spec (f64_to_u64 t) 0) as [|_]; [lia|]. cbn [fst snd].
  destruct (min_nonneg t (f64_of_u64 0) Ht ltac:(split; done)) as [Hm Hs]. change (scaled (f64_of_u64 0)) with 0 in Hs.
  pose proof (scaled_nonneg _ Ht). rewrite Z.min_r in Hs by lia.
  split; [split_and!; [done|cbn [tokens]; rewrite Hs; done|done]|]. rewrite to_u64_scaled, Hs by done. done.
Qed.

(** ** Workers *)

(** What a worker whose rounds take [cap] operations promises: if it keeps up,
    it executes everything its bucket grants. *)
Class RateWorkerKeeps (S E : Type) (cap : Z) `{RateWorker S E} := {
  round_cap : cap ≤ 2 ^ 40;
  worker_round_below (s : S) now limit env s' n :
    bucket_low (worker_shaper s) → round_env_ok env →
    is_duration (duration_since now (prev_ts (worker_shaper s))) →
    keeps_up cap limit (duration_since now (prev_ts (worker_shaper s))) →
    worker_round s now limit env = Ok (s', n) →
    round_below (worker_shaper s) now limit (worker_shaper s') n;
  worker_round_zero (s : S) now env s' n :
    bucket_low (worker_shaper s) → round_env_ok env →
    is_duration (duration_since now (prev_ts (worker_shaper s))) →
    worker_round s now 0 env = Ok (s', n) → bucket_low (worker_shaper s') ∧ n = 0;
}.

(** The shaped workers take 32 at once. *)
#[export] Instance coro_rate_worker_keeps {W E} `{Task W E} : RateWorkerKeeps (ShapedCoroWorker W) E 32.
Proof.
  split; [done|..]; cbn [worker_shaper worker_round coro_rate_worker].
  2: { intros s now env s' n Hlow _ Hel Hr. destruct (tick_zero _ now Hlow Hel) as [Hl Hn]. unfold coro_round in Hr.
    destruct (Shaper.tick (shaper s) now 0) as [sh k]. cbn [fst snd] in *. subst k. by injection Hr as <- <-. }
  intros s now limit env s' n Hlow _ Hel Hk Hr. destruct (tick_kept _ now limit 32 Hlow Hel ltac:(done) Hk) as (_ & _ & _ & Hn & Hm).
  pose proof (tick_round_below _ now limit 32 Hlow Hel ltac:(done) Hk) as H0.
  pose proof (consume_round_below _ now limit 32 Hlow Hel ltac:(done) Hk) as H1.
  rewrite <-Hn in Hm. unfold coro_round in Hr.
  destruct (Shaper.tick (shaper s) now limit) as [sh k]. cbn [fst snd] in *.
  destruct (Z.eqb_spec k 0) as [Hz|Hz].
  - injection Hr as <- <-. auto.
  - res_inv. cbn [shaper]. rewrite Z.min_l by lia. auto.
Qed.

Section run.
Context {W E : Type} `{Task W E}.
Implicit Types self : ShapedCoroWorker W.

(** Every round comes before too much has gathered. *)
Fixpoint rounds_keep_up (prev : Instant) (rounds : list (RoundEnv E)) : Prop :=
  match rounds with
  | [] => True
  | r :: rounds =>
      is_duration (duration_since (round_now r) prev) ∧
      keeps_up 32 (round_limit r) (duration_since (round_now r) prev) ∧ rounds_keep_up (round_now r) rounds
  end.

Lemma coro_run_below self rounds self' ns :
  bucket_low (shaper self) → rounds_keep_up (prev_ts (shaper self)) rounds → coro_run self rounds = Ok (self', ns) →
  bucket_low (shaper self') ∧
  scaled (tokens (shaper self)) * (NANOS_PER_SEC * R ^ 4) +
    refilled (prev_ts (shaper self)) (take (length ns) rounds) * one * (R - 1) ^ 4 ≤
    (scaled (tokens (shaper self')) + zsum ns * one) * (NANOS_PER_SEC * R ^ 4) +
    2 * Z.of_nat (length ns) * (one * (NANOS_PER_SEC * R ^ 3)).
Proof.
  revert self self' ns. induction rounds as [|r rounds IH]; intros self self' ns Hlow Hk Hr.
  - injection Hr as <- <-. split; [done|]. cbn [length take refilled]. change (zsum []) with 0. lia.
  - destruct Hk as (Hel & Hk & Hks). cbn [coro_run] in Hr. destruct (running r); cbn [negb] in Hr.
    2: { injection Hr as <- <-. split; [done|]. cbn [length take refilled]. change (zsum []) with 0. lia. }
    apply res_bind_Ok in Hr as ([s1 n] & Hs & Hr). apply res_bind_Ok in Hr as ([s2 ns2] & Hs2 & [= <- <-]).
    pose proof (coro_round_prev_ts _ _ _ _ _ _ Hs) as Hp.
    destruct (worker_round_below (H := coro_rate_worker) self _ _ _ _ _ Hlow I Hel Hk Hs) as [Hlow1 Hb].
    cbn [worker_shaper coro_rate_worker] in Hlow1, Hb. rewrite <-Hp in Hks.
    destruct (IH s1 s2 ns2 Hlow1 Hks Hs2) as [Hlow2 Hb2]. rewrite Hp in Hb2.
    split; [done|]. cbn [length take refilled fst snd]. rewrite zsum_cons, Nat2Z.inj_succ. lia.
Qed.
End run.

(** A worker that keeps up achieves its rate: whatever the clock and the limits,
    if every round comes before more than a round's worth has gathered, then its
    executions are at least the integral of the limit over the time of the run,
    less the one operation left in the bucket, four parts in [R] = 2^51 of the
    integral and two parts in [R] for every round — and by [coro_run_conforms]
    at most the integral. *)
Theorem coro_run_achieves {W E} `{Task W E} t0 (w : W) rounds self' ns :
  rounds_keep_up t0 rounds →
  coro_run {| task := w; shaper := Shaper.new 0 t0 |} rounds = Ok (self', ns) →
  refilled t0 (take (length ns) rounds) * (R - 1) ^ 4 ≤
    (zsum ns + 1) * NANOS_PER_SEC * R ^ 4 + 2 * Z.of_nat (length ns) * NANOS_PER_SEC * R ^ 3.
Proof.
  intros Hk Hr. destruct (coro_run_below {| task := w; shaper := Shaper.new 0 t0 |} _ _ _ (bucket_low_new t0) Hk Hr) as [(_ & Htok & _) Hb].
  cbn [shaper tokens Shaper.new prev_ts] in Hb. change (scaled f64_zero) with 0 in Hb.
  apply (Z.mul_le_mono_pos_r _ _ one one_pos).
  assert (0 < NANOS_PER_SEC * R ^ 4) by done. nia.
Qed.
