(* ===== verification/Udp.v ===== *)
(** * The UDP engine's worker ([dwd-core/src/engine/udp/engine.rs])

    The environment of one execution tells which bind address the shared
    producer hands out and how the kernel answers [bind], [connect] and [send]. *)
From S2P Require Import Prelude Machine F64 Time Histogram Stat Shaper Produce Task Conformance Keeping.

Definition UdpWorkerStat : Type := PerCpuStat TxWorkerStat unit SockWorkerStat unit unit.

Record UdpEnv (Sock : Type) := {
  udp_bind_idx : Z;            (* what [fetch_add] of the bind producer returns *)
  udp_bind : option Sock;      (* [UdpSocket::bind] *)
  udp_connect : bool;          (* [sock.connect] succeeds *)
  udp_send : bool;             (* [sock.send] succeeds *)
}.
Arguments udp_bind_idx {Sock} _.
Arguments udp_bind {Sock} _.
Arguments udp_connect {Sock} _.
Arguments udp_send {Sock} _.

Record UdpWorker (Sock : Type) := {
  udp_sock : option Sock;
  requests_per_sock_done : Z;
  udp_stat : UdpWorkerStat;
}.
Arguments udp_sock {Sock} _.
Arguments requests_per_sock_done {Sock} _.
Arguments udp_stat {Sock} _.

Section udp.
Context {Addr Sock : Type}.
(** Bind addresses, payload length and [requests_per_sock]: the worker never
    changes them. *)
Context (binds : list Addr) (data_len requests_per_sock : Z).

Definition udp_new : UdpWorker Sock :=
  {| udp_sock := None; requests_per_sock_done := 0; udp_stat := default_value |}.

Definition udp_with_stat (f : UdpWorkerStat → UdpWorkerStat) (w : UdpWorker Sock) : UdpWorker Sock :=
  {| udp_sock := udp_sock w; requests_per_sock_done := requests_per_sock_done w;
     udp_stat := f (udp_stat w) |}.

(** [Worker::curr_sock]: the socket taken or created, [None] on an error. *)
Definition udp_curr_sock (e : UdpEnv Sock) (w : UdpWorker Sock) : res (UdpWorker Sock * option Sock) :=
  match udp_sock w with
  | Some sock =>
      Ok ({| udp_sock := None; requests_per_sock_done := requests_per_sock_done w;
             udp_stat := udp_stat w |}, Some sock)
  | None =>
      let! _ := vec_produce_at binds (udp_bind_idx e) in
      match udp_bind e with
      | None => Ok (w, None)
      | Some sock =>
          if udp_connect e
          then Ok ({| udp_sock := None; requests_per_sock_done := 0;
                      udp_stat := on_sock_created (udp_stat w) |}, Some sock)
          else Ok (w, None)
      end
  end.

(** [Worker::execute]. *)
Definition udp_execute (e : UdpEnv Sock) (w : UdpWorker Sock) : res (UdpWorker Sock) :=
  let! ws := udp_curr_sock e w in
  let w := fst ws in
  match snd ws with
  | None => Ok (udp_with_stat on_sock_err w)
  | Some sock =>
      if udp_send e then
        let done := u64_add (requests_per_sock_done w) 1 in
        let w := {| udp_sock := if done <? requests_per_sock then Some sock else udp_sock w;
                    requests_per_sock_done := done; udp_stat := udp_stat w |} in
        Ok (udp_with_stat (λ s, on_send data_len (on_requests 1 s)) w)
      else Ok (udp_with_stat on_sock_err w)
  end.

#[local] Instance udp_task : Task (UdpWorker Sock) (UdpEnv Sock) := {| execute := udp_execute |}.

(** One round of [Worker::run]: unlike [ShapedCoroWorker] it performs all the
    available requests. *)
Definition udp_round (sh : Shaper) (w : UdpWorker Sock) (now : Instant) (limit : Z)
    (env : nat → UdpEnv Sock) : res (Shaper * UdpWorker Sock * Z) :=
  let '(sh, n) := Shaper.tick sh now limit in
  if n =? 0 then Ok (sh, w, 0)
  else
    let! w := execute_all (env <$> seq 0 (Z.to_nat n)) w in
    Ok (Shaper.consume sh n, w, n).

(** As a shaped worker: the bucket is the thread's. *)
#[local] Instance udp_rate_worker : RateWorker (Shaper * UdpWorker Sock) (UdpEnv Sock) := {|
  worker_shaper := fst;
  worker_round s now limit env :=
    let! r := udp_round (fst s) (snd s) now limit env in Ok (fst r, snd r);
  round_env_ok env := ∀ i, 0 ≤ udp_bind_idx (env i);
|}.

Lemma udp_rate_worker_laws : RateWorkerLaws (Shaper * UdpWorker Sock) (UdpEnv Sock).
Proof.
  split. cbn [worker_shaper worker_round udp_rate_worker].
  intros B [sh w] now limit env [sh' w'] n HB Hb Hl _ Hel Hr. cbn [fst snd] in *.
  pose proof (tick_round_above B HB sh now limit Hb Hl Hel) as H0.
  pose proof (consume_round_above B HB sh now limit Hb Hl Hel (Shaper.tick sh now limit).2) as H1.
  pose proof (tick_le_limit sh now limit (proj1 Hb) ltac:(lia) Hel) as Hn.
  unfold udp_round in Hr. destruct (Shaper.tick sh now limit) as [sh1 k]. cbn [fst snd] in *.
  destruct (Z.eqb_spec k 0) as [Hk|Hk]; [by injection Hr as <- <- <-|].
  destruct (execute_all _ w) as [w1| |]; [|done..]. cbn [res_bind fst snd] in Hr.
  injection Hr as <- <- <-. split; [lia|]. apply H1. lia.
Qed.

(** A round of this worker takes all there is. *)
Lemma udp_rate_worker_keeps cap : cap ≤ 2 ^ 40 → RateWorkerKeeps (Shaper * UdpWorker Sock) (UdpEnv Sock) cap.
Proof.
  intros Hcap. split; [done|..]; cbn [worker_shaper worker_round udp_rate_worker].
  - intros [sh w] now limit env [sh' w'] n Hlow _ Hel Hk Hr. cbn [fst snd] in *.
    pose proof (tick_round_below sh now limit cap Hlow Hel Hcap Hk) as H0.
    pose proof (consume_round_below sh now limit cap Hlow Hel Hcap Hk (Shaper.tick sh now limit).2) as H1.
    unfold udp_round in Hr. destruct (Shaper.tick sh now limit) as [sh1 k]. cbn [fst snd] in *.
    destruct (Z.eqb_spec k 0) as [Hz|Hz]; [injection Hr as <- <- <-; auto|].
    destruct (execute_all _ w) as [w1| |]; [|done..]. injection Hr as <- <- <-. auto.
  - intros [sh w] now env [sh' w'] n Hlow _ Hel Hr. cbn [fst snd] in *.
    destruct (tick_zero sh now Hlow Hel) as [Hl Hn]. unfold udp_round in Hr.
    destruct (Shaper.tick sh now 0) as [sh1 k]. cbn [fst snd] in *. subst k. by injection Hr as <- <- <-.
Qed.

Lemma udp_execute_total e w : binds ≠ [] → 0 ≤ udp_bind_idx e → ∃ w', udp_execute e w = Ok w'.
Proof.
  intros Hb He. unfold udp_execute, udp_curr_sock. destruct (vec_produce_at_Ok binds _ Hb He) as (a & _ & ->).
  repeat (break_match; simplify_eq/=); by eexists.
Qed.

Lemma udp_rate_worker_safe : binds ≠ [] → RateWorkerSafe (Shaper * UdpWorker Sock) (UdpEnv Sock) (λ _, True).
Proof.
  intros Hb. split.
  2: { exists (λ _, {| udp_bind_idx := 0; udp_bind := None; udp_connect := false; udp_send := false |}). done. }
  intros B [sh w] now limit env _ _ _ _ He _. cbn [worker_round round_env_ok udp_rate_worker] in *. unfold udp_round.
  cbn [fst snd]. destruct (Shaper.tick sh now limit) as [sh' k]. destruct (k =? 0); [by eexists _, _|].
  assert (∃ w', execute_all (env <$> seq 0 (Z.to_nat k)) w = Ok w') as [w' ->]; [|by eexists _, _].
  generalize (seq 0 (Z.to_nat k)). intros l. revert w. induction l as [|i l IH]; intros w; [by eexists|].
  csimpl. cbn [execute udp_task]. destruct (udp_execute_total (env i) w Hb (He i)) as [w1 ->]. apply IH.
Qed.

(** ** Accounting *)

Definition udp_requests (w : UdpWorker Sock) : Z := w_num_requests (tx (udp_stat w)).
Definition udp_bytes (w : UdpWorker Sock) : Z := w_bytes_tx (tx (udp_stat w)).
Definition udp_errors (w : UdpWorker Sock) : Z := w_num_sock_errors (sock (udp_stat w)).
Definition udp_created (w : UdpWorker Sock) : Z := w_num_sock_created (sock (udp_stat w)).

(** After [k] executions: each was a request or an error, and a socket serves
    at most [requests_per_sock] requests, or one if that is zero. *)
Definition udp_inv (k : Z) (w : UdpWorker Sock) : Prop :=
  let L := Z.max 1 requests_per_sock in
  0 ≤ udp_requests w ∧ 0 ≤ udp_errors w ∧ 0 ≤ udp_created w ≤ k ∧
  udp_requests w + udp_errors w = k ∧
  udp_bytes w = as_u64 (udp_requests w * data_len) ∧
  match udp_sock w with
  | Some _ => 1 ≤ requests_per_sock_done w < requests_per_sock ∧
      udp_requests w + (L - requests_per_sock_done w) ≤ L * udp_created w
  | None => udp_requests w ≤ L * udp_created w
  end.

Hypothesis Hbinds : binds ≠ [].
Hypothesis Hlim : is_u64 requests_per_sock.

Lemma udp_execute_inv e w k :
  0 ≤ udp_bind_idx e → k + 1 < 2 ^ 64 → udp_inv k w →
  ∃ w', udp_execute e w = Ok w' ∧ udp_inv (k + 1) w'.
Proof using All.
  intros Hidx Hk Hinv. unfold udp_execute, udp_curr_sock.
  destruct w as [so dn [[rq by_] [] [cr er rt] [] []]].
  unfold udp_inv, udp_requests, udp_errors, udp_created, udp_bytes in *. cbn -[Z.mul u64_add as_u64] in *.
  destruct Hinv as (H1 & H2 & H3 & H4 & H5 & H6). unfold is_u64 in Hlim.
  assert (as_u64 (rq * data_len + data_len) = as_u64 ((rq + 1) * data_len)) as Hby by (f_equal; ring).
  destruct so as [so|].
  - cbn -[Z.mul u64_add as_u64]. destruct (udp_send e).
    + eexists. split; [reflexivity|]. cbn -[Z.mul u64_add as_u64].
      rewrite !(u64_add_id rq), !(u64_add_id dn) by lia.
      split_and!; first [lia|unfold u64_add; by rewrite H5, as_u64_add_idemp_l|idtac].
      destruct (Z.ltb_spec (dn + 1) requests_per_sock); lia.
    + eexists. split; [reflexivity|]. cbn -[Z.mul u64_add as_u64].
      rewrite !(u64_add_id er) by lia. split_and!; first [lia|done].
  - destruct (vec_produce_at_Ok binds _ Hbinds Hidx) as (a & _ & ->). cbn -[Z.mul u64_add as_u64].
    assert (udp_inv (k + 1) {| udp_sock := None; requests_per_sock_done := dn;
      udp_stat := {| tx := {| w_num_requests := rq; w_bytes_tx := by_ |}; rx := ();
        sock := {| w_num_sock_created := cr; w_num_sock_errors := u64_add er 1; w_num_retransmits := rt |};
        http := (); bursts_tx := () |} |}) as Herr.
    { unfold udp_inv, udp_requests, udp_errors, udp_created, udp_bytes. cbn -[Z.mul u64_add as_u64].
      rewrite !(u64_add_id er) by lia. split_and!; first [lia|done]. }
    destruct (udp_bind e) as [so|]; [|eexists; split; [reflexivity|exact Herr]].
    destruct (udp_connect e); [|eexists; split; [reflexivity|exact Herr]].
    cbn -[Z.mul u64_add as_u64]. destruct (udp_send e).
    + eexists. split; [reflexivity|]. cbn -[Z.mul u64_add as_u64].
      change (u64_add 0 1) with 1.
      rewrite !(u64_add_id rq), !(u64_add_id cr) by lia.
      split_and!; first [lia|unfold u64_add; by rewrite H5, as_u64_add_idemp_l|idtac].
      destruct (Z.ltb_spec 1 requests_per_sock); lia.
    + eexists. split; [reflexivity|]. cbn -[Z.mul u64_add as_u64].
      rewrite !(u64_add_id er), !(u64_add_id cr) by lia. split_and!; first [lia|done].
Qed.

Lemma udp_inv_new : udp_inv 0 udp_new.
Proof using.
  unfold udp_inv. cbn -[Z.mul]. unfold udp_requests, udp_created, udp_bytes, udp_errors. cbn -[Z.mul as_u64].
  split_and!; first [lia|done].
Qed.

(** A round counts its executions. *)
Lemma udp_round_counts B sh w now limit env k :
  B < 2 ^ 53 → bucket_ok B sh → 0 ≤ limit ≤ B → (∀ i, 0 ≤ udp_bind_idx (env i)) →
  is_duration (duration_since now (prev_ts sh)) → 0 ≤ k → k + B < 2 ^ 64 → udp_inv k w →
  ∃ sh' w' n, udp_round sh w now limit env = Ok (sh', w', n) ∧ udp_inv (k + n) w'.
Proof using All.
  intros HB Hb Hl He Hel Hk Hroom HI. pose proof (tick_le_limit sh now limit (proj1 Hb) ltac:(lia) Hel) as Hn.
  unfold udp_round. destruct (Shaper.tick sh now limit) as [sh' n]. cbn [snd] in Hn.
  destruct (Z.eqb_spec n 0); [eexists _, _, _; split; [done|]; by rewrite Z.add_0_r|].
  destruct (execute_all_counts (H := udp_task) udp_inv (λ e, 0 ≤ udp_bind_idx e)
    ltac:(intros; by apply udp_execute_inv) (env <$> seq 0 (Z.to_nat n)) k w) as (w' & -> & Hw').
  - apply Forall_fmap, Forall_forall. intros i _. apply He.
  - done.
  - rewrite length_fmap, length_seq. lia.
  - done.
  - eexists _, _, _. split; [done|]. rewrite length_fmap, length_seq, Z2Nat.id in Hw' by lia. done.
Qed.

(** In any run of a UDP worker, whatever the kernel answers, nothing
    panics and every execution is counted exactly once, as a request with its
    bytes or as a socket error; the requests never exceed [requests_per_sock]
    per socket created (one per socket when the option is zero). *)
Theorem udp_accounting envs :
  Forall (λ e, 0 ≤ udp_bind_idx e) envs → Z.of_nat (length envs) < 2 ^ 64 →
  ∃ w, execute_all envs udp_new = Ok w ∧
    udp_requests w + udp_errors w = Z.of_nat (length envs) ∧
    udp_bytes w = as_u64 (udp_requests w * data_len) ∧
    udp_requests w ≤ Z.max 1 requests_per_sock * udp_created w.
Proof using All.
  intros He Hlen.
  destruct (execute_all_counts (H := udp_task) udp_inv (λ e, 0 ≤ udp_bind_idx e)
    ltac:(intros; by apply udp_execute_inv) envs 0 udp_new He) as (w & Hw & Hi); [lia|lia| |].
  { apply udp_inv_new. }
  exists w. split; [exact Hw|]. destruct Hi as (H1 & H2 & H3 & H4 & H5 & H6).
  split_and!; [lia|done|]. destruct (udp_sock w); lia.
Qed.
End udp.

Lemma udp_accounting_witness :
  ∃ w, execute_all (W := UdpWorker nat) (H := udp_task [7] 18 2)
    [{| udp_bind_idx := 0; udp_bind := Some 1%nat; udp_connect := true; udp_send := true |};
     {| udp_bind_idx := 0; udp_bind := None; udp_connect := true; udp_send := true |};
     {| udp_bind_idx := 0; udp_bind := None; udp_connect := true; udp_send := true |};
     {| udp_bind_idx := 1; udp_bind := Some 2%nat; udp_connect := true; udp_send := true |}] udp_new = Ok w ∧
    udp_requests w = 3 ∧ udp_errors w = 1 ∧ 3 ≤ 2 * udp_created w.
Proof.
  destruct (udp_accounting (Sock := nat) [7] 18 2 ltac:(done) ltac:(done)
    [{| udp_bind_idx := 0; udp_bind := Some 1%nat; udp_connect := true; udp_send := true |};
     {| udp_bind_idx := 0; udp_bind := None; udp_connect := true; udp_send := true |};
     {| udp_bind_idx := 0; udp_bind := None; udp_connect := true; udp_send := true |};
     {| udp_bind_idx := 1; udp_bind := Some 2%nat; udp_connect := true; udp_send := true |}])
    as (w & Hw & H1 & _ & H3).
  - repeat (apply Forall_cons; split; [done|]). by apply Forall_nil.
  - done.
  - exists w. split; [exact Hw|]. vm_compute in Hw. injection Hw as <-. done.
Defined.
