(* ===== verification/Ledger.v ===== *)
(** * The books of a request/response worker ([stat/percpu.rs] as the HTTP engines use it)

    The three HTTP engines report the outcome of an execution to the same
    statistics in the same way.  [audited] says what the counters add up to; the
    lemmas say how each report moves them, so that the engines' proofs only
    follow the control flow. *)
From S2P Require Import Prelude Machine F64 Histogram Stat.

Abbreviation WebStat := (PerCpuStat TxWorkerStat RxWorkerStat SockWorkerStat HttpWorkerStat unit).

(** [match code { c if (200..300).contains(&c) => on_2xx() .. }]. *)
Definition on_status (code : Z) (s : WebStat) : WebStat :=
  if (200 <=? code) && (code <? 300) then on_2xx s
  else if (300 <=? code) && (code <? 400) then on_3xx s
  else if (400 <=? code) && (code <? 500) then on_4xx s
  else if (500 <=? code) && (code <? 600) then on_5xx s
  else s.

Definition web_codes (s : WebStat) : Z :=
  w_num_2xx (http s) + w_num_3xx (http s) + w_num_4xx (http s) + w_num_5xx (http s).

(** After [k] executions: each ended as a response, a timeout or a socket
    error, and the histogram holds a sample for the first two.  At most [q]
    requests were sent and [c] sockets created; [owed] requests wait for their
    response, and the sockets created so far, at [L] requests each, have
    [budget] requests left. *)
Record audited (L k q c owed budget : Z) (s : WebStat) : Prop := {
  au_hist : length (w_hist (rx s)) = 45%nat;
  au_samples : as_u64 (zsum (w_hist (rx s))) = as_u64 (w_num_responses (rx s) + w_num_timeouts (rx s));
  au_responses : 0 ≤ w_num_responses (rx s);
  au_timeouts : 0 ≤ w_num_timeouts (rx s);
  au_errors : 0 ≤ w_num_sock_errors (sock s);
  au_done : w_num_responses (rx s) + w_num_timeouts (rx s) + w_num_sock_errors (sock s) = k;
  au_requests : w_num_responses (rx s) + owed ≤ w_num_requests (tx s) ≤ q;
  au_created : 0 ≤ w_num_sock_created (sock s) ≤ c;
  au_codes_nonneg : 0 ≤ w_num_2xx (http s) ∧ 0 ≤ w_num_3xx (http s) ∧
    0 ≤ w_num_4xx (http s) ∧ 0 ≤ w_num_5xx (http s);
  au_codes : web_codes s ≤ w_num_responses (rx s);
  au_budget : w_num_responses (rx s) + budget ≤ L * w_num_sock_created (sock s);
}.

Section ledger.
Context (ln : f64 → f64) (L : Z).
Implicit Types s : WebStat.

Lemma audited_new : audited L 0 0 0 0 0 default_value.
Proof.
  split; try done; cbn -[default_buckets Z.mul]; try lia; by rewrite default_buckets_eq.
Qed.

Lemma audited_weaken k q q' c c' owed owed' budget budget' s :
  audited L k q c owed budget s → q ≤ q' → c ≤ c' → owed' ≤ owed → budget' ≤ budget →
  audited L k q' c' owed' budget' s.
Proof. intros [] ????. split; try done; lia. Qed.

(** Opens the books and closes them again after a report. *)
Ltac settle :=
  intros []; unfold web_codes in *; destruct_and?;
  split; unfold web_codes; cbn -[u64_add zsum Z.mul]; rewrite ?u64_add_id by lia; try done; lia.

Lemma audited_created k q c owed budget s :
  audited L k q c owed budget s → c + 1 < 2 ^ 64 →
  audited L k q (c + 1) owed (budget + L) (on_sock_created s).
Proof. intros H Hc. revert H. settle. Qed.

Lemma audited_request k q c owed budget s :
  audited L k q c owed budget s → 0 ≤ owed → q + 1 < 2 ^ 64 →
  audited L k (q + 1) c (owed + 1) budget (on_requests 1 s).
Proof. intros H Ho Hq. revert H. settle. Qed.

Lemma audited_error k q c owed budget s :
  audited L k q c owed budget s → k + 1 < 2 ^ 64 → audited L (k + 1) q c owed budget (on_sock_err s).
Proof. intros H Hk. revert H. settle. Qed.

Lemma audited_send n k q c owed budget s :
  audited L k q c owed budget s → audited L k q c owed budget (on_send n s).
Proof. settle. Qed.

Lemma audited_recv n k q c owed budget s :
  audited L k q c owed budget s → audited L k q c owed budget (on_recv n s).
Proof. settle. Qed.

Lemma audited_retransmits n k q c owed budget s :
  audited L k q c owed budget s → audited L k q c owed budget (on_retransmits n s).
Proof. settle. Qed.

Lemma record_sample h us n :
  length h = 45%nat → as_u64 (zsum h) = as_u64 n →
  ∃ h', record ln h us = Ok h' ∧ length h' = 45%nat ∧ as_u64 (zsum h') = as_u64 (n + 1).
Proof.
  intros Hl Hs. destruct (record_length ln h us Hl) as (h' & Hr & Hl'). exists h'. split_and!; [done|done|].
  by rewrite (record_mod _ _ _ _ Hr), <-as_u64_add_idemp_l, Hs, as_u64_add_idemp_l.
Qed.

Lemma audited_timeout us k q c owed budget s :
  audited L k q c owed budget s → k + 1 < 2 ^ 64 →
  ∃ s', on_timeout ln us s = Ok s' ∧ audited L (k + 1) q c owed budget s'.
Proof.
  intros [] Hk. destruct (record_sample (w_hist (rx s)) us _ ltac:(done) ltac:(done)) as (h & Hr & Hl & Hs).
  unfold on_timeout. rewrite Hr. eexists. split; [done|].
  split; unfold web_codes in *; cbn -[u64_add zsum Z.mul]; rewrite ?u64_add_id by lia; try done; try lia.
  rewrite Hs. f_equal. lia.
Qed.

(** A response and its status code. *)
Lemma audited_response us code k q c owed budget s :
  audited L k q c (owed + 1) (budget + 1) s → k + 1 < 2 ^ 64 →
  ∃ s', on_response ln us s = Ok s' ∧ audited L (k + 1) q c owed budget (on_status code s').
Proof.
  intros [] Hk. destruct (record_sample (w_hist (rx s)) us _ ltac:(done) ltac:(done)) as (h & Hr & Hl & Hs).
  unfold on_response. rewrite Hr. eexists. split; [done|]. unfold web_codes in *. destruct_and?.
  unfold on_status. repeat case_match;
    (split; unfold web_codes; cbn -[u64_add zsum Z.mul]; rewrite ?u64_add_id by lia; try done; try lia;
     rewrite Hs; f_equal; lia).
Qed.
End ledger.

(** What the books of [n] executions say. *)
Definition balanced (L n : Z) (s : WebStat) : Prop :=
  w_num_responses (rx s) + w_num_timeouts (rx s) + w_num_sock_errors (sock s) = n ∧
  as_u64 (zsum (w_hist (rx s))) = w_num_responses (rx s) + w_num_timeouts (rx s) ∧
  web_codes s ≤ w_num_responses (rx s) ≤ w_num_requests (tx s) ∧
  w_num_requests (tx s) ≤ n ∧
  w_num_responses (rx s) ≤ L * w_num_sock_created (sock s) ∧
  w_num_sock_created (sock s) ≤ n.

Lemma audited_balanced L n budget s :
  audited L n n n 0 budget s → 0 ≤ budget → n < 2 ^ 64 → balanced L n s.
Proof.
  intros [] Hb Hn. split_and!; try lia. rewrite au_samples0. apply as_u64_id. unfold is_u64. lia.
Qed.
