(* ===== verification/Exchange.v ===== *)
(** * One request/response execution (the shape shared by the three HTTP engines)

    [execute] and [do_execute] of [http/engine.rs], [http/engine_raw.rs] and
    [http3/engine.rs] are the same text around engine-specific ways to obtain a
    connection, to perform a request on it and to keep it for the next one.
    [WebWorker] is what the shared part needs of a worker's state; the engines
    prove the three specifications below and get the accounting theorem. *)
From S2P Require Import Prelude Machine F64 Histogram Stat Ledger Task.

(** The connection kept between executions, the per-connection counter and the
    statistics of a worker. *)
Class WebWorker (W C : Type) := {
  ww_conn : W → option C;
  ww_count : W → Z;
  ww_stat : W → WebStat;
  ww_put : WebStat → W → W;
  ww_conn_put s w : ww_conn (ww_put s w) = ww_conn w;
  ww_count_put s w : ww_count (ww_put s w) = ww_count w;
  ww_stat_put s w : ww_stat (ww_put s w) = s;
}.

Section exchange.
Context {W C : Type} `{WebWorker W C} (ln : f64 → f64).
Implicit Types w : W.

(** [self.stat.on_..()]. *)
Definition with_stat (f : WebStat → WebStat) w : W := ww_put (f (ww_stat w)) w.
Definition with_stat_res (f : WebStat → res WebStat) w : res W :=
  let! s := f (ww_stat w) in Ok (ww_put s w).

(** [do_execute]: [close c] is the effect of dropping the connection [c]. *)
Definition exchange (curr : async W C) (perform : C → async W Z) (close : C → W → W)
    (elapsed : Z) (finish : C → async W unit) : async W unit :=
  or_return curr
    (modify (with_stat on_sock_err))
    (λ c,
      or_return (drop_on_timeout (close c) (perform c))
        (let? _ := modify (with_stat on_sock_err) in modify (close c))
        (λ code,
          let? _ := modify_res (with_stat_res (λ s,
            let! s := on_response ln elapsed s in Ok (on_status code s))) in
          finish c)).

(** [execute]: [do_execute] under the request timeout. *)
Definition web_execute (body : async W unit) (timed_out : Z) : W → res W :=
  with_timeout body (with_stat_res (on_timeout ln timed_out)).

(** ** The states of an execution *)

(** [L] requests at most per connection; a counter is [ok]; a connection in hand
    may still serve [budget] of the counter. *)
Context (L : Z) (ok : Z → Prop) (budget : Z → Z).
Hypothesis Hbudget : ∀ n, ok n → 1 ≤ budget n ≤ L.

Definition holding (k q c owed : Z) (b : Z → Z) w : Prop :=
  ww_conn w = None ∧ ok (ww_count w) ∧ audited L k q c owed (b (ww_count w)) (ww_stat w).

(** Between executions. *)
Definition idle (k : Z) w : Prop :=
  ok (ww_count w) ∧
  audited L k k k 0 (match ww_conn w with Some _ => budget (ww_count w) | None => 0 end) (ww_stat w).

(** No connection yet; connection in hand; request sent; failed on the way;
    response counted. *)
Definition vacant (k : Z) : W → Prop := holding k k k 0 (λ _, 0).
Definition connected (k : Z) : W → Prop := holding k k (k + 1) 0 budget.
Definition requested (k : Z) : W → Prop := holding k (k + 1) (k + 1) 1 budget.
Definition failed (k : Z) : W → Prop := holding k (k + 1) (k + 1) 0 (λ _, 0).
Definition answered (k : Z) : W → Prop := holding (k + 1) (k + 1) (k + 1) 0 (λ n, budget n - 1).

Lemma holding_weaken k q q' c c' owed owed' b b' w :
  holding k q c owed b w → q ≤ q' → c ≤ c' → owed' ≤ owed → (∀ n, ok n → b' n ≤ b n) →
  holding k q' c' owed' b' w.
Proof using. intros (? & ? & ?) ??? Hb. split; [done|]. split; [done|]. eapply audited_weaken; eauto. Qed.

Lemma holding_stat f k q c owed b k' q' c' owed' b' w :
  holding k q c owed b w →
  (∀ n s, ok n → audited L k q c owed (b n) s → audited L k' q' c' owed' (b' n) (f s)) →
  holding k' q' c' owed' b' (with_stat f w).
Proof using.
  intros (? & ? & ?) Hf. unfold with_stat, holding. rewrite ww_conn_put, ww_count_put, ww_stat_put.
  split; [done|]. split; [done|]. by apply Hf.
Qed.

(** Reports that leave the books as they are. *)
Definition neutral (f : WebStat → WebStat) : Prop :=
  ∀ k q c owed b s, audited L k q c owed b s → audited L k q c owed b (f s).

Lemma holding_neutral f k q c owed b w :
  neutral f → holding k q c owed b w → holding k q c owed b (with_stat f w).
Proof using. intros Hf Hw. eapply holding_stat; [exact Hw|]. intros. by apply Hf. Qed.

Lemma holding_idle k b w : holding k k k 0 b w → (∀ n, ok n → 0 ≤ b n) → idle k w.
Proof using.
  intros (Hs & Hl & Ha) Hb. split; [done|]. rewrite Hs. eapply audited_weaken; [done|lia..|by apply Hb].
Qed.

Section steps.
Context (k : Z).
Hypothesis Hk : 0 ≤ k.
Hypothesis Hk' : k + 1 < 2 ^ 64.

Lemma vacant_failed w : vacant k w → failed k w.
Proof using Hk. intros Hw. eapply holding_weaken; [done|lia..|done]. Qed.

Lemma connected_failed w : connected k w → failed k w.
Proof using Hk Hbudget. intros Hw. eapply holding_weaken; [done|lia..|]. intros n Hn. pose proof (Hbudget n Hn). lia. Qed.

Lemma requested_failed w : requested k w → failed k w.
Proof using Hk Hbudget. intros Hw. eapply holding_weaken; [done|lia..|]. intros n Hn. pose proof (Hbudget n Hn). lia. Qed.

Lemma created_connects w : vacant k w → connected k (with_stat on_sock_created w).
Proof using Hk Hk' Hbudget.
  intros Hw. eapply holding_stat; [exact Hw|]. intros n s Hn Hs.
  eapply audited_weaken; [eapply audited_created; [exact Hs|lia]|lia..|]. apply Hbudget in Hn. lia.
Qed.

Lemma request_sent w : connected k w → requested k (with_stat (on_requests 1) w).
Proof using Hk Hk'.
  intros Hw. eapply holding_stat; [exact Hw|]. intros n s Hn Hs.
  change 1 with (0 + 1) at 3. eapply audited_request; [exact Hs|lia..].
Qed.

Lemma error_idle w : failed k w → holding (k + 1) (k + 1) (k + 1) 0 (λ _, 0) (with_stat on_sock_err w).
Proof using Hk'. intros Hw. eapply holding_stat; [exact Hw|]. intros. by apply audited_error. Qed.

Lemma exchange_spec curr perform close elapsed finish :
  aspec (idle k) curr (λ _, connected k) (failed k) (failed k) →
  (∀ c, aspec (connected k) (perform c) (λ _, requested k) (failed k) (failed k)) →
  (∀ c k q d owed b w, holding k q d owed b w → holding k q d owed b (close c w)) →
  (∀ c, aspec (answered k) (finish c) (λ _, idle (k + 1)) (λ _, False) (failed k)) →
  aspec (idle k) (exchange curr perform close elapsed finish) (λ _, idle (k + 1)) (λ _, False) (failed k).
Proof using Hk Hk'.
  intros Hcurr Hperform Hclose Hfinish. unfold exchange.
  eapply aspec_or_return; [apply Hcurr| |].
  - intros c. eapply aspec_or_return; [eapply aspec_drop_on_timeout; [apply Hperform|]| |].
    + intros w. apply Hclose.
    + intros code. eapply aspec_bind; [|intros ?; apply Hfinish].
      apply aspec_modify_res. intros w (Hs & Hl & Ha). unfold with_stat_res.
      destruct (audited_response ln L elapsed code k (k + 1) (k + 1) 0 (budget (ww_count w) - 1) (ww_stat w))
        as (s & -> & Hs'); [by rewrite Z.sub_add|lia|].
      eexists. split; [reflexivity|]. unfold answered, holding.
      by rewrite ww_conn_put, ww_count_put, ww_stat_put.
    + eapply (aspec_bind _ _ _ (λ _, holding (k + 1) (k + 1) (k + 1) 0 (λ _, 0))).
      * apply aspec_modify, error_idle.
      * intros _. apply aspec_modify. intros w Hw. eapply holding_idle; [by apply Hclose|done].
  - apply aspec_modify. intros w Hw. eapply holding_idle; [by apply error_idle|done].
Qed.

Lemma web_execute_spec body timed_out w :
  aspec (idle k) body (λ _, idle (k + 1)) (λ _, False) (failed k) →
  idle k w → ∃ w', web_execute body timed_out w = Ok w' ∧ idle (k + 1) w'.
Proof using Hk Hk'.
  intros Hbody Hw. refine (aspec_with_timeout _ _ _ _ _ w Hbody _ Hw).
  intros w1 (Hs & Hl & Ha). unfold with_stat_res.
  destruct (audited_timeout ln L timed_out _ _ _ _ _ _ Ha ltac:(lia)) as (s & -> & Hs').
  eexists. split; [reflexivity|]. unfold idle. by rewrite ww_conn_put, ww_count_put, ww_stat_put, Hs.
Qed.
End steps.

Lemma idle_new w : ok (ww_count w) → ww_conn w = None → ww_stat w = default_value → idle 0 w.
Proof using. intros Hn Hc Hs. split; [done|]. rewrite Hc, Hs. apply audited_new. Qed.

Lemma idle_balanced n w : idle n w → n < 2 ^ 64 → balanced L n (ww_stat w).
Proof using Hbudget.
  intros [Hn Ha] Hlt. eapply audited_balanced; [exact Ha| |done].
  destruct (ww_conn w); [|done]. apply Hbudget in Hn. lia.
Qed.
End exchange.

(** An engine whose executions keep [idle] balances its books. *)
Lemma web_run_balanced {W C E} `{WebWorker W C} `{Task W E} L ok budget (Pe : E → Prop) envs w :
  (∀ n, ok n → 1 ≤ budget n ≤ L) →
  (∀ e k w, Pe e → 0 ≤ k → k + 1 < 2 ^ 64 → idle L ok budget k w →
    ∃ w', execute e w = Ok w' ∧ idle L ok budget (k + 1) w') →
  Forall Pe envs → Z.of_nat (length envs) < 2 ^ 64 → idle L ok budget 0 w →
  ∃ w', execute_all envs w = Ok w' ∧ balanced L (Z.of_nat (length envs)) (ww_stat w').
Proof.
  intros Hb Hstep He Hlen Hw.
  destruct (execute_all_counts (idle L ok budget) Pe Hstep envs 0 w He) as (w' & Hw' & Hi); [done..|].
  exists w'. split; [done|]. by eapply idle_balanced.
Qed.

Lemma lift_abind {W A B} (r : res A) (f : A → async W B) w :
  abind (lift r) f w = let! a := r in f a w.
Proof. by destruct r. Qed.

Lemma await_abind {W A B} (p : poll A) (f : A → async W B) w :
  abind (await p) f w =
    match p with Ready a => f a w | Errored => Ok (w, Errored) | TimedOut => Ok (w, TimedOut) end.
Proof. by destruct p. Qed.

(** The outcome of a call that does not wait. *)
Definition sync (ok : bool) : poll unit := if ok then Ready tt else Errored.
