(* ===== verification/Http.v ===== *)
(** * The HTTP/1 engine's worker ([dwd-core/src/engine/http/engine.rs])

    [HttpEnv] is what the outside answers during one execution: the indices the
    shared producers hand out, the outcome of each system call and of each
    awaited future, the [TCP_INFO] of the socket when it is read, the elapsed
    times and the random draw.  TLS, the HTTP/1 handshake and the connection
    task are hyper and rustls: their outcome is part of the environment. *)
From S2P Require Import Prelude Machine F64 Histogram Stat Ledger Produce Task Exchange.

(** ** How many requests a socket serves *)

Inductive RequestsPerSocket :=
  | Fixed (n : Z)
  | Uniform (lo hi : Z).

Module RequestsPerSocket.
Definition fixed (n : Z) : RequestsPerSocket := Fixed n.

Definition uniform (n deviation : Z) : RequestsPerSocket :=
  Uniform (u64_saturating_sub n deviation) (u64_saturating_add n deviation).

(** [draw lo hi] is [rng.random_range(lo..=hi)], which panics on an empty range. *)
Definition next (g : RequestsPerSocket) (draw : Z → Z → Z) : res Z :=
  match g with
  | Fixed n => Ok n
  | Uniform lo hi => if lo <=? hi then Ok (draw lo hi) else Panic "cannot sample empty range"
  end.

(** The choice in [Engine::run]. *)
Definition of_config (n deviation : Z) : RequestsPerSocket :=
  if 0 <? deviation then uniform n deviation else fixed n.

(** The most requests it grants. *)
Definition most (g : RequestsPerSocket) : Z :=
  match g with Fixed n => n | Uniform _ hi => hi end.

(** [rand] draws inside the range. *)
Definition fair (draw : Z → Z → Z) : Prop := ∀ lo hi, lo ≤ hi → lo ≤ draw lo hi ≤ hi.

(** A generator that can be drawn from. *)
Definition gen_ok (g : RequestsPerSocket) : Prop :=
  match g with Fixed n => is_u64 n | Uniform lo hi => 0 ≤ lo ≤ hi end.

Lemma next_ok g draw :
  gen_ok g → fair draw → ∃ v, next g draw = Ok v ∧ 0 ≤ v ≤ Z.max 1 (most g).
Proof.
  unfold gen_ok, is_u64. intros Hg Hf. destruct g as [n|lo hi]; cbn; [eexists; split; [done|lia]|].
  destruct (Z.leb_spec lo hi); [|lia]. eexists. split; [done|]. specialize (Hf lo hi). lia.
Qed.

Lemma of_config_ok n deviation :
  is_u64 n → is_u64 deviation → gen_ok (of_config n deviation) ∧ n ≤ most (of_config n deviation).
Proof.
  unfold is_u64. intros Hn Hd. unfold of_config, fixed, uniform.
  destruct (Z.ltb_spec 0 deviation); cbn; unfold is_u64, u64_saturating_sub, u64_saturating_add, u64_max; lia.
Qed.
End RequestsPerSocket.

(** ** Kernel statistics of a socket ([TcpStatMonitor], sockstat.rs) *)

(** The fields of [TcpInfo] the monitor reads. *)
Record TcpInfo := {
  tcpi_bytes_acked : Z;
  tcpi_bytes_received : Z;
  tcpi_total_retrans : Z;
}.

Definition tcp_info_default : TcpInfo :=
  {| tcpi_bytes_acked := 0; tcpi_bytes_received := 0; tcpi_total_retrans := 0 |}.

(** [TcpStatMonitor::update]: [tcpi] is what the kernel says, the monitor keeps
    it; the differences go to the statistics.  [Drop] is the same. *)
Definition tcp_update (tcp_info tcpi : TcpInfo) (s : WebStat) : TcpInfo * WebStat :=
  let s := on_send (u64_saturating_sub (tcpi_bytes_acked tcpi) (tcpi_bytes_acked tcp_info)) s in
  let s := on_recv (u64_saturating_sub (tcpi_bytes_received tcpi) (tcpi_bytes_received tcp_info)) s in
  let s := on_retransmits (u64_saturating_sub (tcpi_total_retrans tcpi) (tcpi_total_retrans tcp_info)) s in
  (tcpi, s).

(** The life of a socket: the readings in order, from the default one. *)
Definition tcp_updates (tcp_info : TcpInfo) (readings : list TcpInfo) (s : WebStat) : TcpInfo * WebStat :=
  foldl (λ p tcpi, tcp_update (fst p) tcpi (snd p)) (tcp_info, s) readings.

(** The kernel's counters only grow. *)
Inductive growing : TcpInfo → list TcpInfo → Prop :=
  | growing_nil i : growing i []
  | growing_cons i j l :
      tcpi_bytes_acked i ≤ tcpi_bytes_acked j → tcpi_bytes_received i ≤ tcpi_bytes_received j →
      tcpi_total_retrans i ≤ tcpi_total_retrans j → growing j l → growing i (j :: l).

Lemma tcp_updates_telescope i l s :
  growing i l →
  let j := default i (last l) in let s' := snd (tcp_updates i l s) in
  fst (tcp_updates i l s) = j ∧
  as_u64 (w_bytes_tx (tx s')) = as_u64 (w_bytes_tx (tx s) + (tcpi_bytes_acked j - tcpi_bytes_acked i)) ∧
  as_u64 (w_bytes_rx (rx s')) = as_u64 (w_bytes_rx (rx s) + (tcpi_bytes_received j - tcpi_bytes_received i)) ∧
  as_u64 (w_num_retransmits (sock s')) =
    as_u64 (w_num_retransmits (sock s) + (tcpi_total_retrans j - tcpi_total_retrans i)).
Proof.
  intros Hg. revert s. induction Hg as [i|i j l H1 H2 H3 Hg IH]; intros s.
  - cbn. rewrite !Z.sub_diag, !Z.add_0_r. done.
  - specialize (IH (tcp_update i j s).2). cbn zeta in IH.
    change (tcp_updates i (j :: l) s) with (tcp_updates j l (tcp_update i j s).2). cbn zeta.
    assert (default i (last (j :: l)) = default j (last l)) as Hlast by (rewrite last_cons; by destruct (last l)).
    rewrite Hlast. destruct IH as (-> & -> & -> & ->). split; [done|].
    cbn [snd tcp_update on_send on_recv on_retransmits set_tx set_rx set_sock tx rx sock w_bytes_tx w_bytes_rx w_num_retransmits].
    unfold u64_add, u64_saturating_sub. rewrite !as_u64_add_idemp_l. split_and!; f_equal; lia.
Qed.

Lemma tcp_update_audited L k q c owed budget i j s :
  audited L k q c owed budget s → audited L k q c owed budget (snd (tcp_update i j s)).
Proof. intros H. by apply audited_retransmits, audited_recv, audited_send. Qed.

(** Whenever and however often a socket's statistics are read — every 32
    requests and when the socket is dropped — the traffic added to the worker's
    counters is the kernel's last reading, as long as the kernel's counters
    only grow: nothing is counted twice. *)
Theorem tcp_traffic_counted_once l s :
  growing tcp_info_default l →
  let j := default tcp_info_default (last l) in
  let s' := snd (tcp_updates tcp_info_default l s) in
  as_u64 (w_bytes_tx (tx s')) = as_u64 (w_bytes_tx (tx s) + tcpi_bytes_acked j) ∧
  as_u64 (w_bytes_rx (rx s')) = as_u64 (w_bytes_rx (rx s) + tcpi_bytes_received j) ∧
  as_u64 (w_num_retransmits (sock s')) = as_u64 (w_num_retransmits (sock s) + tcpi_total_retrans j).
Proof.
  intros Hg. destruct (tcp_updates_telescope _ _ s Hg) as (_ & H1 & H2 & H3). cbn zeta in *.
  cbn [tcpi_bytes_acked tcpi_bytes_received tcpi_total_retrans tcp_info_default] in *.
  by rewrite !Z.sub_0_r in *.
Qed.

Lemma tcp_traffic_counted_once_witness :
  let l := [{| tcpi_bytes_acked := 100; tcpi_bytes_received := 900; tcpi_total_retrans := 0 |};
            {| tcpi_bytes_acked := 250; tcpi_bytes_received := 2000; tcpi_total_retrans := 1 |}] in
  as_u64 (w_bytes_tx (tx (snd (tcp_updates tcp_info_default l default_value)))) = 250.
Proof.
  intros l. destruct (tcp_traffic_counted_once l default_value) as [-> _]; [|reflexivity].
  repeat constructor; cbn; lia.
Defined.

(** ** The worker *)

Record TcpStream (Sender : Type) := { ts_stat : TcpInfo; ts_sender : Sender }.
Arguments ts_stat {Sender} _.
Arguments ts_sender {Sender} _.

Record HttpWorker (Sender : Type) := {
  hw_stream : option (TcpStream Sender);
  requests_per_sock_left : Z;
  hw_stat : WebStat;
}.
Arguments hw_stream {Sender} _.
Arguments requests_per_sock_left {Sender} _.
Arguments hw_stat {Sender} _.

#[export, refine] Instance http_worker {Sender} : WebWorker (HttpWorker Sender) (TcpStream Sender) := {|
  ww_conn := hw_stream; ww_count := requests_per_sock_left; ww_stat := hw_stat;
  ww_put s w := {| hw_stream := hw_stream w; requests_per_sock_left := requests_per_sock_left w;
                   hw_stat := s |};
|}.
Proof. all: done. Defined.

Record HttpEnv (Addr Req Sender : Type) := {
  he_bind_idx : Z;                     (* [fetch_add] of the bind producer *)
  he_socket : Addr → bool;             (* [TcpSocket::new_v4] or [new_v6] *)
  he_bind : Addr → bool;               (* [sock.bind] *)
  he_connect : poll unit;              (* [sock.connect] *)
  he_nodelay : bool;                   (* [set_nodelay] *)
  he_linger : bool;                    (* [set_linger] *)
  he_tls : poll unit;                  (* [tls.connect] *)
  he_handshake : poll Sender;          (* [http1::handshake] *)
  he_data_idx : Z;                     (* [fetch_add] of the data producer *)
  he_send : Req → Sender → poll Z;     (* [send_request] and the status code *)
  he_frames : list (poll unit);        (* the frames of the body *)
  he_elapsed : Z;                      (* microseconds when the response is counted *)
  he_timed_out : Z;                    (* microseconds when the timeout is counted *)
  he_info_update : TcpInfo;            (* [TCP_INFO] read by [update] *)
  he_info_drop : TcpInfo;              (* [TCP_INFO] read by [Drop] *)
  he_draw : Z → Z → Z;                 (* [random_range] *)
}.
Arguments he_bind_idx {Addr Req Sender} _.
Arguments he_socket {Addr Req Sender} _.
Arguments he_bind {Addr Req Sender} _.
Arguments he_connect {Addr Req Sender} _.
Arguments he_nodelay {Addr Req Sender} _.
Arguments he_linger {Addr Req Sender} _.
Arguments he_tls {Addr Req Sender} _.
Arguments he_handshake {Addr Req Sender} _.
Arguments he_data_idx {Addr Req Sender} _.
Arguments he_send {Addr Req Sender} _.
Arguments he_frames {Addr Req Sender} _.
Arguments he_elapsed {Addr Req Sender} _.
Arguments he_timed_out {Addr Req Sender} _.
Arguments he_info_update {Addr Req Sender} _.
Arguments he_info_drop {Addr Req Sender} _.
Arguments he_draw {Addr Req Sender} _.

Section http.
Context {Addr Req Sender : Type} (ln : f64 → f64).
(** What the worker is made with and never changes. *)
Context (binds : list Addr) (requests : list Req) (tls : bool).
Context (requests_per_sock_gen : RequestsPerSocket).
Context (tcp_linger : option Z) (tcp_no_delay : bool).
Abbreviation W := (HttpWorker Sender).
Abbreviation Env := (HttpEnv Addr Req Sender).
Implicit Types (e : Env) (w : W).

(** [CoroWorker::new]. *)
Definition http_new (draw : Z → Z → Z) : res W :=
  let! n := RequestsPerSocket.next requests_per_sock_gen draw in
  Ok {| hw_stream := None; requests_per_sock_left := n; hw_stat := default_value |}.

Definition with_stream (s : option (TcpStream Sender)) w : W :=
  {| hw_stream := s; requests_per_sock_left := requests_per_sock_left w; hw_stat := hw_stat w |}.
Definition with_left (n : Z) w : W :=
  {| hw_stream := hw_stream w; requests_per_sock_left := n; hw_stat := hw_stat w |}.

(** [TcpStatMonitor::drop]. *)
Definition drop_monitor (tcp_info tcpi : TcpInfo) : W → W :=
  with_stat (λ s, snd (tcp_update tcp_info tcpi s)).

(** [CoroWorker::reconnect]: the monitor is made before the connection and is
    dropped with it when a later step fails. *)
Definition reconnect e : async W (TcpStream Sender) :=
  let? addr := lift (vec_produce_at binds (he_bind_idx e)) in
  let? _ := await (sync (he_socket e addr)) in
  let? _ := await (sync (he_bind e addr)) in
  drop_guard (drop_monitor tcp_info_default (he_info_drop e))
    (let? _ := await (he_connect e) in
     let? _ := await (if tcp_no_delay then sync (he_nodelay e) else Ready tt) in
     let? _ := await (match tcp_linger with Some _ => sync (he_linger e) | None => Ready tt end) in
     let? _ := modify (with_stat on_sock_created) in
     let? _ := await (if tls then he_tls e else Ready tt) in
     let? sender := await (he_handshake e) in
     aret {| ts_stat := tcp_info_default; ts_sender := sender |}).

(** [CoroWorker::curr_sock]. *)
Definition curr_sock e : async W (TcpStream Sender) :=
  let? w := get in
  let? _ := modify (with_stream None) in
  match hw_stream w with
  | Some stream => aret stream
  | None => reconnect e
  end.

(** [while let Some(next) = resp.frame().await { next?; }]. *)
Fixpoint read_body (frames : list (poll unit)) : async W unit :=
  match frames with
  | [] => aret tt
  | next :: frames => let? _ := await next in read_body frames
  end.

(** [CoroWorker::perform_request]. *)
Definition perform_request e (stream : TcpStream Sender) : async W Z :=
  let? req := lift (vec_produce_at requests (he_data_idx e)) in
  let? code := await (he_send e req (ts_sender stream)) in
  let? _ := modify (with_stat (on_requests 1)) in
  let? _ := read_body (he_frames e) in
  aret code.

(** The end of [CoroWorker::do_execute], once the response has been counted. *)
Definition reuse_or_drop e (sock : TcpStream Sender) : async W unit := λ w,
  let n_left := u64_saturating_sub (requests_per_sock_left w) 1 in
  let w := with_left n_left w in
  let '(info, w) :=
    if n_left `mod` 32 =? 0
    then (he_info_update e, with_stat (λ s, snd (tcp_update (ts_stat sock) (he_info_update e) s)) w)
    else (ts_stat sock, w) in
  if 0 <? n_left
  then Ok (with_stream (Some {| ts_stat := info; ts_sender := ts_sender sock |}) w, Ready tt)
  else
    let! n := RequestsPerSocket.next requests_per_sock_gen (he_draw e) in
    Ok (drop_monitor info (he_info_drop e) (with_left n w), Ready tt).

(** [CoroWorker::do_execute]. *)
Definition do_execute e : async W unit :=
  exchange ln (curr_sock e) (perform_request e)
    (λ sock, drop_monitor (ts_stat sock) (he_info_drop e)) (he_elapsed e) (reuse_or_drop e).

(** [CoroWorker::execute]. *)
Definition http_execute e : W → res W := web_execute ln (do_execute e) (he_timed_out e).

#[local] Instance http_task : Task W Env := {| execute := http_execute |}.

(** ** Accounting *)

Definition most : Z := Z.max 1 (RequestsPerSocket.most requests_per_sock_gen).
Definition left_ok (n : Z) : Prop := 0 ≤ n ≤ most.

(** A new socket serves what is left on the counter, and one request in any case. *)
Lemma left_budget n : left_ok n → 1 ≤ Z.max 1 n ≤ most.
Proof using. unfold left_ok, most. lia. Qed.

Abbreviation idle := (idle most left_ok (Z.max 1)).
Abbreviation holding := (holding most left_ok).
Abbreviation connected := (connected most left_ok (Z.max 1)).
Abbreviation failed := (failed most left_ok).

Lemma monitor_neutral i j : neutral most (λ s, snd (tcp_update i j s)).
Proof using. intros k q c owed b s. apply tcp_update_audited. Qed.

Lemma drop_monitor_holding i j k q c owed b w :
  holding k q c owed b w → holding k q c owed b (drop_monitor i j w).
Proof using. apply holding_neutral, monitor_neutral. Qed.

Section execution.
Context (k : Z).
Hypothesis Hk : 0 ≤ k.
Hypothesis Hk' : k + 1 < 2 ^ 64.
Hypothesis Hbinds : binds ≠ [].
Hypothesis Hrequests : requests ≠ [].
Hypothesis Hgen : RequestsPerSocket.gen_ok requests_per_sock_gen.
Context (e : Env).
Hypothesis Hbind_idx : 0 ≤ he_bind_idx e.
Hypothesis Hdata_idx : 0 ≤ he_data_idx e.
Hypothesis Hdraw : RequestsPerSocket.fair (he_draw e).

Lemma reconnect_spec :
  aspec (vacant most left_ok k) (reconnect e) (λ _, connected k) (failed k) (failed k).
Proof using Hk Hk' Hbinds Hbind_idx.
  destruct (vec_produce_at_Ok binds _ Hbinds Hbind_idx) as (addr & _ & Haddr).
  pose proof (vacant_failed (W := W) most left_ok k Hk) as Hf.
  unfold reconnect. eapply aspec_bind; [by eapply aspec_lift|intros ?].
  do 2 (eapply aspec_bind; [by apply aspec_await|intros ?]).
  eapply aspec_drop_guard; [|intros w; apply drop_monitor_holding..].
  do 3 (eapply aspec_bind; [by apply aspec_await|intros ?]).
  eapply aspec_bind; [apply aspec_modify, (created_connects most left_ok _ left_budget k Hk Hk')|intros ?].
  do 2 (eapply aspec_bind; [apply aspec_await; apply (connected_failed most left_ok _ left_budget k Hk)|intros ?]).
  apply (aspec_ret _ (λ _, connected k)).
Qed.

Lemma curr_sock_spec : aspec (idle k) (curr_sock e) (λ _, connected k) (failed k) (failed k).
Proof using Hk Hk' Hbinds Hbind_idx.
  intros w [Hl Hw]. unfold curr_sock, get, modify, abind. cbn [fst snd res_bind].
  cbn [ww_conn ww_count ww_stat http_worker] in Hl, Hw. destruct (hw_stream w) as [stream|].
  - eexists _, _. split; [reflexivity|]. split; [done|]. split; [done|].
    eapply audited_weaken; [apply Hw|done || lia..].
  - apply reconnect_spec. by split.
Qed.

Lemma read_body_spec P T frames :
  (∀ w, P w → T w) → aspec P (read_body frames) (λ _, P) T T.
Proof using.
  intros HT. induction frames as [|next frames IH]; cbn [read_body]; [apply (aspec_ret tt (λ _, P))|].
  eapply aspec_bind; [by apply aspec_await|intros ?; apply IH].
Qed.

Lemma perform_request_spec sock :
  aspec (connected k) (perform_request e sock) (λ _, requested most left_ok (Z.max 1) k) (failed k) (failed k).
Proof using Hk Hk' Hrequests Hdata_idx.
  destruct (vec_produce_at_Ok requests _ Hrequests Hdata_idx) as (req & _ & Hreq).
  unfold perform_request. eapply aspec_bind; [by eapply aspec_lift|intros ?].
  eapply aspec_bind; [apply aspec_await; apply (connected_failed most left_ok _ left_budget k Hk)|intros ?].
  eapply aspec_bind; [by apply aspec_modify, request_sent|intros ?].
  eapply aspec_bind; [apply read_body_spec; apply (requested_failed most left_ok _ left_budget k Hk)|intros ?].
  apply (aspec_ret _ (λ _, requested _ _ _ k)).
Qed.

Lemma reuse_or_drop_spec sock :
  aspec (answered most left_ok (Z.max 1) k) (reuse_or_drop e sock)
    (λ _, idle (k + 1)) (λ _, False) (failed k).
Proof using Hgen Hdraw.
  intros w Hw. unfold reuse_or_drop.
  set (n := u64_saturating_sub (requests_per_sock_left w) 1).
  set (sw := if n `mod` 32 =? 0 then _ else _).
  assert (holding (k + 1) (k + 1) (k + 1) 0 (λ n, n) (snd sw) ∧ requests_per_sock_left (snd sw) = n) as [Hsw Hn].
  { assert (holding (k + 1) (k + 1) (k + 1) 0 (λ n, n) (with_left n w)) as H.
    { destruct Hw as (Hs & Hl & Ha). unfold left_ok in *. cbn [ww_conn ww_count ww_stat http_worker] in *.
      assert (0 ≤ n ≤ most ∧ n ≤ Z.max 1 (requests_per_sock_left w) - 1) as [Hn1 Hn2] by
        (unfold n, u64_saturating_sub; lia).
      split; [done|]. split; [exact Hn1|]. eapply audited_weaken; [exact Ha|done || lia..]. }
    unfold sw. destruct (_ =? 0); cbn [snd]; split; try done. eapply holding_neutral, H. apply monitor_neutral. }
  destruct sw as [info w']. cbn [snd] in *. destruct (Z.ltb_spec 0 n).
  - eexists _, _. split; [reflexivity|]. destruct Hsw as (Hs & Hl & Ha).
    split; [done|]. cbn [ww_conn ww_count ww_stat http_worker with_stream hw_stream requests_per_sock_left hw_stat] in *.
    eapply audited_weaken; [exact Ha|lia..].
  - destruct (RequestsPerSocket.next_ok requests_per_sock_gen (he_draw e) Hgen Hdraw) as (m & Hm & Hr).
    rewrite Hm. eexists _, _. split; [reflexivity|]. cbn beta iota.
    eapply (holding_idle _ _ _ _ (λ _, 0)); [|done]. apply drop_monitor_holding.
    destruct Hsw as (Hs & Hl & Ha). split; [done|]. split; [exact Hr|].
    eapply audited_weaken; [exact Ha|lia..|apply Hl].
Qed.

Lemma http_execute_spec w : idle k w → ∃ w', http_execute e w = Ok w' ∧ idle (k + 1) w'.
Proof using All.
  apply web_execute_spec; [done..|]. apply exchange_spec; [done..| | | |].
  - apply curr_sock_spec.
  - apply perform_request_spec.
  - intros. by apply drop_monitor_holding.
  - apply reuse_or_drop_spec.
Qed.
End execution.

(** What the outside may answer: indices are counters, draws are in range. *)
Definition env_ok e : Prop :=
  0 ≤ he_bind_idx e ∧ 0 ≤ he_data_idx e ∧ RequestsPerSocket.fair (he_draw e).

(** C10: in any run of an HTTP worker, whatever the network answers and wherever
    the timeout fires, nothing panics and every execution is counted exactly
    once, as a response, a timeout or a socket error; the histogram has one
    sample per response or timeout, a response belongs to a request that was
    sent, and no more responses are received than the sockets created allow at
    the configured number of requests per socket. *)
Theorem http_accounting draw envs :
  binds ≠ [] → requests ≠ [] → RequestsPerSocket.gen_ok requests_per_sock_gen →
  RequestsPerSocket.fair draw → Forall env_ok envs → Z.of_nat (length envs) < 2 ^ 64 →
  ∃ w w', http_new draw = Ok w ∧ execute_all envs w = Ok w' ∧
    balanced most (Z.of_nat (length envs)) (hw_stat w').
Proof.
  intros Hb Hr Hg Hdraw He Hlen.
  destruct (RequestsPerSocket.next_ok requests_per_sock_gen draw Hg Hdraw) as (n & Hnext & Hle).
  unfold http_new. rewrite Hnext. cbn [res_bind]. eexists.
  edestruct (web_run_balanced (H0 := http_task) most left_ok (Z.max 1) env_ok) as (w' & Hw' & Hi);
    [exact left_budget| |exact He|exact Hlen| |exists w'; split; [reflexivity|split; [exact Hw'|exact Hi]]].
  - intros e k w (? & ? & ?) ? ? ?. by eapply http_execute_spec.
  - by apply idle_new.
Qed.

Lemma reconnect_keeps_left e w w' p :
  reconnect e w = Ok (w', p) →
  hw_stream w' = hw_stream w ∧ requests_per_sock_left w' = requests_per_sock_left w.
Proof.
  unfold reconnect. rewrite lift_abind. destruct (vec_produce_at _ _) as [addr| |]; [|done..].
  cbn [res_bind]. rewrite await_abind. destruct (sync _); [|intros [= <- _]; done..].
  rewrite await_abind. destruct (sync _); [|intros [= <- _]; done..]. unfold drop_guard.
  repeat (rewrite await_abind; match goal with |- context [match ?p with Ready _ => _ | _ => _ end] =>
    destruct p; [|cbn; intros [= <- _]; done..] end).
  unfold modify, abind at 1. cbn [fst snd res_bind].
  repeat (rewrite await_abind; match goal with |- context [match ?p with Ready _ => _ | _ => _ end] =>
    destruct p; [|cbn; intros [= <- _]; done..] end).
  cbn. by intros [= <- _].
Qed.

(** The counter of requests left belongs to the worker, not to the socket:
    obtaining a socket, kept or newly created, does not reset it, and an
    execution whose request fails drops the socket with the counter unchanged,
    so the next socket serves only what the lost one had left. *)
Theorem lost_socket_leaves_its_counter e :
  (∀ w w' s, curr_sock e w = Ok (w', Ready s) →
    hw_stream w' = None ∧ requests_per_sock_left w' = requests_per_sock_left w) ∧
  (∀ w s req, hw_stream w = Some s → vec_produce_at requests (he_data_idx e) = Ok req →
    he_send e req (ts_sender s) = Errored →
    ∃ w', http_execute e w = Ok w' ∧ hw_stream w' = None ∧
      requests_per_sock_left w' = requests_per_sock_left w).
Proof.
  split.
  - intros w w' s. unfold curr_sock, get, modify. unfold abind at 1 2. cbn [fst snd res_bind].
    destruct (hw_stream w) as [s'|]; [by intros [= <- _]|].
    exact (reconnect_keeps_left e (with_stream None w) w' (Ready s)).
  - intros w s req Hw Hreq Hsend. unfold http_execute, web_execute, with_timeout, do_execute, exchange, or_return.
    unfold curr_sock, get, modify. unfold abind at 1 2. cbn [fst snd res_bind]. rewrite Hw. cbn [aret res_bind fst snd].
    unfold drop_on_timeout, perform_request. rewrite lift_abind, Hreq. cbn [res_bind].
    rewrite await_abind, Hsend. by eexists.
Qed.
End http.

(** What the outside answers: a response, or a refused connection. *)
Definition example_env (ok : bool) : HttpEnv nat nat nat := {|
  he_bind_idx := 0; he_socket := λ _, true; he_bind := λ _, true;
  he_connect := if ok then Ready tt else Errored; he_nodelay := true; he_linger := true;
  he_tls := Ready tt; he_handshake := Ready 7%nat; he_data_idx := 3;
  he_send := λ _ _, Ready 200; he_frames := [Ready tt]; he_elapsed := 120; he_timed_out := 0;
  he_info_update := tcp_info_default; he_info_drop := tcp_info_default; he_draw := λ lo _, lo |}.

Lemma example_env_ok ok : env_ok (example_env ok).
Proof. split_and!; [done|done|]. intros lo hi H. cbn. lia. Qed.

Lemma http_accounting_witness :
  ∃ w w', http_new (Sender := nat) (Fixed 1) (λ lo _, lo) = Ok w ∧
    execute_all (H := http_task (λ x, x) [1%nat] [2%nat] false (Fixed 1) None true)
      [example_env true; example_env false] w = Ok w' ∧
    w_num_responses (rx (hw_stat w')) + w_num_sock_errors (sock (hw_stat w')) = 2.
Proof.
  destruct (http_accounting (Sender := nat) (λ x, x) [1%nat] [2%nat] false (Fixed 1) None true (λ lo _, lo)
    [example_env true; example_env false]) as (w & w' & Hw & Hw' & Hb & _);
    [done|done|done|intros lo hi H; lia| |done|].
  { repeat (apply Forall_cons; split; [apply example_env_ok|]). by apply Forall_nil. }
  exists w, w'. split_and!; [exact Hw|exact Hw'|]. vm_compute in Hw. injection Hw as <-.
  vm_compute in Hw'. injection Hw' as <-. reflexivity.
Defined.
