(* ===== verification/HttpRaw.v ===== *)
(** * The raw HTTP engine's worker ([dwd-core/src/engine/http/engine_raw.rs])

    The worker writes the request bytes itself and reads until httparse finds a
    complete response head.  [parse] is [httparse::Response::parse] with eight
    headers; the reads of one execution are a list, and a body that is still
    reading when the list ends is dropped by the timeout. *)
From S2P Require Import Prelude Machine F64 Histogram Stat Ledger Produce Task Exchange.

Abbreviation bytes := (list Z).

(** The status of a parse and the code it left in [resp.code]. *)
Inductive Parsed :=
  | Partial
  | Complete (code : option Z)
  | ParseError.

Record RawWorker (Sock : Type) := {
  rw_stream : option Sock;
  buf : bytes;
  requests_per_sock_done : Z;
  rw_stat : WebStat;
}.
Arguments rw_stream {Sock} _.
Arguments buf {Sock} _.
Arguments requests_per_sock_done {Sock} _.
Arguments rw_stat {Sock} _.

#[export, refine] Instance raw_worker {Sock} : WebWorker (RawWorker Sock) Sock := {|
  ww_conn := rw_stream; ww_count := requests_per_sock_done; ww_stat := rw_stat;
  ww_put s w := {| rw_stream := rw_stream w; buf := buf w;
                   requests_per_sock_done := requests_per_sock_done w; rw_stat := s |};
|}.
Proof. all: done. Defined.

Record RawEnv (Addr Sock : Type) := {
  re_bind_idx : Z;                  (* [fetch_add] of the bind producer *)
  re_socket : Addr → bool;          (* [TcpSocket::new_v4] or [new_v6] *)
  re_bind : Addr → bool;            (* [sock.bind] *)
  re_connect : poll Sock;           (* [sock.connect] *)
  re_nodelay : bool;                (* [set_nodelay] *)
  re_linger : bool;                 (* [set_linger] *)
  re_data_idx : Z;                  (* [fetch_add] of the data producer *)
  re_write : poll unit;             (* [write_all] *)
  re_reads : list (poll bytes);     (* the results of [read_buf] *)
  re_elapsed : Z;                   (* microseconds when the response is counted *)
  re_timed_out : Z;                 (* microseconds when the timeout is counted *)
}.
Arguments re_bind_idx {Addr Sock} _.
Arguments re_socket {Addr Sock} _.
Arguments re_bind {Addr Sock} _.
Arguments re_connect {Addr Sock} _.
Arguments re_nodelay {Addr Sock} _.
Arguments re_linger {Addr Sock} _.
Arguments re_data_idx {Addr Sock} _.
Arguments re_write {Addr Sock} _.
Arguments re_reads {Addr Sock} _.
Arguments re_elapsed {Addr Sock} _.
Arguments re_timed_out {Addr Sock} _.

Section raw.
Context {Addr Sock : Type} (ln : f64 → f64) (parse : bytes → Parsed).
Context (binds : list Addr) (requests : list bytes) (requests_per_sock : Z).
Context (tcp_linger : option Z) (tcp_no_delay : bool).
Abbreviation W := (RawWorker Sock).
Abbreviation Env := (RawEnv Addr Sock).
Implicit Types (e : Env) (w : W).

(** [CoroWorker::new]. *)
Definition raw_new : W :=
  {| rw_stream := None; buf := []; requests_per_sock_done := 0; rw_stat := default_value |}.

Definition with_stream (s : option Sock) w : W :=
  {| rw_stream := s; buf := buf w; requests_per_sock_done := requests_per_sock_done w; rw_stat := rw_stat w |}.
Definition with_buf (b : bytes) w : W :=
  {| rw_stream := rw_stream w; buf := b; requests_per_sock_done := requests_per_sock_done w; rw_stat := rw_stat w |}.
Definition with_done (n : Z) w : W :=
  {| rw_stream := rw_stream w; buf := buf w; requests_per_sock_done := n; rw_stat := rw_stat w |}.

(** [CoroWorker::reconnect]. *)
Definition reconnect e : async W Sock :=
  let? addr := lift (vec_produce_at binds (re_bind_idx e)) in
  let? _ := await (sync (re_socket e addr)) in
  let? _ := await (sync (re_bind e addr)) in
  let? stream := await (re_connect e) in
  let? _ := await (if tcp_no_delay then sync (re_nodelay e) else Ready tt) in
  let? _ := await (match tcp_linger with Some _ => sync (re_linger e) | None => Ready tt end) in
  let? _ := modify (with_stat on_sock_created) in
  aret stream.

(** [CoroWorker::curr_sock]. *)
Definition curr_sock e : async W Sock :=
  let? w := get in
  let? _ := modify (with_stream None) in
  match rw_stream w with
  | Some stream => aret stream
  | None => reconnect e
  end.

(** The [loop] of [perform_request]. *)
Fixpoint read_response (reads : list (poll bytes)) : async W Z :=
  match reads with
  | [] => await TimedOut
  | read :: reads =>
      let? data := await read in
      let? _ := modify (λ w, with_buf (buf w ++ data) w) in
      let? w := get in
      match parse (buf w) with
      | ParseError => await Errored
      | Partial => read_response reads
      | Complete code =>
          let? _ := modify (with_stat (on_recv (Z.of_nat (length data)))) in
          aret (default 0 code)
      end
  end.

(** [CoroWorker::perform_request]. *)
Definition perform_request e (_ : Sock) : async W Z :=
  let? request := lift (vec_produce_at requests (re_data_idx e)) in
  let? _ := await (re_write e) in
  let? _ := modify (with_stat (on_requests 1)) in
  let? _ := modify (with_stat (on_send (Z.of_nat (length request)))) in
  let? _ := modify (with_buf []) in
  read_response (re_reads e).

(** The end of [CoroWorker::do_execute], once the response has been counted. *)
Definition keep_or_drop (sock : Sock) : async W unit :=
  modify (λ w,
    let done := u64_add (requests_per_sock_done w) 1 in
    if done <? requests_per_sock then with_stream (Some sock) (with_done done w)
    else with_done 0 w).

(** [CoroWorker::do_execute]. *)
Definition do_execute e : async W unit :=
  exchange ln (curr_sock e) (perform_request e) (λ _ w, w) (re_elapsed e) keep_or_drop.

(** [CoroWorker::execute]. *)
Definition raw_execute e : W → res W := web_execute ln (do_execute e) (re_timed_out e).

#[local] Instance raw_task : Task W Env := {| execute := raw_execute |}.

(** ** Accounting *)

Definition most : Z := Z.max 1 requests_per_sock.
Definition done_ok (n : Z) : Prop := 0 ≤ n < most.

Lemma done_budget n : done_ok n → 1 ≤ most - n ≤ most.
Proof using. unfold done_ok. lia. Qed.

Abbreviation idle := (idle most done_ok (λ n, most - n)).
Abbreviation holding := (holding most done_ok).
Abbreviation connected := (connected most done_ok (λ n, most - n)).
Abbreviation requested := (requested most done_ok (λ n, most - n)).
Abbreviation failed := (failed most done_ok).

Section execution.
Context (k : Z).
Hypothesis Hk : 0 ≤ k.
Hypothesis Hk' : k + 1 < 2 ^ 64.
Hypothesis Hbinds : binds ≠ [].
Hypothesis Hrequests : requests ≠ [].
Hypothesis Hper_sock : is_u64 requests_per_sock.
Context (e : Env).
Hypothesis Hbind_idx : 0 ≤ re_bind_idx e.
Hypothesis Hdata_idx : 0 ≤ re_data_idx e.

Lemma raw_reconnect_spec :
  aspec (vacant most done_ok k) (reconnect e) (λ _, connected k) (failed k) (failed k).
Proof using Hk Hk' Hbinds Hbind_idx.
  destruct (vec_produce_at_Ok binds _ Hbinds Hbind_idx) as (addr & _ & Haddr).
  pose proof (vacant_failed (W := W) most done_ok k Hk) as Hf.
  unfold reconnect. eapply aspec_bind; [by eapply aspec_lift|intros ?].
  do 5 (eapply aspec_bind; [by apply aspec_await|intros ?]).
  eapply aspec_bind; [apply aspec_modify, (created_connects most done_ok _ done_budget k Hk Hk')|intros ?].
  apply (aspec_ret _ (λ _, connected k)).
Qed.

Lemma raw_curr_sock_spec : aspec (idle k) (curr_sock e) (λ _, connected k) (failed k) (failed k).
Proof using Hk Hk' Hbinds Hbind_idx.
  intros w [Hl Hw]. unfold curr_sock, get, modify, abind. cbn [fst snd res_bind].
  cbn [ww_conn ww_count ww_stat raw_worker] in Hl, Hw. destruct (rw_stream w) as [stream|].
  - eexists _, _. split; [reflexivity|]. split; [done|]. split; [done|].
    eapply audited_weaken; [apply Hw|done || lia..].
  - apply raw_reconnect_spec. by split.
Qed.

Lemma with_buf_holding k' q c owed b d w : holding k' q c owed b w → holding k' q c owed b (with_buf d w).
Proof using. done. Qed.

Lemma read_response_spec reads :
  aspec (requested k) (read_response reads) (λ _, requested k) (failed k) (failed k).
Proof using Hk.
  pose proof (requested_failed (W := W) most done_ok _ done_budget k Hk) as Hf.
  induction reads as [|read reads IH]; cbn [read_response]; [by apply aspec_await|].
  eapply aspec_bind; [by apply aspec_await|intros data].
  eapply aspec_bind; [apply (aspec_modify _ _ (requested k)); intros w Hw; by apply with_buf_holding|intros ?].
  intros w Hw. unfold abind at 1, get. cbn [res_bind fst snd].
  destruct (parse (buf w)) as [|code|]; [by apply IH| |by apply (aspec_await Errored _ _ _ Hf Hf)].
  eapply (aspec_bind _ _ _ _ _ (failed k) (failed k)); [|intros ?; apply (aspec_ret _ (λ _, requested k))|exact Hw].
  apply aspec_modify. intros w' Hw'. apply holding_neutral; [|done]. intros ??????. apply audited_recv.
Qed.

Lemma raw_perform_request_spec sock :
  aspec (connected k) (perform_request e sock) (λ _, requested k) (failed k) (failed k).
Proof using Hk Hk' Hrequests Hdata_idx.
  destruct (vec_produce_at_Ok requests _ Hrequests Hdata_idx) as (req & _ & Hreq).
  unfold perform_request. eapply aspec_bind; [by eapply aspec_lift|intros request].
  eapply aspec_bind; [apply aspec_await; apply (connected_failed most done_ok _ done_budget k Hk)|intros ?].
  eapply aspec_bind; [by apply aspec_modify, request_sent|intros ?].
  eapply aspec_bind; [apply (aspec_modify _ _ (requested k))|intros ?].
  { intros w Hw. apply holding_neutral; [|done]. intros ??????. apply audited_send. }
  eapply aspec_bind; [|intros ?; apply read_response_spec].
  apply (aspec_modify _ _ (requested k)). intros w. apply with_buf_holding.
Qed.

Lemma raw_keep_or_drop_spec sock :
  aspec (answered most done_ok (λ n, most - n) k) (keep_or_drop sock)
    (λ _, idle (k + 1)) (λ _, False) (failed k).
Proof using Hper_sock.
  apply aspec_modify. intros w (Hs & Hl & Ha). unfold is_u64 in *.
  assert (0 ≤ requests_per_sock_done w < most) as Hd by exact Hl. unfold most in Hd.
  rewrite u64_add_id by lia. destruct (Z.ltb_spec (requests_per_sock_done w + 1) requests_per_sock).
  - assert (done_ok (requests_per_sock_done w + 1)) by (unfold done_ok, most; lia).
    split; [done|]. eapply audited_weaken; [exact Ha|done..|]. cbn. lia.
  - eapply (holding_idle _ _ _ _ (λ _, 0)); [|done].
    assert (done_ok 0) by (unfold done_ok, most; lia).
    split; [done|]. split; [done|]. eapply audited_weaken; [exact Ha|done..|].
    unfold done_ok in Hl. cbn in *. lia.
Qed.

Lemma raw_execute_spec w : idle k w → ∃ w', raw_execute e w = Ok w' ∧ idle (k + 1) w'.
Proof using All.
  apply web_execute_spec; [done..|]. apply exchange_spec; [done..| | |done|].
  - apply raw_curr_sock_spec.
  - apply raw_perform_request_spec.
  - apply raw_keep_or_drop_spec.
Qed.
End execution.

Definition env_ok e : Prop := 0 ≤ re_bind_idx e ∧ 0 ≤ re_data_idx e.

(** C26: the raw HTTP worker keeps the same books, whatever the network answers,
    whatever httparse makes of it and wherever the timeout fires: no panic,
    every execution counted exactly once, and no more responses than the
    sockets created allow at [requests_per_sock] each. *)
Theorem raw_accounting envs :
  binds ≠ [] → requests ≠ [] → is_u64 requests_per_sock → Forall env_ok envs →
  Z.of_nat (length envs) < 2 ^ 64 →
  ∃ w, execute_all envs raw_new = Ok w ∧ balanced most (Z.of_nat (length envs)) (rw_stat w).
Proof.
  intros Hb Hr Hn He Hlen.
  apply (web_run_balanced (H := raw_worker) (H0 := raw_task) most done_ok (λ n, most - n) env_ok envs raw_new);
    [exact done_budget| |exact He|exact Hlen|].
  - intros e k w (? & ?) ? ? ?. by eapply raw_execute_spec.
  - apply idle_new; [|done..]. unfold done_ok, most. cbn. lia.
Qed.

(** Reads that leave the head of the response incomplete. *)
Definition still_partial (b : bytes) (reads : list bytes) : Prop :=
  ∀ n, (n < length reads)%nat → parse (b ++ concat (take (S n) reads)) = Partial.

Lemma read_response_partial reads last w :
  still_partial (buf w) reads →
  read_response ((Ready <$> reads) ++ last) w =
    read_response last (with_buf (buf w ++ concat reads) w).
Proof.
  revert w. induction reads as [|d reads IH]; intros w Hp.
  - cbn [concat]. rewrite app_nil_r. by destruct w.
  - cbn [fmap list_fmap app read_response]. rewrite await_abind. unfold abind at 1, modify.
    cbn [res_bind fst snd]. unfold abind at 1, get. cbn [res_bind fst snd].
    pose proof (Hp 0%nat ltac:(cbn; lia)) as H0. cbn in H0. rewrite app_nil_r in H0.
    cbn [buf with_buf]. rewrite H0, IH.
    + cbn. by rewrite app_assoc.
    + intros n Hn. cbn [buf with_buf]. rewrite <-app_assoc. apply (Hp (S n)). cbn. lia.
Qed.

(** When the head of a response takes several reads, only the bytes of the
    last one reach [bytes_rx]: the earlier reads are never counted.  When the
    peer closes before the head is complete, every further read is empty and
    the worker goes on reading until the timeout instead of failing. *)
Theorem raw_counts_last_read_only reads d code w :
  still_partial (buf w) reads →
  (parse (buf w ++ concat reads ++ d) = Complete code →
    ∃ w', read_response ((Ready <$> reads) ++ [Ready d]) w = Ok (w', Ready (default 0 code)) ∧
      w_bytes_rx (rx (rw_stat w')) = u64_add (w_bytes_rx (rx (rw_stat w))) (Z.of_nat (length d))) ∧
  (parse (buf w ++ concat reads) = Partial →
    ∀ n, ∃ w', read_response ((Ready <$> reads) ++ replicate n (Ready [])) w = Ok (w', TimedOut)).
Proof.
  intros Hp. split.
  - intros Hc. rewrite read_response_partial by done. cbn [read_response]. rewrite await_abind.
    unfold abind at 1, modify. cbn [res_bind fst snd]. unfold abind at 1, get. cbn [res_bind fst snd].
    cbn [buf with_buf]. rewrite <-app_assoc, Hc. unfold abind. cbn [res_bind fst snd].
    eexists. split; [reflexivity|]. done.
  - intros Hc n. rewrite read_response_partial by done.
    assert (∀ w, parse (buf w) = Partial →
      ∃ w', read_response (replicate n (Ready [])) w = Ok (w', TimedOut)) as Hr.
    { induction n as [|n IH]; intros w1 H1; [by eexists|]. cbn [replicate read_response]. rewrite await_abind.
      unfold abind at 1, modify. cbn [res_bind fst snd]. unfold abind at 1, get. cbn [res_bind fst snd].
      cbn [buf with_buf]. rewrite app_nil_r, H1. by apply IH. }
    by apply Hr.
Qed.
End raw.

Definition example_env (reads : list (poll bytes)) : RawEnv nat nat := {|
  re_bind_idx := 0; re_socket := λ _, true; re_bind := λ _, true; re_connect := Ready 5%nat;
  re_nodelay := true; re_linger := true; re_data_idx := 0; re_write := Ready tt; re_reads := reads;
  re_elapsed := 40; re_timed_out := 1000000 |}.

(** A stand-in for the parser: a head of three bytes. *)
Definition example_parse (b : bytes) : Parsed :=
  if (length b <? 3)%nat then Partial else Complete (Some 204).

Lemma raw_accounting_witness :
  ∃ w, execute_all (H := raw_task (λ x, x) example_parse [1%nat] [[71; 69; 84]] 2 None true)
      [example_env [Ready [1; 2]; Ready [3]]; example_env [Ready []]; example_env [Errored]] raw_new = Ok w ∧
    w_num_responses (rx (rw_stat w)) + w_num_timeouts (rx (rw_stat w)) + w_num_sock_errors (sock (rw_stat w)) = 3 ∧
    w_num_timeouts (rx (rw_stat w)) = 1.
Proof.
  destruct (raw_accounting (λ x, x) example_parse [1%nat] [[71; 69; 84]] 2 None true
    [example_env [Ready [1; 2]; Ready [3]]; example_env [Ready []]; example_env [Errored]])
    as (w & Hw & Hb & _); [done|done|done| |done|].
  { repeat (apply Forall_cons; split; [done|]). by apply Forall_nil. }
  exists w. split; [exact Hw|]. split; [exact Hb|]. vm_compute in Hw. by injection Hw as <-.
Defined.

Lemma raw_counts_last_read_only_witness :
  ∃ w', read_response (Sock := nat) example_parse [Ready [1; 2]; Ready [3]] raw_new = Ok (w', Ready 204) ∧
    w_bytes_rx (rx (rw_stat w')) = 1.
Proof.
  destruct (raw_counts_last_read_only (Sock := nat) example_parse [[1; 2]] [3] (Some 204) raw_new) as [H _].
  - intros n Hn. cbn in Hn. replace n with 0%nat by lia. done.
  - exact (H eq_refl).
Defined.
