(* ===== verification/Http3.v ===== *)
(** * The HTTP/3 engine's worker ([dwd-core/src/engine/http3/engine.rs])

    QUIC and HTTP/3 are quinn and h3: the outcome of each of their calls is part
    of the environment of an execution.  A body whose chunks end before the end
    of the stream is dropped by the timeout. *)
From S2P Require Import Prelude Machine F64 Histogram Stat Ledger Produce Task Exchange Http.

(** ** Addresses *)

Inductive IpAddr :=
  | V4 (a : Z)
  | V6 (a : Z).

Record SocketAddr := { ip : IpAddr; port : Z }.

Definition is_unspecified (a : IpAddr) : bool :=
  match a with V4 a | V6 a => a =? 0 end.

Definition set_ip (a : IpAddr) (s : SocketAddr) : SocketAddr := {| ip := a; port := port s |}.

Definition same_family (a b : IpAddr) : Prop :=
  match a, b with V4 _, V4 _ | V6 _, V6 _ => True | _, _ => False end.

(** [RequestsPerConn] is [RequestsPerSocket] under another name. *)
Definition RequestsPerConn : Type := RequestsPerSocket.

Record Http3Worker (Ep Conn : Type) := {
  endpoint : option Ep;
  conn : option Conn;
  requests_per_conn_left : Z;
  h3_stat : WebStat;
}.
Arguments endpoint {Ep Conn} _.
Arguments conn {Ep Conn} _.
Arguments requests_per_conn_left {Ep Conn} _.
Arguments h3_stat {Ep Conn} _.

#[export, refine] Instance http3_worker {Ep Conn} : WebWorker (Http3Worker Ep Conn) Conn := {|
  ww_conn := conn; ww_count := requests_per_conn_left; ww_stat := h3_stat;
  ww_put s w := {| endpoint := endpoint w; conn := conn w;
                   requests_per_conn_left := requests_per_conn_left w; h3_stat := s |};
|}.
Proof. all: done. Defined.

Record Http3Env (Req Ep Conn : Type) := {
  h3_bind_idx : Z;                       (* [fetch_add] of the bind producer *)
  h3_client : SocketAddr → option Ep;    (* [Endpoint::client] *)
  h3_connect : Ep → bool;                (* [endpoint.connect] *)
  h3_connecting : poll unit;             (* the QUIC handshake *)
  h3_handshake : poll Conn;              (* [h3::client::new] *)
  h3_data_idx : Z;                       (* [fetch_add] of the data producer *)
  h3_send : Req → Conn → poll unit;      (* [send_request] *)
  h3_finish : poll unit;                 (* [stream.finish] *)
  h3_response : poll Z;                  (* [recv_response] and its status code *)
  h3_chunks : list (poll (option Z));    (* [recv_data]: the length of a chunk, or the end *)
  h3_elapsed : Z;                        (* microseconds when the response is counted *)
  h3_timed_out : Z;                      (* microseconds when the timeout is counted *)
  h3_draw : Z → Z → Z;                   (* [random_range] *)
}.
Arguments h3_bind_idx {Req Ep Conn} _.
Arguments h3_client {Req Ep Conn} _.
Arguments h3_connect {Req Ep Conn} _.
Arguments h3_connecting {Req Ep Conn} _.
Arguments h3_handshake {Req Ep Conn} _.
Arguments h3_data_idx {Req Ep Conn} _.
Arguments h3_send {Req Ep Conn} _.
Arguments h3_finish {Req Ep Conn} _.
Arguments h3_response {Req Ep Conn} _.
Arguments h3_chunks {Req Ep Conn} _.
Arguments h3_elapsed {Req Ep Conn} _.
Arguments h3_timed_out {Req Ep Conn} _.
Arguments h3_draw {Req Ep Conn} _.

Section http3.
Context {Req Ep Conn : Type} (ln : f64 → f64).
Context (addr : SocketAddr) (binds : list SocketAddr) (requests : list Req).
Context (requests_per_conn_gen : RequestsPerConn).
Abbreviation W := (Http3Worker Ep Conn).
Abbreviation Env := (Http3Env Req Ep Conn).
Implicit Types (e : Env) (w : W).

(** [CoroWorker::new]. *)
Definition http3_new (draw : Z → Z → Z) : res W :=
  let! n := RequestsPerSocket.next requests_per_conn_gen draw in
  Ok {| endpoint := None; conn := None; requests_per_conn_left := n; h3_stat := default_value |}.

Definition with_endpoint (ep : option Ep) w : W :=
  {| endpoint := ep; conn := conn w; requests_per_conn_left := requests_per_conn_left w; h3_stat := h3_stat w |}.
Definition with_conn (c : option Conn) w : W :=
  {| endpoint := endpoint w; conn := c; requests_per_conn_left := requests_per_conn_left w; h3_stat := h3_stat w |}.
Definition with_left (n : Z) w : W :=
  {| endpoint := endpoint w; conn := conn w; requests_per_conn_left := n; h3_stat := h3_stat w |}.

(** The local address for a configured bind address. *)
Definition align_family (bind : SocketAddr) : SocketAddr :=
  if is_unspecified (ip bind) then
    match ip addr with
    | V4 _ => set_ip (V4 0) bind
    | V6 _ => set_ip (V6 0) bind
    end
  else bind.

(** [CoroWorker::endpoint]. *)
Definition get_endpoint e : async W Ep :=
  let? w := get in
  match endpoint w with
  | Some ep => aret ep
  | None =>
      let? bind := lift (vec_produce_at binds (h3_bind_idx e)) in
      let? ep := await (match h3_client e (align_family bind) with Some ep => Ready ep | None => Errored end) in
      let? _ := modify (with_endpoint (Some ep)) in
      aret ep
  end.

(** [CoroWorker::reconnect]. *)
Definition reconnect e : async W Conn :=
  let? ep := get_endpoint e in
  let? _ := await (sync (h3_connect e ep)) in
  let? _ := await (h3_connecting e) in
  let? _ := modify (with_stat on_sock_created) in
  await (h3_handshake e).

(** [CoroWorker::curr_conn]. *)
Definition curr_conn e : async W Conn :=
  let? w := get in
  let? _ := modify (with_conn None) in
  match conn w with
  | Some c => aret c
  | None => reconnect e
  end.

(** [while let Some(chunk) = stream.recv_data().await? { bytes_rx += .. }]. *)
Fixpoint recv_body (chunks : list (poll (option Z))) (bytes_rx : Z) : async W Z :=
  match chunks with
  | [] => await TimedOut
  | chunk :: chunks =>
      let? n := await chunk in
      match n with
      | Some n => recv_body chunks (u64_add bytes_rx n)
      | None => aret bytes_rx
      end
  end.

(** [CoroWorker::perform_request]. *)
Definition perform_request e (c : Conn) : async W Z :=
  let? req := lift (vec_produce_at requests (h3_data_idx e)) in
  let? _ := await (h3_send e req c) in
  let? _ := modify (with_stat (on_requests 1)) in
  let? _ := await (h3_finish e) in
  let? code := await (h3_response e) in
  let? bytes_rx := recv_body (h3_chunks e) 0 in
  let? _ := modify (with_stat (λ s, if 0 <? bytes_rx then on_recv bytes_rx s else s)) in
  aret code.

(** The end of [CoroWorker::do_execute], once the response has been counted. *)
Definition keep_or_drop e (c : Conn) : async W unit := λ w,
  let n_left := u64_saturating_sub (requests_per_conn_left w) 1 in
  let w := with_left n_left w in
  if 0 <? n_left then Ok (with_conn (Some c) w, Ready tt)
  else
    let! n := RequestsPerSocket.next requests_per_conn_gen (h3_draw e) in
    Ok (with_left n w, Ready tt).

(** [CoroWorker::do_execute]. *)
Definition do_execute e : async W unit :=
  exchange ln (curr_conn e) (perform_request e) (λ _ w, w) (h3_elapsed e) (keep_or_drop e).

(** [CoroWorker::execute]. *)
Definition http3_execute e : W → res W := web_execute ln (do_execute e) (h3_timed_out e).

#[local] Instance http3_task : Task W Env := {| execute := http3_execute |}.

(** ** Accounting *)

Definition most : Z := Z.max 1 (RequestsPerSocket.most requests_per_conn_gen).
Definition left_ok (n : Z) : Prop := 0 ≤ n ≤ most.

Lemma h3_left_budget n : left_ok n → 1 ≤ Z.max 1 n ≤ most.
Proof using. unfold left_ok, most. lia. Qed.

Abbreviation idle := (idle most left_ok (Z.max 1)).
Abbreviation holding := (holding most left_ok).
Abbreviation connected := (connected most left_ok (Z.max 1)).
Abbreviation requested := (requested most left_ok (Z.max 1)).
Abbreviation failed := (failed most left_ok).

Section execution.
Context (k : Z).
Hypothesis Hk : 0 ≤ k.
Hypothesis Hk' : k + 1 < 2 ^ 64.
Hypothesis Hbinds : binds ≠ [].
Hypothesis Hrequests : requests ≠ [].
Hypothesis Hgen : RequestsPerSocket.gen_ok requests_per_conn_gen.
Context (e : Env).
Hypothesis Hbind_idx : 0 ≤ h3_bind_idx e.
Hypothesis Hdata_idx : 0 ≤ h3_data_idx e.
Hypothesis Hdraw : RequestsPerSocket.fair (h3_draw e).

Lemma get_endpoint_spec :
  aspec (vacant most left_ok k) (get_endpoint e) (λ _, vacant most left_ok k) (failed k) (failed k).
Proof using Hk Hbinds Hbind_idx.
  destruct (vec_produce_at_Ok binds _ Hbinds Hbind_idx) as (bind & _ & Hbind).
  pose proof (vacant_failed (W := W) most left_ok k Hk) as Hf.
  intros w Hw. unfold get_endpoint, get. unfold abind at 1. cbn [res_bind fst snd].
  destruct (endpoint w) as [ep|]; [by eexists _, _|].
  revert w Hw. change (aspec (vacant most left_ok k) (let? bind := lift (vec_produce_at binds (h3_bind_idx e)) in
      let? ep := await (match h3_client e (align_family bind) with Some ep => Ready ep | None => Errored end) in
      let? _ := modify (with_endpoint (Some ep)) in aret ep) (λ _, vacant most left_ok k) (failed k) (failed k)).
  eapply aspec_bind; [by eapply aspec_lift|intros ?].
  eapply aspec_bind; [by apply aspec_await|intros ep].
  eapply aspec_bind; [|intros ?; apply (aspec_ret ep (λ _, vacant most left_ok k))].
  by apply aspec_modify.
Qed.

Lemma h3_reconnect_spec :
  aspec (vacant most left_ok k) (reconnect e) (λ _, connected k) (failed k) (failed k).
Proof using Hk Hk' Hbinds Hbind_idx.
  pose proof (vacant_failed (W := W) most left_ok k Hk) as Hf.
  unfold reconnect. eapply aspec_bind; [apply get_endpoint_spec|intros ?].
  do 2 (eapply aspec_bind; [by apply aspec_await|intros ?]).
  eapply aspec_bind; [apply aspec_modify, (created_connects most left_ok _ h3_left_budget k Hk Hk')|intros ?].
  apply aspec_await; apply (connected_failed most left_ok _ h3_left_budget k Hk).
Qed.

Lemma curr_conn_spec : aspec (idle k) (curr_conn e) (λ _, connected k) (failed k) (failed k).
Proof using Hk Hk' Hbinds Hbind_idx.
  intros w [Hl Hw]. unfold curr_conn, get, modify, abind. cbn [fst snd res_bind].
  cbn [ww_conn ww_count ww_stat http3_worker] in Hl, Hw. destruct (conn w) as [c|].
  - eexists _, _. split; [reflexivity|]. split; [done|]. split; [done|].
    eapply audited_weaken; [apply Hw|done || lia..].
  - apply h3_reconnect_spec. by split.
Qed.

Lemma recv_body_spec P T chunks n : (∀ w, P w → T w) → aspec P (recv_body chunks n) (λ _, P) T T.
Proof using.
  intros HT. revert n. induction chunks as [|chunk chunks IH]; intros n; cbn [recv_body]; [by apply aspec_await|].
  eapply aspec_bind; [by apply aspec_await|intros [m|]]; [apply IH|apply (aspec_ret n (λ _, P))].
Qed.

Lemma h3_perform_request_spec c :
  aspec (connected k) (perform_request e c) (λ _, requested k) (failed k) (failed k).
Proof using Hk Hk' Hrequests Hdata_idx.
  destruct (vec_produce_at_Ok requests _ Hrequests Hdata_idx) as (req & _ & Hreq).
  pose proof (requested_failed (W := W) most left_ok _ h3_left_budget k Hk) as Hf.
  unfold perform_request. eapply aspec_bind; [by eapply aspec_lift|intros ?].
  eapply aspec_bind; [apply aspec_await; apply (connected_failed most left_ok _ h3_left_budget k Hk)|intros ?].
  eapply aspec_bind; [by apply aspec_modify, request_sent|intros ?].
  do 2 (eapply aspec_bind; [by apply aspec_await|intros ?]).
  eapply aspec_bind; [by apply recv_body_spec|intros n].
  eapply (aspec_bind _ _ _ (λ _, requested k)); [|intros ?; apply (aspec_ret _ (λ _, requested k))].
  apply aspec_modify. intros w Hw. apply holding_neutral; [|done].
  intros ???????. destruct (_ <? _); [by apply audited_recv|done].
Qed.

Lemma h3_keep_or_drop_spec c :
  aspec (answered most left_ok (Z.max 1) k) (keep_or_drop e c) (λ _, idle (k + 1)) (λ _, False) (failed k).
Proof using Hgen Hdraw.
  intros w (Hs & Hl & Ha). unfold keep_or_drop. set (n := u64_saturating_sub _ 1).
  assert (left_ok (requests_per_conn_left w)) as Hw by exact Hl. unfold left_ok in Hw.
  assert (left_ok n) as Hn by (unfold left_ok, n, u64_saturating_sub; lia).
  assert (0 < n → n ≤ Z.max 1 (requests_per_conn_left w) - 1) by (unfold n, u64_saturating_sub; lia).
  destruct (Z.ltb_spec 0 n).
  - eexists _, _. split; [reflexivity|]. split; [exact Hn|].
    eapply audited_weaken; [exact Ha|done..|]. cbn. lia.
  - destruct (RequestsPerSocket.next_ok requests_per_conn_gen (h3_draw e) Hgen Hdraw) as (m & Hm & Hr).
    rewrite Hm. eexists _, _. split; [reflexivity|].
    eapply (holding_idle _ _ _ _ (λ _, 0)); [|done]. split; [done|]. split; [exact Hr|].
    eapply audited_weaken; [exact Ha|done..|]. cbn. lia.
Qed.

Lemma http3_execute_spec w : idle k w → ∃ w', http3_execute e w = Ok w' ∧ idle (k + 1) w'.
Proof using All.
  apply web_execute_spec; [done..|]. apply exchange_spec; [done..| | |done|].
  - apply curr_conn_spec.
  - apply h3_perform_request_spec.
  - apply h3_keep_or_drop_spec.
Qed.
End execution.

Definition env_ok e : Prop :=
  0 ≤ h3_bind_idx e ∧ 0 ≤ h3_data_idx e ∧ RequestsPerSocket.fair (h3_draw e).

(** C25: the HTTP/3 worker keeps the same books over QUIC connections: no panic,
    every execution counted exactly once, and no more responses than the
    connections created allow. *)
Theorem http3_accounting draw envs :
  binds ≠ [] → requests ≠ [] → RequestsPerSocket.gen_ok requests_per_conn_gen →
  RequestsPerSocket.fair draw → Forall env_ok envs → Z.of_nat (length envs) < 2 ^ 64 →
  ∃ w w', http3_new draw = Ok w ∧ execute_all envs w = Ok w' ∧
    balanced most (Z.of_nat (length envs)) (h3_stat w').
Proof.
  intros Hb Hr Hg Hdraw He Hlen.
  destruct (RequestsPerSocket.next_ok requests_per_conn_gen draw Hg Hdraw) as (n & Hnext & Hle).
  unfold http3_new. rewrite Hnext. cbn [res_bind]. eexists.
  edestruct (web_run_balanced (H0 := http3_task) most left_ok (Z.max 1) env_ok) as (w' & Hw' & Hi);
    [exact h3_left_budget| |exact He|exact Hlen| |exists w'; split; [reflexivity|split; [exact Hw'|exact Hi]]].
  - intros e k w (? & ? & ?) ? ? ?. by eapply http3_execute_spec.
  - by apply idle_new.
Qed.

(** The QUIC endpoint is bound at most once: a worker that has one keeps it
    and asks for no bind address; otherwise it is bound to the next configured
    address, with an unspecified address turned into the unspecified address of
    the target's family and the port kept, and a failure leaves the worker
    without an endpoint. *)
Theorem endpoint_bound_once e w bind :
  vec_produce_at binds (h3_bind_idx e) = Ok bind →
  get_endpoint e w =
    match endpoint w with
    | Some ep => Ok (w, Ready ep)
    | None =>
        match h3_client e (align_family bind) with
        | Some ep => Ok (with_endpoint (Some ep) w, Ready ep)
        | None => Ok (w, Errored)
        end
    end ∧
  port (align_family bind) = port bind ∧
  (if is_unspecified (ip bind)
   then is_unspecified (ip (align_family bind)) = true ∧ same_family (ip (align_family bind)) (ip addr)
   else align_family bind = bind).
Proof.
  intros Hb. split_and!.
  - unfold get_endpoint, get. unfold abind at 1. cbn [res_bind fst snd].
    destruct (endpoint w) as [ep|]; [done|]. rewrite lift_abind, Hb. cbn [res_bind]. rewrite await_abind.
    by destruct (h3_client e (align_family bind)).
  - unfold align_family. destruct (is_unspecified _); [|done]. by destruct (ip addr).
  - unfold align_family. destruct (is_unspecified _); [|done]. by destruct (ip addr).
Qed.
End http3.

Definition example_env (ok : bool) : Http3Env nat nat nat := {|
  h3_bind_idx := 0; h3_client := λ _, Some 1%nat; h3_connect := λ _, ok; h3_connecting := Ready tt;
  h3_handshake := Ready 2%nat; h3_data_idx := 0; h3_send := λ _ _, Ready tt; h3_finish := Ready tt;
  h3_response := Ready 503; h3_chunks := [Ready (Some 10); Ready None]; h3_elapsed := 9;
  h3_timed_out := 0; h3_draw := λ lo _, lo |}.

Definition example_target : SocketAddr := {| ip := V6 1; port := 443 |}.
Definition example_bind : SocketAddr := {| ip := V4 0; port := 0 |}.

Lemma h3_example_env_ok ok : env_ok (example_env ok).
Proof. split_and!; [done|done|]. intros lo hi H. cbn. lia. Qed.

Lemma http3_accounting_witness :
  ∃ w w', http3_new (Ep := nat) (Conn := nat) (Fixed 1) (λ lo _, lo) = Ok w ∧
    execute_all (H := http3_task (λ x, x) example_target [example_bind] [7%nat] (Fixed 1))
      [example_env true; example_env false] w = Ok w' ∧
    w_num_responses (rx (h3_stat w')) = 1 ∧ w_num_sock_errors (sock (h3_stat w')) = 1.
Proof.
  destruct (http3_accounting (Ep := nat) (Conn := nat) (λ x, x) example_target [example_bind] [7%nat] (Fixed 1)
    (λ lo _, lo) [example_env true; example_env false]) as (w & w' & Hw & Hw' & _);
    [done|done|done|intros lo hi H; lia| |done|].
  { repeat (apply Forall_cons; split; [apply h3_example_env_ok|]). by apply Forall_nil. }
  exists w, w'. split_and!; [exact Hw|exact Hw'|..]; vm_compute in Hw; injection Hw as <-;
    vm_compute in Hw'; by injection Hw' as <-.
Defined.

Lemma endpoint_bound_once_witness :
  is_unspecified (ip (align_family example_target example_bind)) = true ∧
  ip (align_family example_target example_bind) = V6 0.
Proof.
  destruct (endpoint_bound_once (Ep := nat) (Conn := nat) example_target [example_bind] (example_env true)
    {| endpoint := None; conn := None; requests_per_conn_left := 1; h3_stat := default_value |} example_bind)
    as (_ & _ & [H _]); [reflexivity|]. by split.
Defined.
