(* ===== verification/Jsonline.v ===== *)
(** * HTTP payloads ([dwd-core/src/engine/http/payload/jsonline.rs])

    A payload file holds one JSON record per line.  JSON, URIs, methods and
    header names and values are parsed by serde_json and the http crate: their
    functions are parameters, and [HeaderMap] is an interface with the laws its
    documentation states.  A [Vec<u8>] is a list of bytes. *)
From S2P Require Import Prelude.

Abbreviation bytes := (list Z).

(** A byte string literal. *)
Fixpoint b (s : string) : bytes :=
  match s with
  | EmptyString => []
  | String c s => Z.of_nat (Ascii.nat_of_ascii c) :: b s
  end.

Arguments b : simpl never.

Definition CRLF : bytes := [13; 10].
Definition HOST : bytes := b "host".

Record Uri := {
  scheme : option bytes;
  authority : option bytes;
  path : bytes;
  query : option bytes;
}.

(** [http::HeaderMap] with one value per name: [entries] is its iteration. *)
Class HeaderMap (M : Type) := {
  empty_map : M;
  insert_header : bytes → bytes → M → M;
  entries : M → list (bytes * bytes);
  entries_empty : entries empty_map = [];
  entries_insert n v m :
    entries (insert_header n v m) ≡ₚ (n, v) :: filter (λ p, p.1 ≠ n) (entries m);
}.

Record JsonLineRecord (M : Type) := {
  uri : Uri;
  method : bytes;
  host : bytes;
  headers : M;
}.
Arguments uri {M} _.
Arguments method {M} _.
Arguments host {M} _.
Arguments headers {M} _.

(** The head of an [http::Request]. *)
Record Request := {
  req_method : bytes;
  req_uri : Uri;
  req_headers : list (bytes * bytes);
}.

Section deserialize.
Context {M : Type} `{HeaderMap M}.
Context (uri_from_str : bytes → res Uri) (method_from_bytes : bytes → res bytes).
Context (name_from_str value_from_bytes : bytes → res bytes).

Definition is_some {A} (o : option A) : bool := match o with Some _ => true | None => false end.

Definition deserialize_http_uri (v : bytes) : res Uri :=
  let! v := uri_from_str v in
  if is_some (authority v) || is_some (scheme v) then Err "URI must be relative"
  else match path v with [] => Err "URI must have path" | _ => Ok v end.

Definition deserialize_http_method (v : bytes) : res bytes := method_from_bytes v.

(** The loop over the deserialized [HashMap], in its iteration order. *)
Fixpoint header_map_loop (v : list (bytes * bytes)) (headers : M) : res M :=
  match v with
  | [] => Ok headers
  | (name, value) :: v =>
      let! name := name_from_str name in
      let! value := value_from_bytes value in
      header_map_loop v (insert_header name value headers)
  end.

Definition deserialize_http_header_map (v : list (bytes * bytes)) : res M := header_map_loop v empty_map.
End deserialize.

Definition res_of_option {A} (o : option A) : res A :=
  match o with Some a => Ok a | None => Err "None" end.

Section record.
Context {M : Type} `{HeaderMap M}.
Implicit Types r : JsonLineRecord M.

(** [JsonLineRecord::from_fs]; [lines] are the results of reading each line. *)
Definition from_fs {T} (file : res (list (res bytes))) (from_str : bytes → res (JsonLineRecord M))
    (try_into : JsonLineRecord M → res T) : res (list T) :=
  let! lines := file in
  res_mapM (λ line, let! line := line in let! record := from_str line in try_into record) lines.

(** [JsonLineRecord::to_vec]. *)
Definition to_vec r : bytes :=
  method r ++ b " " ++ path (uri r) ++
  match query (uri r) with Some q => b "?" ++ q | None => [] end ++
  b " HTTP/1.1" ++ CRLF ++
  b "Host: " ++ host r ++ CRLF ++
  concat ((λ '(name, value),
    if decide (name = HOST) then [] else name ++ b ": " ++ value ++ CRLF) <$> entries (headers r)) ++
  CRLF.

(** [TryFrom<JsonLineRecord> for Bytes]. *)
Definition raw_request r : res bytes := Ok (to_vec r).

(** [TryFrom<JsonLineRecord> for Request<Empty<Bytes>>]; the builder fails when
    the host is not a header value. *)
Definition hyper_request (valid_value : bytes → bool) r : res Request :=
  if valid_value (host r) then
    Ok {| req_method := method r; req_uri := uri r;
          req_headers := (HOST, host r) :: entries (headers r) |}
  else Err "failed to parse header value".

(** [TryFrom<JsonLineRecord> for Request<()>] (HTTP/3). *)
Definition h3_request (parse_authority : bytes → res bytes) r : res Request :=
  let! a := parse_authority (host r) in
  let uri' := {| scheme := Some (b "https"); authority := Some a;
                 path := path (uri r); query := query (uri r) |} in
  Ok {| req_method := method r; req_uri := uri';
        req_headers := filter (λ p, p.1 ≠ HOST) (entries (headers r)) |}.

(** ** Reading a raw request back *)

(** The pieces between CR LF pairs. *)
Fixpoint split_crlf_from (acc : bytes) (l : bytes) : list bytes :=
  match l with
  | 13 :: ((10 :: l) as tl) => rev acc :: split_crlf_from [] l
  | x :: l => split_crlf_from (x :: acc) l
  | [] => [rev acc]
  end.
Definition split_crlf : bytes → list bytes := split_crlf_from [].

Definition no_cr (l : bytes) : Prop := 13 ∉ l.

Lemma split_crlf_from_line x acc l :
  no_cr x → split_crlf_from acc (x ++ CRLF ++ l) = (rev acc ++ x) :: split_crlf_from [] l.
Proof.
  unfold no_cr. revert acc. induction x as [|c x IH]; intros acc Hx.
  - cbn. by rewrite app_nil_r.
  - apply not_elem_of_cons in Hx as [Hc Hx].
    assert (split_crlf_from acc ((c :: x) ++ CRLF ++ l) = split_crlf_from (c :: acc) (x ++ CRLF ++ l)) as ->.
    { cbn [app split_crlf_from]. destruct c as [|p|p]; try done.
      do 4 (destruct p as [p|p|]; try done). }
    rewrite IH by done. cbn [rev]. by rewrite <-app_assoc.
Qed.

Lemma split_crlf_line x l : no_cr x → split_crlf (x ++ CRLF ++ l) = x :: split_crlf l.
Proof. apply split_crlf_from_line. Qed.

Lemma split_crlf_lines (ls : list bytes) l :
  Forall no_cr ls → split_crlf (concat ((λ x, x ++ CRLF) <$> ls) ++ l) = ls ++ split_crlf l.
Proof.
  induction 1 as [|x ls Hx _ IH]; [done|]. csimpl. cbn [concat app].
  rewrite <-!app_assoc, split_crlf_line by done. by rewrite IH.
Qed.

Definition request_line r : bytes :=
  method r ++ b " " ++ path (uri r) ++
  match query (uri r) with Some q => b "?" ++ q | None => [] end ++ b " HTTP/1.1".

Definition header_line (p : bytes * bytes) : bytes := p.1 ++ b ": " ++ p.2.

Definition clean r : Prop :=
  no_cr (request_line r) ∧ no_cr (b "Host: " ++ host r) ∧
  Forall (λ p, no_cr (header_line p)) (entries (headers r)).

Lemma header_lines_concat l :
  concat ((λ '(name, value), if decide (name = HOST) then [] else name ++ b ": " ++ value ++ CRLF) <$> l) =
  concat ((λ x, x ++ CRLF) <$> (header_line <$> filter (λ p, p.1 ≠ HOST) l)).
Proof.
  induction l as [|[n v] l IH]; [done|]. rewrite filter_cons, fmap_cons. cbn [concat fst].
  destruct (decide (n = HOST)) as [->|Hn].
  - by rewrite decide_False by (intros Hne; by apply Hne).
  - rewrite decide_True by done. rewrite !fmap_cons. cbn [concat]. rewrite IH.
    unfold header_line at 2. cbn [fst snd]. by rewrite <-!app_assoc.
Qed.

Lemma to_vec_lines r :
  to_vec r =
    concat ((λ x, x ++ CRLF) <$>
      ([request_line r; b "Host: " ++ host r] ++
       (header_line <$> filter (λ p, p.1 ≠ HOST) (entries (headers r))) ++ [[]])).
Proof.
  unfold to_vec. rewrite header_lines_concat, !fmap_app, !concat_app. cbn [fmap list_fmap concat].
  unfold request_line. by rewrite !app_nil_r, <-!app_assoc.
Qed.

(** C39: the raw request built from a record reads back, line by line, as the
    request line, the record's own host, the record's headers in order without
    any [Host] among them, and the empty line that ends the head; nothing
    follows. *)
Theorem raw_request_reads_back r :
  clean r →
  split_crlf (to_vec r) =
    [request_line r; b "Host: " ++ host r] ++
    (header_line <$> filter (λ p, p.1 ≠ HOST) (entries (headers r))) ++ [[]; []].
Proof.
  intros (H1 & H2 & H3). rewrite to_vec_lines, <-(app_nil_r (concat _)), split_crlf_lines.
  - by rewrite <-!app_assoc.
  - repeat (apply Forall_cons; split; [done|]). apply Forall_app. split.
    + apply Forall_fmap, Forall_forall. intros p [_ Hp]%list_elem_of_filter.
      rewrite Forall_forall in H3. by apply H3.
    + apply Forall_singleton. apply not_elem_of_nil.
Qed.

(** A [Host] inside the record's headers is dropped by the raw and the
    HTTP/3 requests, but the HTTP/1 request of the hyper engine carries it next
    to the record's host. *)
Theorem host_header_kept_by_hyper r v valid authority_of q h :
  (HOST, v) ∈ entries (headers r) →
  hyper_request valid r = Ok q → h3_request authority_of r = Ok h →
  (HOST, host r) ∈ req_headers q ∧ (HOST, v) ∈ req_headers q ∧
  (2 ≤ length (filter (λ p, p.1 = HOST) (req_headers q)))%nat ∧
  (∀ w, (HOST, w) ∉ req_headers h) ∧
  authority (req_uri q) = authority (uri r) ∧
  authority_of (host r) = res_of_option (authority (req_uri h)).
Proof.
  intros Hv Hq Hh. unfold hyper_request, h3_request in *. destruct (valid (host r)); [|done]. res_inv.
  cbn [req_headers req_uri authority]. split_and!; [by left|by right| |intros w|done|done].
  - rewrite filter_cons, decide_True by done. cbn [length].
    assert ((HOST, v) ∈ filter (λ p, p.1 = HOST) (entries (headers r))) as Hin by
      (by apply list_elem_of_filter).
    destruct (filter _ (entries (headers r))); [by apply elem_of_nil in Hin|cbn; lia].
  - intros [Hne _]%list_elem_of_filter. by apply Hne.
Qed.
End record.

(** Headers kept in insertion order. *)
#[export, refine] Instance list_header_map : HeaderMap (list (bytes * bytes)) := {|
  empty_map := [];
  insert_header n v m := (n, v) :: filter (λ p, p.1 ≠ n) m;
  entries m := m;
|}.
Proof. all: done. Defined.

Definition example_record : JsonLineRecord (list (bytes * bytes)) := {|
  uri := {| scheme := None; authority := None; path := b "/ping"; query := Some (b "x=1") |};
  method := b "GET"; host := b "real.host";
  headers := [(b "x-test", b "1"); (HOST, b "ignored.host")] |}.

Lemma raw_request_reads_back_witness :
  split_crlf (to_vec example_record) =
    [b "GET /ping?x=1 HTTP/1.1"; b "Host: real.host"; b "x-test: 1"; []; []].
Proof.
  rewrite (raw_request_reads_back example_record); [vm_compute; reflexivity|].
  split_and!; [by apply (bool_decide_unpack _); vm_compute..|].
  repeat (apply Forall_cons; split; [by apply (bool_decide_unpack _); vm_compute|]). by apply Forall_nil.
Defined.

Lemma host_header_kept_by_hyper_witness :
  ∃ q, hyper_request (λ _, true) example_record = Ok q ∧ (HOST, b "ignored.host") ∈ req_headers q.
Proof.
  eexists. split; [reflexivity|].
  eapply (host_header_kept_by_hyper example_record (b "ignored.host") (λ _, true) Ok); [|reflexivity..].
  by apply (bool_decide_unpack _); vm_compute.
Defined.
