(* ===== verification/Dpdk.v ===== *)
(** * The DPDK engine ([dwd-core/src/worker/dpdk.rs], [dpdk/src/cpu.rs])

    A worker owns a core, a pair of queues and the packets of the capture dealt
    to it, which it sends over and over.  The driver is an environment: it says
    how many packets it takes of a burst and how many of the packets in flight
    it has finished with, dropping one reference of each. *)
From S2P Require Import Prelude Machine F64 Time Rounding Histogram Stat Shaper Task Conformance.

Definition MBUFS_COUNT : Z := 256 * 1024.
Definition PORT_TX_QUEUE_SIZE : Z := 1024.

(** ** Cores *)

(** [CoreId] is deserialized from the configuration without the check of
    [CoreId::new]. *)
Abbreviation CoreId := Z (only parsing).

Definition core_id_new (id : Z) : res CoreId :=
  if id <? 128 then Ok id else Panic "assertion failed: id < 128".

Module CoreMask.
(** [*v |= 1u128 << id]; a release build masks the shift. *)
Definition add (v : Z) (id : CoreId) : Z :=
  Z.lor v (Z.shiftl 1 (id `mod` 128)).
End CoreMask.

Record Config := {
  main_lcore : CoreId;
  ports : list (string * list CoreId);    (* in the iteration order of the map *)
}.

Definition cores (cfg : Config) : list CoreId := concat (snd <$> ports cfg).

Definition cores_count (cfg : Config) : nat := size (list_to_set (cores cfg) : gset Z).

Definition core_mask (cfg : Config) : Z :=
  foldl CoreMask.add (CoreMask.add 0 (main_lcore cfg)) (cores cfg).

Lemma mask_add_testbit v id n :
  0 ≤ n → Z.testbit (CoreMask.add v id) n = Z.testbit v n || (n =? id `mod` 128).
Proof.
  intros Hn. unfold CoreMask.add. pose proof (Z.mod_pos_bound id 128 ltac:(lia)).
  rewrite Z.lor_spec, Z.shiftl_1_l, Z.pow2_bits_eqb by lia. f_equal. by rewrite Z.eqb_sym.
Qed.

Lemma mask_fold_testbit ids v n :
  0 ≤ n → Z.testbit (foldl CoreMask.add v ids) n = Z.testbit v n || existsb (λ id, n =? id `mod` 128) ids.
Proof.
  intros Hn. revert v. induction ids as [|id ids IH]; intros v; cbn [foldl existsb].
  - by rewrite orb_false_r.
  - by rewrite IH, mask_add_testbit, orb_assoc by done.
Qed.

(** The bits of the mask: the main core and the ports' cores, each modulo the
    width of the mask. *)
Lemma core_mask_testbit cfg n :
  0 ≤ n → Z.testbit (core_mask cfg) n = true ↔ ∃ id, id ∈ main_lcore cfg :: cores cfg ∧ n = id `mod` 128.
Proof.
  intros Hn. unfold core_mask. rewrite mask_fold_testbit, mask_add_testbit by done.
  rewrite Z.bits_0, orb_false_l.
  change (_ || _) with (existsb (λ id, n =? id `mod` 128) (main_lcore cfg :: cores cfg)).
  rewrite existsb_exists. setoid_rewrite Z.eqb_eq. setoid_rewrite <-list_elem_of_In. done.
Qed.

(** The mask of the layer has exactly the bits of the configured cores when they
    are below 128; the configuration file does not check that (the numbers are
    not built by [CoreId::new]), and a larger one selects another core. *)
Theorem core_mask_bits cfg :
  (Forall (λ id, 0 ≤ id < 128) (main_lcore cfg :: cores cfg) →
     ∀ n, 0 ≤ n → Z.testbit (core_mask cfg) n = true ↔ n ∈ main_lcore cfg :: cores cfg) ∧
  (∀ id, id ∈ cores cfg → Z.testbit (core_mask cfg) (id `mod` 128) = true).
Proof.
  split.
  - intros Hall n Hn. rewrite core_mask_testbit by done. rewrite Forall_forall in Hall. split.
    + intros (id & Hid & ->). rewrite Z.mod_small; auto.
    + intros Hid. exists n. rewrite Z.mod_small by auto. done.
  - intros id Hid. apply core_mask_testbit; [by apply Z.mod_pos_bound|]. exists id. split; [by right|done].
Qed.

(** ** Loading the capture *)

(** What the driver keeps of a packet: the length appended to the buffer, how
    many bytes were copied into it, and its reference count. *)
Record Mbuf := { pkt_len : Z; written : Z; refcnt : Z }.

Record Block := { caplen : Z; block_data : list Z }.

Section load.
(** [MutableEthernetPacket::new] accepts the bytes; the allocation of the [i]-th
    buffer succeeds; a buffer has room for a length. *)
Context (ethernet : list Z → bool) (alloc : nat → bool) (append : Z → bool).

Definition load_block (idx : nat) (block : Block) : res Mbuf :=
  if negb (Z.of_nat (length (block_data block)) =? caplen block) then Panic "source slice length does not match"
  else if negb (ethernet (block_data block)) then Panic "called `Option::unwrap()` on a `None` value"
  else if negb (alloc idx) then Err "out of memory"
  else if negb (append (as_u16 (caplen block))) then Err "out of memory"
  else Ok {| pkt_len := as_u16 (caplen block); written := caplen block; refcnt := 1 |}.

(** The loop of [load_pcap] over the blocks; [workers] holds the packets of each
    core's worker. *)
Fixpoint load_pcap (idx : nat) (cores : list CoreId) (blocks : list Block)
    (workers : gmap Z (list Mbuf)) : res (gmap Z (list Mbuf)) :=
  match blocks with
  | [] => Ok workers
  | block :: blocks =>
      let! i := u64_rem (Z.of_nat idx) (Z.of_nat (length cores)) in
      match cores !! Z.to_nat i with
      | None => Panic "index out of bounds"
      | Some core =>
          match workers !! core with
          | None => Panic "called `Option::unwrap()` on a `None` value"
          | Some mbufs =>
              let! mbuf := load_block idx block in
              if Z.of_nat (length mbufs) <? MBUFS_COUNT
              then load_pcap (S idx) cores blocks (<[core := mbufs ++ [mbuf]]> workers)
              else Panic "index out of bounds"
          end
      end
  end.

(** The elements whose position is [t] modulo [n]. *)
Fixpoint share {A} (idx n t : nat) (l : list A) : list A :=
  match l with
  | [] => []
  | x :: l => if decide (idx `mod` n = t)%nat then x :: share (S idx) n t l else share (S idx) n t l
  end.

Lemma share_short {A} (l : list A) idx n t : (idx + length l ≤ t < n)%nat → share idx n t l = [].
Proof.
  revert idx. induction l as [|x l IH]; intros idx Ht; [done|]. cbn [share]. cbn [length] in Ht.
  rewrite decide_False by (rewrite Nat.mod_small; lia). apply IH. lia.
Qed.

Definition loaded (block : Block) : Mbuf :=
  {| pkt_len := as_u16 (caplen block); written := caplen block; refcnt := 1 |}.

(** Blocks that can be loaded. *)
Definition block_ok (block : Block) : Prop :=
  Z.of_nat (length (block_data block)) = caplen block ∧ ethernet (block_data block) = true ∧
  append (as_u16 (caplen block)) = true.

Lemma load_pcap_ok cores blocks idx workers :
  NoDup cores → cores ≠ [] → (∀ i, alloc i = true) → Forall block_ok blocks →
  (∀ core, core ∈ cores → ∃ l, workers !! core = Some l ∧
    Z.of_nat (length l) + Z.of_nat (length blocks) ≤ MBUFS_COUNT) →
  ∃ workers', load_pcap idx cores blocks workers = Ok workers' ∧
    ∀ t core l, cores !! t = Some core → workers !! core = Some l →
      workers' !! core = Some (l ++ (loaded <$> share idx (length cores) t blocks)).
Proof.
  intros Hnd Hne Halloc. revert idx workers. induction blocks as [|block blocks IH]; intros idx workers Hb Hw.
  { exists workers. split; [done|]. intros t core l _ Hl. csimpl. by rewrite app_nil_r. }
  apply Forall_cons in Hb as [(H1 & H2 & H3) Hb].
  assert (0 < length cores)%nat by (destruct cores; [done|cbn; lia]).
  assert ((idx `mod` length cores < length cores)%nat) as Hlt by (apply Nat.mod_upper_bound; lia).
  destruct (lookup_lt_is_Some_2 _ _ Hlt) as [core Hcore].
  destruct (Hw core) as (mbufs & Hmb & Hlen); [by eapply list_elem_of_lookup_2|]. cbn [length] in Hlen.
  cbn [load_pcap]. unfold u64_rem. destruct (Z.eqb_spec (Z.of_nat (length cores)) 0); [lia|]. cbn [res_bind].
  rewrite <-Nat2Z.inj_mod, Nat2Z.id, Hcore, Hmb. unfold load_block. rewrite H1, Z.eqb_refl, H2, Halloc, H3.
  cbn [negb res_bind]. destruct (Z.ltb_spec (Z.of_nat (length mbufs)) MBUFS_COUNT); [|lia].
  destruct (IH (S idx) (<[core := mbufs ++ [loaded block]]> workers) Hb) as (ws & Hws & Hspec).
  - intros c Hc. destruct (Hw c Hc) as (l & Hl & Hll). cbn [length] in Hll. destruct (decide (c = core)) as [->|Hne'].
    + rewrite lookup_insert_eq. eexists. split; [done|]. rewrite length_app. cbn [length].
      replace l with mbufs in * by congruence. lia.
    + rewrite lookup_insert_ne by done. exists l. split; [done|lia].
  - exists ws. split; [exact Hws|]. intros t c l Ht Hl. cbn [share].
    destruct (decide ((idx `mod` length cores)%nat = t)) as [<-|Hnt].
    + replace c with core in * by congruence. replace l with mbufs in * by congruence.
      rewrite (Hspec _ _ (mbufs ++ [loaded block]) Hcore) by apply lookup_insert_eq.
      csimpl. by rewrite <-app_assoc.
    + assert (c ≠ core) by (intros ->; by pose proof (NoDup_lookup _ _ _ _ Hnd Hcore Ht)).
      apply (Hspec t c l Ht). by rewrite lookup_insert_ne.
Qed.

(** The packets of the capture are dealt to the cores in turn, each to
    exactly one worker, which holds its share in the order of the capture; with
    fewer packets than cores the last workers get none. *)
Theorem load_pcap_deals cores blocks :
  NoDup cores → cores ≠ [] → (∀ i, alloc i = true) → Forall block_ok blocks →
  Z.of_nat (length blocks) ≤ MBUFS_COUNT →
  ∃ workers, load_pcap 0 cores blocks (gset_to_gmap [] (list_to_set cores)) = Ok workers ∧
    ∀ t core, cores !! t = Some core →
      workers !! core = Some (loaded <$> share 0 (length cores) t blocks) ∧
      ((length blocks ≤ t)%nat → workers !! core = Some []).
Proof.
  intros Hnd Hne Ha Hb Hlen.
  assert (∀ core, core ∈ cores → gset_to_gmap ([] : list Mbuf) (list_to_set cores) !! core = Some []) as Hnew.
  { intros core Hc. apply lookup_gset_to_gmap_Some. split; [by apply elem_of_list_to_set|done]. }
  destruct (load_pcap_ok cores blocks 0 (gset_to_gmap [] (list_to_set cores)) Hnd Hne Ha Hb) as (ws & Hws & Hspec).
  { intros core Hc. exists []. split; [by apply Hnew|cbn; lia]. }
  exists ws. split; [exact Hws|]. intros t core Ht.
  assert (core ∈ cores) by (by eapply list_elem_of_lookup_2).
  pose proof (Hspec t core [] Ht (Hnew core H)) as Hc. split; [exact Hc|]. intros Hlt.
  rewrite Hc, share_short; [done|]. apply lookup_lt_Some in Ht. lia.
Qed.

(** The length of a packet is truncated to 16 bits where the buffer is
    sized but not where it is filled: a packet of 64 KiB or more is accepted
    when its truncated length fits, and more bytes are copied than the buffer
    was extended by. *)
Theorem oversized_packet_overflows idx block mbuf :
  0 ≤ caplen block < 2 ^ 32 → load_block idx block = Ok mbuf →
  (caplen block < 2 ^ 16 → written mbuf = pkt_len mbuf) ∧
  (2 ^ 16 ≤ caplen block → pkt_len mbuf < 2 ^ 16 ≤ written mbuf).
Proof.
  intros Hc. unfold load_block. repeat (case_match; [done|]). intros [= <-].
  cbn [written pkt_len]. unfold as_u16. split; intros Hs; [by rewrite Z.mod_small by lia|].
  pose proof (Z.mod_pos_bound (caplen block) (2 ^ 16)). lia.
Qed.
End load.

Lemma load_pcap_deals_witness :
  let block := {| caplen := 2; block_data := [1; 2] |} in
  ∃ workers, load_pcap (λ _, true) (λ _, true) (λ _, true) 0 [4; 7] [block; block; block]
      (gset_to_gmap [] (list_to_set [4; 7])) = Ok workers ∧
    workers !! 4 = Some [loaded block; loaded block] ∧ workers !! 7 = Some [loaded block].
Proof.
  intros block.
  destruct (load_pcap_deals (λ _, true) (λ _, true) (λ _, true) [4; 7] [block; block; block]) as (ws & Hws & Hs);
    [by apply (bool_decide_unpack _); vm_compute|done|done| |done|].
  { repeat (apply Forall_cons; split; [done|]). by apply Forall_nil. }
  exists ws. split; [exact Hws|].
  split; [apply (Hs 0%nat 4 eq_refl)|apply (Hs 1%nat 7 eq_refl)].
Defined.

Lemma oversized_packet_overflows_witness :
  ∃ data mbuf,
    load_block (λ _, true) (λ _, true) (λ n, n <=? 10112) 0 {| caplen := 65546; block_data := data |} = Ok mbuf ∧
    pkt_len mbuf < 2 ^ 16 ≤ written mbuf.
Proof.
  assert (∃ data : list Z, Z.of_nat (length data) = 65546) as [data Hd].
  { exists (replicate (Z.to_nat 65546) 0). by rewrite length_replicate, Z2Nat.id. }
  assert (load_block (λ _, true) (λ _, true) (λ n, n <=? 10112) 0 {| caplen := 65546; block_data := data |} =
    Ok {| pkt_len := 10; written := 65546; refcnt := 1 |}) as Hb.
  { unfold load_block. cbn [block_data caplen]. by rewrite Hd. }
  exists data. eexists. split; [exact Hb|].
  refine (proj2 (oversized_packet_overflows _ _ _ _ _ _ _ Hb) _); [split|]; done.
Defined.

(** ** The worker *)

Definition DpdkWorkerStat : Type := PerCpuStat TxWorkerStat unit unit unit BurstTxWorkerStat.

Record Worker := {
  mbufs : list Mbuf;             (* the first [mbufs_count] entries *)
  ring : list nat;               (* packets in flight in the driver, oldest first *)
  packets_count_tx : Z;
  d_shaper : Shaper;
  d_stat : DpdkWorkerStat;
}.

(** What an iteration of the loop reads from outside: the clock and the limit of
    the shaper, how many packets in flight the driver has finished with, and
    how many of a burst it takes. *)
Record Tick := {
  now : Instant;
  limit : Z;
  finished : nat;
  taken : Z → Z;
}.

Definition worker_new (shaper : Shaper) (mbufs : list Mbuf) : Worker :=
  {| mbufs := mbufs; ring := []; packets_count_tx := 0; d_shaper := shaper; d_stat := default_value |}.

(** [rte_mbuf_refcnt_set]. *)
Definition refcnt_set (v : Z) (m : Mbuf) : Mbuf :=
  {| pkt_len := pkt_len m; written := written m; refcnt := v |}.

(** The driver drops its reference of a packet it has sent. *)
Definition release (l : list Mbuf) (i : nat) : list Mbuf := alter (λ m, refcnt_set (refcnt m - 1) m) i l.

(** [rte_eth_tx_burst] of [n] packets from position [pos]. *)
Definition tx_burst (fin : nat) (pos n : nat) (w : Worker) : Worker :=
  {| mbufs := foldl release (mbufs w) (take fin (ring w)); ring := drop fin (ring w) ++ seq pos n;
     packets_count_tx := packets_count_tx w; d_shaper := d_shaper w; d_stat := d_stat w |}.

(** [u64::is_multiple_of]. *)
Definition is_multiple_of (a b : Z) : bool := if b =? 0 then a =? 0 else a `mod` b =? 0.

Definition REFCNT : Z := 16 * 1024 + 1024.

(** The top of the loop: the references are renewed once per 16 * 1024 rounds of
    the capture. *)
Definition renew_references (w : Worker) : Worker :=
  if is_multiple_of (packets_count_tx w) (u64_mul (u64_mul (Z.of_nat (length (mbufs w))) 16) 1024)
  then {| mbufs := refcnt_set REFCNT <$> mbufs w; ring := ring w; packets_count_tx := packets_count_tx w;
          d_shaper := d_shaper w; d_stat := d_stat w |}
  else w.

(** [count] of a burst. *)
Definition burst_count (mbufs_count pos tokens : Z) : Z :=
  as_u16 (Z.min (Z.min 32 (mbufs_count - pos)) tokens).

(** One iteration of [Worker::run]. *)
Definition dpdk_iteration (t : Tick) (w : Worker) : res Worker :=
  let w := renew_references w in
  let '(sh, tokens) := Shaper.tick (d_shaper w) (now t) (limit t) in
  let w := {| mbufs := mbufs w; ring := ring w; packets_count_tx := packets_count_tx w;
              d_shaper := sh; d_stat := d_stat w |} in
  if 0 <? tokens then
    let mbufs_count := Z.of_nat (length (mbufs w)) in
    let! pos := u64_rem (packets_count_tx w) mbufs_count in
    let tx_size := taken t (burst_count mbufs_count pos tokens) in
    let w := tx_burst (finished t) (Z.to_nat pos) (Z.to_nat tx_size) w in
    if 0 <? tx_size then
      let bytes := u64_sum (pkt_len <$> take (Z.to_nat tx_size) (drop (Z.to_nat pos) (mbufs w))) in
      let! stat := on_bursts_tx tx_size (on_requests tx_size (d_stat w)) in
      Ok {| mbufs := mbufs w; ring := ring w; packets_count_tx := u64_add (packets_count_tx w) tx_size;
            d_shaper := Shaper.consume sh tokens; d_stat := on_send bytes stat |}
    else Ok w
  else Ok w.

(** Helpers on positions in the capture and on references. *)
Lemma length_release l ids : length (foldl release l ids) = length l.
Proof. revert l. induction ids as [|i ids IH]; intros l; [done|]. cbn. rewrite IH. apply length_alter. Qed.

Definition occurrences (i : nat) (l : list nat) : Z := Z.of_nat (length (filter (λ j, j = i) l)).

Lemma occurrences_app i l k : occurrences i (l ++ k) = occurrences i l + occurrences i k.
Proof. unfold occurrences. rewrite filter_app, length_app. lia. Qed.

Lemma occurrences_cons i j l : occurrences i (j :: l) = (if decide (j = i) then 1 else 0) + occurrences i l.
Proof. unfold occurrences. rewrite filter_cons. destruct (decide (j = i)); cbn [length]; lia. Qed.

Lemma occurrences_bounds i l : 0 ≤ occurrences i l ≤ Z.of_nat (length l).
Proof. unfold occurrences. pose proof (length_filter (λ j, j = i) l). lia. Qed.

Lemma occurrences_seq i pos n :
  occurrences i (seq pos n) = if decide (pos ≤ i < pos + n)%nat then 1 else 0.
Proof.
  revert pos. induction n as [|n IH]; intros pos; cbn [seq].
  - by rewrite decide_False by lia.
  - rewrite occurrences_cons, IH. destruct (decide (pos = i)) as [->|].
    + rewrite decide_False, decide_True by lia. lia.
    + destruct (decide (S pos ≤ i < S pos + n)%nat), (decide (pos ≤ i < pos + S n)%nat); lia.
Qed.

Lemma release_lookup l ids i m' :
  foldl release l ids !! i = Some m' →
  ∃ m, l !! i = Some m ∧ refcnt m' = refcnt m - occurrences i ids ∧ pkt_len m' = pkt_len m.
Proof.
  revert l. induction ids as [|j ids IH]; intros l Hl; cbn [foldl] in Hl.
  - exists m'. change (occurrences i []) with 0. split_and!; [done|lia|done].
  - destruct (IH _ Hl) as (m & Hm & Hr & Hp). unfold release in Hm. rewrite occurrences_cons.
    destruct (decide (j = i)) as [->|Hne].
    + rewrite list_lookup_alter, decide_True in Hm by done.
      apply fmap_Some in Hm as (m0 & Hm0 & ->). exists m0. cbn [refcnt refcnt_set pkt_len] in *.
      split_and!; [done|lia|done].
    + rewrite list_lookup_alter, decide_False in Hm by done. exists m. split_and!; [done|lia|done].
Qed.

Lemma pkt_len_release l ids : pkt_len <$> foldl release l ids = pkt_len <$> l.
Proof.
  revert l. induction ids as [|i ids IH]; intros l; [done|]. cbn [foldl]. rewrite IH. unfold release.
  revert i. induction l as [|m l IHl]; intros [|i]; [done..|]. csimpl. f_equal. apply IHl.
Qed.

Lemma pkt_len_renew w : pkt_len <$> mbufs (renew_references w) = pkt_len <$> mbufs w.
Proof. unfold renew_references. destruct (is_multiple_of _ _); [|done]. cbn. by rewrite <-list_fmap_compose. Qed.

Lemma length_renew w : length (mbufs (renew_references w)) = length (mbufs w).
Proof. unfold renew_references. destruct (is_multiple_of _ _); [|done]. apply length_fmap. Qed.

Lemma renew_rest w :
  ring (renew_references w) = ring w ∧ packets_count_tx (renew_references w) = packets_count_tx w ∧
  d_shaper (renew_references w) = d_shaper w ∧ d_stat (renew_references w) = d_stat w.
Proof. unfold renew_references. by destruct (is_multiple_of _ _). Qed.

(** A worker with packets, far from the wrap of its counter. *)
Definition worker_ok (w : Worker) : Prop :=
  mbufs w ≠ [] ∧ Z.of_nat (length (mbufs w)) ≤ MBUFS_COUNT ∧
  length (w_bursts (bursts_tx (d_stat w))) = 32%nat ∧ 0 ≤ packets_count_tx w < 2 ^ 64 - 32.

(** The driver takes no more of a burst than it is offered. *)
Definition driver_ok (t : Tick) : Prop := ∀ c, 0 ≤ c → 0 ≤ taken t c ≤ c.

Definition position (w : Worker) : Z := packets_count_tx w `mod` Z.of_nat (length (mbufs w)).

Lemma burst_count_bounds M pos tokens :
  0 ≤ pos < M → 0 < tokens → 0 < burst_count M pos tokens ≤ Z.min 32 tokens ∧
  pos + burst_count M pos tokens ≤ M.
Proof. intros Hp Ht. unfold burst_count, as_u16. rewrite Z.mod_small; lia. Qed.

(** The packets offered to the driver: what a burst holds, the capture has left
    and the shaper grants. *)
Definition offered (w : Worker) (tokens : Z) : Z :=
  Z.min (Z.min 32 (Z.of_nat (length (mbufs w)) - position w)) tokens.

Lemma burst_count_offered w tokens :
  mbufs w ≠ [] → 0 < tokens → burst_count (Z.of_nat (length (mbufs w))) (position w) tokens = offered w tokens.
Proof.
  intros Hm Ht. assert (0 < length (mbufs w))%nat by (destruct (mbufs w); [done|cbn; lia]).
  pose proof (Z.mod_pos_bound (packets_count_tx w) (Z.of_nat (length (mbufs w))) ltac:(lia)).
  unfold burst_count, offered, as_u16, position in *. rewrite Z.mod_small; lia.
Qed.

(** What an iteration does, with the number [n] of packets sent. *)
Lemma dpdk_iteration_cases t w :
  worker_ok w → driver_ok t →
  let '(sh, tokens) := Shaper.tick (d_shaper w) (now t) (limit t) in
  ∃ w' n, dpdk_iteration t w = Ok w' ∧
    0 ≤ n ≤ Z.min 32 (Z.max 0 tokens) ∧ position w + n ≤ Z.of_nat (length (mbufs w)) ∧
    packets_count_tx w' = packets_count_tx w + n ∧
    (0 < tokens → mbufs w' = foldl release (mbufs (renew_references w)) (take (finished t) (ring w)) ∧
      ring w' = drop (finished t) (ring w) ++ seq (Z.to_nat (position w)) (Z.to_nat n)) ∧
    (tokens ≤ 0 → mbufs w' = mbufs (renew_references w) ∧ ring w' = ring w) ∧
    d_shaper w' = (if 0 <? n then Shaper.consume sh tokens else sh) ∧
    (n = 0 → d_stat w' = d_stat w) ∧
    (0 < n → ∃ stat, on_bursts_tx n (on_requests n (d_stat w)) = Ok stat ∧
      d_stat w' = on_send (u64_sum (take (Z.to_nat n) (drop (Z.to_nat (position w)) (pkt_len <$> mbufs w)))) stat) ∧
    n = (if 0 <? tokens then taken t (offered w tokens) else 0).
Proof.
  intros (Hm & HM & Hb & HP) Hd. pose proof (λ tokens, burst_count_offered w tokens Hm) as Hoff.
  unfold dpdk_iteration, position in *.
  destruct (renew_rest w) as (Hr & Hp & Hs & Hst). cbv zeta. rewrite Hr, Hp, Hs, Hst.
  destruct (Shaper.tick (d_shaper w) (now t) (limit t)) as [sh tokens].
  assert (0 < length (mbufs w))%nat as HM0 by (destruct (mbufs w); [done|cbn; lia]).
  cbn [mbufs ring packets_count_tx d_shaper d_stat]. rewrite length_renew.
  pose proof (Z.mod_pos_bound (packets_count_tx w) (Z.of_nat (length (mbufs w))) ltac:(lia)) as Hpos.
  destruct (Z.ltb_spec 0 tokens) as [Ht|Ht].
  2: { eexists _, 0. split; [reflexivity|]. cbn [mbufs ring packets_count_tx d_shaper d_stat]. split_and!; try done; lia. }
  specialize (Hoff tokens Ht). unfold u64_rem. destruct (Z.eqb_spec (Z.of_nat (length (mbufs w))) 0) as [?|_]; [lia|]. cbn [res_bind].
  set (pos := packets_count_tx w `mod` _) in *.
  destruct (burst_count_bounds (Z.of_nat (length (mbufs w))) pos tokens Hpos Ht) as [Hc Hpc].
  pose proof (Hd (burst_count (Z.of_nat (length (mbufs w))) pos tokens) ltac:(lia)) as Hn.
  rewrite <-Hoff. set (n := taken t _) in *. destruct (Z.ltb_spec 0 n) as [Hn0|Hn0].
  - assert (∃ stat, on_bursts_tx n (on_requests n (d_stat w)) = Ok stat) as [stat Hstat].
    { unfold on_bursts_tx. rewrite as_u64_id by (unfold is_u64; lia). cbn [bursts_tx on_requests set_tx].
      destruct (lookup_lt_is_Some_2 (w_bursts (bursts_tx (d_stat w))) (Z.to_nat (n - 1))) as [x ->]; [lia|by eexists]. }
    cbn [tx_burst mbufs ring packets_count_tx d_stat]. rewrite Hstat. cbn [res_bind].
    eexists _, n. split; [reflexivity|]. cbn [mbufs ring packets_count_tx d_shaper d_stat].
    destruct (Z.ltb_spec 0 n); [|lia]. rewrite u64_add_id by lia. split_and!; try done; try lia.
    intros _. exists stat. split; [done|].
    by rewrite fmap_take, fmap_drop, pkt_len_release, pkt_len_renew.
  - eexists _, 0. split; [reflexivity|]. cbn [tx_burst mbufs ring packets_count_tx d_shaper d_stat].
    replace n with 0 by lia. split_and!; try done; lia.
Qed.

(** As a shaped worker: a round is an iteration, its operations the packets the
    driver took. *)
Definition dpdk_round (w : Worker) (now : Instant) (limit : Z) (env : nat → nat * (Z → Z)) : res (Worker * Z) :=
  let! w' := dpdk_iteration {| now := now; limit := limit; finished := fst (env 0%nat); taken := snd (env 0%nat) |} w in
  Ok (w', as_u64 (packets_count_tx w' - packets_count_tx w)).

#[export] Instance dpdk_rate_worker : RateWorker Worker (nat * (Z → Z)) := {|
  worker_shaper := d_shaper;
  worker_round := dpdk_round;
  round_env_ok env := ∀ c, 0 ≤ c → 0 ≤ snd (env 0%nat) c ≤ c;
|}.

(** Fewer operations than were taken from the bucket. *)
Lemma round_above_le B sh now limit sh' n k :
  n ≤ k → round_above B sh now limit sh' k → round_above B sh now limit sh' n.
Proof.
  intros Hn (Hb & Hp & Ha). split_and!; [done..|]. etrans; [|exact Ha].
  apply Z.mul_le_mono_nonneg_r; [done|]. pose proof one_pos. nia.
Qed.

#[export] Instance dpdk_rate_worker_laws : RateWorkerLaws Worker (nat * (Z → Z)).
Proof.
  split. cbn [worker_shaper worker_round round_env_ok dpdk_rate_worker].
  intros B w now limit env w' n HB Hb Hl Hd Hel Hr.
  pose proof (tick_round_above B HB (d_shaper w) now limit Hb Hl Hel) as H0.
  pose proof (consume_round_above B HB (d_shaper w) now limit Hb Hl Hel (Shaper.tick (d_shaper w) now limit).2) as H1.
  pose proof (tick_le_limit (d_shaper w) now limit (proj1 Hb) ltac:(lia) Hel) as Hn.
  unfold dpdk_round in Hr. apply res_bind_Ok in Hr as (w1 & Hr & [= -> <-]).
  unfold dpdk_iteration in Hr. destruct (renew_rest w) as (_ & Hp & Hs & _). cbv zeta in Hr. rewrite Hs in Hr.
  cbn [Dpdk.now Dpdk.limit Dpdk.finished Dpdk.taken] in Hr.
  destruct (Shaper.tick (d_shaper w) now limit) as [sh k]. cbn [fst snd packets_count_tx mbufs] in *. rewrite Hp in Hr.
  destruct (Z.ltb_spec 0 k) as [Hk|Hk].
  2: { injection Hr as <-. cbn [packets_count_tx d_shaper]. by rewrite Z.sub_diag. }
  apply res_bind_Ok in Hr as (pos & Hpos & Hr). unfold u64_rem in Hpos.
  destruct (Z.eqb_spec (Z.of_nat (length (mbufs (renew_references w)))) 0) as [?|HM]; [done|]. injection Hpos as Hpos.
  pose proof (Z.mod_pos_bound (packets_count_tx w) (Z.of_nat (length (mbufs (renew_references w)))) ltac:(lia)) as Hpb.
  rewrite Hpos in Hpb. pose proof (burst_count_bounds _ pos k Hpb Hk) as [Hc _].
  pose proof (Hd _ (Z.lt_le_incl _ _ (proj1 Hc))) as Ht. set (sz := snd (env 0%nat) _) in *.
  destruct (Z.ltb_spec 0 sz) as [Hsz|Hsz].
  - apply res_bind_Ok in Hr as (st & _ & [= <-]). cbn [packets_count_tx d_shaper tx_burst].
    unfold u64_add. rewrite <-Z.add_opp_r, as_u64_add_idemp_l.
    replace (packets_count_tx w + sz + - packets_count_tx w) with sz by lia.
    rewrite as_u64_id by (unfold is_u64; lia). split; [lia|]. apply (round_above_le _ _ _ _ _ _ k); [lia|]. apply H1. lia.
  - injection Hr as <-. cbn [packets_count_tx d_shaper tx_burst]. by rewrite Z.sub_diag.
Qed.

Definition bursts_total (w : Worker) : Z := zsum (w_bursts (bursts_tx (d_stat w))).

Lemma on_bursts_tx_total n (s s' : DpdkWorkerStat) :
  on_bursts_tx n s = Ok s' →
  tx s' = tx s ∧ as_u64 (zsum (w_bursts (bursts_tx s'))) = as_u64 (zsum (w_bursts (bursts_tx s)) + 1).
Proof.
  unfold on_bursts_tx. destruct (w_bursts (bursts_tx s) !! _) as [x|] eqn:Hx; [|done].
  intros [= <-]. split; [done|]. by apply zsum_insert_mod.
Qed.

(** C22: an iteration that is granted tokens offers the driver the most packets a
    burst of 32, the tokens and the end of the capture allow, from where the last
    one ended, and reports exactly what the driver took of them: that many
    requests, the bytes of those packets and one burst.  If it took any, all the
    tokens of the moment are consumed, so what the burst could not hold is lost
    to the shaper; if it took none, none is.  A worker without packets aborts
    the process as soon as it is granted a token. *)
Theorem dpdk_burst_accounting t w :
  driver_ok t →
  let '(sh, tokens) := Shaper.tick (d_shaper w) (now t) (limit t) in
  let n := if 0 <? tokens then taken t (offered w tokens) else 0 in
  (worker_ok w → ∃ w', dpdk_iteration t w = Ok w' ∧
    0 ≤ n ≤ Z.min 32 (Z.max 0 tokens) ∧ position w + n ≤ Z.of_nat (length (mbufs w)) ∧
    packets_count_tx w' = packets_count_tx w + n ∧
    as_u64 (w_num_requests (tx (d_stat w'))) = as_u64 (w_num_requests (tx (d_stat w)) + n) ∧
    as_u64 (w_bytes_tx (tx (d_stat w'))) = as_u64 (w_bytes_tx (tx (d_stat w)) +
      zsum (take (Z.to_nat n) (drop (Z.to_nat (position w)) (pkt_len <$> mbufs w)))) ∧
    as_u64 (bursts_total w') = as_u64 (bursts_total w + (if 0 <? n then 1 else 0)) ∧
    d_shaper w' = (if 0 <? n then Shaper.consume sh tokens else sh)) ∧
  (mbufs w = [] → 0 < tokens → is_panic (dpdk_iteration t w) = true).
Proof.
  intros Hd. pose proof (dpdk_iteration_cases t w) as Hcases.
  destruct (Shaper.tick (d_shaper w) (now t) (limit t)) as [sh tokens] eqn:Htick. intros n. split.
  - intros Hw. destruct (Hcases Hw Hd) as (w' & n' & Hi & Hn & Hp & Hpc & _ & _ & Hsh & H0 & H1 & Hn').
    fold n in Hn'. subst n'. clearbody n.
    exists w'. unfold bursts_total. split_and!; try done; try lia.
    all: destruct (Z.eq_dec n 0) as [->|Hne];
      [rewrite H0 by done; change (Z.to_nat 0) with 0%nat; change (0 <? 0) with false;
        by rewrite ?take_0, ?zsum_nil, Z.add_0_r|].
    all: destruct (H1 ltac:(lia)) as (stat & Hstat & ->);
      apply on_bursts_tx_total in Hstat as [Htx Hbt].
    + cbn [tx on_send set_tx w_num_requests]. rewrite Htx. cbn. unfold u64_add. by rewrite as_u64_idemp.
    + cbn [tx on_send set_tx w_bytes_tx]. rewrite Htx. cbn [tx on_requests set_tx w_bytes_tx].
      unfold u64_add. by rewrite as_u64_idemp, u64_sum_wraps, as_u64_add_idemp_r.
    + cbn [bursts_tx on_send set_tx]. rewrite Hbt. destruct (Z.ltb_spec 0 n); [done|lia].
  - intros Hm Ht. unfold dpdk_iteration. cbv zeta. destruct (renew_rest w) as (_ & _ & -> & _).
    rewrite Htick. cbn [mbufs]. rewrite length_renew, Hm. destruct (Z.ltb_spec 0 tokens); [done|lia].
Qed.

(** ** References *)

(** The first [n] packets sent, starting at the first of [M], contain [sent n i]
    copies of packet [i]. *)
Definition sent (M n : Z) (i : nat) : Z := (n + M - 1 - Z.of_nat i) / M.

Lemma sent_burst M n k i :
  0 < M → 0 ≤ n → 0 ≤ k → n `mod` M + k ≤ M → Z.of_nat i < M →
  sent M (n + k) i = sent M n i + occurrences i (seq (Z.to_nat (n `mod` M)) (Z.to_nat k)).
Proof.
  intros HM Hn Hk Hr Hi. unfold sent. rewrite occurrences_seq.
  pose proof (Z.div_mod n M ltac:(lia)). pose proof (Z.mod_pos_bound n M HM).
  set (r := n `mod` M) in *. set (q := n / M) in *.
  assert (∀ a, 0 ≤ a < 2 * M → (M * q + a) / M = q + (if decide (M ≤ a) then 1 else 0)) as Hdiv.
  { intros a Ha. destruct (decide (M ≤ a)); symmetry.
    - apply (Z.div_unique_pos _ _ _ (a - M)); lia.
    - apply (Z.div_unique_pos _ _ _ a); lia. }
  replace (n + k + M - 1 - Z.of_nat i) with (M * q + (r + k + M - 1 - Z.of_nat i)) by lia.
  replace (n + M - 1 - Z.of_nat i) with (M * q + (r + M - 1 - Z.of_nat i)) by lia.
  rewrite !Hdiv by lia. repeat case_decide; lia.
Qed.

Definition ROUNDS : Z := 16 * 1024.

Lemma sent_round M n i : 0 < M → n ≤ M * ROUNDS → Z.of_nat i < M → sent M n i ≤ ROUNDS.
Proof. intros HM Hn Hi. apply Z.lt_succ_r, Z.div_lt_upper_bound; [done|]. nia. Qed.

Definition in_flight (w : Worker) (i : nat) : Z := occurrences i (ring w).

(** Since the references were renewed, at packet [P0], packet [i] lost at most
    one reference per copy sent; the worker's own is among those left. *)
Definition references (P0 : Z) (w : Worker) : Prop :=
  let M := Z.of_nat (length (mbufs w)) in
  0 ≤ P0 ≤ packets_count_tx w ∧ packets_count_tx w ≤ P0 + M * ROUNDS ∧ P0 `mod` (M * ROUNDS) = 0 ∧
  ∀ i m, mbufs w !! i = Some m →
    in_flight w i + 1 + (ROUNDS - sent M (packets_count_tx w - P0) i) ≤ refcnt m.

Lemma renewed_references w :
  worker_ok w → Z.of_nat (length (ring w)) < PORT_TX_QUEUE_SIZE →
  (packets_count_tx w = 0 ∨ ∃ P0, references P0 w) →
  ∃ P0, references P0 (renew_references w) ∧
    packets_count_tx w < P0 + Z.of_nat (length (mbufs w)) * ROUNDS.
Proof.
  intros (Hm & HM & _ & HP) Hring Hrefs. unfold MBUFS_COUNT, PORT_TX_QUEUE_SIZE in *.
  assert (0 < length (mbufs w))%nat as HM0 by (destruct (mbufs w); [done|cbn; lia]).
  unfold renew_references. set (M := Z.of_nat (length (mbufs w))) in *.
  assert (u64_mul (u64_mul M 16) 1024 = M * ROUNDS) as Hmul.
  { unfold u64_mul, ROUNDS. rewrite !as_u64_id; unfold is_u64; rewrite ?as_u64_id; unfold is_u64; lia. }
  rewrite Hmul. unfold is_multiple_of. destruct (Z.eqb_spec (M * ROUNDS) 0) as [?|_]; [unfold ROUNDS in *; lia|].
  destruct (Z.eqb_spec (packets_count_tx w `mod` (M * ROUNDS)) 0) as [Hmod|Hmod].
  - exists (packets_count_tx w). split; [|unfold ROUNDS; lia]. unfold references.
    cbn [mbufs ring packets_count_tx]. rewrite length_fmap. fold M.
    split_and!; [lia|lia|unfold ROUNDS; lia|done|]. intros i m Hi.
    rewrite list_lookup_fmap in Hi. apply fmap_Some in Hi as (m0 & Hi & ->). cbn [refcnt refcnt_set].
    apply lookup_lt_Some in Hi. unfold in_flight, sent. cbn [ring]. rewrite Z.sub_diag.
    rewrite (Z.div_small (0 + M - 1 - Z.of_nat i)) by lia.
    pose proof (occurrences_bounds i (ring w)). unfold REFCNT, ROUNDS. lia.
  - destruct Hrefs as [H0|(P0 & Hrefs)]; [by rewrite H0, Z.mod_0_l in Hmod by (unfold ROUNDS; lia)|].
    exists P0. split; [done|]. destruct Hrefs as (H1 & H2 & H3 & _). fold M in H2, H3.
    destruct (Z.eq_dec (packets_count_tx w) (P0 + M * ROUNDS)) as [He|]; [|lia].
    exfalso. apply Hmod. rewrite He. rewrite Z.add_mod, H3, Z.mod_same; [done|unfold ROUNDS; lia..].
Qed.

(** Runs of a worker: the driver behaves and never holds as many packets as its
    queue has descriptors. *)
Inductive runs (w0 : Worker) : Worker → Prop :=
  | runs_start : runs w0 w0
  | runs_step w t w' :
      runs w0 w → worker_ok w → driver_ok t → dpdk_iteration t w = Ok w' →
      Z.of_nat (length (ring w')) < PORT_TX_QUEUE_SIZE → runs w0 w'.

Lemma iteration_references t w w' :
  worker_ok w → driver_ok t → dpdk_iteration t w = Ok w' →
  Z.of_nat (length (ring w)) < PORT_TX_QUEUE_SIZE →
  (packets_count_tx w = 0 ∨ ∃ P0, references P0 w) → ∃ P0, references P0 w'.
Proof.
  intros Hw Hd Hi Hring Hrefs.
  destruct (renewed_references w Hw Hring Hrefs) as (P0 & Hr & Hlt). exists P0.
  pose proof (dpdk_iteration_cases t w Hw Hd) as Hc.
  destruct (Shaper.tick (d_shaper w) (now t) (limit t)) as [sh tokens].
  destruct Hc as (w1 & n & Hi1 & Hn & Hp & Hpc & Hyes & Hno & _). rewrite Hi in Hi1. injection Hi1 as <-.
  destruct (renew_rest w) as (Hrr & Hrp & _). unfold references, in_flight in *. rewrite Hrr, Hrp, length_renew in Hr.
  destruct Hr as (H1 & H2 & H3 & H4).
  destruct Hw as (Hm & _). assert (0 < length (mbufs w))%nat as HM0 by (destruct (mbufs w); [done|cbn; lia]).
  set (M := Z.of_nat (length (mbufs w))) in *.
  assert (position w = (packets_count_tx w - P0) `mod` M) as Hpos.
  { unfold position. fold M. apply Z.mod_divide in H3 as [c Hc]; [|unfold ROUNDS; lia].
    replace (packets_count_tx w) with (packets_count_tx w - P0 + (c * ROUNDS) * M) at 1 by lia.
    by rewrite Z.mod_add by lia. }
  assert (packets_count_tx w + n ≤ P0 + M * ROUNDS) as Hend.
  { pose proof (Z.div_mod (packets_count_tx w - P0) M ltac:(lia)). rewrite Hpos in Hp.
    assert ((packets_count_tx w - P0) / M < ROUNDS) by (apply Z.div_lt_upper_bound; lia). nia. }
  destruct (Z.lt_ge_cases 0 tokens) as [Ht|Ht].
  - destruct (Hyes Ht) as [-> ->]. rewrite length_release, length_renew, Hpc. fold M.
    split_and!; [lia|lia|lia|done|]. intros i m Hi'.
    apply release_lookup in Hi' as (m0 & Hm0 & Href & _). specialize (H4 i m0 Hm0).
    assert (Z.of_nat i < M) as HiM by (apply lookup_lt_Some in Hm0; rewrite length_renew in Hm0; lia).
    rewrite Hpos in Hp. rewrite occurrences_app, Href, Hpos.
    replace (packets_count_tx w + n - P0) with (packets_count_tx w - P0 + n) by lia.
    rewrite sent_burst by lia.
    assert (occurrences i (ring w) =
      occurrences i (take (finished t) (ring w)) + occurrences i (drop (finished t) (ring w))) as Hsplit.
    { by rewrite <-occurrences_app, take_drop. }
    lia.
  - destruct (Hno Ht) as [-> ->]. rewrite length_renew, Hpc. fold M.
    replace n with 0 by lia. rewrite Z.add_0_r. split; [lia|]. split; [lia|]. split; [done|exact H4].
Qed.

(** C17: the references of the packets hold out from one renewal to the next: in
    every run, however late the driver lets go of them, a packet has at least
    one reference more than it has copies in flight, so no packet is ever freed
    under the worker that goes on sending it. *)
Theorem mbuf_references_hold sh l w i m :
  runs (worker_new sh l) w → (∀ x, x ∈ l → refcnt x = 1) →
  mbufs w !! i = Some m → in_flight w i + 1 ≤ refcnt m.
Proof.
  intros Hruns Hl Hi.
  assert (Z.of_nat (length (ring w)) < PORT_TX_QUEUE_SIZE ∧ (w = worker_new sh l ∨ ∃ P0, references P0 w)) as [_ Hrefs].
  { clear Hi. induction Hruns as [|w t w' Hruns IH Hw Hd Hit Hring]; [split; [done|by left]|].
    destruct IH as [Hr Hrefs]. split; [done|]. right. eapply iteration_references; [done..|].
    destruct Hrefs as [->|?]; [by left|by right]. }
  destruct Hrefs as [->|(P0 & H1 & H2 & H3 & H4)].
  - cbn in Hi. rewrite (Hl m) by (by eapply list_elem_of_lookup_2). done.
  - specialize (H4 i m Hi). apply lookup_lt_Some in Hi.
    pose proof (sent_round (Z.of_nat (length (mbufs w))) (packets_count_tx w - P0) i ltac:(lia) ltac:(lia) ltac:(lia)).
    lia.
Qed.

Definition example_tick : Tick := {| now := 1000000000; limit := 1000; finished := 0; taken := λ c, c |}.
Definition example_worker : Worker :=
  worker_new (Shaper.new 0 0) [{| pkt_len := 60; written := 60; refcnt := 1 |};
                               {| pkt_len := 1500; written := 1500; refcnt := 1 |}].

Lemma example_worker_ok : worker_ok example_worker.
Proof. split_and!; done. Qed.

Lemma example_tick_ok : driver_ok example_tick.
Proof. intros c Hc. cbn. lia. Qed.

Lemma mbuf_references_hold_witness :
  ∃ w m, dpdk_iteration example_tick example_worker = Ok w ∧ mbufs w !! 1%nat = Some m ∧
    in_flight w 1 = 1 ∧ in_flight w 1 + 1 ≤ refcnt m.
Proof.
  eexists _, _. split; [vm_compute; reflexivity|]. split; [vm_compute; reflexivity|].
  split; [vm_compute; reflexivity|].
  eapply (mbuf_references_hold (Shaper.new 0 0) (mbufs example_worker) _ 1%nat).
  - eapply (runs_step _ example_worker example_tick); [apply runs_start|apply example_worker_ok|
      apply example_tick_ok|vm_compute; reflexivity|done].
  - intros x Hx. cbn in Hx. rewrite !elem_of_cons in Hx. destruct Hx as [->|[->|Hx]]; [done|done|].
    by apply elem_of_nil in Hx.
  - vm_compute. reflexivity.
Defined.

Lemma dpdk_burst_accounting_witness :
  ∃ w', dpdk_iteration example_tick example_worker = Ok w' ∧
    as_u64 (w_num_requests (tx (d_stat w'))) = 2 ∧
    tokens (d_shaper w') = f64_zero.
Proof.
  pose proof (dpdk_burst_accounting example_tick example_worker example_tick_ok) as H.
  destruct (Shaper.tick (d_shaper example_worker) (now example_tick) (limit example_tick)) as [sh k] eqn:Hk.
  destruct H as [H _]. destruct (H example_worker_ok) as (w' & Hw & _ & _ & _ & Hr & _).
  exists w'. split; [done|]. vm_compute in Hw. injection Hw as <-. by split.
Defined.
