(* ===== verification/Ui.v ===== *)
(** * The terminal interface ([dwd/src/ui.rs], [ui/widget/], [ui/metric/])

    The state of the interface — the mode it shows, the digits being typed —
    with the key handler that turns key presses into control events.  What it
    shows of the statistics is in [Widgets]. *)
From S2P Require Import Prelude Machine F64 Time Suspendable Seam.

(** ** Keys *)

(** A character is its code point. *)
Inductive KeyCode :=
  | Char (c : Z)
  | Backspace
  | Enter
  | OtherKey.

Record KeyEvent := { code : KeyCode; control_held : bool; is_press : bool }.

Inductive UiMode :=
  | Manual
  | Running_ (is_running : bool).

Definition is_ascii_digit (c : Z) : bool := (48 <=? c) && (c <=? 57).

(** [str::parse::<u64>] on what the input can hold: digits. *)
Definition push_digit (acc : option Z) (c : Z) : option Z :=
  match acc with
  | None => None
  | Some r =>
      if negb (is_ascii_digit c) then None
      else if u64_max <? r * 10 then None
      else if u64_max <? r * 10 + (c - 48) then None
      else Some (r * 10 + (c - 48))
  end.

Definition parse_u64 (value : list Z) : option Z :=
  match value with
  | [] => None
  | _ => foldl push_digit (Some 0) value
  end.

Section ui.
Context {C : Type} `{BoundedChannel C}.

Record Ui := {
  ui_tx : C;
  head_mode : UiMode;
  stats : list Widget;
  input : list Z;
}.
Implicit Types u : Ui.

(** [Ui::new]: the widgets are added by [build_ui]. *)
Definition ui_new (tx : C) (widgets : list Widget) : Ui :=
  {| ui_tx := tx; head_mode := Running_ true; stats := widgets; input := [] |}.

(** [_ = self.tx.try_send(ev)]. *)
Definition send (ev : GeneratorEvent) u : Ui :=
  {| ui_tx := (try_send ev (ui_tx u)).1; head_mode := head_mode u; stats := stats u; input := input u |}.
Definition set_mode (m : UiMode) u : Ui :=
  {| ui_tx := ui_tx u; head_mode := m; stats := stats u; input := input u |}.
Definition set_input (l : list Z) u : Ui :=
  {| ui_tx := ui_tx u; head_mode := head_mode u; stats := stats u; input := l |}.

(** The event and the mode the [s] key stands for. *)
Definition toggle (m : UiMode) : GeneratorEvent * bool :=
  match m with
  | Manual => (Resume, true)
  | Running_ is_running => (if is_running then Suspend else Resume, negb is_running)
  end.

(** The key handler of [Ui::run]; [None] leaves the loop. *)
Definition on_key (key : KeyEvent) u : option Ui :=
  if negb (is_press key) then Some u
  else
    match code key with
    | Char c =>
        if c =? 113 then None                                  (* q *)
        else if (c =? 99) && control_held key then None        (* Ctrl-C *)
        else if c =? 115 then                                  (* s *)
          let '(ev, is_running) := toggle (head_mode u) in
          Some (send ev (set_mode (Running_ is_running) u))
        else if is_ascii_digit c then Some (set_input (input u ++ [c]) u)
        else Some u
    | Backspace => Some (set_input (removelast (input u)) u)
    | Enter =>
        let value := input u in
        let u := set_input [] u in
        match parse_u64 value with
        | Some value => Some (send (Set_ value) (set_mode Manual u))
        | None => Some u
        end
    | OtherKey => Some u
    end.

Fixpoint on_keys (keys : list KeyEvent) u : option Ui :=
  match keys with
  | [] => Some u
  | key :: keys => match on_key key u with Some u => on_keys keys u | None => None end
  end.

(** ** The mode shown is the mode of the generator *)

(** The event a key press sends. *)
Definition event_of (key : KeyEvent) u : option GeneratorEvent :=
  if negb (is_press key) then None
  else
    match code key with
    | Char c => if (c =? 115) then Some (toggle (head_mode u)).1 else None
    | Enter => Set_ <$> parse_u64 (input u)
    | _ => None
    end.

Definition agrees (m : UiMode) (c : Control) : Prop :=
  match m, mode c with
  | Manual, Held _ _ => True
  | Running_ true, Running => True
  | Running_ false, Held _ r => r = 0
  | _, _ => False
  end.

Lemma on_key_sends key u u' :
  on_key key u = Some u' →
  match event_of key u with
  | Some ev => ui_tx u' = (try_send ev (ui_tx u)).1
  | None => ui_tx u' = ui_tx u ∧ head_mode u' = head_mode u
  end.
Proof.
  unfold on_key, event_of. destruct (is_press key); cbn [negb]; [|by intros [= <-]].
  destruct (code key) as [c| | |]; [|by intros [= <-]| |by intros [= <-]].
  - destruct (c =? 113) eqn:Hq; [done|]. destruct ((c =? 99) && control_held key); [done|].
    destruct (c =? 115).
    + destruct (toggle (head_mode u)) as [ev r]. by intros [= <-].
    + destruct (is_ascii_digit c); by intros [= <-].
  - destruct (parse_u64 (input u)); by intros [= <-].
Qed.

(** One key, its event applied to the generator when there is one. *)
Lemma on_key_agrees now key u u' c :
  on_key key u = Some u' → agrees (head_mode u) c →
  agrees (head_mode u')
    (match event_of key u with Some ev => control_event now ev c | None => c end).
Proof.
  unfold on_key, event_of. destruct (is_press key); cbn [negb]; [|by intros [= <-]].
  destruct (code key) as [k| | |]; [|by intros [= <-]| |by intros [= <-]].
  - destruct (k =? 113); [done|]. destruct ((k =? 99) && control_held key); [done|].
    destruct (k =? 115); [|destruct (is_ascii_digit k); by intros [= <-]].
    unfold agrees, control_event. destruct (head_mode u) as [|[]], (mode c) eqn:Hm; cbn;
      intros [= <-] Ha; cbn; rewrite ?Hm; done.
  - destruct (parse_u64 (input u)) as [v|]; cbn; intros [= <-]; cbn; [|done].
    unfold agrees, control_event. by destruct (head_mode u) as [|[]], (mode c).
Qed.

(** The other end of the channel takes the oldest event, at [now]. *)
Definition deliver (now : Instant) u (c : Control) : Ui * Control :=
  let '(tx, ev) := try_recv (ui_tx u) in
  ({| ui_tx := tx; head_mode := head_mode u; stats := stats u; input := input u |},
   match ev with Some ev => control_event now ev c | None => c end).

(** A session: the keys pressed, each at its instant; the flag tells whether the
    channel is read before the next key. *)
Fixpoint session (keys : list (Instant * KeyEvent * bool)) u (c : Control) : Ui * Control :=
  match keys with
  | [] => (u, c)
  | (now, key, read) :: keys =>
      match on_key key u with
      | None => (u, c)
      | Some u => let '(u, c) := if (read : bool) then deliver now u c else (u, c) in session keys u c
      end
  end.

Lemma deliver_key now key u u' c :
  (0 < capacity)%nat → queue (ui_tx u) = [] → on_key key u = Some u' →
  let '(u2, c2) := deliver now u' c in
  queue (ui_tx u2) = [] ∧ head_mode u2 = head_mode u' ∧
  c2 = match event_of key u with Some ev => control_event now ev c | None => c end.
Proof.
  intros Hcap Hq Hkey. apply on_key_sends in Hkey. unfold deliver.
  pose proof (try_recv_queue (ui_tx u')) as [Hr1 Hr2]. destruct (try_recv (ui_tx u')) as [tx ev].
  cbn [fst snd ui_tx head_mode] in *.
  destruct (event_of key u) as [e|].
  - destruct (try_send_room e (ui_tx u)) as [Hs _]; [by rewrite Hq|]. rewrite Hkey, Hs, Hq in Hr1, Hr2.
    cbn in Hr1, Hr2. by rewrite Hr1, Hr2.
  - destruct Hkey as [Htx _]. rewrite Htx, Hq in Hr1, Hr2. cbn in Hr1, Hr2. by rewrite Hr1, Hr2.
Qed.

(** C24: as long as the events are taken from the channel between key presses,
    whatever keys are pressed the mode on the screen — manual, running or
    suspended — is the mode the generator is in; but with a full channel the
    [s] key still toggles the mode on the screen while its event is dropped. *)
Theorem ui_mode_is_generator_mode keys u c :
  (0 < capacity)%nat →
  (queue (ui_tx u) = [] → agrees (head_mode u) c → Forall (λ k, k.2 = true) keys →
    agrees (head_mode (session keys u c).1) (session keys u c).2) ∧
  ((capacity ≤ length (queue (ui_tx u)))%nat →
    ∃ u', on_key {| code := Char 115; control_held := false; is_press := true |} u = Some u' ∧
      head_mode u' ≠ head_mode u ∧ queue (ui_tx u') = queue (ui_tx u)).
Proof.
  intros Hcap. split.
  - intros Hq Ha Hall. revert u c Hq Ha. induction Hall as [|[[now key] read] keys Hread _ IH]; intros u c Hq Ha; [done|].
    cbn in Hread. subst read. cbn [session]. destruct (on_key key u) as [u'|] eqn:Hkey; [|done].
    pose proof (deliver_key now key u u' c Hcap Hq Hkey) as Hd. destruct (deliver now u' c) as [u2 c2].
    destruct Hd as (Hq2 & Hm & ->). apply IH; [done|]. rewrite Hm. by eapply on_key_agrees.
  - intros Hfull. destruct (toggle (head_mode u)) as [ev r] eqn:Ht.
    exists (send ev (set_mode (Running_ r) u)). split; [unfold on_key; cbn; by rewrite Ht|].
    cbn. destruct (try_send_full ev (ui_tx u) Hfull) as [Hs _].
    unfold toggle in Ht. destruct (head_mode u) as [|[]]; injection Ht as <- <-; by split.
Qed.

(** ** Typing a rate *)

(** The number a row of digits stands for. *)
Definition decimal (l : list Z) : Z := foldl (λ r c, r * 10 + (c - 48)) 0 l.

Lemma foldl_decimal_ge l r : Forall (λ c, is_ascii_digit c = true) l → 0 ≤ r →
  r ≤ foldl (λ r c, r * 10 + (c - 48)) r l.
Proof.
  intros Hl. revert r. induction Hl as [|c l Hc _ IH]; intros r Hr; cbn [foldl]; [lia|].
  unfold is_ascii_digit in Hc. to_prop. etrans; [|apply IH]; lia.
Qed.

Lemma push_digits_None l : foldl push_digit None l = None.
Proof. by induction l. Qed.

Lemma push_digits l r :
  Forall (λ c, is_ascii_digit c = true) l → 0 ≤ r ≤ u64_max →
  foldl push_digit (Some r) l =
    let v := foldl (λ r c, r * 10 + (c - 48)) r l in if u64_max <? v then None else Some v.
Proof.
  intros Hl. revert r. induction Hl as [|c l Hc Hl IH]; intros r Hr; cbn [foldl].
  - destruct (Z.ltb_spec u64_max r); [lia|done].
  - assert (48 ≤ c ≤ 57) as Hr' by (unfold is_ascii_digit in Hc; to_prop; lia).
    cbn [push_digit]. rewrite Hc. cbn [negb].
    pose proof (foldl_decimal_ge l (r * 10 + (c - 48)) Hl ltac:(lia)) as Hge.
    destruct (Z.ltb_spec u64_max (r * 10)).
    { rewrite push_digits_None. cbn. destruct (Z.ltb_spec u64_max (foldl (λ r c, r * 10 + (c - 48)) (r * 10 + (c - 48)) l)); [done|lia]. }
    destruct (Z.ltb_spec u64_max (r * 10 + (c - 48))); [|apply IH; lia].
    rewrite push_digits_None. cbn. destruct (Z.ltb_spec u64_max (foldl (λ r c, r * 10 + (c - 48)) (r * 10 + (c - 48)) l)); [done|lia].
Qed.

Definition press (k : KeyCode) : KeyEvent := {| code := k; control_held := false; is_press := true |}.

Lemma type_digits l u :
  Forall (λ c, is_ascii_digit c = true) l →
  on_keys ((λ c, press (Char c)) <$> l) u = Some (set_input (input u ++ l) u).
Proof.
  intros Hl. revert u. induction Hl as [|c l Hc _ IH]; intros u.
  - cbn. rewrite app_nil_r. by destruct u.
  - cbn [fmap list_fmap on_keys]. unfold on_key at 1. cbn [is_press press negb code]. rewrite Hc.
    unfold is_ascii_digit in Hc. to_prop.
    destruct (Z.eqb_spec c 113); [lia|]. destruct (Z.eqb_spec c 99); [lia|]. destruct (Z.eqb_spec c 115); [lia|].
    cbn [andb]. rewrite IH. cbn. by rewrite <-app_assoc.
Qed.

Lemma on_keys_app k1 k2 u :
  on_keys (k1 ++ k2) u = match on_keys k1 u with Some u => on_keys k2 u | None => None end.
Proof. revert u. induction k1 as [|k k1 IH]; intros u; [done|]. cbn. by destruct (on_key k u). Qed.

(** Typing a number and pressing Enter asks for exactly that rate when it
    fits 64 bits; a number that does not is ignored.  The input is empty
    afterwards in both cases. *)
Theorem typed_rate_is_sent digits u :
  digits ≠ [] → Forall (λ c, is_ascii_digit c = true) digits → input u = [] →
  on_keys (((λ c, press (Char c)) <$> digits) ++ [press Enter]) u =
    Some (if decimal digits <? 2 ^ 64 then send (Set_ (decimal digits)) (set_mode Manual u) else u).
Proof.
  intros Hne Hd Hin. rewrite on_keys_app, type_digits by done. rewrite Hin. cbn [app on_keys].
  unfold on_key. cbn [is_press press negb code input set_input].
  unfold parse_u64. destruct digits as [|c l]; [done|]. rewrite push_digits by (done || (unfold u64_max; lia)).
  cbv zeta. fold (decimal (c :: l)). unfold u64_max.
  destruct (Z.ltb_spec (2 ^ 64 - 1) (decimal (c :: l))), (Z.ltb_spec (decimal (c :: l)) (2 ^ 64)); try lia.
  - f_equal. destruct u. cbn in *. by subst.
  - f_equal. unfold send, set_mode, set_input. cbn. by rewrite Hin.
Qed.
End ui.
Arguments Ui : clear implicits.

Lemma ui_mode_is_generator_mode_witness :
  let keys := [(10, press (Char 53), true); (11, press Enter, true); (20, press (Char 115), true); (30, press (Char 115), true)] in
  agrees (head_mode (session (C := list GeneratorEvent) keys (ui_new [] []) {| mode := Running; paused := 0 |}).1)
    (session (C := list GeneratorEvent) keys (ui_new [] []) {| mode := Running; paused := 0 |}).2.
Proof.
  intros keys.
  destruct (ui_mode_is_generator_mode (C := list GeneratorEvent) keys (ui_new [] []) {| mode := Running; paused := 0 |})
    as [H _]; [vm_compute; lia|].
  apply H; [done|done|]. repeat (apply Forall_cons; split; [done|]). by apply Forall_nil.
Defined.

Lemma typed_rate_is_sent_witness :
  option_map (λ u, queue (ui_tx u))
    (on_keys (C := list GeneratorEvent) (((λ c, press (Char c)) <$> [52; 50]) ++ [press Enter]) (ui_new [] [])) =
  Some [Set_ 42].
Proof.
  rewrite (typed_rate_is_sent (C := list GeneratorEvent) [52; 50]); [vm_compute; reflexivity|done| |done].
  repeat (apply Forall_cons; split; [done|]). by apply Forall_nil.
Defined.
