(* ===== verification/Widgets.v ===== *)
(** * What the terminal interface shows ([dwd/src/ui.rs], [ui/metric/], [ui/widget/])

    The metrics that turn the counters of the statistics into text, the widgets
    with their rows and heights, the text of the screen, and the loop of
    [Ui::run] that draws, waits for a key and refreshes the widgets.  Where on
    the terminal the text goes is ratatui; the statistics are those of
    [RemoteStat]. *)
From S2P Require Import Prelude Machine F64 Text Time Suspendable Stat Seam Histogram Ui.

(** ** Metrics *)

(** [Meter::update]: [v] is the counter; the rate is renewed every 50 ms at most. *)
Record Meter := { rate : f64; meter_prev_v : Z; meter_prev_ts : Instant }.

Definition meter_update (now : Instant) (v : Z) (m : Meter) : Meter :=
  let dt := as_secs_f64 (duration_since now (meter_prev_ts m)) in
  if f64_ltb dt (f64_div (f64_of_u64 5) (f64_of_u64 100)) then m
  else {| rate := f64_div (f64_of_u64 (u64_saturating_sub v (meter_prev_v m))) dt;
          meter_prev_v := v; meter_prev_ts := now |}.

(** [Throughput]: bits per second scaled to a prefix, here a power of 1000. *)
Record Throughput := { thr_prev_v : Z; thr_prev_ts : Instant; thr_value : f64 * nat }.

Definition fmt_si (v : f64) : f64 * nat :=
  if f64_geb v (f64_of_u64 1000000000) then (f64_div v (f64_of_u64 1000000000), 3%nat)
  else if f64_geb v (f64_of_u64 1000000) then (f64_div v (f64_of_u64 1000000), 2%nat)
  else if f64_geb v (f64_of_u64 1000) then (f64_div v (f64_of_u64 1000), 1%nat)
  else (v, 0%nat).

Definition throughput_update (now : Instant) (v : Z) (t : Throughput) : Throughput :=
  let dv := f64_of_u64 (u64_mul (u64_saturating_sub v (thr_prev_v t)) 8) in
  let dt := as_secs_f64 (duration_since now (thr_prev_ts t)) in
  {| thr_prev_v := v; thr_prev_ts := now; thr_value := fmt_si (f64_div dv dt) |}.


(** The prefix of a bit rate. *)
Definition si_prefix (k : nat) : string := nth k [" "; "K"; "M"; "G"] " ".

(** [format!("{:.2?}")] of a [Duration] of [us] microseconds: nanoseconds,
    microseconds, milliseconds or seconds with two decimals. *)
Definition fmt_duration_debug (us : Z) : string :=
  let nanos := us * 1000 in
  let scaled_to unit suffix := fmt_point 2 (round_half_even (nanos * 100) unit) +:+ suffix in
  if 1000000000 <=? nanos then scaled_to 1000000000 "s"
  else if 1000000 <=? nanos then scaled_to 1000000 "ms"
  else if 1000 <=? nanos then scaled_to 1000 "µs"
  else scaled_to 1 "ns".

Inductive Metric :=
  | Gauge (value : Z)
  | MeterOf (m : Meter)
  | ThroughputOf (t : Throughput)
  | Quantile (v : Z).

(** The constructors; a meter starts its clock. *)
Definition gauge_new : Metric := Gauge 0.
Definition meter_new (now : Instant) : Metric :=
  MeterOf {| rate := f64_zero; meter_prev_v := 0; meter_prev_ts := now |}.
Definition throughput_new (now : Instant) : Metric :=
  ThroughputOf {| thr_prev_v := 0; thr_prev_ts := now; thr_value := (f64_zero, 0%nat) |}.
Definition quantile_new : Metric := Quantile 0.

(** [Metric::update]: the clock and what the closure reads. *)
Definition metric_update (now : Instant) (v : Z) (m : Metric) : Metric :=
  match m with
  | Gauge _ => Gauge v
  | MeterOf m => MeterOf (meter_update now v m)
  | ThroughputOf t => ThroughputOf (throughput_update now v t)
  | Quantile _ => Quantile v
  end.

(** [Display]. *)
Definition metric_text (m : Metric) : string :=
  match m with
  | Gauge value => fmt_u64 value
  | MeterOf m => fmt_fixed 0 (rate m)
  | ThroughputOf t => fmt_fixed 2 (thr_value t).1 +:+ " " +:+ si_prefix (thr_value t).2 +:+ "bit/s"
  | Quantile v => fmt_duration_debug v
  end.

(** ** Widgets *)

(** What a closure reads of the statistics. *)
Inductive Source :=
  | SGenerator | SNumRequests | SBytesTx | SNumResponses | SNumTimeouts | SBytesRx | SQuantile (q : f64)
  | SSockCreated | SSockErrors | SRetransmits | S2xx | S3xx | S4xx | S5xx
  | SBursts (idx : nat).     (* two neighbouring sizes, 2 idx + 1 and 2 idx + 2 *)

Section widgets.
Context (powf : f64 → f64 → f64).

Definition read (s : RemoteStat) (src : Source) : res Z :=
  match src with
  | SGenerator => Ok (generator s)
  | SNumRequests => Ok (num_requests s)
  | SBytesTx => Ok (bytes_tx s)
  | SNumResponses => Ok (num_responses s)
  | SNumTimeouts => Ok (num_timeouts s)
  | SBytesRx => Ok (bytes_rx s)
  | SQuantile q => quantile powf (hist s) q
  | SSockCreated => Ok (num_sock_created s)
  | SSockErrors => Ok (num_sock_errors s)
  | SRetransmits => Ok (num_retransmits s)
  | S2xx => Ok (num_2xx s)
  | S3xx => Ok (num_3xx s)
  | S4xx => Ok (num_4xx s)
  | S5xx => Ok (num_5xx s)
  | SBursts idx =>
      let! a := num_bursts_tx s (2 * idx) in
      let! b := num_bursts_tx s (2 * idx + 1) in
      Ok (u64_add a b)
  end.

(** [MetricWidget]; the bars of [BurstTxStatWidget] are rows too. *)
Record Row := { row_name : string; row_source : Source; row_metric : Metric }.
Record Panel := { panel_name : string; panel_constraint : Z; panel_rows : list Row; panel_chart : bool }.

Definition panel (name : string) (constraint : Z) (rows : list Row) : Panel :=
  {| panel_name := name; panel_constraint := constraint; panel_rows := rows; panel_chart := false |}.

Definition row (name : string) (src : Source) (m : Metric) : Row :=
  {| row_name := name; row_source := src; row_metric := m |}.

Definition TIMINGS : list f64 :=
  [f64_lit 1 (-1); f64_lit 3 (-2); f64_div (f64_of_u64 9) (f64_of_u64 10); f64_div (f64_of_u64 95) (f64_of_u64 100);
   f64_div (f64_of_u64 99) (f64_of_u64 100); f64_one].

Definition bar_label (pps : nat) : string :=
  "[" +:+ fmt_02 (2 * Z.of_nat pps + 1) +:+ "-" +:+ fmt_02 (2 * Z.of_nat pps + 2) +:+ "]".

(** The widgets: their constructors, with their [constraint()]. *)
Definition common_widget : Panel := panel "Generator" 3 [row "RPS expected " SGenerator gauge_new].

Definition tx_widget (now : Instant) : Panel :=
  panel "Requests" 5
    [row "RPS current  " SNumRequests (meter_new now); row "Requests sent" SNumRequests gauge_new;
     row "Bitrate TX   " SBytesTx (throughput_new now)].

Definition rx_widget (now : Instant) : Panel :=
  panel "Responses" 5
    [row "Responses    " SNumResponses gauge_new; row "Timeouts     " SNumTimeouts gauge_new;
     row "Bitrate RX   " SBytesRx (throughput_new now)].

Definition rx_timings_widget : Panel :=
  panel "Response timings" 8 ((λ q, row (fmt_fixed 2 q) (SQuantile q) quantile_new) <$> TIMINGS).

Definition sock_widget (now : Instant) : Panel :=
  panel "Sockets" 6
    [row "Created" SSockCreated gauge_new; row "Rate   " SSockCreated (meter_new now);
     row "Errors " SSockErrors gauge_new; row "Retransmits" SRetransmits gauge_new].

Definition http_widget : Panel :=
  panel "HTTP" 6
    [row "2xx" S2xx gauge_new; row "3xx" S3xx gauge_new; row "4xx" S4xx gauge_new; row "5xx" S5xx gauge_new].

Definition burst_tx_widget : Panel :=
  {| panel_name := "Bursts TX"; panel_constraint := 18; panel_chart := true;
     panel_rows := (λ idx, row (bar_label idx) (SBursts idx) gauge_new) <$> seq 0 16 |}.

(** [Ui::with_common], [Ui::with_tx] and their like. *)
Definition panel_of (now : Instant) (w : Widget) : Panel :=
  match w with
  | WCommon => common_widget
  | WTx => tx_widget now
  | WRx => rx_widget now
  | WRxTimings => rx_timings_widget
  | WSock => sock_widget now
  | WHttp => http_widget
  | WBurstTx => burst_tx_widget
  end.

(** [MetricListWidget::update], over the clock and the statistics each row reads. *)
Definition row_update (env : Instant * RemoteStat) (r : Row) : res Row :=
  let! v := read env.2 (row_source r) in
  Ok (row (row_name r) (row_source r) (metric_update env.1 v (row_metric r))).

Fixpoint rows_update (env : nat → Instant * RemoteStat) (rows : list Row) : res (list Row) :=
  match rows with
  | [] => Ok []
  | r :: rows =>
      let! r := row_update (env 0%nat) r in
      let! rows := rows_update (λ i, env (S i)) rows in
      Ok (r :: rows)
  end.

Definition panel_update (env : nat → Instant * RemoteStat) (p : Panel) : res Panel :=
  let! rows := rows_update env (panel_rows p) in
  Ok {| panel_name := panel_name p; panel_constraint := panel_constraint p; panel_rows := rows;
        panel_chart := panel_chart p |}.

(** [Ui::on_tick]. *)
Fixpoint on_tick (env : nat → nat → Instant * RemoteStat) (ps : list Panel) : res (list Panel) :=
  match ps with
  | [] => Ok []
  | p :: ps =>
      let! p := panel_update (env 0%nat) p in
      let! ps := on_tick (λ i, env (S i)) ps in
      Ok (p :: ps)
  end.

(** What a widget shows inside its frame: lines of text, or bars. *)
Inductive Drawing := Lines (l : list string) | Bars (l : list (string * Z)).

Definition row_line (r : Row) : string := row_name r +:+ ": " +:+ metric_text (row_metric r).
Definition row_bar (r : Row) : string * Z := (row_name r, match row_metric r with Gauge v => v | _ => 0 end).
Definition panel_draw (p : Panel) : Drawing :=
  if panel_chart p then Bars (row_bar <$> panel_rows p) else Lines (row_line <$> panel_rows p).

Definition drawing_height (d : Drawing) : Z :=
  match d with Lines l => Z.of_nat (length l) | Bars l => Z.of_nat (length l) end.

(** ** The screen *)

Definition status_lines (version : string) (m : UiMode) : list string :=
  ["Version: " +:+ version;
   "Mode: " +:+ match m with Manual => "Manual" | Running_ true => "Running" | Running_ false => "Suspended" end].

Definition KEYMAPS : list (string * list string) :=
  [("Suspend | Resume", ["s"]); ("Enter profile manually", ["0-9"]); ("Submit manual profile", ["Enter"]);
   ("Exit", ["q"; "ctrl+c"])].
Definition keymap_line (k : string * list string) : string :=
  k.1 +:+ ": " +:+ match k.2 with
                   | [] => ""
                   | key :: keys => key +:+ foldr (λ k s, " or " +:+ k +:+ s) "" keys
                   end.
Definition keymap_rows : Z := Z.of_nat (length KEYMAPS).

(** [Ui::draw]: the heights asked of the layout, from top to bottom, and the
    text of the parts. *)
Definition screen_heights : list Z := [4; 3; 20; 2 + keymap_rows].

Record Frame := {
  f_status : list string;
  f_input : list Z;
  f_stats : list (string * Z * Drawing);
  f_keymap : list string;
}.

Section loop.
Context {C : Type} `{BoundedChannel C} (version : string) (fps : Duration).

Record Screen := { s_ui : Ui C; s_panels : list Panel; s_prev_ts : Instant }.

Definition draw (s : Screen) : Frame :=
  {| f_status := status_lines version (head_mode (s_ui s));
     f_input := input (s_ui s);
     f_stats := (λ p, (panel_name p, panel_constraint p, panel_draw p)) <$> s_panels s;
     f_keymap := keymap_line <$> KEYMAPS |}.

(** What one turn of [Ui::run] reads from outside: when the time left is
    computed, the key that arrived within it, when the refresh is decided, what
    the refresh reads, and when it is over. *)
Record Turn := {
  t_polled : Instant;
  t_key : option KeyEvent;
  t_checked : Instant;
  t_reads : nat → nat → Instant * RemoteStat;
  t_ticked : Instant;
}.

Definition elapsed (now prev : Instant) : Duration := duration_since now prev.
Definition timeout (t : Turn) (s : Screen) : Duration := Z.max 0 (fps - elapsed (t_polled t) (s_prev_ts s)).

(** A turn after its draw; [None] leaves the loop. *)
Definition turn (t : Turn) (s : Screen) : res (option Screen) :=
  match (match t_key t with Some key => on_key key (s_ui s) | None => Some (s_ui s) end) with
  | None => Ok None
  | Some u =>
      if fps <=? elapsed (t_checked t) (s_prev_ts s) then
        let! ps := on_tick (t_reads t) (s_panels s) in
        Ok (Some {| s_ui := u; s_panels := ps; s_prev_ts := t_ticked t |})
      else Ok (Some {| s_ui := u; s_panels := s_panels s; s_prev_ts := s_prev_ts s |})
  end.

Fixpoint turns (ts : list Turn) (s : Screen) : res (option Screen) :=
  match ts with
  | [] => Ok (Some s)
  | t :: ts => let! o := turn t s in match o with Some s => turns ts s | None => Ok None end
  end.

(** [ui::run] over [build_ui]. *)
Definition screen_start (tx : C) (groups : list Z) (now : Instant) : Screen :=
  {| s_ui := ui_new tx (build_ui groups); s_panels := panel_of now <$> build_ui groups; s_prev_ts := now |}.
End loop.
End widgets.

(** ** Rows, heights and kinds *)

Inductive Kind := KGauge | KMeter | KThroughput | KQuantile.
Definition kind_of (m : Metric) : Kind :=
  match m with Gauge _ => KGauge | MeterOf _ => KMeter | ThroughputOf _ => KThroughput | Quantile _ => KQuantile end.

(** What never changes of a row and of a widget. *)
Definition row_shape (r : Row) : string * Source * Kind := (row_name r, row_source r, kind_of (row_metric r)).
Definition panel_shape (p : Panel) : string * Z * bool * list (string * Source * Kind) :=
  (panel_name p, panel_constraint p, panel_chart p, row_shape <$> panel_rows p).

Lemma metric_update_kind now v m : kind_of (metric_update now v m) = kind_of m.
Proof. by destruct m. Qed.

(** The sources that cannot panic: a quantile between 0 and 1. *)
Definition source_ok (src : Source) : Prop :=
  match src with SQuantile q => f64_leb f64_zero q && f64_leb q f64_one = true | _ => True end.
Definition panel_ok (p : Panel) : Prop :=
  Forall (λ r, source_ok (row_source r)) (panel_rows p) ∧
  Z.of_nat (length (panel_rows p)) + 2 = panel_constraint p.

Lemma read_total powf r src : source_ok src → ∃ v, read powf r src = Ok v.
Proof.
  destruct src; cbn [read source_ok]; intros Hq; try by eexists.
  unfold quantile. rewrite Hq. by eexists.
Qed.

Lemma rows_update_shape powf env rows :
  Forall (λ r, source_ok (row_source r)) rows →
  ∃ rows', rows_update powf env rows = Ok rows' ∧ row_shape <$> rows' = row_shape <$> rows.
Proof.
  intros Hr. revert env. induction Hr as [|r rows Hr _ IH]; intros env; [by exists []|].
  cbn [rows_update]. unfold row_update. destruct (read_total powf (env 0%nat).2 (row_source r) Hr) as [v ->].
  destruct (IH (λ i, env (S i))) as (rows' & -> & Heq). cbn [res_bind].
  eexists. split; [reflexivity|]. cbn [fmap list_fmap]. rewrite Heq. f_equal. unfold row_shape.
  cbn [row_name row_source row_metric row]. by rewrite metric_update_kind.
Qed.

Lemma shape_ok p p' : panel_shape p' = panel_shape p → panel_ok p → panel_ok p'.
Proof.
  unfold panel_shape, panel_ok. intros [= _ Hc _ Hrows] [Hall Hlen]. split.
  - apply Forall_lookup. intros i r' Hr'.
    assert ((row_shape <$> panel_rows p) !! i = Some (row_shape r')) as Hl by (by rewrite <-Hrows, list_lookup_fmap, Hr').
    rewrite list_lookup_fmap in Hl. destruct (panel_rows p !! i) as [r|] eqn:Hr; [|done]. injection Hl as Hn Hs Hk.
    rewrite <-Hs. by eapply (Forall_lookup_1 (λ r, source_ok (row_source r))).
  - rewrite Hc, <-Hlen. do 2 f_equal. apply (f_equal length) in Hrows. by rewrite !length_fmap in Hrows.
Qed.

Lemma on_tick_shape powf env ps :
  Forall panel_ok ps → ∃ ps', on_tick powf env ps = Ok ps' ∧ panel_shape <$> ps' = panel_shape <$> ps.
Proof.
  intros Hp. revert env. induction Hp as [|p ps [Hp _] _ IH]; intros env; [by exists []|].
  cbn [on_tick]. unfold panel_update. destruct (rows_update_shape powf (env 0%nat) _ Hp) as (rows & -> & Heq).
  destruct (IH (λ i, env (S i))) as (ps' & -> & Heq'). cbn [res_bind]. eexists. split; [reflexivity|].
  cbn [fmap list_fmap]. rewrite Heq'. f_equal. unfold panel_shape. cbn. by rewrite Heq.
Qed.

Lemma panel_of_ok now w : panel_ok (panel_of now w).
Proof.
  split; [|by destruct w]. destruct w; unfold panel_of, common_widget, tx_widget, rx_widget, sock_widget, http_widget, burst_tx_widget, rx_timings_widget; cbn [panel panel_rows]; repeat constructor.
Qed.

Lemma shapes_ok ps ps' : panel_shape <$> ps' = panel_shape <$> ps → Forall panel_ok ps → Forall panel_ok ps'.
Proof.
  revert ps'. induction ps as [|p ps IH]; intros [|p' ps'] Heq Hok; try done.
  rewrite !fmap_cons in Heq. apply (inj2 cons) in Heq as [Hp Hps]. apply Forall_cons in Hok as [Hp' Hok].
  constructor; [by eapply shape_ok|by apply IH].
Qed.

Section life.
Context {C : Type} `{BoundedChannel C} (powf : f64 → f64 → f64) (fps : Duration).
Implicit Types s : @Screen C.

Lemma turn_shape t s :
  Forall panel_ok (s_panels s) →
  ∃ o, turn powf fps t s = Ok o ∧
    ∀ s', o = Some s' → panel_shape <$> s_panels s' = panel_shape <$> s_panels s.
Proof.
  intros Hok. unfold turn. destruct (match t_key t with Some _ => _ | None => _ end) as [u|].
  2: { eexists. split; [reflexivity|]. done. }
  destruct (fps <=? _).
  - destruct (on_tick_shape powf (t_reads t) _ Hok) as (ps' & -> & Heq). cbn [res_bind].
    eexists. split; [reflexivity|]. by intros s' [= <-].
  - eexists. split; [reflexivity|]. by intros s' [= <-].
Qed.

Lemma turns_shape ts s :
  Forall panel_ok (s_panels s) →
  ∃ o, turns powf fps ts s = Ok o ∧
    ∀ s', o = Some s' → panel_shape <$> s_panels s' = panel_shape <$> s_panels s.
Proof.
  revert s. induction ts as [|t ts IH]; intros s Hok; cbn [turns].
  { eexists. split; [reflexivity|]. by intros s' [= <-]. }
  destruct (turn_shape t s Hok) as ([s1|] & -> & Hs1); cbn [res_bind]; [|by exists None].
  specialize (Hs1 s1 eq_refl). destruct (IH s1) as (o & Ho & Hso); [by eapply shapes_ok|].
  exists o. split; [exact Ho|]. intros s' Hs'. by rewrite (Hso s' Hs').
Qed.
End life.

(** The screen is well formed whatever the server describes and whatever
    happens: the interface never panics, it has one widget for every described
    group, in order, and each keeps its title, the names of its rows, the kind
    of every metric, and a height that leaves one line for every row inside the
    frame. *)
Theorem widgets_well_formed {C} `{BoundedChannel C} powf fps (tx : C) groups now ts :
  ∃ o, turns powf fps ts (screen_start tx groups now) = Ok o ∧
    ∀ s, o = Some s →
      panel_shape <$> s_panels s = (λ w, panel_shape (panel_of now w)) <$> build_ui groups ∧
      Forall (λ p, drawing_height (panel_draw p) + 2 = panel_constraint p) (s_panels s).
Proof.
  assert (Forall panel_ok (s_panels (screen_start tx groups now))) as Hok.
  { cbn [screen_start s_panels]. apply Forall_fmap, Forall_true. apply panel_of_ok. }
  destruct (turns_shape powf fps ts _ Hok) as (o & Ho & Hs). exists o. split; [exact Ho|]. intros s Hso.
  specialize (Hs s Hso). split; [by rewrite Hs; cbn [screen_start s_panels]; rewrite <-list_fmap_compose|].
  apply (Forall_impl _ _ _ (shapes_ok _ _ Hs Hok)). intros p [_ Hp]. rewrite <-Hp. unfold panel_draw, drawing_height.
  destruct (panel_chart p); by rewrite length_fmap.
Qed.

Lemma widgets_well_formed_witness :
  let s := screen_start (C := list GeneratorEvent) [] [1; 2; 7; 99] 0 in
  let t := {| t_polled := 1000; t_key := None; t_checked := 25000000; t_reads := λ _ _, (25000000, remote_new);
              t_ticked := 25100000 |} in
  ∃ o, turns (λ x _, x) 25000000 [t] s = Ok o ∧ option_map (λ s', length (s_panels s')) o = Some 3%nat.
Proof.
  intros s t. destruct (widgets_well_formed (C := list GeneratorEvent) (λ x _, x) 25000000 [] [1; 2; 7; 99] 0 [t]) as (o & Ho & Hs).
  exists o. split; [exact Ho|]. destruct o as [s'|]; [|vm_compute in Ho; congruence].
  cbn [option_map]. f_equal. destruct (Hs s' eq_refl) as [Heq _]. apply (f_equal length) in Heq.
  rewrite !length_fmap in Heq. exact Heq.
Defined.

(** ** The numbers shown *)

Definition row_gauge (p : string) (r : Row) : option (string * string * Z) :=
  match row_metric r with Gauge v => Some (p, row_name r, v) | _ => None end.
Definition row_gauge_source (p : string) (r : Row) : option (string * string * Source) :=
  match row_metric r with Gauge _ => Some (p, row_name r, row_source r) | _ => None end.

(** The plain counters on the screen, with the title and the name they have. *)
Definition gauges (ps : list Panel) : list (string * string * Z) :=
  ps ≫= λ p, omap (row_gauge (panel_name p)) (panel_rows p).
Definition gauge_sources (ps : list Panel) : list (string * string * Source) :=
  ps ≫= λ p, omap (row_gauge_source (panel_name p)) (panel_rows p).

Definition shows powf (r : RemoteStat) (g : string * string * Z) (src : string * string * Source) : Prop :=
  g.1 = src.1 ∧ read powf r src.2 = Ok g.2.

Lemma rows_update_gauges powf r p env rows rows' :
  (∀ i, (env i).2 = r) → rows_update powf env rows = Ok rows' →
  Forall2 (shows powf r) (omap (row_gauge p) rows') (omap (row_gauge_source p) rows).
Proof.
  revert env rows'. induction rows as [|row rows IH]; intros env rows' Hr Hu; cbn [rows_update] in Hu.
  { injection Hu as <-. constructor. }
  apply res_bind_Ok in Hu as (row' & Hrow & Hu). apply res_bind_Ok in Hu as (l & Hl & Hu). injection Hu as <-.
  specialize (IH _ _ (λ i, Hr (S i)) Hl). unfold row_update in Hrow. rewrite Hr in Hrow.
  apply res_bind_Ok in Hrow as (v & Hv & Hrow). injection Hrow as <-.
  csimpl. unfold row_gauge at 1, row_gauge_source at 1. cbn [row_metric row_name].
  destruct (row_metric row); cbn [metric_update]; [|exact IH..]. by constructor.
Qed.

Lemma on_tick_gauges powf r env ps ps' :
  (∀ i j, (env i j).2 = r) → on_tick powf env ps = Ok ps' →
  Forall2 (shows powf r) (gauges ps') (gauge_sources ps).
Proof.
  revert env ps'. induction ps as [|p ps IH]; intros env ps' Hr Hu; cbn [on_tick] in Hu.
  { injection Hu as <-. constructor. }
  apply res_bind_Ok in Hu as (p' & Hp & Hu). apply res_bind_Ok in Hu as (l & Hl & Hu). injection Hu as <-.
  unfold panel_update in Hp. apply res_bind_Ok in Hp as (rows & Hrows & Hp). injection Hp as <-.
  unfold gauges, gauge_sources. csimpl. apply Forall2_app.
  - eapply rows_update_gauges; [|exact Hrows]. intros i. apply Hr.
  - eapply IH; [|exact Hl]. intros i j. apply Hr.
Qed.

(** The widgets of an engine, before the first refresh. *)
Definition engine_panels (e : EngineKind) (now : Instant) : list Panel :=
  panel_of now <$> build_ui (into_response (describe e)).2.

Lemma engine_tick powf e now env r :
  (∀ i j, (env i j).2 = r) →
  ∃ ps, on_tick powf env (engine_panels e now) = Ok ps ∧
    Forall2 (shows powf r) (gauges ps) (gauge_sources (engine_panels e now)).
Proof.
  intros Hr. destruct (on_tick_shape powf env (engine_panels e now)) as (ps & Hps & _).
  { apply Forall_fmap, Forall_true. apply panel_of_ok. }
  exists ps. split; [exact Hps|]. by eapply on_tick_gauges.
Qed.

Lemma shows_cons powf r l n src srcs :
  Forall2 (shows powf r) l ((n, src) :: srcs) →
  ∃ v l', l = (n, v) :: l' ∧ (∀ x, read powf r src = Ok x → v = x) ∧ read powf r src = Ok v ∧ Forall2 (shows powf r) l' srcs.
Proof.
  intros ([n' v] & l' & [Hn Hv] & Hl & ->)%Forall2_cons_inv_r. cbn [fst snd] in Hn, Hv. subst n'. exists v, l'.
  split_and!; [done|intros x Hx; congruence|done|done].
Qed.

(** Reads off the gauges one after the other. *)
Ltac read_gauges :=
  repeat match goal with
  | H : Forall2 (shows _ _) ?l (_ :: _) |- _ =>
      let Hg := fresh in apply shows_cons in H as (? & ? & -> & Hg & _ & H); rewrite (Hg _ eq_refl); clear Hg
  | H : Forall2 (shows _ _) ?l [] |- _ => apply Forall2_nil_inv_r in H as ->
  end.

(** C20: from the counters of the workers to the text on the screen: after a
    refresh that follows a snapshot of an engine, the interface shows exactly
    the target rate and the counters of the engine, each under its name — for
    DPDK the bursts of every two neighbouring sizes added — and the decimal
    text of a counter reads back as the counter. *)
Theorem screen_shows_engine powf now r0 (h : HttpStatOf unit) (u : UdpStat) (d : DpdkStat) :
  Forall (λ w, length (w_bursts (bursts_tx w)) = 32%nat) (Stat.stats d) →
  (∃ snap, snapshot h = Ok snap ∧ ∀ env, (∀ i j, (env i j).2 = remote_store r0 snap) →
    ∃ ps, on_tick powf env (engine_panels HttpEngine now) = Ok ps ∧
      gauges ps =
        [("Generator", "RPS expected ", generator h); ("Requests", "Requests sent", num_requests h);
         ("Responses", "Responses    ", num_responses h); ("Responses", "Timeouts     ", num_timeouts h);
         ("HTTP", "2xx", num_2xx h); ("HTTP", "3xx", num_3xx h); ("HTTP", "4xx", num_4xx h); ("HTTP", "5xx", num_5xx h);
         ("Sockets", "Created", num_sock_created h); ("Sockets", "Errors ", num_sock_errors h);
         ("Sockets", "Retransmits", num_retransmits h)]) ∧
  (∃ snap, snapshot u = Ok snap ∧ ∀ env, (∀ i j, (env i j).2 = remote_store r0 snap) →
    ∃ ps, on_tick powf env (engine_panels UdpEngine now) = Ok ps ∧
      gauges ps =
        [("Generator", "RPS expected ", generator u); ("Requests", "Requests sent", num_requests u);
         ("Sockets", "Created", num_sock_created u); ("Sockets", "Errors ", num_sock_errors u);
         ("Sockets", "Retransmits", num_retransmits u)]) ∧
  (∃ snap, snapshot d = Ok snap ∧ ∀ env, (∀ i j, (env i j).2 = remote_store r0 snap) →
    ∃ ps, on_tick powf env (engine_panels DpdkEngine now) = Ok ps ∧
      ∃ bars, gauges ps = ("Generator", "RPS expected ", generator d) ::
                          ("Requests", "Requests sent", num_requests d) :: bars ∧
      Forall2 (λ bar idx, bar.1 = ("Bursts TX", bar_label idx) ∧
        ∃ a b, num_bursts_tx d (2 * idx) = Ok a ∧ num_bursts_tx d (2 * idx + 1) = Ok b ∧ bar.2 = u64_add a b)
        bars (seq 0 16)) ∧
  (∀ v, is_u64 v → read_digits 10 0 (metric_text (Gauge v)) = Some v).
Proof.
  intros Hd. destruct (http_reads h r0) as (sh & Hh & Hgh & Hth & Hrh & Hsh & Hhh).
  destruct (udp_reads u r0) as (su & Hu & Hgu & Htu & Hsu & _).
  destruct (dpdk_reads d r0 Hd) as (sd & Hsd & Hgd & Htd & _ & _ & Hb). split_and!.
  - exists sh. split; [exact Hh|]. intros env Henv.
    destruct (engine_tick powf HttpEngine now env _ Henv) as (ps & Hps & Hg). exists ps. split; [exact Hps|].
    vm_compute gauge_sources in Hg. revert Hg. generalize (gauges ps). intros l Hg. read_gauges.
    destruct Hth as [-> _], Hrh as (-> & -> & _), Hsh as (-> & -> & ->), Hhh as (-> & -> & -> & ->). by rewrite Hgh.
  - exists su. split; [exact Hu|]. intros env Henv.
    destruct (engine_tick powf UdpEngine now env _ Henv) as (ps & Hps & Hg). exists ps. split; [exact Hps|].
    vm_compute gauge_sources in Hg. revert Hg. generalize (gauges ps). intros l Hg. read_gauges.
    destruct Htu as [-> _], Hsu as (-> & -> & ->). by rewrite Hgu.
  - exists sd. split; [exact Hsd|]. intros env Henv.
    destruct (engine_tick powf DpdkEngine now env _ Henv) as (ps & Hps & Hg). exists ps. split; [exact Hps|].
    vm_compute gauge_sources in Hg.
    revert Hg. generalize (gauges ps). intros l Hg.
    apply shows_cons in Hg as (? & ? & -> & H1 & _ & Hg). apply shows_cons in Hg as (? & bars & -> & H2 & _ & Hg).
    rewrite (H1 _ eq_refl), (H2 _ eq_refl).
    destruct Htd as [-> _]. rewrite Hgd. exists bars. split; [done|].
    change (Forall2 (shows powf (remote_store r0 sd)) bars
      ((λ idx, ("Bursts TX", bar_label idx, SBursts idx)) <$> seq 0 16)) in Hg.
    apply (Forall2_fmap_r (λ idx, ("Bursts TX", bar_label idx, SBursts idx))) in Hg.
    apply Forall2_same_length_lookup in Hg as [Hlen Hg].
    apply Forall2_same_length_lookup_2; [done|]. intros i bar idx Hbar Hidx. destruct (Hg i bar idx Hbar Hidx) as [Hn Hv].
    split; [exact Hn|]. apply lookup_seq in Hidx as [-> Hi].
    cbn [read snd] in Hv. rewrite !Hb in Hv by lia.
    apply res_bind_Ok in Hv as (a & Ha & Hv). apply res_bind_Ok in Hv as (b & Hbb & Hv). injection Hv as Hv.
    by exists a, b.
  - intros v Hv. by apply read_fmt_u64.
Qed.

Lemma screen_shows_engine_witness :
  ∃ snap, snapshot (stat_new [default_value] : DpdkStat) = Ok snap ∧
    ∃ ps, on_tick (λ x _, x) (λ _ _, (25, remote_store remote_new snap)) (engine_panels DpdkEngine 0) = Ok ps ∧
      length (gauges ps) = 18%nat.
Proof.
  destruct (screen_shows_engine (λ x _, x) 0 remote_new (stat_new []) (stat_new [])
    (stat_new [default_value] : DpdkStat)) as (_ & _ & (snap & Hsnap & H) & _).
  - repeat (apply Forall_cons; split; [done|]). by apply Forall_nil.
  - exists snap. split; [exact Hsnap|].
    destruct (H (λ _ _, (25, remote_store remote_new snap)) (λ _ _, eq_refl)) as (ps & Hps & bars & Hg & Hb).
    exists ps. split; [exact Hps|]. rewrite Hg. cbn [length]. by rewrite (Forall2_length _ _ _ Hb).
Defined.

(** Until the first snapshot has arrived there is no histogram: the marker of
    [quantile] for that, which the report writes as n/a, is shown as a time. *)
Example timings_before_first_snapshot :
  ∃ v, read (λ x _, x) remote_new (SQuantile f64_one) = Ok v ∧ v = u64_max ∧
    metric_text (Quantile v) = "18446744073709.55s".
Proof. eexists. split; [reflexivity|]. by vm_compute. Qed.

(** ** The loop refreshes *)

Section refresh.
Context {C : Type} `{BoundedChannel C} (powf : f64 → f64 → f64) (fps : Duration).
Implicit Types s : @Screen C.

(** What the clock and [event::poll] give a turn: time does not run backwards,
    and without a key the wait lasts as long as was asked. *)
Definition turn_ok (t : Turn) s : Prop :=
  s_prev_ts s ≤ t_polled t ≤ t_checked t ∧ t_checked t ≤ t_ticked t ∧
  (t_key t = None → t_polled t + timeout fps t s ≤ t_checked t).

(** A run of turns with the instants at which the widgets were refreshed. *)
Inductive run (s0 : Screen) : list Instant → Screen → Instant → Prop :=
  | run_start now : s_prev_ts s0 ≤ now → now - s_prev_ts s0 < fps → run s0 [] s0 now
  | run_turn ticks s now t s' :
      run s0 ticks s now → now ≤ t_polled t → turn_ok t s → turn powf fps t s = Ok (Some s') →
      run s0 (if fps <=? elapsed (t_checked t) (s_prev_ts s) then ticks ++ [t_ticked t] else ticks) s' (t_checked t).

Lemma turn_refreshes t s s' :
  0 < fps → turn_ok t s → turn powf fps t s = Ok (Some s') →
  (t_key t = None → fps ≤ elapsed (t_checked t) (s_prev_ts s)) ∧
  (if fps <=? elapsed (t_checked t) (s_prev_ts s)
   then s_prev_ts s' = t_ticked t ∧ s_prev_ts s + fps ≤ s_prev_ts s' ∧ on_tick powf (t_reads t) (s_panels s) = Ok (s_panels s')
   else s_prev_ts s' = s_prev_ts s ∧ s_panels s' = s_panels s) ∧
  t_checked t - s_prev_ts s' < fps.
Proof.
  intros Hfps (Hle & Htick & Hidle) Hturn. unfold turn in Hturn. unfold timeout, elapsed, duration_since in *.
  split; [intros Hk; specialize (Hidle Hk); lia|].
  destruct (match t_key t with Some _ => _ | None => _ end) as [u|]; [|done].
  destruct (Z.leb_spec fps (Z.max 0 (t_checked t - s_prev_ts s))) as [Hge|Hlt].
  - apply res_bind_Ok in Hturn as (ps & Hps & Hturn). injection Hturn as <-. cbn [s_prev_ts s_panels].
    split_and!; [done|lia|exact Hps|lia].
  - injection Hturn as <-. cbn [s_prev_ts s_panels]. split_and!; [done|done|lia].
Qed.

(** The screen stays fresh: in every run of the loop, however many keys are
    pressed, the last refresh is never more than a frame interval before the
    last time the loop looked at the clock; every turn in which no key arrives
    refreshes the widgets; and two refreshes are at least an interval apart, so
    that the loop does not spin. *)
Theorem screen_refreshes s0 ticks s now :
  0 < fps → run s0 ticks s now →
  s_prev_ts s = List.last ticks (s_prev_ts s0) ∧ now - s_prev_ts s < fps ∧
  Z.of_nat (length ticks) * fps ≤ s_prev_ts s - s_prev_ts s0 ∧
  ∀ t s', now ≤ t_polled t → turn_ok t s → t_key t = None → turn powf fps t s = Ok (Some s') →
    s_prev_ts s' = t_ticked t ∧ on_tick powf (t_reads t) (s_panels s) = Ok (s_panels s').
Proof.
  intros Hfps Hrun.
  assert (∀ t s', turn_ok t s → t_key t = None → turn powf fps t s = Ok (Some s') →
    s_prev_ts s' = t_ticked t ∧ on_tick powf (t_reads t) (s_panels s) = Ok (s_panels s')) as Hidle.
  { intros t s' Hok Hk Ht. destruct (turn_refreshes t s s' Hfps Hok Ht) as (Hi & Hc & _).
    specialize (Hi Hk). destruct (Z.leb_spec fps (elapsed (t_checked t) (s_prev_ts s))); [|lia]. tauto. }
  assert (s_prev_ts s = List.last ticks (s_prev_ts s0) ∧ now - s_prev_ts s < fps ∧
    Z.of_nat (length ticks) * fps ≤ s_prev_ts s - s_prev_ts s0) as (H1 & H2 & H3).
  { clear Hidle. induction Hrun as [now H0 H1|ticks s now t s' _ (IH1 & IH2 & IH3) Hle Hok Ht].
    - cbn [List.last length]. split_and!; [done|done|lia].
    - destruct (turn_refreshes t s s' Hfps Hok Ht) as (_ & Hc & Hlt).
      destruct (fps <=? _).
      + destruct Hc as (Hp & Hge & _). rewrite List.last_last, length_app. cbn [length]. split_and!; [done|done|lia].
      + destruct Hc as (Hp & _). rewrite Hp in *. by split_and!. }
  split_and!; [done..|]. intros t s' _. apply Hidle.
Qed.
End refresh.

Definition example_turn : Turn :=
  {| t_polled := 1000; t_key := None; t_checked := 25000000; t_reads := λ _ _, (25000000, remote_new);
     t_ticked := 25100000 |}.

Lemma screen_refreshes_witness :
  let s0 := screen_start (C := list GeneratorEvent) [] [1; 2] 0 in
  ∃ s, turn (λ x _, x) 25000000 example_turn s0 = Ok (Some s) ∧ s_prev_ts s = 25100000.
Proof.
  intros s0. eexists. split; [reflexivity|].
  apply (screen_refreshes (C := list GeneratorEvent) (λ x _, x) 25000000 s0 [] s0 0 ltac:(lia)) with (t := example_turn).
  - constructor; vm_compute; done.
  - by vm_compute.
  - split_and!; vm_compute; done.
  - done.
  - reflexivity.
Defined.
