(* ===== verification/Stream.v ===== *)
(** * The streams of the gRPC seam ([dwd-core/src/grpc/server.rs], [dwd/src/grpc/client.rs])

    Two flows cross the seam.  Snapshots go from the task of [stream_stats],
    through a small channel and the connection, to the mirror the widgets read;
    control events go from the interface, through a channel, the forwarder and
    the service, to the channel the rate-control loop polls.  Each is a system
    of small steps; the connection (tonic, hyper) delivers in order. *)
From stdpp Require Import relations.
From S2P Require Import Prelude Machine Time Suspendable Stat Seam.

Definition STATS_INTERVAL : Duration := 25 * 1000000.
Definition STATS_CHANNEL_CAP : nat := 4.

(** ** Snapshots *)

(** Where the task of a subscriber stands: waiting for its interval, waiting for
    room for a snapshot it has taken, or over. *)
Inductive Producer := Waiting | Sending (s : StatsSnapshot) | Over.

Record Stream := {
  is_running : bool;
  producer : Producer;
  channel : list StatsSnapshot;      (* between the task and the connection *)
  wire : list StatsSnapshot;         (* on the connection *)
  mirror : RemoteStat;
  subscribed : bool;                 (* the consumer's loop goes on *)
  taken : list StatsSnapshot;        (* every snapshot taken so far *)
  stored : list StatsSnapshot;       (* every snapshot stored so far *)
}.

Definition stream_start (running : bool) : Stream :=
  {| is_running := running; producer := Waiting; channel := []; wire := []; mirror := remote_new; subscribed := true;
     taken := []; stored := [] |}.

Inductive Move :=
  | Tick (s : StatsSnapshot)   (* the interval is over; [s] is what the source shows *)
  | Enqueue                    (* [tx.send] completes *)
  | Forward                    (* the connection takes the next message *)
  | Receive                    (* [stream.message()] gives a snapshot *)
  | Finish                     (* [stream.message()] gives the end of the stream *)
  | Unsubscribe                (* the subscriber drops the stream *)
  | ClearFlag.                 (* [is_running] is cleared, anywhere *)

Definition set_producer (p : Producer) (s : Stream) : Stream :=
  {| is_running := is_running s; producer := p; channel := channel s; wire := wire s; mirror := mirror s;
     subscribed := subscribed s; taken := taken s; stored := stored s |}.

Section snapshots.
(** What the flow control of the connection lets be on its way: the pipe and the
    windows of HTTP/2 are finite, and a message takes room in them until it is
    received. *)
Context (wire_cap : nat).

Definition move (m : Move) (s : Stream) : option Stream :=
  match m with
  | Tick snap =>
      match producer s with
      | Waiting =>
          if is_running s
          then Some {| is_running := true; producer := Sending snap; channel := channel s; wire := wire s;
                       mirror := mirror s; subscribed := subscribed s; taken := taken s ++ [snap]; stored := stored s |}
          else Some (set_producer Over s)
      | _ => None
      end
  | Enqueue =>
      match producer s with
      | Sending snap =>
          if negb (subscribed s) then Some (set_producer Over s)
          else if (length (channel s) <? STATS_CHANNEL_CAP)%nat
          then Some {| is_running := is_running s; producer := Waiting; channel := channel s ++ [snap]; wire := wire s;
                       mirror := mirror s; subscribed := subscribed s; taken := taken s; stored := stored s |}
          else None
      | _ => None
      end
  | Forward =>
      match channel s with
      | snap :: channel =>
          if (length (wire s) <? wire_cap)%nat
          then Some {| is_running := is_running s; producer := producer s; channel := channel; wire := wire s ++ [snap];
                       mirror := mirror s; subscribed := subscribed s; taken := taken s; stored := stored s |}
          else None
      | [] => None
      end
  | Receive =>
      match wire s with
      | snap :: wire =>
          if subscribed s
          then Some {| is_running := is_running s; producer := producer s; channel := channel s; wire := wire;
                       mirror := remote_store (mirror s) snap; subscribed := true; taken := taken s;
                       stored := stored s ++ [snap] |}
          else None
      | [] => None
      end
  | Finish =>
      match producer s, channel s, wire s with
      | Over, [], [] =>
          if subscribed s
          then Some {| is_running := is_running s; producer := Over; channel := []; wire := []; mirror := mirror s;
                       subscribed := false; taken := taken s; stored := stored s |}
          else None
      | _, _, _ => None
      end
  | Unsubscribe =>
      Some {| is_running := is_running s; producer := producer s; channel := channel s; wire := wire s;
              mirror := mirror s; subscribed := false; taken := taken s; stored := stored s |}
  | ClearFlag =>
      Some {| is_running := false; producer := producer s; channel := channel s; wire := wire s; mirror := mirror s;
              subscribed := subscribed s; taken := taken s; stored := stored s |}
  end.

Fixpoint moves (ms : list Move) (s : Stream) : option Stream :=
  match ms with
  | [] => Some s
  | m :: ms => match move m s with Some s => moves ms s | None => None end
  end.

Definition held (p : Producer) : list StatsSnapshot := match p with Sending s => [s] | _ => [] end.

(** What holds at every point of a stream: nothing is lost, duplicated or
    reordered while the subscriber listens. *)
Definition stream_inv (s : Stream) : Prop :=
  (length (channel s) ≤ STATS_CHANNEL_CAP ∧ length (wire s) ≤ wire_cap)%nat ∧
  mirror s = {| Seam.stored := List.last (stored s) snapshot_default |} ∧
  (stored s ++ wire s ++ channel s) `prefix_of` taken s ∧
  (subscribed s = true → taken s = stored s ++ wire s ++ channel s ++ held (producer s)).

Lemma move_inv m s s' : stream_inv s → move m s = Some s' → stream_inv s'.
Proof.
  intros ([Hc Hwc] & Hm & Hp & Hs) Hmove. destruct m; cbn [move] in Hmove.
  - destruct (producer s) eqn:Hpr; try done. destruct (is_running s).
    + injection Hmove as <-. unfold stream_inv. cbn. split_and!; [done|done|done| |].
      * by apply prefix_app_r.
      * intros Hsub. rewrite (Hs Hsub). cbn. rewrite app_nil_r. by rewrite <-!app_assoc.
    + injection Hmove as <-. unfold stream_inv. cbn. split_and!; [done..|]. intros Hsub. by rewrite (Hs Hsub).
  - destruct (producer s) as [|snap|] eqn:Hpr; try done. destruct (subscribed s) eqn:Hsub; cbn [negb] in Hmove.
    + destruct (Nat.ltb_spec (length (channel s)) STATS_CHANNEL_CAP) as [Hlt|]; [|done]. injection Hmove as <-.
      unfold stream_inv. cbn. specialize (Hs eq_refl). cbn in Hs. split_and!; [rewrite length_app; cbn; lia|done|done| |].
      * rewrite Hs. done.
      * intros _. by rewrite app_nil_r.
    + injection Hmove as <-. unfold stream_inv. cbn. rewrite Hsub. by split_and!.
  - destruct (channel s) as [|snap l] eqn:Hch; [done|]. destruct (Nat.ltb_spec (length (wire s)) wire_cap); [|done].
    injection Hmove as <-. unfold stream_inv. cbn in *. rewrite length_app. cbn. split_and!; [lia|lia|done| |].
    + by rewrite <-!app_assoc.
    + intros Hsub. rewrite (Hs Hsub). by rewrite <-!app_assoc.
  - destruct (wire s) as [|snap l] eqn:Hw; [done|]. destruct (subscribed s) eqn:Hsub; [|done]. injection Hmove as <-.
    unfold stream_inv. cbn in *. specialize (Hs eq_refl). split_and!; [done|lia| | |].
    + by rewrite List.last_last.
    + by rewrite <-app_assoc.
    + intros _. rewrite Hs. by rewrite <-app_assoc.
  - destruct (producer s) eqn:Hpr, (channel s), (wire s); try done. destruct (subscribed s); [|done].
    injection Hmove as <-. unfold stream_inv. cbn in *. by split_and!.
  - injection Hmove as <-. unfold stream_inv. cbn. by split_and!.
  - injection Hmove as <-. unfold stream_inv. cbn. by split_and!.
Qed.

Lemma moves_inv ms s s' : stream_inv s → moves ms s = Some s' → stream_inv s'.
Proof.
  revert s. induction ms as [|m ms IH]; intros s Hs Hm; cbn in Hm; [by injection Hm as <-|].
  destruct (move m s) as [s1|] eqn:H1; [|done]. eapply IH; [|exact Hm]. by eapply move_inv.
Qed.

Lemma stream_start_inv b : stream_inv (stream_start b).
Proof. unfold stream_inv. cbn. split_and!; [lia|lia|done|apply prefix_nil|done]. Qed.

(** A later mirror has stored everything an earlier one had. *)
Lemma moves_stored ms s s' : moves ms s = Some s' → stored s `prefix_of` stored s'.
Proof.
  revert s. induction ms as [|m ms IH]; intros s Hm; cbn in Hm; [by injection Hm as <-|].
  destruct (move m s) as [s1|] eqn:H1; [|done]. etrans; [|by apply IH]. clear -H1.
  destruct m; cbn [move] in H1; repeat case_match; simplify_eq; try done. cbn. by apply prefix_app_r.
Qed.

Lemma last_snapshot_le (f : StatsSnapshot → Z) l l' :
  l `prefix_of` l' →
  (∀ i j a b, (i ≤ j)%nat → l' !! i = Some a → l' !! j = Some b → f a ≤ f b) →
  (∀ a, a ∈ l' → f snapshot_default ≤ f a) →
  f (List.last l snapshot_default) ≤ f (List.last l' snapshot_default).
Proof.
  intros [k ->] Hmono Hdef.
  assert (∀ l, l ≠ [] → l !! pred (length l) = Some (List.last l snapshot_default)) as Hlast.
  { clear. intros l Hl. destruct (exists_last Hl) as (l0 & x & ->). rewrite List.last_last, length_app.
    cbn [length]. rewrite lookup_app_r by lia. by replace (pred (length l0 + 1) - length l0)%nat with 0%nat by lia. }
  destruct (decide (l = [])) as [->|Hl].
  - cbn [List.last app]. destruct k as [|x k]; [done|]. apply Hdef.
    eapply list_elem_of_lookup_2, (Hlast (x :: k)). done.
  - apply (Hmono (pred (length l)) (pred (length (l ++ k)))).
    + rewrite length_app. lia.
    + rewrite lookup_app_l; [by apply Hlast|]. destruct l; [done|cbn; lia].
    + apply Hlast. by destruct l.
Qed.

(** C27: the mirror the widgets read always holds a snapshot of the engine — the
    default one before the first — the snapshots arrive in the order they were
    taken, none is skipped while the subscriber listens, and the mirror lags
    by what is on the connection, in the channel and in the hands of the task: at
    most the window of the connection and five.  A counter that never decreases
    in the engine never decreases in the mirror. *)
Theorem mirror_follows b ms ms' s s' :
  moves ms (stream_start b) = Some s → moves ms' s = Some s' →
  mirror s = {| Seam.stored := List.last (stored s) snapshot_default |} ∧ stored s `prefix_of` taken s ∧
  (subscribed s = true → (length (taken s) ≤ length (stored s) + wire_cap + STATS_CHANNEL_CAP + 1)%nat) ∧
  ∀ f : StatsSnapshot → Z,
    (∀ i j a b, (i ≤ j)%nat → taken s' !! i = Some a → taken s' !! j = Some b → f a ≤ f b) →
    (∀ a, a ∈ taken s' → f snapshot_default ≤ f a) →
    f (Seam.stored (mirror s)) ≤ f (Seam.stored (mirror s')).
Proof.
  intros H1 H2. destruct (moves_inv _ _ _ (stream_start_inv b) H1) as ([Hc Hw] & Hm & Hp & Hs).
  destruct (moves_inv _ _ _ (moves_inv _ _ _ (stream_start_inv b) H1) H2) as (_ & Hm' & Hp' & _).
  assert (stored s' `prefix_of` taken s') as Hst' by (by eapply prefix_app_l).
  split_and!; [done|by eapply prefix_app_l| |].
  - intros Hsub. rewrite (Hs Hsub), !length_app. destruct (producer s); cbn [held length]; lia.
  - intros f Hmono Hdef. rewrite Hm, Hm'. cbn [Seam.stored]. apply last_snapshot_le; [by eapply moves_stored| |].
    + intros i j x y Hij Hi Hj. apply (Hmono i j x y Hij); by eapply prefix_lookup_Some.
    + intros x Hx. apply Hdef. by eapply elem_of_prefix.
Qed.

(** *** The end of the stream *)

Definition own_move (s s' : Stream) : Prop :=
  ∃ m, match m with Unsubscribe | ClearFlag => False | _ => True end ∧ move m s = Some s'.

Definition cost (s : Stream) : nat :=
  match producer s with Waiting => 1 | Sending _ => 4 | Over => 0 end + 2 * length (channel s) + length (wire s) +
  (if subscribed s then 1 else 0).

Lemma own_move_cost s s' :
  is_running s = false → own_move s s' → (cost s' < cost s)%nat ∧ is_running s' = false ∧ taken s' = taken s.
Proof.
  intros Hr (m & Hown & Hm). unfold cost.
  destruct m; cbn [move] in Hm; try done; repeat case_match; simplify_eq; cbn in *; rewrite ?length_app; cbn;
    repeat match goal with H : _ = _ |- _ => rewrite H end; cbn; split_and!; try done; try congruence; try lia.
Qed.

Lemma own_move_exists s :
  (0 < wire_cap)%nat → is_running s = false → subscribed s = true →
  ∃ s', own_move s s' ∧
    (subscribed s' = true ∨ (producer s' = Over ∧ channel s' = [] ∧ wire s' = [] ∧ channel s = [] ∧ wire s = [] ∧
       producer s = Over ∧ mirror s' = mirror s ∧ stored s' = stored s ∧ taken s' = taken s)).
Proof.
  intros Hcap Hr Hsub. destruct (wire s) as [|x w] eqn:Hw.
  2: { eexists. split; [exists Receive; split; [done|cbn [move]; by rewrite Hw, Hsub]|by left]. }
  destruct (channel s) as [|x c] eqn:Hc.
  2: { eexists. split; [exists Forward; split; [done|cbn [move]; rewrite Hc, Hw; by destruct wire_cap; [lia|]]|by left]. }
  destruct (producer s) as [|snap|] eqn:Hp.
  - eexists. split; [exists (Tick snapshot_default); split; [done|cbn [move]; by rewrite Hp, Hr]|by left].
  - eexists. split; [exists Enqueue; split; [done|cbn [move]; by rewrite Hp, Hsub, Hc]|by left].
  - eexists. split; [exists Finish; split; [done|cbn [move]; by rewrite Hp, Hc, Hw, Hsub]|]. right. by split_and!.
Qed.

Lemma own_moves_cost k s s' :
  is_running s = false → nsteps own_move k s s' → (k + cost s' ≤ cost s)%nat ∧ taken s' = taken s.
Proof.
  revert s s'. induction k as [|k IH]; intros s s' Hr Hk; inversion Hk as [|? ? s1 ? H1 H2]; subst; [split; [lia|done]|].
  destruct (own_move_cost _ _ Hr H1) as (Hlt & Hr1 & Ht). destruct (IH _ _ Hr1 H2) as [Hle Ht2]. split; [lia|congruence].
Qed.

(** When the flag is cleared every stream ends: whatever the schedule, no
    snapshot is taken any more and at most [cost] steps are left; and a
    subscriber that keeps reading gets every snapshot that was taken, sees the
    end of the stream, and is left with the last one in its mirror. *)
Theorem stream_ends b ms s :
  (0 < wire_cap)%nat → moves ms (stream_start b) = Some s → is_running s = false → subscribed s = true →
  (∀ k s', nsteps own_move k s s' → (k ≤ cost s)%nat ∧ taken s' = taken s) ∧
  ∃ k s', nsteps own_move k s s' ∧ subscribed s' = false ∧ stored s' = taken s ∧
    mirror s' = {| Seam.stored := List.last (taken s) snapshot_default |}.
Proof.
  intros Hcap Hms Hr Hsub. pose proof (moves_inv _ _ _ (stream_start_inv b) Hms) as Hinv. clear Hms. split.
  - intros k s' Hk. destruct (own_moves_cost _ _ _ Hr Hk). split; [lia|done].
  - remember (cost s) as n eqn:Hn. revert s Hr Hsub Hinv Hn. induction n as [n IH] using lt_wf_ind. intros s Hr Hsub Hinv ->.
    destruct (own_move_exists s Hcap Hr Hsub) as (s1 & H1 & Hcase).
    destruct (own_move_cost _ _ Hr H1) as (Hlt & Hr1 & Ht). destruct Hcase as [Hsub1|(Hp1 & Hc1 & Hw1 & Hc & Hw & Hp & Hm & Hst & _)].
    + destruct H1 as (m & Hown & Hm). destruct (IH _ Hlt s1 Hr1 Hsub1 (move_inv _ _ _ Hinv Hm) eq_refl) as (k & s' & Hk & Hrest).
      rewrite Ht in Hrest. exists (S k), s'. split; [|exact Hrest]. econstructor; [|exact Hk]. by exists m.
    + destruct Hinv as (_ & Hmir & _ & Hs). specialize (Hs Hsub). rewrite Hc, Hw, Hp in Hs. cbn in Hs.
      rewrite !app_nil_r in Hs. exists 1%nat, s1. split_and!.
      * econstructor; [exact H1|constructor].
      * destruct H1 as (m & Hown & Hmv). destruct m; cbn [move] in Hmv; rewrite ?Hp, ?Hc, ?Hw, ?Hsub in Hmv; try done.
        by injection Hmv as <-.
      * congruence.
      * congruence.
Qed.

End snapshots.

(** ** Control events *)

(** The mixes of two lists that keep the order of each. *)
Inductive interleave {A} : list A → list A → list A → Prop :=
  | interleave_nil : interleave [] [] []
  | interleave_l x l k m : interleave l k m → interleave (x :: l) k (x :: m)
  | interleave_r x l k m : interleave l k m → interleave l (x :: k) (x :: m).

Lemma interleave_snoc_l {A} (x : A) l k m : interleave l k m → interleave (l ++ [x]) k (m ++ [x]).
Proof. induction 1; cbn; by repeat constructor. Qed.
Lemma interleave_snoc_r {A} (x : A) l k m : interleave l k m → interleave l (k ++ [x]) (m ++ [x]).
Proof. induction 1; cbn; by repeat constructor. Qed.
Lemma interleave_nil_r {A} (l m : list A) : interleave l [] m → l = m.
Proof. revert l. induction m as [|x m IH]; intros l Hi; inversion Hi; subst; [done|]. f_equal. by apply IH. Qed.

(** A prefix of a mix is a mix of prefixes. *)
Lemma interleave_prefix {A} (l k m m' : list A) :
  interleave l k (m ++ m') → ∃ l' k', interleave l' k' m ∧ l' `sublist_of` l ∧ k' `sublist_of` k.
Proof.
  revert l k. induction m as [|x m IH]; intros l k Hi.
  - exists [], []. split_and!; [constructor|apply sublist_nil_l|apply sublist_nil_l].
  - inversion Hi as [|? l1 ? ? H1|? ? k1 ? H1]; subst; destruct (IH _ _ H1) as (l' & k' & H2 & H3 & H4).
    + exists (x :: l'), k'. split_and!; [by constructor|by apply sublist_skip|done].
    + exists l', (x :: k'). split_and!; [by constructor|done|by apply sublist_skip].
Qed.

Section control_path.
Context {C : Type} `{BoundedChannel C}.

(** From the channel of the interface to what the loop has taken; [in_flight] is
    the event whose RPC the forwarder waits for. *)
Record Path := {
  ui_channel : C;
  in_flight : option GeneratorEvent;
  service : @Service C;
  pressed : list GeneratorEvent;     (* every event the keys asked for *)
  remote : list GeneratorEvent;      (* every event remote clients asked the service for *)
  received : list GeneratorEvent;    (* every event the loop has taken *)
}.

Inductive Hop :=
  | Press (ev : GeneratorEvent)   (* [tx.try_send], result ignored *)
  | Take                          (* [rx.recv().await] *)
  | Rpc                           (* [client.control(..).await] succeeds *)
  | RpcFails                      (* .. or fails without reaching the service *)
  | Remote (request : option ControlKind)   (* a remote client's [Control] *)
  | Poll.                         (* [control_rx.try_recv()] *)

(** The event a request asks the generator for; a Stop is none. *)
Definition event_of (request : option ControlKind) : option GeneratorEvent :=
  match request with
  | Some KSuspend => Some Suspend
  | Some KResume => Some Resume
  | Some (KSet rps) => Some (Set_ rps)
  | Some KStop | None => None
  end.

Definition hop (h : Hop) (p : Path) : option Path :=
  match h with
  | Press ev =>
      Some {| ui_channel := (try_send ev (ui_channel p)).1; in_flight := in_flight p; service := service p;
              pressed := pressed p ++ [ev]; remote := remote p;
                  received := received p |}
  | Take =>
      match in_flight p, try_recv (ui_channel p) with
      | None, (c, Some ev) =>
          Some {| ui_channel := c; in_flight := Some ev; service := service p; pressed := pressed p; remote := remote p;
                  received := received p |}
      | _, _ => None
      end
  | Rpc =>
      match in_flight p with
      | Some ev =>
          Some {| ui_channel := ui_channel p; in_flight := None;
                  service := control (service p) (into_control_request ev);
                  pressed := pressed p; remote := remote p; received := received p |}
      | None => None
      end
  | RpcFails =>
      match in_flight p with
      | Some ev =>
          Some {| ui_channel := ui_channel p; in_flight := None; service := service p; pressed := pressed p; remote := remote p;
                  received := received p |}
      | None => None
      end
  | Remote request =>
      Some {| ui_channel := ui_channel p; in_flight := in_flight p; service := control (service p) request;
              pressed := pressed p; remote := remote p ++ option_list (event_of request); received := received p |}
  | Poll =>
      let '(c, o) := try_recv (control_tx (service p)) in
      Some {| ui_channel := ui_channel p; in_flight := in_flight p;
              service := {| control_tx := c; Seam.is_running := Seam.is_running (service p) |};
              pressed := pressed p; remote := remote p; received := received p ++ option_list o |}
  end.

Fixpoint hops (hs : list Hop) (p : Path) : option Path :=
  match hs with
  | [] => Some p
  | h :: hs => match hop h p with Some p => hops hs p | None => None end
  end.

Definition under_way (p : Path) : list GeneratorEvent :=
  queue (control_tx (service p)) ++ option_list (in_flight p) ++ queue (ui_channel p).

(** What has come through the service, taken or not, is a mix of what the keys
    sent before what is still on its way to it, and of what came from outside. *)
Definition path_inv (p : Path) : Prop :=
  ∃ keys others, interleave keys others (received p ++ queue (control_tx (service p))) ∧
    (keys ++ option_list (in_flight p) ++ queue (ui_channel p)) `sublist_of` pressed p ∧ others `sublist_of` remote p.

Lemma send_queue ev (c : C) :
  queue (try_send ev c).1 = queue c ++ [ev] ∨ queue (try_send ev c).1 = queue c.
Proof.
  destruct (Nat.lt_ge_cases (length (queue c)) capacity) as [Hlt|Hge].
  - left. by apply try_send_room.
  - right. by apply try_send_full.
Qed.

Lemma control_queue (s : @Service C) ev :
  control_tx (control s (into_control_request ev)) = (try_send ev (control_tx s)).1.
Proof. by destruct ev. Qed.

Lemma remote_queue (s : @Service C) request :
  match event_of request with
  | Some ev => control_tx (control s request) = (try_send ev (control_tx s)).1
  | None => control_tx (control s request) = control_tx s
  end.
Proof. by destruct request as [[]|]. Qed.

Lemma hop_inv h p p' : path_inv p → hop h p = Some p' → path_inv p'.
Proof.
  unfold path_inv. intros (ks & os & Hi & Hk & Ho) Hh. destruct h; cbn [hop] in Hh.
  - injection Hh as <-. cbn. exists ks, os. split_and!; [done| |done]. destruct (send_queue ev (ui_channel p)) as [-> | ->].
    + rewrite !app_assoc in *. by apply sublist_app.
    + by apply sublist_inserts_r.
  - destruct (in_flight p) eqn:Hf; [done|]. pose proof (try_recv_queue (ui_channel p)) as [Hq He].
    destruct (try_recv (ui_channel p)) as [c [ev|]]; [|done]. injection Hh as <-. cbn in *.
    exists ks, os. split_and!; [done| |done]. destruct (queue (ui_channel p)); [done|]. cbn in *. rewrite Hq. by simplify_eq.
  - destruct (in_flight p) as [ev|] eqn:Hf; [|done]. apply (inj Some) in Hh as <-.
    cbn [ui_channel in_flight service received pressed remote option_list app] in *. rewrite control_queue.
    destruct (send_queue ev (control_tx (service p))) as [-> | ->].
    + exists (ks ++ [ev]), os. rewrite app_assoc. split_and!; [by apply interleave_snoc_l| |done]. by rewrite <-app_assoc.
    + exists ks, os. split_and!; [done| |done]. etrans; [|exact Hk]. apply sublist_app; [done|]. by apply sublist_cons.
  - destruct (in_flight p) as [ev|] eqn:Hf; [|done]. injection Hh as <-. cbn in *.
    exists ks, os. split_and!; [done| |done]. etrans; [|exact Hk]. apply sublist_app; [done|]. by apply sublist_cons.
  - injection Hh as <-. cbn [ui_channel in_flight service received pressed remote].
    pose proof (remote_queue (service p) request) as Hr. destruct (event_of request) as [ev|]; cbn [option_list] in *; rewrite Hr.
    2: { exists ks, os. by rewrite app_nil_r. }
    destruct (send_queue ev (control_tx (service p))) as [-> | ->].
    + exists ks, (os ++ [ev]). rewrite app_assoc. split_and!; [by apply interleave_snoc_r|done|by apply sublist_app].
    + exists ks, os. split_and!; [done|done|by apply sublist_inserts_r].
  - pose proof (try_recv_queue (control_tx (service p))) as [Hq He].
    destruct (try_recv (control_tx (service p))) as [c o]. injection Hh as <-. cbn in *. rewrite Hq.
    exists ks, os. split_and!; [|done|done].
    destruct (queue (control_tx (service p))); cbn in *; subst o; cbn; [by rewrite app_nil_r|]. by rewrite <-app_assoc.
Qed.

Lemma hops_inv hs p p' : path_inv p → hops hs p = Some p' → path_inv p'.
Proof.
  revert p. induction hs as [|h hs IH]; intros p Hp Hh; cbn in Hh; [by injection Hh as <-|].
  destruct (hop h p) as [p1|] eqn:H1; [|done]. eapply IH; [|exact Hh]. by eapply hop_inv.
Qed.

(** C28: what the rate-control loop obeys is what it was asked for: the events it
    takes are a mix of a subsequence of the events pressed and a subsequence of
    those of remote clients, each in their order, none made up or repeated,
    whatever is dropped at a full channel or lost with a failed request; without
    remote clients they are a subsequence of the events pressed; and when nothing
    is under way a pressed event goes all the way, in three hops. *)
Theorem control_path hs (p p' : Path) :
  pressed p = [] → remote p = [] → received p = [] → under_way p = [] → hops hs p = Some p' →
  (∃ keys others, interleave keys others (received p') ∧ keys `sublist_of` pressed p' ∧ others `sublist_of` remote p') ∧
  (remote p' = [] → received p' `sublist_of` pressed p') ∧
  ((0 < capacity)%nat → under_way p' = [] → ∀ ev, ∃ p'', hops [Press ev; Take; Rpc; Poll] p' = Some p'' ∧
    received p'' = received p' ++ [ev] ∧ under_way p'' = []).
Proof.
  intros H1 H2 H3 H4 Hh. assert (path_inv p) as Hp.
  { exists [], []. unfold under_way in H4. apply app_nil in H4 as [Hs Hr]. rewrite H3, Hs, Hr. split_and!; [apply interleave_nil|apply sublist_nil_l|apply sublist_nil_l]. }
  pose proof (hops_inv _ _ _ Hp Hh) as (ks & os & Hi & Hk & Ho).
  assert (∃ keys others, interleave keys others (received p') ∧ keys `sublist_of` pressed p' ∧ others `sublist_of` remote p') as Hmix.
  { apply interleave_prefix in Hi as (ks' & os' & Hi & Hk' & Ho'). exists ks', os'. split_and!; [done| |by etrans].
    etrans; [exact Hk'|]. etrans; [|exact Hk]. by apply sublist_inserts_r. }
  split_and!; [exact Hmix| |].
  - intros Hr. destruct Hmix as (keys & others & Hil & Hsub & Hno). rewrite Hr in Hno.
    apply sublist_nil_r in Hno as ->. by apply interleave_nil_r in Hil as <-.
  - intros Hcap Hu ev. unfold under_way in *. apply app_nil in Hu as [Hs [Hf Hq]%app_nil].
    destruct (in_flight p') eqn:Hfl; [done|].
    destruct (try_send_room ev (ui_channel p')) as [Hsend _]; [by rewrite Hq|].
    cbn [hops hop ui_channel in_flight service]. rewrite Hfl. set (c1 := (try_send ev (ui_channel p')).1) in *.
    rewrite Hq in Hsend. cbn in Hsend. pose proof (try_recv_queue c1) as [Hr1 Ho1].
    destruct (try_recv c1) as [c2 o]. cbn in Hr1, Ho1. rewrite Hsend in Hr1, Ho1. cbn in Hr1, Ho1. subst o.
    cbn [hops hop ui_channel in_flight service]. rewrite control_queue.
    destruct (try_send_room ev (control_tx (service p'))) as [Hsend2 _]; [by rewrite Hs|].
    set (c3 := (try_send ev (control_tx (service p'))).1) in *. rewrite Hs in Hsend2. cbn in Hsend2.
    pose proof (try_recv_queue c3) as [Hr3 Ho3]. destruct (try_recv c3) as [c4 o].
    cbn in Hr3, Ho3. rewrite Hsend2 in Hr3, Ho3. cbn in Hr3, Ho3. subst o.
    eexists. split; [reflexivity|]. cbn. by rewrite Hr1, Hr3.
Qed.
End control_path.
Arguments Path : clear implicits.

Definition example_path : Path (list GeneratorEvent) :=
  {| ui_channel := []; in_flight := None; service := {| control_tx := []; Seam.is_running := true |};
     pressed := []; remote := []; received := [] |}.

Lemma control_path_witness :
  ∃ p, hops (C := list GeneratorEvent) [Press (Set_ 5); Take; Remote (Some (KSet 7)); Poll; Rpc; Poll] example_path = Some p ∧
    received p = [Set_ 7; Set_ 5] ∧
    ∃ keys others, interleave keys others (received p) ∧ keys `sublist_of` [Set_ 5] ∧ others `sublist_of` [Set_ 7].
Proof.
  eexists. split; [reflexivity|]. split; [reflexivity|].
  exact (proj1 (control_path (C := list GeneratorEvent) [Press (Set_ 5); Take; Remote (Some (KSet 7)); Poll; Rpc; Poll]
    example_path _ eq_refl eq_refl eq_refl eq_refl eq_refl)).
Defined.

Definition example_snapshot (n : Z) : StatsSnapshot :=
  {| generator_rps := n; m_tx := None; m_rx := None; m_socket := None; m_http := None; m_burst_tx := None |}.

Lemma mirror_follows_witness :
  ∃ s, moves 8 [Tick (example_snapshot 1); Enqueue; Forward; Tick (example_snapshot 2); Receive] (stream_start true) = Some s ∧
    generator (mirror s) = 1 ∧ stored s `prefix_of` taken s.
Proof.
  eexists. split; [reflexivity|]. split; [reflexivity|].
  refine (proj1 (proj2 (mirror_follows 8 true [Tick (example_snapshot 1); Enqueue; Forward; Tick (example_snapshot 2); Receive] []
    _ _ eq_refl eq_refl))).
Defined.

Lemma stream_ends_witness :
  ∃ s, moves 8 [Tick (example_snapshot 1); ClearFlag] (stream_start true) = Some s ∧
    ∃ k s', nsteps (own_move 8) k s s' ∧ stored s' = [example_snapshot 1].
Proof.
  eexists. split; [reflexivity|].
  destruct (stream_ends 8 true [Tick (example_snapshot 1); ClearFlag] _ ltac:(lia) eq_refl eq_refl eq_refl) as (_ & k & s' & Hk & _ & Hst & _).
  exists k, s'. by split.
Defined.
