(* ===== verification/Summary.v ===== *)
(** * The end-of-run summary ([dwd-core/src/summary.rs])

    The sampler's state and loop over what it reads from outside, the folded
    figures, and the anomalies that make the verdict: an anomaly is its kind with
    the numbers it mentions.  The lines of the report are in [Report]. *)
From stdpp Require Import sorting.
From S2P Require Import Prelude Machine F64 Time Stat Seam.
#[local] Open Scope Z_scope.

Definition SAMPLE_INTERVAL : Duration := duration_from_secs 1.
(** 0.95, 1.0 and [f64::EPSILON]. *)
Definition UNDERACHIEVED_THRESHOLD : f64 := f64_div (f64_of_u64 95) (f64_of_u64 100).
Definition UNANSWERED_THRESHOLD_PCT : f64 := f64_one.
Definition EPSILON : f64 := f64_lit 1 (-52).

(** ** Sampling *)

Record Sampler := {
  started : Instant;
  stopped : Instant;
  prev_at : Instant;
  prev_requests : Z;
  rates : list f64;
  targets : list Z;
}.

Definition sampler_new (now : Instant) : Sampler :=
  {| started := now; stopped := now; prev_at := now; prev_requests := 0; rates := []; targets := [] |}.

Definition snapshot_requests (snapshot : StatsSnapshot) : Z :=
  match m_tx snapshot with Some tx => m_num_requests tx | None => 0 end.

Definition sample (now : Instant) (snapshot : StatsSnapshot) (s : Sampler) : Sampler :=
  let requests := snapshot_requests snapshot in
  let elapsed := as_secs_f64 (duration_since now (prev_at s)) in
  {| started := started s; stopped := stopped s; prev_at := now; prev_requests := requests;
     rates := if f64_gtb elapsed f64_zero
              then rates s ++ [f64_div (f64_of_u64 (u64_saturating_sub requests (prev_requests s))) elapsed]
              else rates s;
     targets := targets s ++ [generator_rps snapshot] |}.

(** One turn of [Sampler::run]: the clock and the snapshot it would read. *)
Fixpoint sampler_loop (s : Sampler) (next_sample : Instant) (turns : list (Instant * StatsSnapshot)) : Sampler :=
  match turns with
  | [] => s
  | (now, snapshot) :: turns =>
      if next_sample <=? now
      then sampler_loop (sample now snapshot s) (now + SAMPLE_INTERVAL) turns
      else sampler_loop s next_sample turns
  end.

Definition sampler_run (s : Sampler) (turns : list (Instant * StatsSnapshot)) (stop : Instant) : Sampler :=
  let s := sampler_loop s (started s + SAMPLE_INTERVAL) turns in
  {| started := started s; stopped := stop; prev_at := prev_at s; prev_requests := prev_requests s;
     rates := rates s; targets := targets s |}.

(** Samples are at least a second apart: a run of [d] has at most [d] seconds'
    worth of them. *)
Lemma sampler_loop_count s next turns last :
  Forall (λ t, t.1 ≤ last) turns →
  Z.of_nat (length (targets (sampler_loop s next turns))) ≤
    Z.of_nat (length (targets s)) + Z.max 0 ((last - next) / SAMPLE_INTERVAL + 1).
Proof.
  intros Hl. revert s next. induction Hl as [|[now snap] turns Hn _ IH]; intros s next; cbn [sampler_loop]; [lia|].
  destruct (Z.leb_spec next now); [|apply IH].
  etrans; [apply IH|]. cbn [targets sample fst] in *. rewrite length_app. cbn [length].
  unfold SAMPLE_INTERVAL, duration_from_secs, NANOS_PER_SEC in *.
  Z.to_euclidean_division_equations. lia.
Qed.

(** ** Figures *)

(** The order of [f64::total_cmp], as an integer. *)
Definition magnitude (x : f64) : Z :=
  match x with
  | S754_zero _ => 0
  | S754_finite _ m e => (e + 1074) * 2 ^ 52 + Z.pos m
  | S754_infinity _ => 2047 * 2 ^ 52
  | S754_nan => 2047 * 2 ^ 52 + 2 ^ 51
  end.
Definition negative (x : f64) : bool :=
  match x with S754_zero s | S754_infinity s | S754_finite s _ _ => s | S754_nan => false end.
Definition total_key (x : f64) : Z := if negative x then - magnitude x - 1 else magnitude x.
Definition total_le (x y : f64) : Prop := total_key x ≤ total_key y.

#[export] Instance total_le_dec x y : Decision (total_le x y).
Proof. unfold total_le. apply _. Defined.
#[export] Instance total_le_total : Total total_le.
Proof. intros x y. unfold total_le. lia. Qed.
#[export] Instance total_le_trans : Transitive total_le.
Proof. intros x y z. unfold total_le. lia. Qed.

Definition as_rounded (x : f64) : Z := f64_to_u64 (f64_round x).

Definition distribution (rates : list f64) : option (Z * Z * Z) :=
  match rates with
  | [] => None
  | _ =>
      let sorted := merge_sort total_le rates in
      let mid := (length sorted / 2)%nat in
      let at_ i := nth i sorted f64_zero in
      let median := if Nat.odd (length sorted) then at_ mid
                    else f64_div (f64_add (at_ (mid - 1)%nat) (at_ mid)) (f64_of_u64 2) in
      Some (as_rounded median, as_rounded (at_ 0%nat), as_rounded (at_ (length sorted - 1)%nat))
  end.

(** The extremes are those of the samples. *)
Lemma distribution_extremes rates median lo hi :
  distribution rates = Some (median, lo, hi) →
  ∃ x y, x ∈ rates ∧ y ∈ rates ∧ lo = as_rounded x ∧ hi = as_rounded y ∧
    ∀ z, z ∈ rates → total_le x z ∧ total_le z y.
Proof.
  unfold distribution. destruct rates as [|r l]; [done|]. intros [= _ <- <-].
  set (s := merge_sort total_le (r :: l)).
  assert (s ≡ₚ r :: l) as Hp by apply merge_sort_Permutation.
  assert (StronglySorted total_le s) as Hs by (apply StronglySorted_merge_sort; apply _).
  assert (0 < length s)%nat as Hlen by (rewrite Hp; cbn; lia).
  destruct (lookup_lt_is_Some_2 s 0%nat Hlen) as [x Hx].
  destruct (lookup_lt_is_Some_2 s (length s - 1)%nat) as [y Hy]; [lia|].
  exists x, y. rewrite (nth_lookup_Some _ _ _ _ Hx), (nth_lookup_Some _ _ _ _ Hy).
  split_and!; [rewrite <-Hp; by eapply list_elem_of_lookup_2..|done|done|].
  intros z Hz. rewrite <-Hp in Hz. apply list_elem_of_lookup_1 in Hz as [i Hi].
  assert (∀ l i j a b, StronglySorted total_le l → l !! i = Some a → l !! j = Some b → (i ≤ j)%nat → total_le a b)
    as Hle.
  { clear. intros l i j a b Hs. revert i j. induction Hs as [|c l Hl IH Hc]; intros i j Ha Hb Hij; [done|].
    destruct i, j; cbn in *; simplify_eq; [unfold total_le; lia| |lia|by apply (IH i j); [..|lia]].
    rewrite Forall_lookup in Hc. by eapply Hc. }
  pose proof (lookup_lt_Some _ _ _ Hi). split; eapply Hle; eauto; lia.
Qed.

Definition mean (samples : list Z) : option Z :=
  match samples with
  | [] => None
  | _ => Some (u64_sum samples / Z.of_nat (length samples))
  end.

Definition burst_stats (counts : list Z) : option (Z * f64 * f64) :=
  let total := u64_sum counts in
  if total =? 0 then None
  else
    let weighted := u64_sum (imap (λ idx c, u64_mul (u64_add (Z.of_nat idx) 1) c) counts) in
    let full := default 0 (last counts) in
    Some (total, f64_div (f64_of_u64 weighted) (f64_of_u64 total),
          f64_div (f64_mul (f64_of_u64 100) (f64_of_u64 full)) (f64_of_u64 total)).

Definition pct (part whole : Z) : f64 :=
  if whole =? 0 then f64_zero
  else f64_div (f64_mul (f64_of_u64 100) (f64_of_u64 part)) (f64_of_u64 whole).

(** ** The verdict *)

Record RunSummary := {
  engine_kind : string;
  run_duration : Duration;
  sum_rates : list f64;
  sum_targets : list Z;
  sum_snapshot : StatsSnapshot;
}.

(** [Recorder::finish]. *)
Definition finish (kind : string) (sampler : Sampler) (snapshot : StatsSnapshot) : RunSummary :=
  {| engine_kind := kind; run_duration := duration_since (stopped sampler) (started sampler);
     sum_rates := rates sampler; sum_targets := targets sampler; sum_snapshot := snapshot |}.

Inductive Issue :=
  | Timeouts (n : Z)
  | Unanswered (n : Z)
  | Http5xx (n : Z)
  | Http4xx (n : Z)
  | SocketErrors (n : Z)
  | Retransmits (n : Z)
  | Underachieved (avg target : Z).

Section summary.
Context (r : RunSummary).
Definition requests : Z := snapshot_requests (sum_snapshot r).
Definition unanswered (rx : RxStats) : Z :=
  u64_saturating_sub requests (u64_add (m_num_responses rx) (m_num_timeouts rx)).
Definition secs : f64 := f64_max (as_secs_f64 (run_duration r)) EPSILON.
Definition average : f64 := f64_div (f64_of_u64 requests) secs.
Definition underachieved (target : Z) : bool :=
  (0 <? target) && f64_ltb average (f64_mul UNDERACHIEVED_THRESHOLD (f64_of_u64 target)).

Definition when {A} (c : bool) (x : A) : list A := if c then [x] else [].

(** [RunSummary::issues]. *)
Definition issues : list Issue :=
  match m_rx (sum_snapshot r) with
  | None => []
  | Some rx =>
      when (0 <? m_num_timeouts rx) (Timeouts (m_num_timeouts rx)) ++
      when (f64_gtb (pct (unanswered rx) requests) UNANSWERED_THRESHOLD_PCT) (Unanswered (unanswered rx))
  end ++
  match m_http (sum_snapshot r) with
  | None => []
  | Some http =>
      when (0 <? m_num_5xx http) (Http5xx (m_num_5xx http)) ++
      when (0 <? m_num_4xx http) (Http4xx (m_num_4xx http))
  end ++
  match m_socket (sum_snapshot r) with
  | None => []
  | Some sock =>
      when (0 <? m_num_sock_errors sock) (SocketErrors (m_num_sock_errors sock)) ++
      when (0 <? m_num_retransmits sock) (Retransmits (m_num_retransmits sock))
  end ++
  match mean (sum_targets r) with
  | None => []
  | Some target => when (underachieved target) (Underachieved (as_rounded average) target)
  end.
End summary.

Lemma when_nil {A} c (x : A) : when c x = [] ↔ c = false.
Proof. by destruct c. Qed.

Lemma pct_zero whole : f64_gtb (pct 0 whole) UNANSWERED_THRESHOLD_PCT = false.
Proof.
  unfold pct. destruct (whole =? 0); [done|].
  change (f64_mul (f64_of_u64 100) (f64_of_u64 0)) with f64_zero.
  unfold f64_div. by destruct (f64_of_u64 whole) as [[]|[]| |[]].
Qed.

(** The verdict of an HTTP run is clean exactly when the statistics the
    snapshot was taken from show no timeout, no 4xx or 5xx response, no socket
    error, no retransmit, no more than a hundredth of the requests unanswered
    and the average target achieved; a run in which every request was answered
    or timed out is never blamed for unanswered requests. *)
Theorem verdict_is_clean {B} kind sampler (s : HttpStatOf B) snap :
  snapshot s = Ok snap →
  Forall (λ n, 0 ≤ n) [num_timeouts s; num_5xx s; num_4xx s; num_sock_errors s; num_retransmits s] →
  let r := finish kind sampler snap in
  (issues r = [] ↔
    num_timeouts s = 0 ∧ num_5xx s = 0 ∧ num_4xx s = 0 ∧ num_sock_errors s = 0 ∧ num_retransmits s = 0 ∧
    f64_gtb (pct (unanswered r (rx_stats s)) (num_requests s)) UNANSWERED_THRESHOLD_PCT = false ∧
    (∀ target, mean (targets sampler) = Some target → underachieved r target = false)) ∧
  (num_requests s ≤ u64_add (num_responses s) (num_timeouts s) →
    f64_gtb (pct (unanswered r (rx_stats s)) (num_requests s)) UNANSWERED_THRESHOLD_PCT = false).
Proof.
  intros Hs Hnn r. cbn in Hs. injection Hs as <-. rewrite !Forall_cons in Hnn.
  destruct Hnn as (H1 & H2 & H3 & H4 & H5 & _). split.
  - unfold issues. cbn [r finish sum_snapshot sum_targets m_rx m_http m_socket rx_stats http_stats socket_stats
      m_num_timeouts m_num_5xx m_num_4xx m_num_sock_errors m_num_retransmits].
    rewrite !app_nil, !when_nil, !Z.ltb_ge. destruct (mean (targets sampler)) as [t|].
    + rewrite when_nil. split.
      * intros ([] & [] & [] & ?). split_and!; try lia; try done. by intros t' [= <-].
      * intros (? & ? & ? & ? & ? & ? & Ht). split_and!; try lia; try done. by apply Ht.
    + split.
      * intros ([] & [] & [] & ?). split_and!; try lia; try done.
      * intros (? & ? & ? & ? & ? & ? & Ht). split_and!; try lia; try done.
  - intros Hle. unfold unanswered, u64_saturating_sub. cbn [r finish sum_snapshot requests rx_stats m_num_responses m_num_timeouts].
    unfold requests, snapshot_requests. cbn [sum_snapshot r finish m_tx tx_stats m_num_requests].
    rewrite Z.max_l by lia. apply pct_zero.
Qed.

Definition example_sampler : Sampler :=
  sampler_run (sampler_new 0) [(1000000000, snapshot_default)] 2000000000.

Lemma verdict_is_clean_witness :
  ∃ snap, snapshot (stat_new [] : HttpStatOf unit) = Ok snap ∧
    issues (finish "http" example_sampler snap) = [].
Proof.
  eexists. split; [reflexivity|].
  apply (verdict_is_clean "http" example_sampler (stat_new [] : HttpStatOf unit) _ eq_refl).
  - repeat (apply Forall_cons; split; [done|]). by apply Forall_nil.
  - split_and!; [reflexivity..|vm_compute; reflexivity|]. intros t Ht. vm_compute in Ht. injection Ht as <-.
    vm_compute. reflexivity.
Defined.
