(* ===== verification/Report.v ===== *)
(** * The report of a run ([dwd-core/src/summary.rs])

    [RunSummary::log] as the list of the lines it logs with their levels: the
    wording of durations, sizes, rates and latencies, the figures, the anomalies
    and the verdict.  [Summary] holds the figures themselves. *)
From Stdlib Require Import Ascii.
From S2P Require Import Prelude Machine F64 Text Time Stat Seam Histogram Summary.
#[local] Open Scope Z_scope.

(** ** Numbers with their units *)

(** [fmt_duration]. *)
Definition fmt_duration (d : Duration) : string :=
  let total := as_secs_f64 d in
  if f64_ltb total (f64_of_u64 60) then fmt_fixed 1 total +:+ "s"
  else
    let secs := as_secs d in
    let h := secs / 3600 in let m := (secs `mod` 3600) / 60 in let s := secs `mod` 60 in
    if 0 <? h then fmt_u64 h +:+ "h" +:+ fmt_02 m +:+ "m" +:+ fmt_02 s +:+ "s"
    else fmt_u64 m +:+ "m" +:+ fmt_02 s +:+ "s".

(** The loops that look for a unit: [while value >= step && unit < last]. *)
Fixpoint unit_loop (fuel : nat) (step : f64) (last : nat) (value : f64) (unit : nat) : f64 * nat :=
  match fuel with
  | O => (value, unit)
  | S fuel =>
      if f64_geb value step && (unit <? last)%nat
      then unit_loop fuel step last (f64_div value step) (S unit)
      else (value, unit)
  end.

Definition BYTES_UNITS : list string := ["B"; "KiB"; "MiB"; "GiB"; "TiB"; "PiB"].
Definition BITRATE_UNITS : list string := ["bit/s"; "Kbit/s"; "Mbit/s"; "Gbit/s"; "Tbit/s"].

(** [fmt_bytes] and [fmt_bitrate]; the fuel is the number of units. *)
Definition fmt_bytes (v : Z) : string :=
  let '(value, unit) := unit_loop 6 (f64_of_u64 1024) 5 (f64_of_u64 v) 0 in
  match unit with
  | O => fmt_u64 v +:+ " B"
  | _ => fmt_fixed 2 value +:+ " " +:+ nth unit BYTES_UNITS ""
  end.

Definition fmt_bitrate (bytes : Z) (secs : f64) : string :=
  let '(value, unit) :=
    unit_loop 5 (f64_of_u64 1000) 4 (f64_div (f64_mul (f64_of_u64 bytes) (f64_of_u64 8)) secs) 0 in
  fmt_fixed 1 value +:+ " " +:+ nth unit BITRATE_UNITS "".

(** [fmt_us]. *)
Definition fmt_us (us : Z) : string :=
  if us =? u64_max then "n/a"
  else if us <? 1000 then fmt_u64 us +:+ "us"
  else if us <? 1000000 then fmt_fixed 2 (f64_div (f64_of_u64 us) (f64_of_u64 1000)) +:+ "ms"
  else fmt_fixed 2 (f64_div (f64_of_u64 us) (f64_of_u64 1000000)) +:+ "s".

(** [RunSummary::wording]. *)
Definition wording (r : RunSummary) : string * string :=
  if String.eqb (engine_kind r) "dpdk" then ("packets", "pps") else ("requests", "rps").

(** ** The report *)

Inductive Level := Info | Warn.
#[export] Instance level_eq_dec : EqDecision Level.
Proof. solve_decision. Defined.

Section report.
Context (powf : f64 → f64 → f64) (r : RunSummary).
Let snap := sum_snapshot r.
Let noun := (wording r).1.
Let unit := (wording r).2.

Definition info (parts : list string) : Level * string := (Info, foldr String.app "" parts).

(** The text of an anomaly, as pushed by [RunSummary::issues]. *)
Definition issue_text (i : Issue) : string :=
  match i with
  | Timeouts n => fmt_u64 n +:+ " timeouts (" +:+ fmt_fixed 3 (pct n (requests r)) +:+ "% of " +:+ noun +:+ ")"
  | Unanswered n => fmt_u64 n +:+ " " +:+ noun +:+ " got no response (" +:+ fmt_fixed 2 (pct n (requests r)) +:+
      "%, stuck target or lost responses)"
  | Http5xx n => fmt_u64 n +:+ " HTTP 5xx responses"
  | Http4xx n => fmt_u64 n +:+ " HTTP 4xx responses"
  | SocketErrors n => fmt_u64 n +:+ " socket errors"
  | Retransmits n => fmt_u64 n +:+ " TCP retransmits (network or target under pressure)"
  | Underachieved avg target => "target underachieved: avg " +:+ fmt_u64 avg +:+ " of " +:+ fmt_u64 target +:+ " " +:+
      unit +:+ " (" +:+ fmt_fixed 1 (f64_div (f64_mul (f64_of_u64 100) (average r)) (f64_of_u64 target)) +:+ "%)"
  end.

Definition tx_lines (tx : TxStats) : list (Level * string) :=
  let avg := fmt_u64 (as_rounded (f64_div (f64_of_u64 (m_num_requests tx)) (secs r))) in
  [match distribution (sum_rates r) with
   | Some (median, lo, hi) =>
       info [noun; ": total="; fmt_u64 (m_num_requests tx); ", avg="; avg; " "; unit; ", median="; fmt_u64 median; " "; unit;
             ", min="; fmt_u64 lo; " "; unit; ", max="; fmt_u64 hi; " "; unit]
   | None => info [noun; ": total="; fmt_u64 (m_num_requests tx); ", avg="; avg; " "; unit]
   end;
   info ["tx: bytes="; fmt_bytes (m_bytes_tx tx); " ("; fmt_bitrate (m_bytes_tx tx) (secs r); ")"]].

Definition target_lines (target : Z) : list (Level * string) :=
  when (0 <? target)
    (info ["target: avg="; fmt_u64 target; " "; unit; ", achieved=";
           fmt_fixed 1 (f64_div (f64_mul (f64_of_u64 100) (average r)) (f64_of_u64 target)); "%"]).

Definition latency_lines (rx : RxStats) : res (list (Level * string)) :=
  if 0 <? u64_sum (m_histogram_buckets rx) then
    let at_ q := quantile powf (m_histogram_buckets rx) q in
    let! p50 := at_ (f64_lit 1 (-1)) in
    let! p90 := at_ (f64_div (f64_of_u64 9) (f64_of_u64 10)) in
    let! p95 := at_ (f64_div (f64_of_u64 95) (f64_of_u64 100)) in
    let! p99 := at_ (f64_div (f64_of_u64 99) (f64_of_u64 100)) in
    let! p999 := at_ (f64_div (f64_of_u64 999) (f64_of_u64 1000)) in
    let! max := at_ f64_one in
    Ok [info ["latency: p50="; fmt_us p50; ", p90="; fmt_us p90; ", p95="; fmt_us p95; ", p99="; fmt_us p99;
              ", p99.9="; fmt_us p999; ", max="; fmt_us max]]
  else Ok [].

Definition rx_lines (rx : RxStats) : res (list (Level * string)) :=
  let! latency := latency_lines rx in
  Ok (info ["rx: responses="; fmt_u64 (m_num_responses rx); " (";
            fmt_fixed 2 (pct (m_num_responses rx) (requests r)); "% of "; noun; "), timeouts=";
            fmt_u64 (m_num_timeouts rx); ", unanswered="; fmt_u64 (unanswered r rx); ", bytes="; fmt_bytes (m_bytes_rx rx);
            " ("; fmt_bitrate (m_bytes_rx rx) (secs r); ")"] :: latency).

Definition http_lines (http : HttpStats) : list (Level * string) :=
  let total := u64_add (u64_add (u64_add (m_num_2xx http) (m_num_3xx http)) (m_num_4xx http)) (m_num_5xx http) in
  when (0 <? total)
    (info ["http: 2xx="; fmt_u64 (m_num_2xx http); " ("; fmt_fixed 2 (pct (m_num_2xx http) total); "%), 3xx=";
           fmt_u64 (m_num_3xx http); ", 4xx="; fmt_u64 (m_num_4xx http); ", 5xx="; fmt_u64 (m_num_5xx http)]).

Definition socket_lines (sock : SocketStats) : list (Level * string) :=
  [info ["sockets: created="; fmt_u64 (m_num_sock_created sock); ", errors="; fmt_u64 (m_num_sock_errors sock);
         ", retransmits="; fmt_u64 (m_num_retransmits sock)]].

Definition burst_lines (bursts : BurstTxStats) : list (Level * string) :=
  match burst_stats (m_num_bursts_tx bursts) with
  | Some (total, avg_size, full_pct) =>
      [info ["bursts: total="; fmt_u64 total; ", avg-size="; fmt_fixed 1 avg_size; ", full="; fmt_fixed 1 full_pct; "%"]]
  | None => []
  end.

Definition opt_lines {A} (o : option A) (f : A → list (Level * string)) : list (Level * string) :=
  match o with Some a => f a | None => [] end.

(** The lines before the verdict. *)
Definition figures : res (list (Level * string)) :=
  let! rx := match m_rx snap with Some rx => rx_lines rx | None => Ok [] end in
  Ok (info ["shooting finished: engine="; engine_kind r; ", duration="; fmt_duration (run_duration r)] ::
      opt_lines (m_tx snap) tx_lines ++ opt_lines (mean (sum_targets r)) target_lines ++ rx ++
      opt_lines (m_http snap) http_lines ++ opt_lines (m_socket snap) socket_lines ++
      opt_lines (m_burst_tx snap) burst_lines).

Definition verdict : list (Level * string) :=
  match issues r with
  | [] => [(Info, "verdict: OK (no anomalies detected)")]
  | l => ((λ i, (Warn, "anomaly: " +:+ issue_text i)) <$> l) ++
         [(Warn, "verdict: " +:+ fmt_u64 (Z.of_nat (length l)) +:+ " anomaly kind(s) detected")]
  end.

(** [RunSummary::log]. *)
Definition log : res (list (Level * string)) := let! l := figures in Ok (l ++ verdict).
End report.

(** ** What the wording says *)

(** A printed duration read back, unit by unit. *)
Fixpoint read_hms (total cur : Z) (s : string) : option Z :=
  match s with
  | EmptyString => None
  | String c s =>
      match digit_value c with
      | Some d => if d <? 10 then read_hms total (cur * 10 + d) s else None
      | None =>
          if decide (c = "h"%char) then read_hms (total + cur * 3600) 0 s
          else if decide (c = "m"%char) then read_hms (total + cur * 60) 0 s
          else if decide (c = "s"%char) then if decide (s = "") then Some (total + cur) else None
          else None
      end
  end.

Lemma read_hms_number total width v s :
  0 ≤ v < 10 ^ 20 → read_hms total 0 (digits_loop 10 20 width v "" +:+ s) = read_hms total v s.
Proof.
  intros Hv. rewrite <-digits_loop_app. apply digits_loop_read; [lia| |exact Hv]. intros d c s' Hd. cbn [read_hms].
  destruct (digit_spec d) as [-> _]; [lia|]. by destruct (Z.ltb_spec d 10); [|lia].
Qed.

Lemma read_hms_units t c s :
  read_hms t c ("h" +:+ s) = read_hms (t + c * 3600) 0 s ∧ read_hms t c ("m" +:+ s) = read_hms (t + c * 60) 0 s ∧
  read_hms t c "s" = Some (t + c).
Proof. done. Qed.

(** A duration of a minute or more is printed as hours, minutes and seconds
    that read back as its whole seconds, with minutes and seconds below sixty
    and the hours left out exactly when there are none. *)
Theorem fmt_duration_reads_back d :
  is_duration d → 60 ≤ as_secs d →
  read_hms 0 0 (fmt_duration d) = Some (as_secs d) ∧
  ∃ h m s, as_secs d = h * 3600 + m * 60 + s ∧ 0 ≤ h ∧ 0 ≤ m < 60 ∧ 0 ≤ s < 60 ∧
    fmt_duration d = if h =? 0 then fmt_u64 m +:+ "m" +:+ fmt_02 s +:+ "s"
      else fmt_u64 h +:+ "h" +:+ fmt_02 m +:+ "m" +:+ fmt_02 s +:+ "s".
Proof.
  intros Hd H60. assert (f64_ltb (as_secs_f64 d) (f64_of_u64 60) = false) as Hlt.
  { pose proof (as_secs_f64_nonneg d Hd) as Hn. destruct Hd as [H0 H1].
    rewrite ltb_scaled by (done || by apply of_u64_nonneg). apply Z.ltb_ge.
    destruct (subsec_quotient d) as [Hq1 Hq2].
    trans (scaled (f64_of_u64 (as_secs d))); [|by apply add_lower; [apply of_u64_nonneg|]].
    apply of_u64_lower; [done|by apply of_u64_nonneg| |]; rewrite of_u64_exact by lia; lia. }
  unfold fmt_duration. rewrite Hlt. destruct Hd as [H0 H1]. set (v := as_secs d) in *.
  pose proof (Z.div_mod v 3600 ltac:(done)) as Hdm. pose proof (Z.mod_pos_bound v 3600 ltac:(done)) as Hm.
  pose proof (Z.div_mod (v `mod` 3600) 60 ltac:(done)) as Hdm2. pose proof (Z.mod_pos_bound v 60 ltac:(done)) as Hs.
  assert ((v `mod` 3600) `mod` 60 = v `mod` 60) as Hmm by (clear; Z.to_euclidean_division_equations; lia).
  assert (0 ≤ v / 3600 < 10 ^ 20) by (split; [apply Z.div_pos; lia|apply Z.div_lt_upper_bound; lia]).
  assert (0 ≤ v `mod` 3600 / 60 < 60) by (split; [apply Z.div_pos; lia|apply Z.div_lt_upper_bound; lia]).
  rewrite Hmm in Hdm2. split.
  - unfold fmt_u64, fmt_02. destruct (Z.ltb_spec 0 (v / 3600)).
    all: repeat (rewrite read_hms_number by lia; first [rewrite (proj1 (read_hms_units _ _ _))
      |rewrite (proj1 (proj2 (read_hms_units _ _ _)))|rewrite (proj2 (proj2 (read_hms_units _ _ "")))]).
    all: f_equal; lia.
  - exists (v / 3600), (v `mod` 3600 / 60), (v `mod` 60). split_and!; [lia..|].
    destruct (Z.ltb_spec 0 (v / 3600)), (Z.eqb_spec (v / 3600) 0); [lia|done|done|lia].
Qed.

(** The loop over the binary units: the value left is the value scaled by the
    unit, exactly, and the unit is the one that fits. *)
Lemma bytes_loop fuel last value unit :
  f64_nonneg value → f64_finite value → scaled value ≤ 2 ^ (64 + 1074) → (unit ≤ last < unit + fuel)%nat →
  let '(x, u) := unit_loop fuel (f64_of_u64 1024) last value unit in
  (unit ≤ u ≤ last)%nat ∧ scaled x * 1024 ^ Z.of_nat (u - unit) = scaled value ∧
  (u = last ∨ scaled x < 2 ^ (10 + 1074)) ∧ ((unit < u)%nat → 2 ^ 1074 ≤ scaled x).
Proof.
  revert value unit. induction fuel as [|fuel IH]; intros value unit Hn Hf Hle Hu; [lia|]. cbn [unit_loop].
  assert (scaled (f64_of_u64 1024) = 2 ^ (10 + 1074)) as H1024 by (rewrite of_u64_exact by lia; done).
  unfold f64_geb. rewrite leb_scaled, H1024 by (done || by apply of_u64_nonneg).
  destruct (Z.leb_spec (2 ^ (10 + 1074)) (scaled value)) as [Hge|Hlt]; cbn [andb].
  2: { rewrite Nat.sub_diag, Z.pow_0_r. split_and!; [lia|lia|lia|by right|lia]. }
  destruct (Nat.ltb_spec unit last) as [Hlast|Hlast].
  2: { rewrite Nat.sub_diag, Z.pow_0_r. split_and!; [lia|lia|lia|left; lia|lia]. }
  destruct (div_1024 value Hn Hf (conj Hge Hle)) as (Hn' & Hf' & Hdiv). set (q := f64_div _ _) in *.
  specialize (IH q (S unit) Hn' Hf' ltac:(pose proof (scaled_nonneg _ Hn'); lia) ltac:(lia)).
  destruct (unit_loop _ _ _ _ _) as [x u]. destruct IH as (Hu' & Heq & Hfit & Hone).
  assert (Z.of_nat (u - unit) = Z.of_nat (u - S unit) + 1) as -> by lia.
  rewrite Z.pow_add_r, Z.pow_1_r, Z.mul_assoc, Heq by lia. split_and!; [lia|lia|done|done|]. intros _.
  destruct (decide (S unit < u)%nat) as [Hs|Hs]; [by apply Hone|].
  replace (u - S unit)%nat with 0%nat in Heq by lia. rewrite Z.pow_0_r in Heq.
  change (2 ^ (10 + 1074)) with (1024 * 2 ^ 1074) in Hge. lia.
Qed.

(** A number of bytes below 1024 is printed as it is, a larger one in the
    binary unit that fits it, up to PiB, with the two decimals of the exact
    quotient of its float. *)
Theorem fmt_bytes_fits v :
  is_u64 v →
  ∃ u x, (u ≤ 5)%nat ∧ scaled x * 1024 ^ Z.of_nat u = scaled (f64_of_u64 v) ∧
    (u = 0%nat ↔ v < 1024) ∧ (u ≠ 0%nat → 2 ^ 1074 ≤ scaled x) ∧ (u = 5%nat ∨ scaled x < 1024 * 2 ^ 1074) ∧
    fmt_bytes v = if decide (u = 0%nat) then fmt_u64 v +:+ " B"
                  else fmt_fixed 2 x +:+ " " +:+ nth u BYTES_UNITS "".
Proof.
  intros [H0 H1]. pose proof (of_u64_nonneg v H0) as Hn.
  assert (scaled (f64_of_u64 v) ≤ 2 ^ (64 + 1074)) as Hle.
  { destruct (lit_pow2 64) as [A1 A2]; [lia|]. rewrite <-A2. apply of_u64_upper; [done|done|].
    rewrite A2, Z.pow_add_r by lia. unfold u64_max in H1. apply Z.mul_le_mono_nonneg_r; lia. }
  assert (f64_finite (f64_of_u64 v)) as Hf.
  { destruct (f64_of_u64 v) as [|s| |]; destruct Hn as [_ Hs]; cbn in Hs; try done. subst.
    cbn [scaled] in Hle. rewrite Z.mul_1_l in Hle. apply Z.pow_le_mono_r_iff in Hle; lia. }
  pose proof (bytes_loop 6 5 (f64_of_u64 v) 0 Hn Hf Hle ltac:(lia)) as Hl. unfold fmt_bytes.
  destruct (unit_loop _ _ _ _ _) as [x u]. destruct Hl as (Hu & Heq & Hfit & Hone). rewrite Nat.sub_0_r in Heq.
  exists u, x. split_and!; [lia|done| |intros ?; apply Hone; lia|exact Hfit|by destruct u].
  assert (scaled (f64_of_u64 1024) = 2 ^ (10 + 1074)) as H1024 by (rewrite of_u64_exact by lia; done).
  split.
  - intros ->. rewrite Z.pow_0_r, Z.mul_1_r in Heq. destruct Hfit as [|Hfit]; [done|].
    destruct (Z.lt_ge_cases v 1024) as [|Hge]; [done|].
    assert (2 ^ (10 + 1074) ≤ scaled (f64_of_u64 v)); [|lia]. rewrite <-H1024.
    apply of_u64_lower; [done|by apply of_u64_nonneg| |]; rewrite H1024; [done|].
    change (2 ^ (10 + 1074)) with (1024 * 2 ^ 1074). apply Z.mul_le_mono_nonneg_r; lia.
  - intros Hlt. destruct (decide (u = 0%nat)) as [|Hne]; [done|exfalso].
    assert (2 ^ 1074 ≤ scaled x) as Hx by (apply Hone; lia). rewrite of_u64_exact in Heq by lia.
    assert (1024 ^ 1 ≤ 1024 ^ Z.of_nat u) by (apply Z.pow_le_mono_r; lia). nia.
Qed.

(** ** The report as a whole *)

Lemma quantile_Ok powf buckets q :
  f64_leb f64_zero q && f64_leb q f64_one = true → ∃ v, quantile powf buckets q = Ok v.
Proof. intros Hq. unfold quantile. rewrite Hq. by eexists. Qed.

Definition is_info (l : Level * string) : Prop := l.1 = Info.
Definition is_warn (l : Level * string) : Prop := l.1 = Warn.
#[export] Instance is_warn_dec l : Decision (is_warn l).
Proof. unfold is_warn. apply _. Defined.

(** A report is printed whatever the figures are, and all of them are
    informative. *)
Lemma figures_info powf r : ∃ l, figures powf r = Ok l ∧ Forall is_info l ∧ l ≠ [].
Proof.
  assert (∀ {A} (o : option A) f, (∀ a, Forall is_info (f a)) → Forall is_info (opt_lines o f)) as Hopt.
  { intros A [a|] f Hf; [apply Hf|by apply Forall_nil]. }
  assert (∀ c l, is_info l → Forall is_info (when c l)) as Hwhen.
  { intros [] l Hl; [by apply Forall_singleton|by apply Forall_nil]. }
  assert (∀ rx, ∃ l, rx_lines powf r rx = Ok l ∧ Forall is_info l) as Hrx.
  { intros rx. unfold rx_lines, latency_lines.
    destruct (0 <? _); [|eexists; split; [reflexivity|by repeat constructor]].
    do 6 (match goal with |- context [quantile powf ?b ?q] =>
      destruct (quantile_Ok powf b q) as [? ->]; [by vm_compute|] end; cbn [res_bind]).
    eexists. split; [reflexivity|by repeat constructor]. }
  assert (∃ l, match m_rx (sum_snapshot r) with Some rx => rx_lines powf r rx | None => Ok [] end = Ok l ∧
    Forall is_info l) as (l & Hl & Hi).
  { destruct (m_rx _) as [rx|]; [apply Hrx|]. exists []. split; [done|by apply Forall_nil]. }
  unfold figures. rewrite Hl. cbn [res_bind]. eexists. split; [reflexivity|]. split; [|done].
  constructor; [done|]. rewrite !Forall_app. split_and!; try done; apply Hopt.
  - intros tx. unfold tx_lines. by destruct (distribution _) as [[[] ?]|]; repeat constructor.
  - intros t. by apply Hwhen.
  - intros h. by apply Hwhen.
  - intros s. by repeat constructor.
  - intros b. unfold burst_lines. by destruct (burst_stats _) as [[[] ?]|]; repeat constructor.
Qed.

Definition verdict_line (n : nat) : Level * string :=
  if decide (n = 0%nat) then (Info, "verdict: OK (no anomalies detected)")
  else (Warn, "verdict: " +:+ fmt_u64 (Z.of_nat n) +:+ " anomaly kind(s) detected").

(** C37: a report is printed for every run, it ends with the verdict, and its
    warnings are the anomalies, each in its words and in the order of their
    kinds, followed by a verdict that counts them; the verdict of an HTTP run
    is OK exactly when the statistics show no timeout, no 4xx or 5xx response,
    no socket error, no retransmit, at most a hundredth of the requests
    unanswered and the average target achieved. *)
Theorem report_verdict {B} powf kind sampler (s : HttpStatOf B) snap :
  snapshot s = Ok snap →
  Forall (λ n, 0 ≤ n) [num_timeouts s; num_5xx s; num_4xx s; num_sock_errors s; num_retransmits s] →
  let r := finish kind sampler snap in
  ∃ lines, log powf r = Ok lines ∧ last lines = Some (verdict_line (length (issues r))) ∧
    filter is_warn lines =
      match issues r with
      | [] => []
      | l => ((λ i, (Warn, "anomaly: " +:+ issue_text r i)) <$> l) ++ [verdict_line (length l)]
      end ∧
    (Forall is_info lines ↔
      num_timeouts s = 0 ∧ num_5xx s = 0 ∧ num_4xx s = 0 ∧ num_sock_errors s = 0 ∧ num_retransmits s = 0 ∧
      f64_gtb (pct (unanswered r (rx_stats s)) (num_requests s)) UNANSWERED_THRESHOLD_PCT = false ∧
      (∀ target, mean (targets sampler) = Some target → underachieved r target = false)).
Proof.
  intros Hs Hnn r. destruct (figures_info powf r) as (l & Hl & Hi & Hne).
  exists (l ++ verdict r). unfold log. rewrite Hl. split; [done|].
  pose proof (proj1 (verdict_is_clean kind sampler s snap Hs Hnn)) as Hv. cbv zeta in Hv. fold r in Hv. rewrite <-Hv. clear Hv.
  assert (filter is_warn l = []) as Hf.
  { clear -Hi. induction Hi as [|x l Hx _ IH]; [done|]. rewrite filter_cons_False; [done|]. unfold is_warn. by rewrite Hx. }
  rewrite filter_app, Hf. unfold verdict. destruct (issues r) as [|i js]; cbn [length].
  - rewrite last_snoc, Forall_app. split_and!; [done|done|]. split; [done|]. intros _. split; [done|by repeat constructor].
  - rewrite last_app, last_snoc. split; [done|]. rewrite filter_app, Forall_app, Forall_app. split.
    + cbn [app]. f_equal. clear. induction (i :: js) as [|j l IH]; [done|]. cbn [fmap list_fmap].
      rewrite filter_cons_True by done. by f_equal.
    + split; [|done]. intros (_ & _ & Hw). by apply Forall_cons_1 in Hw as [].
Qed.

Definition example_stat : HttpStatOf unit := stat_new [].

Lemma report_verdict_witness :
  ∃ snap, snapshot example_stat = Ok snap ∧
    ∃ lines, log (λ x _, x) (finish "http" example_sampler snap) = Ok lines ∧ Forall is_info lines.
Proof.
  eexists. split; [reflexivity|].
  destruct (report_verdict (λ x _, x) "http" example_sampler example_stat _ eq_refl) as (lines & Hl & _ & _ & Hok).
  - repeat (apply Forall_cons; split; [done|]). by apply Forall_nil.
  - exists lines. split; [exact Hl|]. apply Hok.
    split_and!; [reflexivity..|vm_compute; reflexivity|]. intros t Ht. vm_compute in Ht. injection Ht as <-.
    vm_compute. reflexivity.
Defined.

Lemma fmt_duration_reads_back_witness :
  fmt_duration (3725 * NANOS_PER_SEC) = "1h02m05s" ∧ read_hms 0 0 (fmt_duration (3725 * NANOS_PER_SEC)) = Some 3725.
Proof. split; [vm_compute; reflexivity|]. apply (fmt_duration_reads_back (3725 * NANOS_PER_SEC)); vm_compute; done. Defined.

Lemma fmt_bytes_fits_witness :
  fmt_bytes 1536 = "1.50 KiB" ∧ ∃ u x, (u ≤ 5)%nat ∧ scaled x * 1024 ^ Z.of_nat u = scaled (f64_of_u64 1536).
Proof.
  split; [vm_compute; reflexivity|].
  destruct (fmt_bytes_fits 1536) as (u & x & Hu & Hx & _); [split; vm_compute; done|]. by exists u, x.
Defined.
