(* ===== verification/Cfg.v ===== *)
(** * From the command line to the engines ([dwd/src/cmd.rs], [dwd/src/cfg.rs],
    [dwd-core/src/cfg.rs])

    Clap parses the arguments; what is modelled is how they become engine
    configurations: the bind addresses, the defaults, the request timeout, the
    payloads and the default load profile.  The interfaces of the machine are
    pnet's list, the content of the files is a parameter. *)
From S2P Require Import Prelude Machine F64 Text Time Generator Produce Jsonline Http3.

(** ** Request timeout *)

(** [Duration::try_from_secs_f64]: nearest nanosecond, ties to even; negative,
    too large and NaN values are errors. *)
Definition try_from_secs_f64 (secs : f64) : res Duration :=
  match secs with
  | S754_zero _ => Ok 0
  | S754_nan | S754_infinity false => Err "cannot convert float seconds to Duration: overflow"
  | S754_infinity true | S754_finite true _ _ => Err "cannot convert float seconds to Duration: value is negative"
  | S754_finite false m e =>
      let d := if 0 <=? e then Z.pos m * 2 ^ e * NANOS_PER_SEC
               else round_half_even (Z.pos m * NANOS_PER_SEC) (2 ^ (- e)) in
      if as_secs d <? 2 ^ 64 then Ok d else Err "cannot convert float seconds to Duration: overflow"
  end.

Lemma try_from_secs_nearest secs d :
  f64_valid secs = true → try_from_secs_f64 secs = Ok d →
  is_duration d ∧ Z.abs (d * 2 ^ 1074 - scaled secs * NANOS_PER_SEC) * 2 ≤ 2 ^ 1074.
Proof.
  intros Hv H. destruct secs as [s|[]| |[] m e]; cbn [try_from_secs_f64] in H; try done.
  { injection H as <-. by vm_compute. }
  set (d' := if _ <=? _ then _ else _) in H. destruct (Z.ltb_spec (as_secs d') (2 ^ 64)) as [Hlt|]; [|done].
  injection H as <-. apply valid_finite_inv in Hv as (_ & He & Hm).
  assert (0 ≤ d' ∧ Z.abs (d' * 2 ^ 1074 - Z.pos m * 2 ^ (e + 1074) * NANOS_PER_SEC) * 2 ≤ 2 ^ 1074) as [Hd Hn].
  { unfold d'. destruct (Z.leb_spec 0 e) as [Hp|Hp].
    - rewrite Z.pow_add_r by lia. split; [|nia]. apply Z.mul_nonneg_nonneg; [|done]. apply Z.mul_nonneg_nonneg; lia.
    - assert (2 ^ 1074 = 2 ^ (- e) * 2 ^ (e + 1074)) as -> by (rewrite <-Z.pow_add_r by lia; f_equal; lia).
      pose proof (Z.pow_pos_nonneg 2 (- e) ltac:(lia) ltac:(lia)). pose proof (Z.pow_pos_nonneg 2 (e + 1074) ltac:(lia) ltac:(lia)).
      pose proof (round_half_even_near (Z.pos m * NANOS_PER_SEC) _ H) as Hr.
      replace (Z.pos m * 2 ^ (e + 1074) * NANOS_PER_SEC) with (Z.pos m * NANOS_PER_SEC * 2 ^ (e + 1074)) by ring.
      assert (0 ≤ Z.pos m * NANOS_PER_SEC) as Hm' by done. revert Hr Hm' H H0.
      generalize (2 ^ (- e)) (2 ^ (e + 1074)) (Z.pos m * NANOS_PER_SEC).
      intros P Q N. generalize (round_half_even N P). intros r Hr HN HP HQ. split; [nia|].
      replace (r * (P * Q) - N * Q) with ((r * P - N) * Q) by ring. rewrite Z.abs_mul, (Z.abs_eq Q) by lia. nia. }
  split; [|by cbn [scaled]; rewrite Z.mul_1_l]. split; [|done]. apply Z.div_pos; done.
Qed.

(** ** Native workload *)

Record NativeLoadConfig := {
  threads : nat;
  requests_per_socket : option Z;
  requests_per_socket_deviation : option Z;
  bind_endpoints : VecProduce SocketAddr;
}.

Definition native_load_config_new threads rps dev (binds : list SocketAddr) : NativeLoadConfig :=
  {| threads := threads; requests_per_socket := rps; requests_per_socket_deviation := dev;
     bind_endpoints := vec_produce_new binds |}.

Definition get_requests_per_socket (c : NativeLoadConfig) : Z := default u64_max (requests_per_socket c).
Definition get_requests_per_socket_deviation (c : NativeLoadConfig) : Z :=
  default 0 (requests_per_socket_deviation c).

Record NetworkInterface := { is_up : bool; is_loopback : bool; ips : list IpAddr }.

Record NativeLoadCmd (Net : Type) := {
  cmd_threads : nat;
  cmd_requests_per_socket : option Z;
  cmd_requests_per_socket_deviation : option Z;
  bind_network : option Net;
}.
Arguments cmd_threads {Net} _.
Arguments cmd_requests_per_socket {Net} _.
Arguments cmd_requests_per_socket_deviation {Net} _.
Arguments bind_network {Net} _.

Section native.
Context {Net : Type} (contains : Net → IpAddr → bool) (interfaces : list NetworkInterface).

(** The addresses of one link inside the network. *)
Definition link_endpoints (net : Net) (link : NetworkInterface) : list SocketAddr :=
  if negb (is_up link) || is_loopback link || match ips link with [] => true | _ => false end then []
  else (λ v, {| ip := v; port := 0 |}) <$> filter (λ v, contains net v) (ips link).

Definition native_binds (network : option Net) : list SocketAddr :=
  match network with
  | Some net => concat (link_endpoints net <$> interfaces)
  | None => [{| ip := V6 0; port := 0 |}]
  end.

(** [NativeLoadCmd::into_config]. *)
Definition native_into_config (cmd : NativeLoadCmd Net) : NativeLoadConfig :=
  native_load_config_new (cmd_threads cmd) (cmd_requests_per_socket cmd)
    (cmd_requests_per_socket_deviation cmd) (native_binds (bind_network cmd)).

(** Every bind address is an address of an active link inside the network, on
    an ephemeral port. *)
Lemma native_binds_in_network net s :
  s ∈ native_binds (Some net) ↔
  port s = 0 ∧ contains net (ip s) = true ∧
  ∃ link, link ∈ interfaces ∧ is_up link = true ∧ is_loopback link = false ∧ ip s ∈ ips link.
Proof.
  cbn [native_binds]. rewrite list_elem_of_In, in_concat. split.
  - intros (l & Hl & Hs). apply list_elem_of_In in Hl, Hs.
    apply list_elem_of_fmap in Hl as (link & -> & Hlink). unfold link_endpoints in Hs.
    destruct (is_up link) eqn:Hup, (is_loopback link) eqn:Hlo; try (by apply elem_of_nil in Hs).
    cbn [negb orb] in Hs. destruct (ips link) as [|a l'] eqn:Hips; [by apply elem_of_nil in Hs|].
    apply list_elem_of_fmap in Hs as (v & -> & Hv). apply list_elem_of_filter in Hv as [Hc Hv].
    split_and!; [done|by apply Is_true_true|]. exists link. rewrite Hips. done.
  - intros (Hp & Hc & link & Hlink & Hup & Hlo & Hip). exists (link_endpoints net link).
    rewrite <-!list_elem_of_In. split; [by apply list_elem_of_fmap_2|].
    unfold link_endpoints. rewrite Hup, Hlo. cbn [negb orb].
    destruct (ips link) as [|a l] eqn:Hips; [by apply elem_of_nil in Hip|].
    rewrite <-Hips in Hip |- *. apply list_elem_of_fmap. exists (ip s).
    split; [by destruct s; cbn in *; subst|]. apply list_elem_of_filter. split; [by apply Is_true_true|done].
Qed.

(** ** Engine configurations *)

Record HttpCmd := {
  hc_addr : SocketAddr;
  hc_native : NativeLoadCmd Net;
  hc_concurrency : nat;
  hc_tls : bool;
  hc_server_name : option string;
  hc_payload_json : string;
  hc_tcp_linger : option Z;
  hc_tcp_no_delay : bool;
  hc_timeout : f64;
}.

Record HttpConfig (T : Type) := {
  http_addr : SocketAddr;
  http_native : NativeLoadConfig;
  http_concurrency : nat;
  http_tls : bool;
  http_server_name : option string;
  http_timeout : Duration;
  http_tcp_linger : option Z;
  http_tcp_no_delay : bool;
  http_requests : list T;
}.

Record Http3Cmd := {
  h3c_addr : SocketAddr;
  h3c_server_name : string;
  h3c_native : NativeLoadCmd Net;
  h3c_concurrency : nat;
  h3c_payload_json : string;
  h3c_timeout : f64;
}.

Record Http3Config (T : Type) := {
  h3_addr : SocketAddr;
  h3_server_name : string;
  h3_native : NativeLoadConfig;
  h3_concurrency : nat;
  h3_timeout : Duration;
  h3_requests : list T;
}.

Record UdpCmd := { uc_addr : SocketAddr; uc_native : NativeLoadCmd Net }.
Record UdpConfig := { udp_addr : SocketAddr; udp_native : NativeLoadConfig }.

Definition udp_into_config (cmd : UdpCmd) : UdpConfig :=
  {| udp_addr := uc_addr cmd; udp_native := native_into_config (uc_native cmd) |}.

Section payloads.
Context {M : Type} `{HeaderMap M}.
Context (open : string → res (list (res bytes))) (from_str : bytes → res (JsonLineRecord M)).

Definition http_into_config {T} (try_into : JsonLineRecord M → res T) (cmd : HttpCmd) : res (HttpConfig T) :=
  let! requests := from_fs (open (hc_payload_json cmd)) from_str try_into in
  let native := native_into_config (hc_native cmd) in
  let! timeout := try_from_secs_f64 (hc_timeout cmd) in
  Ok {| http_addr := hc_addr cmd; http_native := native; http_concurrency := hc_concurrency cmd;
        http_tls := hc_tls cmd; http_server_name := hc_server_name cmd; http_timeout := timeout;
        http_tcp_linger := hc_tcp_linger cmd; http_tcp_no_delay := hc_tcp_no_delay cmd;
        http_requests := requests |}.

Definition http3_into_config {T} (try_into : JsonLineRecord M → res T) (cmd : Http3Cmd) : res (Http3Config T) :=
  let! requests := from_fs (open (h3c_payload_json cmd)) from_str try_into in
  let native := native_into_config (h3c_native cmd) in
  let! timeout := try_from_secs_f64 (h3c_timeout cmd) in
  Ok {| h3_addr := h3c_addr cmd; h3_server_name := h3c_server_name cmd; h3_native := native;
        h3_concurrency := h3c_concurrency cmd; h3_timeout := timeout; h3_requests := requests |}.

(** Without the feature "dpdk", whose configuration is a YAML file. *)
Inductive ModeCmd :=
  | HttpMode (v : HttpCmd)
  | HttpRawMode (v : HttpCmd)
  | Http3Mode (v : Http3Cmd)
  | UdpMode (v : UdpCmd).

Inductive ModeConfig :=
  | HttpModeConfig (c : HttpConfig Request)
  | HttpRawModeConfig (c : HttpConfig bytes)
  | Http3ModeConfig (c : Http3Config Request)
  | UdpModeConfig (c : UdpConfig).

Definition mode_into_config (valid_value : bytes → bool) (parse_authority : bytes → res bytes)
    (self : ModeCmd) : res ModeConfig :=
  match self with
  | HttpMode v => let! c := http_into_config (hyper_request valid_value) v in Ok (HttpModeConfig c)
  | HttpRawMode v => let! c := http_into_config raw_request v in Ok (HttpRawModeConfig c)
  | Http3Mode v => let! c := http3_into_config (h3_request parse_authority) v in Ok (Http3ModeConfig c)
  | UdpMode v => Ok (UdpModeConfig (udp_into_config v))
  end.
End payloads.
End native.
Arguments http_addr {T} _.
Arguments http_native {T} _.
Arguments http_concurrency {T} _.
Arguments http_tls {T} _.
Arguments http_server_name {T} _.
Arguments http_timeout {T} _.
Arguments http_tcp_linger {T} _.
Arguments http_tcp_no_delay {T} _.
Arguments http_requests {T} _.
Arguments h3_addr {T} _.
Arguments h3_server_name {T} _.
Arguments h3_native {T} _.
Arguments h3_concurrency {T} _.
Arguments h3_timeout {T} _.
Arguments h3_requests {T} _.

(** The addresses a native workload binds to. *)
Definition bind_spec {Net} (contains : Net → IpAddr → bool) (interfaces : list NetworkInterface)
    (network : option Net) (binds : list SocketAddr) : Prop :=
  match network with
  | None => binds = [{| ip := V6 0; port := 0 |}]
  | Some net => ∀ s, s ∈ binds ↔
      port s = 0 ∧ contains net (ip s) = true ∧
      ∃ link, link ∈ interfaces ∧ is_up link = true ∧ is_loopback link = false ∧ ip s ∈ ips link
  end.

(** C40: a command line resolved into an HTTP configuration has one request for
    each line of the payload file, in order, the timeout nearest to the seconds
    asked for, and for bind addresses the wildcard or all addresses of the
    active links inside the network, whatever their scope: the help of
    [--bind-network] speaks of the global unicast addresses, but link-local and
    other addresses inside the network are taken as well
    ([link_local_is_bound]).  When there is none of them, the configuration is
    accepted and the first socket panics. *)
Theorem http_config_resolved {Net M} `{HeaderMap M} (contains : Net → IpAddr → bool) interfaces
    open from_str {T} (try_into : JsonLineRecord M → res T) (cmd : HttpCmd) (c : HttpConfig T) :
  f64_valid (hc_timeout cmd) = true →
  http_into_config contains interfaces open from_str try_into cmd = Ok c →
  let net := bind_network (hc_native cmd) in
  let binds := bind_endpoints (http_native c) in
  (∃ lines, open (hc_payload_json cmd) = Ok lines ∧
    Forall2 (λ line q, ∃ text r, line = Ok text ∧ from_str text = Ok r ∧ try_into r = Ok q)
      lines (http_requests c)) ∧
  Z.abs (http_timeout c * 2 ^ 1074 - scaled (hc_timeout cmd) * NANOS_PER_SEC) * 2 ≤ 2 ^ 1074 ∧
  bind_spec contains interfaces net (vec binds) ∧ idx binds = 0 ∧
  (vec binds = [] → is_panic (produce_next binds) = true).
Proof.
  intros Hv. unfold http_into_config, from_fs. intros (reqs & Hr & (d & Hd & [= <-])%res_bind_Ok)%res_bind_Ok.
  apply res_bind_Ok in Hr as (lines & Ho & Hl%res_mapM_Ok). cbn [http_requests http_timeout http_native].
  apply try_from_secs_nearest in Hd as (_ & Hd); [|done]. split_and!; [| | |done|by intros Hn; cbn in *; rewrite Hn].
  - exists lines. split; [done|]. eapply Forall2_impl; [exact Hl|]. cbn.
    intros line q (text & -> & (r & Hf & Ht)%res_bind_Ok)%res_bind_Ok. eauto.
  - exact Hd.
  - unfold bind_spec, native_into_config, native_load_config_new. cbn [bind_endpoints vec vec_produce_new].
    destruct (bind_network _) as [net|]; [|done]. intros s. apply native_binds_in_network.
Qed.

Definition example_interfaces : list NetworkInterface :=
  [{| is_up := true; is_loopback := true; ips := [V4 2130706433] |};
   {| is_up := true; is_loopback := false; ips := [V4 167772161; V4 3232235777] |}].

Definition example_cmd : HttpCmd (Net := Z) := {|
  hc_addr := {| ip := V4 167772162; port := 80 |};
  hc_native := {| cmd_threads := 1; cmd_requests_per_socket := None;
                  cmd_requests_per_socket_deviation := None; bind_network := Some 10 |};
  hc_concurrency := 1; hc_tls := false; hc_server_name := None; hc_payload_json := "payload.json";
  hc_tcp_linger := None; hc_tcp_no_delay := true; hc_timeout := f64_lit 1 2 |}.

Definition example_v4_prefix8 (net : Z) (a : IpAddr) : bool :=
  match a with V4 a => Z.shiftr a 24 =? net | V6 _ => false end.

(** 169.254.1.1 of a link that is up, in 169.0.0.0/8. *)
Example link_local_is_bound :
  native_binds example_v4_prefix8 [{| is_up := true; is_loopback := false; ips := [V4 2851995905] |}] (Some 169) =
    [{| ip := V4 2851995905; port := 0 |}].
Proof. reflexivity. Qed.

Lemma http_config_resolved_witness :
  ∃ c, http_into_config example_v4_prefix8 example_interfaces (λ _, Ok [Ok []; Ok []])
         (λ _, Ok example_record) raw_request example_cmd = Ok c ∧
    http_timeout c = 4 * NANOS_PER_SEC ∧ length (http_requests c) = 2%nat ∧
    {| ip := V4 167772161; port := 0 |} ∈ vec (bind_endpoints (http_native c)).
Proof.
  eexists. split; [reflexivity|]. split_and!; [vm_compute; reflexivity..|].
  pose proof (http_config_resolved example_v4_prefix8 example_interfaces (λ _, Ok [Ok []; Ok []])
    (λ _, Ok example_record) raw_request example_cmd) as Hc.
  destruct (Hc _ ltac:(vm_compute; reflexivity) eq_refl) as (_ & _ & Hb & _).
  apply (Hb {| ip := V4 167772161; port := 0 |}). split_and!; [done|done|].
  eexists. split; [right; left|]. split_and!; [done..|left].
Defined.

(** ** The default load profile *)

Definition CENTURY : Duration := duration_from_secs (86400 * 365 * 100).

(** [generator_fn]: the factory the rate-control loop calls once. *)
Definition generator_fn (load : string → Instant → res Gen) (path : option string) (now : Instant) : res Gen :=
  match path with
  | Some path => load path now
  | None => let! g := LineGenerator.new 1000 1000 CENTURY now in Ok (GLine g)
  end.

(** Without a generator file the load is a thousand requests per second for a
    century, and ends after it. *)
Lemma default_profile sin load now :
  ∃ g, generator_fn load None now = Ok g ∧
    ∀ t, (current_at sin t g).2 = if CENTURY <? t - now then None else Some 1000.
Proof.
  eexists. split; [reflexivity|]. intros t. unfold current_at. cbn [depth current_at_fuel snd].
  unfold LineGenerator.current_at, duration_since. cbn [line_dur line_t0 line_k line_b].
  assert ((CENTURY <? Z.max 0 (t - now)) = (CENTURY <? t - now)) as ->.
  { assert (CENTURY = 3153600000000000000) as -> by reflexivity. lia. }
  destruct (_ <? _); [done|]. do 2 f_equal.
Qed.
