(* ===== verification/System.v ===== *)
(** * The running system: the rate-control loop and its workers

    The loop of [dwd-core/src/engine.rs] and the worker loops of the engines run
    side by side and share two things: the atomics that hold the limits, one
    per worker, and the running flag.  A state of the system has both, where
    the loop stands — the limits of an iteration are stored one after the other
    — and where every worker stands.  A step is one access to what is shared;
    the steps interleave in any order. *)
From stdpp Require Import relations.
From S2P Require Import Prelude Machine F64 Time Rounding Shaper Generator Suspendable RateControl Task Conformance.

(** ** The share of a worker *)

(** The limit worker [idx] of [n] gets from the rate [v]. *)
Definition share (v : Z) (n idx : nat) : Z := (v + (Z.of_nat n - 1 - Z.of_nat idx)) / Z.of_nat n.

Lemma share_eq v n idx :
  (idx < n)%nat →
  share v n idx = if Z.of_nat idx <? v `mod` Z.of_nat n then v / Z.of_nat n + 1 else v / Z.of_nat n.
Proof.
  intros Hi. unfold share. pose proof (Z.div_mod v (Z.of_nat n) ltac:(lia)) as Hdm.
  pose proof (Z.mod_pos_bound v (Z.of_nat n) ltac:(lia)) as Hm.
  set (q := v / Z.of_nat n) in *. set (r := v `mod` Z.of_nat n) in *.
  destruct (Z.ltb_spec (Z.of_nat idx) r); symmetry.
  - apply (Z.div_unique _ _ _ (r - 1 - Z.of_nat idx)); lia.
  - apply (Z.div_unique _ _ _ (r + Z.of_nat n - 1 - Z.of_nat idx)); lia.
Qed.

Lemma share_mono v v' n idx : (0 < n)%nat → v ≤ v' → share v n idx ≤ share v' n idx.
Proof. intros. apply Z.div_le_mono; lia. Qed.

Lemma share_nonneg v n idx : 0 ≤ v → (idx < n)%nat → 0 ≤ share v n idx.
Proof. intros. apply Z.div_pos; lia. Qed.

Lemma share_le v n idx : 0 ≤ v → (idx < n)%nat → share v n idx ≤ v.
Proof. intros. apply Z.lt_succ_r, Z.div_lt_upper_bound; nia. Qed.

Lemma distribute_share v n : (0 < n)%nat → is_u64 v → distribute v n = Ok (share v n <$> seq 0 n).
Proof.
  intros Hn Hv. rewrite distribute_Ok by done. f_equal. apply list_fmap_ext.
  intros i x [-> Hi]%lookup_seq. rewrite Nat.add_0_l, share_eq by done.
  pose proof (Z.div_mod v (Z.of_nat n) ltac:(lia)) as Hdm.
  destruct (Z.ltb_spec (Z.of_nat i) (v `mod` Z.of_nat n)); [|done].
  pose proof (Z.div_pos v (Z.of_nat n) ltac:(unfold is_u64 in Hv; lia) ltac:(lia)).
  apply u64_add_id; unfold is_u64 in Hv; nia.
Qed.

Lemma share_sum v n : (0 < n)%nat → is_u64 v → zsum (share v n <$> seq 0 n) = v.
Proof. intros Hn Hv. by apply (distribute_spec v n _ Hv), distribute_share. Qed.

(** ** States and steps *)

(** Where a worker stands: about to load the flag, about to perform a round
    after it saw the flag set, or out of its loop. *)
Inductive Phase := Looking | Granted | Left.
#[export] Instance phase_eq_dec : EqDecision Phase.
Proof. solve_decision. Defined.

(** Where the rate-control loop stands: about to poll the profile, or with the
    limits [rest] of workers [idx], [idx + 1], .. still to be stored before the
    rate [v] is published, or out of its loop. *)
Inductive LoopPhase :=
  | Polling
  | Storing (v : Z) (idx : nat) (rest : list Z)
  | Ended.

Record WorkerState (W : Type) := {
  ws_worker : W;
  ws_phase : Phase;
  ws_done : Z;       (* operations executed so far *)
  ws_rounds : Z;     (* rounds so far *)
}.
Arguments ws_worker {W} _.
Arguments ws_phase {W} _.
Arguments ws_done {W} _.
Arguments ws_rounds {W} _.

Record System (G W : Type) := {
  sys_g : SuspendableGenerator G;
  sys_loop : LoopPhase;
  sys_limits : list Z;
  sys_generator : Z;
  sys_running : bool;
  sys_workers : list (WorkerState W);
}.
Arguments sys_g {G W} _.
Arguments sys_loop {G W} _.
Arguments sys_limits {G W} _.
Arguments sys_generator {G W} _.
Arguments sys_running {G W} _.
Arguments sys_workers {G W} _.

(** The steps: of the loop, of whoever else clears the flag (the terminal
    interface, a signal, a Stop request), and of worker [i]. *)
Inductive Label (E : Type) :=
  | Poll (at_ : Instant) (event : option (GeneratorEvent * Instant))
  | Store
  | Publish
  | Stop
  | Look (i : nat)
  | Round (i : nat) (now : Instant) (env : nat → E).
Arguments Poll {E} at_ event.
Arguments Store {E}.
Arguments Publish {E}.
Arguments Stop {E}.
Arguments Look {E} i.
Arguments Round {E} i now env.

Section system.
Context {G : Type} `{Generator G} {W E : Type} `{RateWorker W E}.
Implicit Types s : System G W.
Implicit Types w : WorkerState W.

Definition set_loop (g : SuspendableGenerator G) (p : LoopPhase) s : System G W :=
  {| sys_g := g; sys_loop := p; sys_limits := sys_limits s; sys_generator := sys_generator s;
     sys_running := sys_running s; sys_workers := sys_workers s |}.

Definition stop s : System G W :=
  {| sys_g := sys_g s; sys_loop := sys_loop s; sys_limits := sys_limits s;
     sys_generator := sys_generator s; sys_running := false; sys_workers := sys_workers s |}.

Definition set_worker (i : nat) w s : System G W :=
  {| sys_g := sys_g s; sys_loop := sys_loop s; sys_limits := sys_limits s; sys_generator := sys_generator s;
     sys_running := sys_running s; sys_workers := <[i := w]> (sys_workers s) |}.

(** The [while let] condition and the body down to the [for] loop. *)
Definition poll_step (at_ : Instant) (event : option (GeneratorEvent * Instant)) s : res (System G W) :=
  let '(g, v) := Suspendable.current_at at_ (sys_g s) in
  match v with
  | Some v =>
      if sys_running s then
        let g := match event with Some (ev, now) => Suspendable.apply_event now ev g | None => g end in
        let! limits := distribute v (length (sys_limits s)) in
        Ok (set_loop g (Storing v 0 limits) s)
      else Ok (stop (set_loop g Ended s))
  | None => Ok (stop (set_loop g Ended s))
  end.

(** A step, [None] when it is not the turn of the one who would take it. *)
Definition sys_step (l : Label E) s : option (res (System G W)) :=
  match l with
  | Poll at_ event =>
      match sys_loop s with Polling => Some (poll_step at_ event s) | _ => None end
  | Store =>
      match sys_loop s with
      | Storing v idx (limit :: rest) =>
          Some (Ok {| sys_g := sys_g s; sys_loop := Storing v (S idx) rest;
                      sys_limits := <[idx := limit]> (sys_limits s); sys_generator := sys_generator s;
                      sys_running := sys_running s; sys_workers := sys_workers s |})
      | _ => None
      end
  | Publish =>
      match sys_loop s with
      | Storing v idx [] =>
          Some (Ok {| sys_g := sys_g s; sys_loop := Polling; sys_limits := sys_limits s; sys_generator := v;
                      sys_running := sys_running s; sys_workers := sys_workers s |})
      | _ => None
      end
  | Stop => Some (Ok (stop s))
  | Look i =>
      match sys_workers s !! i with
      | Some w =>
          if decide (ws_phase w = Looking) then
            Some (Ok (set_worker i {| ws_worker := ws_worker w;
              ws_phase := if sys_running s then Granted else Left;
              ws_done := ws_done w; ws_rounds := ws_rounds w |} s))
          else None
      | None => None
      end
  | Round i now env =>
      match sys_workers s !! i, sys_limits s !! i with
      | Some w, Some limit =>
          if decide (ws_phase w = Granted) then
            Some (let! r := worker_round (ws_worker w) now limit env in
                  Ok (set_worker i {| ws_worker := fst r; ws_phase := Looking;
                    ws_done := ws_done w + snd r; ws_rounds := ws_rounds w + 1 |} s))
          else None
      | _, _ => None
      end
  end.

Definition worker_start (x : W) : WorkerState W :=
  {| ws_worker := x; ws_phase := Looking; ws_done := 0; ws_rounds := 0 |}.

(** The start: every limit is zero, and so is the published rate. *)
Definition sys_start (g : G) (now : Instant) (workers : list W) : System G W :=
  {| sys_g := Suspendable.activate_at now (Suspendable.new g); sys_loop := Polling;
     sys_limits := replicate (length workers) 0; sys_generator := 0; sys_running := true;
     sys_workers := worker_start <$> workers |}.

(** What is assumed of the environment of a step: the profile asks for at most
    [V], clocks do not run backwards, drivers keep their word. *)
Definition label_ok (V : Z) (l : Label E) s : Prop :=
  match l with
  | Poll at_ _ =>
      match (Suspendable.current_at at_ (sys_g s)).2 with
      | Some v => if sys_running s then 0 ≤ v ≤ V else True
      | None => True
      end
  | Round i now env => round_env_ok env ∧
      match sys_workers s !! i with
      | Some w => prev_ts (worker_shaper (ws_worker w)) ≤ now ∧
          is_duration (duration_since now (prev_ts (worker_shaper (ws_worker w))))
      | None => True
      end
  | _ => True
  end.

(** The states of the executions in which no rate exceeds [V]. *)
Inductive reachable (V : Z) (s0 : System G W) : System G W → Prop :=
  | reach_start : reachable V s0 s0
  | reach_step s l s' :
      reachable V s0 s → label_ok V l s → sys_step l s = Some (Ok s') → reachable V s0 s'.

Lemma reachable_trans V s0 s1 s2 : reachable V s0 s1 → reachable V s1 s2 → reachable V s0 s2.
Proof. intros H1 H2. induction H2; [done|by econstructor]. Qed.

(** A whole iteration of the loop when no one else moves. *)
Fixpoint sys_run (ls : list (Label E)) s : option (res (System G W)) :=
  match ls with
  | [] => Some (Ok s)
  | l :: ls =>
      match sys_step l s with
      | Some (Ok s) => sys_run ls s
      | o => o
      end
  end.
End system.

(** A worker made at [t0] or later, with an empty bucket. *)
Definition started_after {W E} `{RateWorker W E} (t0 : Instant) (x : W) : Prop :=
  ∃ t, t0 ≤ t ∧ worker_shaper x = Shaper.new 0 t.

Lemma started_now {W E} `{RateWorker W E} t0 (x : W) : worker_shaper x = Shaper.new 0 t0 → started_after t0 x.
Proof. by exists t0. Qed.

(** ** The invariant *)

Section invariant.
Context {G : Type} `{Generator G} {W E : Type} `{RateWorkerLaws W E}.
Context (V : Z) (HV : 0 ≤ V < 2 ^ 53) (n : nat) (t0 : Instant).
Implicit Types s : System G W.
Implicit Types w : WorkerState W.

(** The bucket of worker [i] against what its share of [V] allows since [t0]. *)
Definition worker_inv (i : nat) w : Prop :=
  let sh := worker_shaper (ws_worker w) in
  let B := share V n i in
  bucket_ok B sh ∧ t0 ≤ prev_ts sh ∧ 0 ≤ ws_rounds w ∧
  (scaled (tokens sh) + ws_done w * one) * (NANOS_PER_SEC * R ^ 4) ≤
    B * (prev_ts sh - t0) * one * (R + 1) ^ 4 + 2 * ws_rounds w * (B * one * (NANOS_PER_SEC * R ^ 3)).

Definition limits_inv (limits : list Z) : Prop :=
  length limits = n ∧ ∀ i l, limits !! i = Some l → 0 ≤ l ≤ share V n i.

(** What the loop has stored of an iteration. *)
Definition loop_inv (p : LoopPhase) (limits : list Z) (generator : Z) : Prop :=
  match p with
  | Polling => zsum limits = generator
  | Storing v idx rest =>
      0 ≤ v ≤ V ∧ (idx ≤ n)%nat ∧ rest = share v n <$> seq idx (n - idx) ∧
      ∀ j, (j < idx)%nat → limits !! j = Some (share v n j)
  | Ended => True
  end.

Definition sys_inv s : Prop :=
  limits_inv (sys_limits s) ∧ loop_inv (sys_loop s) (sys_limits s) (sys_generator s) ∧
  length (sys_workers s) = n ∧ ∀ i w, sys_workers s !! i = Some w → worker_inv i w.

Lemma is_u64_below v : 0 ≤ v ≤ V → is_u64 v.
Proof using HV. unfold is_u64. lia. Qed.

Lemma worker_start_inv i x :
  (i < n)%nat → started_after t0 x → worker_inv i (worker_start x).
Proof using HV.
  intros Hi (t & Ht & Hx). unfold worker_inv. cbn [worker_start ws_worker ws_rounds ws_done]. rewrite Hx.
  cbn [Shaper.new tokens prev_ts burst_size]. pose proof (share_nonneg V n i ltac:(lia) Hi). pose proof one_pos.
  change (scaled f64_zero) with 0. unfold bucket_ok. cbn [Shaper.new tokens prev_ts burst_size].
  change (scaled f64_zero) with 0.
  assert (0 ≤ share V n i * (t - t0) * one * (R + 1) ^ 4); [|split_and!; try done; nia].
  assert (0 < (R + 1) ^ 4) by done.
  apply Z.mul_nonneg_nonneg; [apply Z.mul_nonneg_nonneg; [apply Z.mul_nonneg_nonneg|]|]; lia.
Qed.

(** A round of worker [i] under the limit it reads. *)
Lemma worker_round_inv i w now limit env x k :
  (i < n)%nat → worker_inv i w → 0 ≤ limit ≤ share V n i → round_env_ok env →
  prev_ts (worker_shaper (ws_worker w)) ≤ now →
  is_duration (duration_since now (prev_ts (worker_shaper (ws_worker w)))) →
  worker_round (ws_worker w) now limit env = Ok (x, k) →
  worker_inv i {| ws_worker := x; ws_phase := Looking; ws_done := ws_done w + k; ws_rounds := ws_rounds w + 1 |}.
Proof using All.
  intros Hi (Hb & Ht & Hn & Hinv) Hl He Hnow Hel Hr. pose proof (share_le V n i ltac:(lia) Hi) as HB.
  pose proof one_pos as Hone.
  destruct (worker_round_above (share V n i) _ now limit env x k ltac:(lia) Hb Hl He Hel Hr) as [Hk (Hb' & Hp & Ha)].
  unfold worker_inv. cbn [ws_worker ws_rounds ws_done]. rewrite Hp. split_and!; [done|lia|lia|].
  unfold duration_since in Ha. rewrite Z.max_r in Ha by lia.
  set (t := prev_ts (worker_shaper (ws_worker w))) in *. set (B := share V n i) in *.
  assert (limit * (now - t) * one * (R + 1) ^ 4 ≤ B * (now - t) * one * (R + 1) ^ 4) as Hlim.
  { apply Z.mul_le_mono_nonneg_r; [done|]. apply Z.mul_le_mono_nonneg_r; [lia|].
    apply Z.mul_le_mono_nonneg_r; lia. }
  set (M := NANOS_PER_SEC * R ^ 4) in *. set (N := B * one * (NANOS_PER_SEC * R ^ 3)) in *.
  set (T1 := scaled (tokens (worker_shaper x))) in *. set (T0 := scaled (tokens (worker_shaper (ws_worker w)))) in *.
  set (U := one) in *. set (Q := (R + 1) ^ 4) in *. clearbody M N T1 T0 U Q. nia.
Qed.

Lemma limits_inv_store limits idx v :
  limits_inv limits → 0 ≤ v ≤ V → (idx < n)%nat → limits_inv (<[idx := share v n idx]> limits).
Proof using HV.
  intros [Hlen Hl] Hv Hi. split; [by rewrite length_insert|]. intros i l.
  rewrite list_lookup_insert_Some. intros [(<- & <- & _)|(Hne & Hk)]; [|by apply Hl].
  split; [apply share_nonneg; lia|apply share_mono; lia].
Qed.

Lemma limits_stored (limits : list Z) v :
  (0 < n)%nat → length limits = n → 0 ≤ v ≤ V →
  (∀ j, (j < n)%nat → limits !! j = Some (share v n j)) → zsum limits = v.
Proof using HV.
  intros Hn Hlen Hv Hl. rewrite <-(share_sum v n Hn (is_u64_below v Hv)). f_equal.
  apply list_eq. intros i. destruct (decide (i < n)%nat) as [Hi|Hi].
  - by rewrite list_lookup_fmap, lookup_seq_lt, Hl.
  - rewrite !lookup_ge_None_2; [done|rewrite length_fmap, length_seq; lia|lia].
Qed.

Lemma sys_step_inv s l s' :
  (0 < n)%nat → sys_inv s → label_ok V l s → sys_step l s = Some (Ok s') → sys_inv s'.
Proof using All.
  intros Hn (Hlim & Hloop & Hlen & Hw) Hok Hstep. destruct l as [at_ ev| | | |i|i now env]; cbn [sys_step] in Hstep.
  - destruct (sys_loop s) eqn:Hp; [|done..]. injection Hstep as Hstep. unfold poll_step in Hstep.
    cbn [label_ok] in Hok. destruct (Suspendable.current_at at_ (sys_g s)) as [g [v|]]; [|by injection Hstep as <-].
    destruct (sys_running s); [|by injection Hstep as <-].
    cbn [snd] in Hok. rewrite (proj1 Hlim), distribute_share in Hstep; [|done|by apply is_u64_below].
    injection Hstep as <-. split_and!; [done|..|done|done]. cbn. rewrite Nat.sub_0_r. split_and!; [lia..|done|lia].
  - destruct (sys_loop s) as [|v idx [|limit rest]|]; [done|done| |done]. injection Hstep as <-.
    destruct Hloop as (Hv & Hi & Hrest & Hst). destruct (n - idx)%nat as [|m] eqn:Hm; [done|].
    cbn [seq] in Hrest. rewrite fmap_cons in Hrest. injection Hrest as Hx Hxs. subst limit rest. split_and!; [by apply limits_inv_store; [..|lia]| |done|done].
    replace m with (n - S idx)%nat by lia. cbn. split_and!; [lia..|done|]. intros j Hj.
    rewrite list_lookup_insert. destruct (decide (j = idx)) as [->|Hne].
    + rewrite decide_True; [done|]. split; [done|]. rewrite (proj1 Hlim). lia.
    + rewrite decide_False; [apply Hst; lia|by intros [? _]].
  - destruct (sys_loop s) as [|v idx [|]|]; [done| |done|done]. injection Hstep as <-.
    destruct Hloop as (Hv & Hi & Hrest & Hst). assert (idx = n) as ->.
    { destruct (n - idx)%nat eqn:Hm; [lia|done]. }
    split_and!; [done| |done|done]. cbn. by apply limits_stored; [|apply Hlim|..].
  - injection Hstep as <-. done.
  - destruct (sys_workers s !! i) as [w|] eqn:Hi; [|done]. destruct (decide _); [|done]. injection Hstep as <-.
    split_and!; [done|done|by rewrite <-Hlen; apply length_insert|]. intros j x. cbn [sys_workers set_worker].
    rewrite list_lookup_insert_Some. intros [(<- & <- & _)|(_ & Hj)]; [|by apply Hw]. apply (Hw _ _ Hi).
  - destruct (sys_workers s !! i) as [w|] eqn:Hi; [|done]. destruct (sys_limits s !! i) as [limit|] eqn:Hl; [|done].
    destruct (decide _); [|done]. injection Hstep as Hstep. apply res_bind_Ok in Hstep as ([x k] & Hr & [= <-]).
    cbn [label_ok] in Hok. rewrite Hi in Hok. destruct Hok as [He [Hnow Hel]].
    split_and!; [done|done|by rewrite <-Hlen; apply length_insert|]. intros j y. cbn [sys_workers set_worker].
    rewrite list_lookup_insert_Some. intros [(<- & <- & _)|(_ & Hj)]; [|by apply Hw].
    apply lookup_lt_Some in Hi as Hlt. rewrite Hlen in Hlt.
    exact (worker_round_inv i w now limit env x k Hlt (Hw _ _ Hi) (proj2 Hlim _ _ Hl) He Hnow Hel Hr).
Qed.

Lemma sys_start_inv g now xs :
  length xs = n → Forall (started_after t0) xs → sys_inv (sys_start g now xs).
Proof using HV.
  intros Hlen Hxs. split_and!.
  - split; [by rewrite <-Hlen; apply length_replicate|]. intros i l [-> Hi]%lookup_replicate.
    split; [done|]. apply share_nonneg; lia.
  - cbn. by rewrite zsum_replicate, Z.mul_0_r.
  - rewrite <-Hlen. apply length_fmap.
  - intros i w. cbn. rewrite list_lookup_fmap_Some. intros (x & -> & Hx).
    apply worker_start_inv; [rewrite <-Hlen; by eapply lookup_lt_Some|].
    by eapply (Forall_lookup_1 _ _ _ _ Hxs).
Qed.

Lemma reachable_inv s0 s :
  (0 < n)%nat → sys_inv s0 → reachable V s0 s → sys_inv s.
Proof using All. intros Hn Hs0. induction 1 as [|s l s' _ IH Hok Hstep]; [done|]. by eapply sys_step_inv. Qed.
End invariant.

(** ** The pool keeps to the published rate *)

Lemma zsum_pointwise {A} (f : A → Z) (g : nat → Z) (l : list A) m :
  (∀ i x, l !! i = Some x → f x ≤ g (m + i)%nat) → zsum (f <$> l) ≤ zsum (g <$> seq m (length l)).
Proof.
  revert m. induction l as [|x l IH]; intros m Hl; [done|]. csimpl. rewrite !zsum_cons.
  pose proof (Hl 0%nat x eq_refl) as H0. rewrite Nat.add_0_r in H0.
  specialize (IH (S m)). assert (zsum (f <$> l) ≤ zsum (g <$> seq (S m) (length l))); [|lia].
  apply IH. intros i y Hi. replace (S m + i)%nat with (m + S i)%nat by lia. by apply Hl.
Qed.

Lemma zsum_linear {A} (f : A → Z) c l : zsum ((λ x, f x * c) <$> l) = zsum (f <$> l) * c.
Proof. induction l as [|x l IH]; [done|]. csimpl. rewrite !zsum_cons, IH. lia. Qed.

Lemma pool_bound {G} `{Generator G} {W E} `{RateWorkerLaws W E} V (g : G) t0 now xs (s : System G W) T K :
  0 ≤ V < 2 ^ 53 → xs ≠ [] → Forall (started_after t0) xs →
  reachable (E := E) V (sys_start g now xs) s →
  Forall (λ w, prev_ts (worker_shaper (ws_worker w)) ≤ T ∧ ws_rounds w ≤ K) (sys_workers s) →
  zsum (ws_done <$> sys_workers s) * NANOS_PER_SEC * R ^ 4 ≤
    V * (T - t0) * (R + 1) ^ 4 + 2 * K * V * NANOS_PER_SEC * R ^ 3 ∧
  (sys_loop s = Polling → zsum (sys_limits s) = sys_generator s).
Proof.
  intros HV Hxs Hnew Hr Hw. set (n := length xs).
  assert (0 < n)%nat as Hn by (subst n; destruct xs; [done|cbn; lia]).
  destruct (reachable_inv (E := E) V HV n t0 _ _ Hn (sys_start_inv (E := E) V HV n t0 g now xs eq_refl Hnew) Hr)
    as (_ & Hloop & Hlen & Hinv).
  split; [|by intros Hp; rewrite Hp in Hloop].
  pose proof (share_sum V n Hn (is_u64_below V HV V ltac:(lia))) as Hsum.
  set (c := (T - t0) * (R + 1) ^ 4 + 2 * K * (NANOS_PER_SEC * R ^ 3)).
  assert (zsum ((λ w, ws_done w * (NANOS_PER_SEC * R ^ 4)) <$> sys_workers s) ≤
    zsum ((λ i, share V n i * c) <$> seq 0 (length (sys_workers s)))) as Hle.
  { apply zsum_pointwise. intros i w Hi. rewrite Nat.add_0_l. pose proof (lookup_lt_Some _ _ _ Hi) as Hlt.
    destruct (Hinv i w Hi) as (Hb & Ht & Hk & Ha). destruct (Forall_lookup_1 _ _ _ _ Hw Hi) as [HT HK].
    pose proof (share_nonneg V n i ltac:(lia) ltac:(lia)) as HB. pose proof (scaled_nonneg _ (proj1 Hb)) as HX0.
    pose proof one_pos as Hone. apply (Z.mul_le_mono_pos_r _ _ one); [done|]. subst c.
    set (B := share V n i) in *. set (t := prev_ts _) in *. set (X := scaled _) in *.
    assert (0 < NANOS_PER_SEC * R ^ 4) as HM by done. assert (0 < NANOS_PER_SEC * R ^ 3) as HN by done.
    assert (0 < (R + 1) ^ 4) as HQ by done.
    assert (B * (t - t0) * (one * (R + 1) ^ 4) ≤ B * (T - t0) * (one * (R + 1) ^ 4)) as H1'.
    { apply Z.mul_le_mono_nonneg_r; [nia|]. apply Z.mul_le_mono_nonneg_l; lia. }
    assert (ws_rounds w * (B * one * (NANOS_PER_SEC * R ^ 3)) ≤ K * (B * one * (NANOS_PER_SEC * R ^ 3))) as H2'.
    { apply Z.mul_le_mono_nonneg_r; [|lia]. apply Z.mul_nonneg_nonneg; nia. }
    set (M := NANOS_PER_SEC * R ^ 4) in *. set (N := NANOS_PER_SEC * R ^ 3) in *. set (Q := (R + 1) ^ 4) in *.
    set (U := one) in *. clearbody M N Q U X. nia. }
  rewrite !zsum_linear, Hlen, Hsum in Hle. subst c.
  replace (_ * NANOS_PER_SEC * R ^ 4) with (zsum (ws_done <$> sys_workers s) * (NANOS_PER_SEC * R ^ 4)) by ring.
  etrans; [exact Hle|]. apply Z.eq_le_incl. ring.
Qed.

(** C4: the whole pool, whatever the interleaving of the rate-control loop, the
    workers and a stop, and whatever the control events: if the profile and the
    events never ask for more than [V], then up to any instant [T] the workers
    together have executed at most [V] operations per second since the start —
    up to the rounding of the floats, four parts in [R] = 2^51, and two parts in
    [R] of [V] for each of the [K] rounds of a worker.  In particular no
    worker exceeds its share while the limits of an iteration are being stored
    one after the other, although for a moment they add up to neither the old
    rate nor the new; between iterations they add up to the published rate. *)
Theorem pool_conforms {G} `{Generator G} {W E} `{RateWorkerLaws W E} V (g : G) t0 now xs (s : System G W) T K :
  0 ≤ V < 2 ^ 53 → xs ≠ [] → Forall (started_after t0) xs →
  reachable (E := E) V (sys_start g now xs) s →
  Forall (λ w, prev_ts (worker_shaper (ws_worker w)) ≤ T ∧ ws_rounds w ≤ K) (sys_workers s) →
  zsum (ws_done <$> sys_workers s) * NANOS_PER_SEC * R ^ 4 ≤
    V * (T - t0) * (R + 1) ^ 4 + 2 * K * V * NANOS_PER_SEC * R ^ 3 ∧
  (sys_loop s = Polling → zsum (sys_limits s) = sys_generator s).
Proof. apply pool_bound. Qed.

Section execution.
Context {G : Type} `{Generator G} {W E : Type} `{RateWorker W E}.

(** An execution given by its labels. *)
Fixpoint run_ok (V : Z) (ls : list (Label E)) (s : System G W) : Prop :=
  match ls with
  | [] => True
  | l :: ls => label_ok V l s ∧ match sys_step l s with Some (Ok s') => run_ok V ls s' | _ => False end
  end.

Lemma sys_run_reachable V ls s0 s s' :
  reachable (E := E) V s0 s → run_ok V ls s → sys_run ls s = Some (Ok s') → reachable (E := E) V s0 s'.
Proof.
  revert s. induction ls as [|l ls IH]; intros s Hs Hok Hrun; cbn in *; [by injection Hrun as <-|].
  destruct Hok as [Hl Hok]. destruct (sys_step l s) as [[s1| |]|] eqn:Hstep; [|done..].
  apply (IH s1); [by eapply reach_step|done|done].
Qed.
End execution.

(** Two workers and a constant profile: the second limit is stored while both
    workers are already at work. *)
Definition example_labels : list (Label unit) :=
  [Poll 0 None; Store; Look 0; Look 1; Round 0 10000000 (λ _, tt); Round 1 10000000 (λ _, tt); Store;
   Publish; Look 1; Round 1 50000000 (λ _, tt)].
Definition example_system : System Gen (ShapedCoroWorker Z) :=
  sys_start (H := boxed_generator (λ x, x)) example_generator 0
    [{| task := 0; shaper := Shaper.new 0 0 |}; {| task := 0; shaper := Shaper.new 0 0 |}].

Lemma pool_conforms_witness :
  ∃ s, sys_run (H := boxed_generator (λ x, x)) example_labels example_system = Some (Ok s) ∧
    ws_done <$> sys_workers s = [0; 2] ∧ sys_generator s = 100 ∧
    zsum (ws_done <$> sys_workers s) * NANOS_PER_SEC * R ^ 4 ≤
      100 * (50000000 - 0) * (R + 1) ^ 4 + 2 * 2 * 100 * NANOS_PER_SEC * R ^ 3.
Proof.
  eexists. split; [vm_compute; reflexivity|]. split; [reflexivity|]. split; [reflexivity|].
  refine (proj1 _). eapply (pool_conforms (H := boxed_generator (λ x, x)) (E := unit) 100 example_generator 0 0
    [{| task := 0; shaper := Shaper.new 0 0 |}; {| task := 0; shaper := Shaper.new 0 0 |}]); [done|done| | |].
  2: { eapply (sys_run_reachable (H := boxed_generator (λ x, x)) 100 example_labels); [apply reach_start| |vm_compute; reflexivity].
       vm_compute. repeat split; discriminate. }
  - repeat (apply Forall_cons; split; [by apply started_now|]). by apply Forall_nil.
  - apply (bool_decide_unpack _). vm_compute. exact I.
Defined.

(** ** The loop seen from the workers *)

Section loop.
Context {G : Type} `{Generator G} {W E : Type} `{RateWorker W E}.
Implicit Types s : System G W.

(** The state of the rate-control loop on its own. *)
Definition rate_of s : RateState G :=
  {| rs_g := sys_g s; rs_limits := sys_limits s; rs_generator := sys_generator s;
     rs_is_running := sys_running s |}.

Lemma sys_run_app (ls ls' : list (Label E)) s s1 :
  sys_run ls s = Some (Ok s1) → sys_run (ls ++ ls') s = sys_run ls' s1.
Proof.
  revert s. induction ls as [|l ls IH]; intros s Hs; cbn in *; [by injection Hs as ->|].
  destruct (sys_step l s) as [[s2| |]|]; [by apply IH|done..].
Qed.

(** The [for] loop, when nobody else moves. *)
Lemma store_all v rest idx s :
  sys_loop s = Storing v idx rest → (idx + length rest = length (sys_limits s))%nat →
  ∃ s', sys_run (E := E) (replicate (length rest) Store) s = Some (Ok s') ∧
    sys_loop s' = Storing v (length (sys_limits s)) [] ∧ sys_limits s' = take idx (sys_limits s) ++ rest ∧
    sys_g s' = sys_g s ∧ sys_generator s' = sys_generator s ∧ sys_running s' = sys_running s ∧
    sys_workers s' = sys_workers s.
Proof.
  revert idx s. induction rest as [|x rest IH]; intros idx s Hs Hlen.
  - exists s. rewrite Hs. cbn in *. rewrite Nat.add_0_r in Hlen. subst idx.
    split_and!; try done. by rewrite firstn_all, app_nil_r.
  - cbn [length replicate sys_run]. unfold sys_step at 1. rewrite Hs. cbn in Hlen.
    destruct (IH (S idx) {| sys_g := sys_g s; sys_loop := Storing v (S idx) rest;
      sys_limits := <[idx:=x]> (sys_limits s); sys_generator := sys_generator s;
      sys_running := sys_running s; sys_workers := sys_workers s |} eq_refl) as (s' & Hr & Hl & Hli & Hrest).
    { cbn [sys_limits]. rewrite length_insert. lia. }
    exists s'. cbn [sys_limits] in Hl, Hli. rewrite length_insert in Hl. split_and!; [exact Hr|exact Hl| |apply Hrest..].
    rewrite Hli. rewrite (take_S_r _ _ x) by (apply list_lookup_insert_eq; lia).
    rewrite take_insert_ge by lia. by rewrite <-app_assoc.
Qed.

(** C9: an iteration of the rate-control loop — one poll, the stores of the
    limits one after the other, the publication — implements the atomic
    iteration of [RateControl]: same profile state, same limits, same published
    rate, same flag, same outcome; the workers are untouched. *)
Theorem iteration_refines s at_ event :
  sys_loop s = Polling →
  match rate_iteration (rate_of s) {| poll_at := at_; tick_running := sys_running s; tick_event := event |} with
  | Ok (Continue r) => ∃ s',
      sys_run (E := E) (Poll at_ event :: replicate (length (sys_limits s)) Store ++ [Publish]) s = Some (Ok s') ∧
      rate_of s' = r ∧ sys_loop s' = Polling ∧ sys_workers s' = sys_workers s
  | Ok (Break r) => ∃ s', sys_step (E := E) (Poll at_ event) s = Some (Ok s') ∧
      rate_of s' = r ∧ sys_loop s' = Ended ∧ sys_workers s' = sys_workers s
  | Err e => False
  | Panic e => sys_step (E := E) (Poll at_ event) s = Some (Panic e) ∧ sys_limits s = []
  end.
Proof.
  intros Hs. unfold rate_iteration. cbn [rate_of rs_g poll_at tick_running tick_event sys_run].
  unfold sys_step at 1 2 3. rewrite Hs. unfold poll_step.
  destruct (Suspendable.current_at at_ (sys_g s)) as [g [v|]].
  2: { eexists. split; [reflexivity|]. done. }
  destruct (sys_running s) eqn:Hrun; cbn [negb].
  2: { eexists. split; [reflexivity|]. done. }
  cbn [rs_limits rate_of]. destruct (distribute v (length (sys_limits s))) as [ls| |] eqn:Hd; cbn [res_bind].
  - pose proof (distribute_length _ _ _ Hd) as Hlen.
    destruct (store_all v ls 0 (set_loop (match event with
      | Some (ev, now) => Suspendable.apply_event now ev g | None => g end) (Storing v 0 ls) s) eq_refl)
      as (s1 & Hr & Hl & Hli & Hg & _ & Hrn & Hw); [exact Hlen|].
    rewrite Hlen in Hr. rewrite (sys_run_app _ _ _ _ Hr). cbn [sys_run]. unfold sys_step at 1. rewrite Hl.
    eexists. split; [reflexivity|]. unfold rate_of. cbn. rewrite Hli, Hg, Hrn, Hw. cbn. by rewrite Hrun.
  - destruct (sys_limits s); [done|]. cbn [length] in Hd. by rewrite distribute_Ok in Hd by lia.
  - split; [done|]. destruct (sys_limits s); [done|]. cbn [length] in Hd. by rewrite distribute_Ok in Hd by lia.
Qed.
End loop.

Lemma iteration_refines_witness :
  ∃ s', sys_run (H := boxed_generator (λ x, x)) [Poll 5 (Some (Set_ 7, 6)); Store; Store; Publish] example_system = Some (Ok s') ∧
    (let r := rate_of s' in rs_limits r = [50; 50] ∧ rs_generator r = 100 ∧ rs_is_running r = true) ∧
    sys_loop s' = Polling ∧ sys_workers s' = sys_workers example_system.
Proof.
  destruct (iteration_refines (H := boxed_generator (λ x, x)) (E := unit) example_system 5 (Some (Set_ 7, 6)) eq_refl)
    as (s' & Hr & Ho & Hl & Hw).
  exists s'. rewrite Ho. split; [exact Hr|]. split; [vm_compute; done|]. by split.
Defined.

(** ** Stopping *)

Definition phase_cost (p : Phase) : Z :=
  match p with Looking => 1 | Granted => 2 | Left => 0 end.
Definition loop_cost (p : LoopPhase) : Z :=
  match p with Polling => 1 | Storing _ _ rest => Z.of_nat (length rest) + 2 | Ended => 0 end.

(** The steps left once the flag is cleared. *)
Definition pending {G W} (s : System G W) : Z :=
  loop_cost (sys_loop s) + zsum ((λ w, phase_cost (ws_phase w)) <$> sys_workers s).

(** Everyone has left. *)
Definition stopped {G W} (s : System G W) : Prop :=
  sys_loop s = Ended ∧ Forall (λ w, ws_phase w = Left) (sys_workers s).

Lemma pending_nonneg {G W} (s : System G W) :
  0 ≤ loop_cost (sys_loop s) ∧ 0 ≤ zsum ((λ w, phase_cost (ws_phase w)) <$> sys_workers s).
Proof.
  split; [destruct (sys_loop s); cbn; lia|]. apply zsum_nonneg, Forall_fmap, Forall_forall.
  intros w _. cbn. by destruct (ws_phase w).
Qed.

Lemma pending_zero {G W} (s : System G W) : pending s = 0 → stopped s.
Proof.
  intros H0. destruct (pending_nonneg s) as [H1 H2]. unfold pending in H0. split.
  - destruct (sys_loop s); cbn in *; [lia|lia|done].
  - apply Forall_lookup. intros i w Hw.
    assert (Forall (Z.le 0) ((λ w, phase_cost (ws_phase w)) <$> sys_workers s)) as Hall.
    { apply Forall_fmap, Forall_forall. intros x _. cbn. by destruct (ws_phase x). }
    assert (phase_cost (ws_phase w) ≤ 0) as Hc; [|by destruct (ws_phase w)].
    etrans; [eapply (zsum_lookup_le _ i _ Hall)|lia]. by rewrite list_lookup_fmap, Hw.
Qed.

Section stopping.
Context {G : Type} `{Generator G} {W E : Type} `{RateWorkerLaws W E}.
Context (V : Z) (HV : 0 ≤ V < 2 ^ 53) (n : nat) (t0 : Instant).
Implicit Types s : System G W.

(** A step of the system itself. *)
Definition own_step s s' : Prop :=
  ∃ l : Label E, l ≠ Stop ∧ label_ok V l s ∧ sys_step l s = Some (Ok s').

Lemma pending_set_worker i w w' s :
  sys_workers s !! i = Some w →
  pending (set_worker i w' s) = pending s - phase_cost (ws_phase w) + phase_cost (ws_phase w').
Proof using.
  intros Hi. unfold pending. cbn [sys_loop sys_workers set_worker].
  rewrite list_fmap_insert, (zsum_insert _ _ (phase_cost (ws_phase w))); [lia|].
  by rewrite list_lookup_fmap, Hi.
Qed.

(** With the flag cleared every step is one of those left. *)
Lemma own_step_pending s s' :
  sys_running s = false → own_step s s' → sys_running s' = false ∧ pending s' = pending s - 1.
Proof using.
  intros Hrun (l & Hl & _ & Hstep). destruct l as [at_ ev| | | |i|i now env]; cbn [sys_step] in Hstep; [..|done| |].
  - destruct (sys_loop s) eqn:Hp; [|done..]. injection Hstep as Hstep. unfold poll_step in Hstep. rewrite Hrun in Hstep.
    assert (s' = stop (set_loop (Suspendable.current_at at_ (sys_g s)).1 Ended s)) as ->.
    { by destruct (Suspendable.current_at at_ (sys_g s)) as [g [v|]]; injection Hstep as <-. }
    split; [done|]. unfold pending. rewrite Hp. cbn. lia.
  - destruct (sys_loop s) as [|v idx [|x rest]|] eqn:Hp; [done|done| |done]. injection Hstep as <-.
    split; [done|]. unfold pending. rewrite Hp. cbn [sys_loop sys_workers loop_cost length]. lia.
  - destruct (sys_loop s) as [|v idx [|]|] eqn:Hp; [done| |done|done]. injection Hstep as <-.
    split; [done|]. unfold pending. rewrite Hp. cbn [sys_loop sys_workers loop_cost length]. lia.
  - destruct (sys_workers s !! i) as [w|] eqn:Hi; [|done]. destruct (decide _) as [Hph|]; [|done]. injection Hstep as <-.
    split; [done|]. rewrite (pending_set_worker i w) by done. rewrite Hph, Hrun. cbn. lia.
  - destruct (sys_workers s !! i) as [w|] eqn:Hi; [|done]. destruct (sys_limits s !! i) as [limit|]; [|done].
    destruct (decide _) as [Hph|]; [|done]. injection Hstep as Hstep. apply res_bind_Ok in Hstep as ([x k] & Hr & [= <-]).
    split; [done|]. rewrite (pending_set_worker i w) by done. rewrite Hph. cbn. lia.
Qed.

Lemma own_steps_pending k s s' :
  sys_running s = false → nsteps own_step k s s' →
  sys_running s' = false ∧ pending s' = pending s - Z.of_nat k.
Proof using.
  intros Hrun Hk. induction Hk as [s|k s s1 s' Hstep _ IH]; [split; [done|lia]|].
  destruct (own_step_pending _ _ Hrun Hstep) as [Hrun1 Hp1]. destruct (IH Hrun1) as [? Hp2]. split; [done|lia].
Qed.

Context (I : W → Prop) `{!RateWorkerSafe W E I}.

Definition safe_inv s : Prop := sys_inv V n t0 s ∧ Forall (λ w, I (ws_worker w)) (sys_workers s).

(** A step of an environment that keeps its word succeeds. *)
Lemma sys_step_safe s l r :
  (0 < n)%nat → safe_inv s → label_ok V l s → sys_step l s = Some r → ∃ s', r = Ok s' ∧ safe_inv s'.
Proof using All.
  intros Hn [Hinv HI] Hok Hstep. assert (∃ s', r = Ok s' ∧ Forall (λ w, I (ws_worker w)) (sys_workers s')) as (s' & -> & HI').
  2: { exists s'. split; [done|]. split; [|done]. by eapply sys_step_inv. }
  destruct Hinv as (Hlim & _ & Hlen & Hw). destruct l as [at_ ev| | | |i|i now env]; cbn [sys_step] in Hstep.
  - destruct (sys_loop s); [|done..]. injection Hstep as <-. unfold poll_step. cbn [label_ok] in Hok.
    destruct (Suspendable.current_at at_ (sys_g s)) as [g [v|]]; [|by eexists].
    destruct (sys_running s); [|by eexists]. cbn [snd] in Hok. rewrite (proj1 Hlim), distribute_share; [|done|by apply (is_u64_below V)].
    by eexists.
  - destruct (sys_loop s) as [|v idx [|x rest]|]; [done|done| |done]. injection Hstep as <-. by eexists.
  - destruct (sys_loop s) as [|v idx [|]|]; [done| |done|done]. injection Hstep as <-. by eexists.
  - injection Hstep as <-. by eexists.
  - destruct (sys_workers s !! i) as [w|] eqn:Hi; [|done]. destruct (decide _); [|done]. injection Hstep as <-.
    eexists. split; [done|]. apply Forall_insert; [done|]. by apply (Forall_lookup_1 _ _ _ _ HI Hi).
  - destruct (sys_workers s !! i) as [w|] eqn:Hi; [|done]. destruct (sys_limits s !! i) as [limit|] eqn:Hl; [|done].
    destruct (decide _); [|done]. injection Hstep as <-. cbn [label_ok] in Hok. rewrite Hi in Hok. destruct Hok as (He & _ & Hel).
    pose proof (share_le V n i ltac:(lia) ltac:(rewrite <-Hlen; by eapply lookup_lt_Some)).
    destruct (worker_round_safe (share V n i) (ws_worker w) now limit env) as (x & k & -> & Hx);
      [lia|apply (Hw i w Hi)|by apply (Forall_lookup_1 _ _ _ _ HI Hi)|by apply (proj2 Hlim)|done|done|].
    eexists. split; [done|]. by apply Forall_insert.
Qed.

Lemma reachable_safe s0 s : (0 < n)%nat → safe_inv s0 → reachable (E := E) V s0 s → safe_inv s.
Proof using All.
  intros Hn Hs0. induction 1 as [|s l s' _ IH Hok Hstep]; [done|].
  by destruct (sys_step_safe s l _ Hn IH Hok Hstep) as (? & [= <-] & ?).
Qed.

(** Whoever has not left can move. *)
Lemma own_step_exists s :
  (0 < n)%nat → safe_inv s → sys_running s = false → 0 < pending s → ∃ s', own_step s s' ∧ safe_inv s'.
Proof using All.
  intros Hn Hs Hrun Hp.
  assert (∃ l : Label E, l ≠ Stop ∧ label_ok V l s ∧ is_Some (sys_step l s)) as (l & Hl & Hok & [r Hr]).
  2: { destruct (sys_step_safe s l r Hn Hs Hok Hr) as (s' & -> & Hs'). exists s'. split; [by exists l|done]. }
  destruct (sys_loop s) as [|v idx [|x rest]|] eqn:Hloop.
  - exists (Poll 0 None). cbn. rewrite Hloop, Hrun. split_and!; [done|by destruct (_.2)|by eexists].
  - exists Publish. cbn. rewrite Hloop. by split_and!.
  - exists Store. cbn. rewrite Hloop. by split_and!.
  - assert (∃ i w, sys_workers s !! i = Some w ∧ ws_phase w ≠ Left) as (i & w & Hi & Hph).
    { destruct (decide (Forall (λ w, ws_phase w = Left) (sys_workers s))) as [Hall|Hno].
      2: { apply not_Forall_Exists, Exists_exists in Hno as (w & (i & Hi)%list_elem_of_lookup_1 & Hph); [by exists i, w|].
           intros w. apply _. }
      exfalso. unfold pending in Hp. rewrite Hloop in Hp. cbn [loop_cost] in Hp.
      rewrite (zsum_ext _ (λ _, 0)) in Hp by (eapply Forall_impl; [exact Hall|intros w ->; done]).
      clear -Hp. revert Hp. induction (sys_workers s) as [|w l IH]; [done|]. csimpl. rewrite zsum_cons. exact IH. }
    destruct (ws_phase w) eqn:Hw; [exists (Look i)| |done].
    + cbn. rewrite Hi, decide_True by done. by split_and!.
    + destruct some_round_env as [env He]. exists (Round i (prev_ts (worker_shaper (ws_worker w))) env).
      pose proof Hs as ((Hlim & _ & Hlen & _) & _).
      destruct (lookup_lt_is_Some_2 (sys_limits s) i) as [limit Hl].
      { rewrite (proj1 Hlim), <-Hlen. by eapply lookup_lt_Some. }
      cbn. rewrite Hi, Hl, decide_True by done. unfold duration_since. rewrite Z.sub_diag.
      split_and!; [done|done|done|done|by eexists].
Qed.

(** Everyone leaves. *)
Lemma own_steps_stop k s :
  (0 < n)%nat → safe_inv s → sys_running s = false → pending s = Z.of_nat k →
  ∃ s', nsteps own_step k s s' ∧ stopped s'.
Proof using All.
  intros Hn. revert s. induction k as [|k IH]; intros s Hs Hrun Hp.
  - exists s. split; [apply nsteps_O|by apply pending_zero].
  - destruct (own_step_exists s Hn Hs Hrun ltac:(lia)) as (s1 & Hstep & Hs1).
    destruct (own_step_pending _ _ Hrun Hstep) as [Hrun1 Hp1].
    destruct (IH s1 Hs1 Hrun1 ltac:(lia)) as (s' & Hk & Hst). exists s'. split; [by eapply nsteps_l|done].
Qed.
End stopping.

Lemma safe_system {G} `{Generator G} {W E} `{RateWorkerLaws W E} (I : W → Prop) `{!RateWorkerSafe W E I}
    V (g : G) t0 now xs (s : System G W) :
  0 ≤ V < 2 ^ 53 → xs ≠ [] → Forall (λ x, started_after t0 x ∧ I x) xs →
  reachable (E := E) V (sys_start g now xs) s → (0 < length xs)%nat ∧ safe_inv V (length xs) t0 I s.
Proof.
  intros HV Hxs Hall Hr. assert (0 < length xs)%nat as Hn by (destruct xs; [done|cbn; lia]).
  split; [done|]. refine (reachable_safe (E := E) V HV (length xs) t0 I (sys_start g now xs) s Hn _ Hr). split.
  - eapply (sys_start_inv (E := E) V HV (length xs) t0 g now xs eq_refl), Forall_impl; [exact Hall|by intros ? []].
  - cbn. apply Forall_fmap. eapply Forall_impl; [exact Hall|by intros ? []].
Qed.

(** C8: the running system never panics, and once the flag is cleared — by the
    end of the profile, the interface, a signal or a Stop — it comes to a stop:
    the steps left — the rest of the iteration of the loop, at most two for each
    worker — are [pending s]; no schedule has more, and a schedule of exactly
    that many ends with the loop and every worker out.  That the rounds of a
    worker do not panic is the promise of its task, which keeps [I]. *)
Theorem system_drains {G} `{Generator G} {W E} `{RateWorkerLaws W E} (I : W → Prop) `{!RateWorkerSafe W E I}
    V (g : G) t0 now xs (s : System G W) :
  0 ≤ V < 2 ^ 53 → xs ≠ [] → Forall (λ x, started_after t0 x ∧ I x) xs →
  reachable (E := E) V (sys_start g now xs) s →
  (∀ l r, label_ok (E := E) V l s → sys_step l s = Some r → ∃ s', r = Ok s') ∧
  (sys_running s = false →
    (∀ k s', nsteps (own_step (E := E) V) k s s' → Z.of_nat k ≤ pending s) ∧
    ∃ s', nsteps (own_step (E := E) V) (Z.to_nat (pending s)) s s' ∧ stopped s') ∧
  pending s ≤ 2 + 3 * Z.of_nat (length xs).
Proof.
  intros HV Hxs Hall Hr. set (n := length xs).
  destruct (safe_system (E := E) I V g t0 now xs s HV Hxs Hall Hr) as [Hn Hs]. fold n in Hn, Hs. split_and!.
  - intros l r Hl Hst. destruct (sys_step_safe V HV n t0 I s l r Hn Hs Hl Hst) as (s' & -> & _). by exists s'.
  - intros Hrun. destruct (pending_nonneg s) as [Hp1 Hp2].
    split.
    + intros k s' Hk. destruct (own_steps_pending V k s s' Hrun Hk) as [_ Hp].
      destruct (pending_nonneg s'). unfold pending in *. lia.
    + apply (own_steps_stop V HV n t0 I); [done|done|done|]. unfold pending. lia.
  - destruct Hs as [((Hlen & _) & Hloop & Hw & _) _]. unfold pending.
    assert (zsum ((λ w, phase_cost (ws_phase w)) <$> sys_workers s) ≤ 2 * Z.of_nat n) as Hle.
    { rewrite <-Hw. generalize (sys_workers s). intros l. induction l as [|w l IH]; [done|].
      csimpl. rewrite zsum_cons. destruct (ws_phase w); cbn [phase_cost length]; lia. }
    fold n. destruct (sys_loop s) as [|v idx rest|]; cbn [loop_cost]; [lia| |lia].
    destruct Hloop as (_ & Hi & -> & _). rewrite length_fmap, length_seq. lia.
Qed.

Lemma system_drains_witness :
  ∃ s, sys_run (H := boxed_generator (λ x, x)) (example_labels ++ [Poll 60000000 None; Store; Look 0; Stop]) example_system = Some (Ok s) ∧
    pending s = 6 ∧ ∃ s', nsteps (own_step (H := boxed_generator (λ x, x)) (E := unit) 100) 6 s s' ∧ stopped s'.
Proof.
  eexists. split; [vm_compute; reflexivity|]. split; [reflexivity|].
  match goal with |- ∃ s', nsteps _ _ ?s s' ∧ _ =>
    destruct (system_drains (H := boxed_generator (λ x, x)) (E := unit) (λ w, 0 ≤ task w)
      (RateWorkerSafe0 := coro_rate_worker_safe (λ w, 0 ≤ w) tt ltac:(intros e w Hw; eexists; split; [reflexivity|lia]))
      100 example_generator 0 0 [{| task := 0; shaper := Shaper.new 0 0 |}; {| task := 0; shaper := Shaper.new 0 0 |}] s)
      as (_ & Hstop & _); [done|done| | |exact (proj2 (Hstop eq_refl))]
  end.
  - repeat (apply Forall_cons; split; [by split; [apply started_now|]|]). by apply Forall_nil.
  - eapply (sys_run_reachable (H := boxed_generator (λ x, x)) 100 (example_labels ++ [Poll 60000000 None; Store; Look 0; Stop]));
      [apply reach_start| |vm_compute; reflexivity].
    vm_compute. repeat split; discriminate.
Defined.
