(* ===== verification/Books.v ===== *)
(** * The books of the running system

    [System] knows how often each worker has executed its task; the workers keep
    counters of their own.  For workers that count ([RateWorkerCounts]) the two
    agree in every reachable state, and no step panics, as long as the counters
    have room for one more round. *)
From S2P Require Import Prelude Machine F64 Time Rounding Shaper Generator Suspendable RateControl Task Conformance System.

Section books.
Context {G : Type} `{Generator G} {W E : Type} `{RateWorkerLaws W E}.
Context (I : Z → W → Prop) `{!RateWorkerCounts W E I}.
Context (V : Z) (HV : 0 ≤ V < 2 ^ 53) (n : nat) (t0 : Instant) (Hn : (0 < n)%nat).
Implicit Types s : System G W.
Implicit Types w : WorkerState W.

(** The counters of [w] say how often it executed. *)
Definition counted w : Prop := 0 ≤ ws_done w ∧ (ws_done w + V < 2 ^ 64 → I (ws_done w) (ws_worker w)).
Definition books_inv s : Prop := sys_inv V n t0 s ∧ Forall counted (sys_workers s).

Lemma round_counted i w now limit env :
  (i < n)%nat → worker_inv V n t0 i w → counted w → 0 ≤ limit ≤ share V n i → round_env_ok env →
  is_duration (duration_since now (prev_ts (worker_shaper (ws_worker w)))) →
  ws_done w + V < 2 ^ 64 →
  ∃ x k, worker_round (ws_worker w) now limit env = Ok (x, k) ∧ 0 ≤ k ∧ I (ws_done w + k) x.
Proof using All.
  intros Hi (Hb & _) (Hd & HI) Hl He Hel Hroom. pose proof (share_le V n i ltac:(lia) Hi) as HB.
  destruct (worker_round_counts (share V n i) (ws_worker w) now limit env (ws_done w)) as (x & k & Hr & Hx);
    [lia|done|done|done|done|done|lia|by apply HI|].
  exists x, k. split_and!; [done| |done].
  by destruct (worker_round_above (share V n i) _ now limit env x k ltac:(lia) Hb Hl He Hel Hr).
Qed.

Lemma books_step s l s' : books_inv s → label_ok V l s → sys_step l s = Some (Ok s') → books_inv s'.
Proof using All.
  intros [Hs Hc] Hok Hstep. split; [by eapply sys_step_inv|]. destruct Hs as (Hlim & _ & Hlen & Hw).
  destruct l as [at_ ev| | | |i|i now env]; cbn [sys_step] in Hstep.
  - destruct (sys_loop s); [|done..]. injection Hstep as Hstep. unfold poll_step in Hstep.
    destruct (Suspendable.current_at at_ (sys_g s)) as [g [v|]]; [|by injection Hstep as <-].
    destruct (sys_running s); [|by injection Hstep as <-]. by apply res_bind_Ok in Hstep as (ls & _ & [= <-]).
  - by destruct (sys_loop s) as [|v idx [|limit rest]|]; [..|injection Hstep as <-|].
  - by destruct (sys_loop s) as [|v idx [|limit rest]|]; [|injection Hstep as <-|..].
  - by injection Hstep as <-.
  - destruct (sys_workers s !! i) as [w|] eqn:Hi; [|done]. destruct (decide _); [|done]. injection Hstep as <-.
    cbn [sys_workers set_worker]. apply Forall_insert; [done|]. exact (Forall_lookup_1 _ _ _ _ Hc Hi).
  - destruct (sys_workers s !! i) as [w|] eqn:Hi; [|done]. destruct (sys_limits s !! i) as [limit|] eqn:Hl; [|done].
    destruct (decide _); [|done]. injection Hstep as Hstep. apply res_bind_Ok in Hstep as ([x k] & Hr & [= <-]).
    cbn [label_ok] in Hok. rewrite Hi in Hok. destruct Hok as [He [Hnow Hel]].
    pose proof (lookup_lt_Some _ _ _ Hi) as Hlt. rewrite Hlen in Hlt.
    pose proof (Forall_lookup_1 _ _ _ _ Hc Hi) as Hcw. pose proof (proj2 Hlim _ _ Hl) as Hll.
    pose proof (share_le V n i ltac:(lia) Hlt) as HB. destruct (Hw _ _ Hi) as (Hb & _).
    destruct (worker_round_above (share V n i) _ now limit env x k ltac:(lia) Hb Hll He Hel Hr) as [Hk _].
    cbn [sys_workers set_worker]. apply Forall_insert; [done|]. unfold counted. cbn [ws_done ws_worker fst snd].
    destruct Hcw as [Hd HI]. split; [lia|]. intros Hroom.
    destruct (round_counted i w now limit env Hlt (Hw _ _ Hi) (conj Hd HI) Hll He Hel ltac:(lia)) as (x' & k' & Hr' & _ & Hx).
    rewrite Hr in Hr'. by injection Hr' as <- <-.
Qed.

Lemma books_start g now xs :
  length xs = n → Forall (λ x, started_after t0 x ∧ I 0 x) xs → books_inv (sys_start g now xs).
Proof using HV.
  intros Hlen Hxs. split.
  - apply sys_start_inv; [done..|]. eapply Forall_impl; [exact Hxs|by intros ? []].
  - cbn. apply Forall_fmap. eapply Forall_impl; [exact Hxs|]. intros x [_ Hx]. unfold counted. by cbn.
Qed.

Lemma reachable_books s0 s : books_inv s0 → reachable V s0 s → books_inv s.
Proof using All. intros Hs0. induction 1 as [|s l s' _ IH Hok Hstep]; [done|]. by eapply books_step. Qed.

(** No step panics. *)
Lemma books_no_panic s l r :
  books_inv s → label_ok V l s → Forall (λ w, ws_done w + V < 2 ^ 64) (sys_workers s) →
  sys_step l s = Some r → ∃ s', r = Ok s'.
Proof using All.
  intros [(Hlim & _ & Hlen & Hw) Hc] Hok Hroom Hstep. destruct l as [at_ ev| | | |i|i now env]; cbn [sys_step] in Hstep.
  - destruct (sys_loop s); [|done..]. injection Hstep as <-. unfold poll_step. cbn [label_ok] in Hok.
    destruct (Suspendable.current_at at_ (sys_g s)) as [g [v|]]; [|by eexists].
    destruct (sys_running s); [|by eexists]. rewrite (proj1 Hlim), distribute_share; [by eexists|done|].
    unfold is_u64. cbn [snd] in Hok. lia.
  - destruct (sys_loop s) as [|v idx [|limit rest]|]; [done|done| |done]. injection Hstep as <-. by eexists.
  - destruct (sys_loop s) as [|v idx [|limit rest]|]; [done| |done|done]. injection Hstep as <-. by eexists.
  - injection Hstep as <-. by eexists.
  - destruct (sys_workers s !! i) as [w|]; [|done]. destruct (decide _); [|done]. injection Hstep as <-. by eexists.
  - destruct (sys_workers s !! i) as [w|] eqn:Hi; [|done]. destruct (sys_limits s !! i) as [limit|] eqn:Hl; [|done].
    destruct (decide _); [|done]. injection Hstep as <-. cbn [label_ok] in Hok. rewrite Hi in Hok.
    destruct Hok as [He [_ Hel]]. pose proof (lookup_lt_Some _ _ _ Hi) as Hlt. rewrite Hlen in Hlt.
    destruct (round_counted i w now limit env Hlt (Hw _ _ Hi) (Forall_lookup_1 _ _ _ _ Hc Hi) (proj2 Hlim _ _ Hl) He Hel
      (Forall_lookup_1 _ _ _ _ Hroom Hi)) as (x & k & -> & _). by eexists.
Qed.
End books.
