(* ===== verification/Achieve.v ===== *)
(** * A pool that keeps up achieves the published rate

    The counterpart of [System.pool_conforms].  As long as every worker keeps up
    ([Keeping]), from the moment the limits of a rate of at least [m] are stored
    the workers together execute at least [m] operations per second, less the one
    that may be left in the bucket of each, up to the rounding of the floats — in
    every interleaving with the rate-control loop, and while its limits change. *)
From S2P Require Import Prelude Machine F64 Time Rounding Shaper Generator Suspendable RateControl Task Conformance Keeping System.

(** ** Runs that keep up *)

Section keeping.
Context {G : Type} `{Generator G} {W E : Type} `{RateWorker W E}.
Context (V cap m : Z).
Implicit Types s : System G W.
Implicit Types w : WorkerState W.

(** The rates polled are at least [m], and a round under a limit comes before
    more has gathered than it takes. *)
Definition label_keeps (l : Label E) s : Prop :=
  match l with
  | Poll at_ _ =>
      match (Suspendable.current_at at_ (sys_g s)).2 with
      | Some v => if sys_running s then m ≤ v else True
      | None => True
      end
  | Round i now _ =>
      match sys_workers s !! i, sys_limits s !! i with
      | Some w, Some limit =>
          limit = 0 ∨ keeps_up cap limit (duration_since now (prev_ts (worker_shaper (ws_worker w))))
      | _, _ => True
      end
  | _ => True
  end.

Inductive keeping (s0 : System G W) : System G W → Prop :=
  | keep_start : keeping s0 s0
  | keep_step s l s' :
      keeping s0 s → label_ok V l s → label_keeps l s → sys_step l s = Some (Ok s') → keeping s0 s'.

Lemma keeping_reachable s0 s : keeping s0 s → reachable (E := E) V s0 s.
Proof. induction 1; [constructor|by econstructor]. Qed.

(** An execution given by its labels. *)
Fixpoint keeps_ok (ls : list (Label E)) s : Prop :=
  match ls with
  | [] => True
  | l :: ls => label_ok V l s ∧ label_keeps l s ∧ match sys_step l s with Some (Ok s') => keeps_ok ls s' | _ => False end
  end.

Lemma sys_run_keeping ls s0 s s' : keeping s0 s → keeps_ok ls s → sys_run ls s = Some (Ok s') → keeping s0 s'.
Proof.
  revert s. induction ls as [|l ls IH]; intros s Hs Hok Hrun; cbn in *; [by injection Hrun as <-|].
  destruct Hok as (Hl & Hk & Hok). destruct (sys_step l s) as [[s1| |]|] eqn:Hstep; [|done..].
  apply (IH s1); [by eapply keep_step|done|done].
Qed.

(** The limits are those of a rate of at least [m], and so are the ones about to
    be stored. *)
Definition rate_at_least s : Prop :=
  (∀ i l, sys_limits s !! i = Some l → share m (length (sys_limits s)) i ≤ l) ∧
  match sys_loop s with Storing v _ _ => m ≤ v | _ => True end.
End keeping.

(** ** What a step leaves of the workers and the limits *)

Section steps.
Context {G : Type} `{Generator G} {W E : Type} `{RateWorker W E}.
Implicit Types s : System G W.
Implicit Types w : WorkerState W.

(** The same worker with the same counts. *)
Definition same_worker w w' : Prop :=
  ws_worker w' = ws_worker w ∧ ws_done w' = ws_done w ∧ ws_rounds w' = ws_rounds w.

(** The worker after a round. *)
Definition round_done (l : Label E) i s w w' : Prop :=
  ∃ now env limit x k, l = Round i now env ∧ sys_limits s !! i = Some limit ∧
    worker_round (ws_worker w) now limit env = Ok (x, k) ∧
    ws_worker w' = x ∧ ws_done w' = ws_done w + k ∧ ws_rounds w' = ws_rounds w + 1.

Lemma sys_step_worker l s s' i w' :
  sys_step l s = Some (Ok s') → sys_workers s' !! i = Some w' →
  ∃ w, sys_workers s !! i = Some w ∧ (same_worker w w' ∨ round_done l i s w w').
Proof.
  intros Hstep Hw'.
  assert (sys_workers s' = sys_workers s → ∃ w, sys_workers s !! i = Some w ∧ (same_worker w w' ∨ round_done l i s w w')) as Hsame.
  { intros Hs. rewrite Hs in Hw'. exists w'. split; [done|]. by left. }
  destruct l as [at_ ev| | | |j|j now env]; cbn [sys_step] in Hstep.
  - apply Hsame. destruct (sys_loop s); [|done..]. injection Hstep as Hstep. unfold poll_step in Hstep.
    destruct (Suspendable.current_at at_ (sys_g s)) as [g [v|]]; [|by injection Hstep as <-].
    destruct (sys_running s); [|by injection Hstep as <-]. by apply res_bind_Ok in Hstep as (? & _ & [= <-]).
  - apply Hsame. destruct (sys_loop s) as [|v idx [|limit rest]|]; [done|done| |done]. by injection Hstep as <-.
  - apply Hsame. destruct (sys_loop s) as [|v idx [|limit rest]|]; [done| |done|done]. by injection Hstep as <-.
  - apply Hsame. by injection Hstep as <-.
  - destruct (sys_workers s !! j) as [w|] eqn:Hj; [|done]. destruct (decide _); [|done]. injection Hstep as <-.
    cbn [sys_workers set_worker] in Hw'. apply list_lookup_insert_Some in Hw' as [(<- & <- & _)|[Hne Hw']].
    + exists w. split; [done|]. by left.
    + exists w'. split; [done|]. by left.
  - destruct (sys_workers s !! j) as [w|] eqn:Hj; [|done]. destruct (sys_limits s !! j) as [limit|] eqn:Hl; [|done].
    destruct (decide _); [|done]. injection Hstep as Hstep. apply res_bind_Ok in Hstep as ([x k] & Hr & [= <-]).
    cbn [sys_workers set_worker] in Hw'. apply list_lookup_insert_Some in Hw' as [(<- & <- & _)|[Hne Hw']].
    + exists w. split; [done|]. right. by exists now, env, limit, x, k.
    + exists w'. split; [done|]. by left.
Qed.

(** Limits of at least [m] stay so. *)
Lemma sys_step_rate V t0 cap m l s s' :
  let n := length (sys_workers s) in
  (0 < n)%nat → sys_inv V n t0 s → label_keeps cap m l s → sys_step l s = Some (Ok s') →
  rate_at_least m s → rate_at_least m s'.
Proof.
  intros n Hn ((Hlen & _) & Hloop & _) Hk Hstep [Hl Hp].
  destruct l as [at_ ev| | | |j|j now env]; cbn [sys_step] in Hstep; cbn [label_keeps] in Hk.
  - destruct (sys_loop s) eqn:Hlp; [|done..]. injection Hstep as Hstep. unfold poll_step in Hstep.
    destruct (Suspendable.current_at at_ (sys_g s)) as [g [v|]]; [|by injection Hstep as <-].
    destruct (sys_running s); [|by injection Hstep as <-]. by apply res_bind_Ok in Hstep as (? & _ & [= <-]).
  - destruct (sys_loop s) as [|v idx [|limit rest]|]; [done|done| |done]. injection Hstep as <-.
    cbn in Hloop. destruct Hloop as (_ & Hi & Hrest & _). split; [|done]. cbn [sys_limits]. rewrite length_insert.
    intros i l [(<- & <- & _)|[Hne Hi']]%list_lookup_insert_Some; [|by apply Hl]. rewrite Hlen.
    destruct (n - idx)%nat as [|r] eqn:Hr; [done|]. cbn in Hrest. injection Hrest as -> _. by apply share_mono.
  - destruct (sys_loop s) as [|v idx [|limit rest]|]; [done| |done|done]. by injection Hstep as <-.
  - by injection Hstep as <-.
  - destruct (sys_workers s !! j) as [w|]; [|done]. destruct (decide _); [|done]. by injection Hstep as <-.
  - destruct (sys_workers s !! j) as [w|]; [|done]. destruct (sys_limits s !! j) as [limit|]; [|done].
    destruct (decide _); [|done]. injection Hstep as Hstep. by apply res_bind_Ok in Hstep as ([x k] & _ & [= <-]).
Qed.
End steps.

(** ** The invariants *)

Section invariant.
Context {G : Type} `{Generator G} {W E : Type} {cap : Z} `{RateWorkerKeeps W E cap, !RateWorkerLaws W E}.
Context (V : Z) (HV : 0 ≤ V < 2 ^ 53) (n : nat) (Hn : (0 < n)%nat) (t0 : Instant).
Implicit Types s : System G W.
Implicit Types w : WorkerState W.

Abbreviation bucket w := (worker_shaper (ws_worker w)).

(** Every bucket is low. *)
Definition low_inv s : Prop := sys_inv V n t0 s ∧ Forall (λ w, bucket_low (bucket w)) (sys_workers s).

(** What the system promises of a round of worker [i]. *)
Lemma round_label_ok m i s w w' l :
  low_inv s → label_ok V l s → label_keeps cap m l s → sys_workers s !! i = Some w → round_done l i s w w' →
  ∃ now limit, 0 ≤ limit ∧ sys_limits s !! i = Some limit ∧ prev_ts (bucket w) ≤ now ∧ prev_ts (bucket w') = now ∧
    bucket_low (bucket w') ∧ ws_rounds w' = ws_rounds w + 1 ∧
    (limit ≠ 0 → round_below (bucket w) now limit (bucket w') (ws_done w' - ws_done w)).
Proof using All.
  intros [(Hlim & _ & Hlen & Hw) Hlow] Hok Hk Hi (now & env & limit & x & k & -> & Hl & Hr & Hx & Hd & Hrs).
  cbn [label_ok label_keeps] in Hok, Hk. rewrite Hi in Hok, Hk. rewrite Hl in Hk. destruct Hok as [He [Hnow Hel]].
  pose proof (lookup_lt_Some _ _ _ Hi) as Hlt. rewrite Hlen in Hlt. pose proof (proj2 Hlim _ _ Hl) as Hll.
  pose proof (share_le V n i ltac:(lia) Hlt) as HB. destruct (Hw _ _ Hi) as (Hb & _).
  pose proof (Forall_lookup_1 _ _ _ _ Hlow Hi) as Hwl. cbn beta in Hwl.
  destruct (worker_round_above (share V n i) _ now limit env x k ltac:(lia) Hb Hll He Hel Hr) as [_ (_ & Hp & _)].
  exists now, limit. rewrite Hx. replace (ws_done w' - ws_done w) with k by lia.
  destruct Hk as [->|Hk].
  - destruct (worker_round_zero (ws_worker w) now env x k Hwl He Hel Hr) as [Hx' _]. by split_and!.
  - pose proof (worker_round_below (ws_worker w) now limit env x k Hwl He Hel Hk Hr) as Hb'.
    split_and!; try done; [lia|apply Hb'].
Qed.

Lemma low_step m s l s' :
  low_inv s → label_ok V l s → label_keeps cap m l s → sys_step l s = Some (Ok s') → low_inv s'.
Proof using All.
  intros Hinv Hok Hk Hstep. split; [by eapply sys_step_inv; [..|apply Hinv|exact Hok|exact Hstep]|].
  apply Forall_lookup_2. intros i w' Hw'. destruct (sys_step_worker _ _ _ _ _ Hstep Hw') as (w & Hw & [(-> & _)|Hr]).
  - exact (Forall_lookup_1 _ _ _ _ (proj2 Hinv) Hw).
  - by destruct (round_label_ok m i s w w' l Hinv Hok Hk Hw Hr) as (? & ? & _ & _ & _ & _ & ? & _).
Qed.

Lemma keeping_low m s0 s : low_inv s0 → keeping V cap m s0 s → low_inv s.
Proof using All. intros Hs0. induction 1 as [|s l s' _ IH Hok Hk Hstep]; [done|]. by eapply low_step. Qed.

(** Since the state [s0] worker [i] has executed its share of [m]. *)
Definition achieved (m : Z) (i : nat) w0 w : Prop :=
  let M := NANOS_PER_SEC * R ^ 4 in
  ws_rounds w0 ≤ ws_rounds w ∧
  (scaled (tokens (bucket w0)) + ws_done w0 * one) * M +
    share m n i * (prev_ts (bucket w) - prev_ts (bucket w0)) * one * (R - 1) ^ 4 ≤
    (scaled (tokens (bucket w)) + ws_done w * one) * M +
    2 * (ws_rounds w - ws_rounds w0) * (one * (NANOS_PER_SEC * R ^ 3)).

Lemma achieved_round m i w0 w w' now limit :
  0 ≤ share m n i ≤ limit → achieved m i w0 w → prev_ts (bucket w) ≤ now → prev_ts (bucket w') = now →
  ws_rounds w' = ws_rounds w + 1 → round_below (bucket w) now limit (bucket w') (ws_done w' - ws_done w) →
  achieved m i w0 w'.
Proof using Hn.
  intros Hl [Hr Ha] Hnow Hp Hrs [_ Hb]. unfold duration_since in Hb. rewrite Z.max_r in Hb by lia.
  split; [lia|]. rewrite Hp, Hrs. set (t := prev_ts (bucket w)) in *. set (B := share m n i) in *.
  assert (B * (now - t) * one * (R - 1) ^ 4 ≤ limit * (now - t) * one * (R - 1) ^ 4) as Hlim.
  { apply Z.mul_le_mono_nonneg_r; [done|]. apply Z.mul_le_mono_nonneg_r; [done|]. apply Z.mul_le_mono_nonneg_r; lia. }
  set (M := NANOS_PER_SEC * R ^ 4) in *. set (N := one * (NANOS_PER_SEC * R ^ 3)) in *.
  set (U := one) in *. set (Q := (R - 1) ^ 4) in *. clearbody M N U Q B t. lia.
Qed.

Lemma keeping_achieves m s0 s :
  Z.of_nat n ≤ m → low_inv s0 → rate_at_least m s0 → keeping V cap m s0 s →
  rate_at_least m s ∧
  ∀ i w, sys_workers s !! i = Some w → ∃ w0, sys_workers s0 !! i = Some w0 ∧ achieved m i w0 w.
Proof using All.
  intros Hm Hs0 Hrate Hkeep. induction Hkeep as [|s l s' Hkeep [IHr IH] Hok Hk Hstep].
  - split; [done|]. intros i w Hw. exists w. split; [done|]. split; lia.
  - pose proof (keeping_low m s0 s Hs0 Hkeep) as Hlow. destruct (proj1 Hlow) as (Hlim & _ & Hlen & _).
    split; [eapply sys_step_rate; [|rewrite Hlen; apply Hlow|exact Hk|exact Hstep|exact IHr]; lia|].
    intros i w' Hw'. destruct (sys_step_worker _ _ _ _ _ Hstep Hw') as (w & Hw & Hcase).
    destruct (IH i w Hw) as (w0 & Hw0 & Ha). exists w0. split; [done|].
    destruct Hcase as [(Hx & Hd & Hrs)|Hr]; [unfold achieved in *; by rewrite Hx, Hd, Hrs|].
    destruct (round_label_ok m i s w w' l Hlow Hok Hk Hw Hr) as (now & limit & Hl0 & Hl & Hnow & Hp & _ & Hrs & Hb).
    pose proof (lookup_lt_Some _ _ _ Hw) as Hlt. rewrite Hlen in Hlt.
    pose proof (proj1 IHr i limit Hl) as Hsh. rewrite (proj1 Hlim) in Hsh.
    assert (1 ≤ share m n i) as Hge.
    { unfold share. apply Z.div_le_lower_bound; lia. }
    eapply achieved_round; [|exact Ha|done..|apply Hb]; lia.
Qed.
End invariant.

(** ** The pool *)

Lemma zsum_pointwise_below {A} (f : A → Z) (g : nat → Z) (l : list A) :
  (∀ i x, l !! i = Some x → g i ≤ f x) → zsum (g <$> seq 0 (length l)) ≤ zsum (f <$> l).
Proof.
  intros Hl. pose proof (zsum_pointwise (λ x, f x * -1) (λ i, g i * -1) l 0) as Hz.
  rewrite !zsum_linear in Hz. cut (zsum (f <$> l) * -1 ≤ zsum (g <$> seq 0 (length l)) * -1); [lia|].
  apply Hz. intros i x Hx. specialize (Hl i x Hx). cbn. lia.
Qed.

Lemma zsum_zip_sub {A} (f : A → Z) (l k : list A) :
  length l = length k → zsum ((λ p, f (fst p) - f (snd p)) <$> zip l k) = zsum (f <$> l) - zsum (f <$> k).
Proof.
  revert k. induction l as [|x l IH]; intros [|y k] Hlen; try done. csimpl. rewrite !zsum_cons, IH by (cbn in Hlen; lia). lia.
Qed.

Section pool.
Context {G : Type} `{Generator G} {W E : Type} {cap : Z} `{RateWorkerKeeps W E cap, !RateWorkerLaws W E}.

Lemma start_low V (g : G) t0 now (xs : list W) :
  0 ≤ V < 2 ^ 53 → Forall (started_after t0) xs → low_inv V (length xs) t0 (sys_start g now xs).
Proof.
  intros HV Hxs. split; [by apply sys_start_inv|]. cbn. apply Forall_fmap. eapply Forall_impl; [exact Hxs|].
  intros x (t & _ & Hx). cbn. rewrite Hx. apply bucket_low_new.
Qed.

Lemma achieved_executed n m i w0 (w : WorkerState W) T1 T2 K :
  0 ≤ share m n i → bucket_low (worker_shaper (ws_worker w0)) → bucket_low (worker_shaper (ws_worker w)) →
  0 ≤ ws_rounds w0 → prev_ts (worker_shaper (ws_worker w0)) ≤ T1 →
  T2 ≤ prev_ts (worker_shaper (ws_worker w)) → ws_rounds w ≤ K → achieved n m i w0 w →
  share m n i * ((T2 - T1) * (R - 1) ^ 4) ≤
    (ws_done w - ws_done w0 + 1) * (NANOS_PER_SEC * R ^ 4) + 2 * K * (NANOS_PER_SEC * R ^ 3).
Proof.
  intros Hsh (Hok0 & _) (_ & Ht & _) Hr0 HT1 HT2 HK [Hr Ha]. pose proof (scaled_nonneg _ Hok0) as Ht0.
  set (B := share m n i) in *. set (t := prev_ts _) in Ha, HT2. set (t' := prev_ts _) in Ha, HT1.
  assert (B * (T2 - T1) ≤ B * (t - t')) as HB by (apply Z.mul_le_mono_nonneg_l; lia).
  assert (0 < NANOS_PER_SEC * R ^ 4) as HM by done. assert (0 < NANOS_PER_SEC * R ^ 3) as HN by done.
  assert (0 < (R - 1) ^ 4) as HQ by done. pose proof one_pos as Hone.
  apply (Z.mul_le_mono_pos_r _ _ one Hone).
  set (M := NANOS_PER_SEC * R ^ 4) in *. set (N := NANOS_PER_SEC * R ^ 3) in *. set (Q := (R - 1) ^ 4) in *.
  set (U := one) in *. clearbody M N Q U B t t'.
  replace (B * ((T2 - T1) * Q) * U) with (B * (T2 - T1) * (U * Q)) by ring.
  trans (B * (t - t') * (U * Q)); [apply Z.mul_le_mono_nonneg_r; nia|].
  assert ((ws_rounds w - ws_rounds w0) * (U * N) ≤ K * (U * N)) by (apply Z.mul_le_mono_nonneg_r; nia).
  set (D := scaled (tokens (worker_shaper (ws_worker w)))) in *.
  set (D0 := scaled (tokens (worker_shaper (ws_worker w0)))) in *.
  assert (0 ≤ D0 * M) by nia. assert (D * M ≤ U * M) by nia. lia.
Qed.
End pool.

(** The counterpart of [pool_bound]: from a state [s1] in which the limits of
    a rate of at least [m] are stored to any later state [s2], whatever the
    interleaving of the loop, the workers and the events in between, as long as
    the rates polled stay between [m] and [V] and every worker keeps up, the
    workers together execute at least [m] operations per second — less one for
    each of the [n] workers, four parts in [R] = 2^51, and two parts in [R] of an
    operation for each of the at most [K] rounds of a worker. *)
Lemma pool_delivers {G} `{Generator G} {W E} {cap : Z} `{RateWorkerKeeps W E cap, !RateWorkerLaws W E}
    V m (g : G) t0 now xs (s1 s2 : System G W) T1 T2 K :
  0 ≤ V < 2 ^ 53 → xs ≠ [] → Forall (started_after t0) xs → Z.of_nat (length xs) ≤ m ≤ V →
  keeping (E := E) V cap 0 (sys_start g now xs) s1 → rate_at_least m s1 → keeping (E := E) V cap m s1 s2 →
  Forall (λ w, prev_ts (worker_shaper (ws_worker w)) ≤ T1) (sys_workers s1) →
  Forall (λ w, T2 ≤ prev_ts (worker_shaper (ws_worker w)) ∧ ws_rounds w ≤ K) (sys_workers s2) →
  let executed := zsum (ws_done <$> sys_workers s2) - zsum (ws_done <$> sys_workers s1) in
  m * (T2 - T1) * (R - 1) ^ 4 ≤
    (executed + Z.of_nat (length xs)) * NANOS_PER_SEC * R ^ 4 +
    2 * Z.of_nat (length xs) * K * NANOS_PER_SEC * R ^ 3.
Proof.
  intros HV Hne Hxs Hm Hk1 Hrate Hk2 HT1 HT2 executed. set (n := length xs) in *.
  assert (0 < n)%nat as Hn by (destruct xs; [done|cbn in n; lia]).
  pose proof (keeping_low V HV n Hn t0 0 _ _ (start_low V g t0 now xs HV Hxs) Hk1) as Hlow1.
  pose proof (keeping_low V HV n Hn t0 m _ _ Hlow1 Hk2) as Hlow2.
  destruct (keeping_achieves V HV n Hn t0 m _ _ ltac:(lia) Hlow1 Hrate Hk2) as [_ Ha].
  destruct (proj1 Hlow1) as (_ & _ & Hlen1 & Hw1), (proj1 Hlow2) as (_ & _ & Hlen2 & _).
  set (M := NANOS_PER_SEC * R ^ 4). set (N := 2 * K * (NANOS_PER_SEC * R ^ 3)). set (c := (T2 - T1) * (R - 1) ^ 4).
  assert (zsum ((λ i, share m n i * c) <$> seq 0 n) ≤
    zsum ((λ p, ((ws_done p.1 - ws_done p.2) + 1) * M + N) <$> zip (sys_workers s2) (sys_workers s1))) as Hz.
  { pose proof (zsum_pointwise_below (λ p, ((ws_done p.1 - ws_done p.2) + 1) * M + N) (λ i, share m n i * c)
      (zip (sys_workers s2) (sys_workers s1))) as Hz. rewrite length_zip_with, Hlen1, Hlen2, Nat.min_id in Hz. apply Hz. clear Hz.
    intros i [w w0] (w' & w0' & [= <- <-] & Hw & Hw0)%lookup_zip_with_Some. cbn [fst snd].
    destruct (Ha i w Hw) as (w0' & Hw0' & Hach). rewrite Hw0 in Hw0'. injection Hw0' as <-.
    pose proof (lookup_lt_Some _ _ _ Hw) as Hlt. destruct (Hw1 _ _ Hw0) as (_ & _ & Hr0 & _).
    pose proof (Forall_lookup_1 _ _ _ _ HT2 Hw) as [Hts HK].
    pose proof (Forall_lookup_1 _ _ _ _ (proj2 Hlow1) Hw0). pose proof (Forall_lookup_1 _ _ _ _ (proj2 Hlow2) Hw).
    apply (achieved_executed n m i w0 w T1 T2 K); [|done..|exact Hr0| |done|done|done].
    - apply share_nonneg; lia.
    - exact (Forall_lookup_1 _ _ _ _ HT1 Hw0). }
  rewrite zsum_linear, share_sum in Hz by (done || (unfold is_u64; lia)).
  assert (zsum ((λ p, ((ws_done p.1 - ws_done p.2) + 1) * M + N) <$> zip (sys_workers s2) (sys_workers s1)) =
    (executed + Z.of_nat n) * M + Z.of_nat n * N) as Hsum.
  { assert (∀ z, zsum ((λ _, z) <$> zip (sys_workers s2) (sys_workers s1)) = Z.of_nat n * z) as Hc.
    { intros z. rewrite (const_fmap (λ _, z) _ z (λ _ _ _, eq_refl)). by rewrite zsum_replicate, length_zip_with, Hlen1, Hlen2, Nat.min_id. }
    rewrite (zsum_map_add (λ p, ((ws_done p.1 - ws_done p.2) + 1) * M) (λ _, N)), zsum_linear.
    rewrite (zsum_map_add (λ p, ws_done p.1 - ws_done p.2) (λ _, 1)), zsum_zip_sub, !Hc by lia.
    fold executed. lia. }
  rewrite Hsum in Hz. unfold M, N, c in Hz. lia.
Qed.
