(* ===== verification/Runtime.v ===== *)
(** * The composition root ([dwd/src/runtime.rs])

    [Runtime::run] starts the parts of a run in a fixed order, any of which may
    fail, runs the rate-control loop in place, and joins what it started.  The
    first half of this file is the start, the second the life of the process:
    [System] next to the terminal interface, the thread of the engine, the signal
    handler and the main task. *)
From stdpp Require Import relations.
From S2P Require Import Prelude Machine F64 Time Rounding Shaper Generator Suspendable RateControl Task Conformance Seam System.

(** ** Starting *)

(** What a run consists of besides the main task. *)
Inductive Part :=
  | ApiServer            (* Prometheus endpoint, a task *)
  | GrpcEndpoint         (* [serve_tcp], a task *)
  | SignalHandler        (* [spawn_signal_handler], a task *)
  | SeamServer           (* [grpc::serve] over the pipe, a task *)
  | StatsConsumer        (* a task *)
  | ControlForwarder     (* a task *)
  | RecorderThread
  | EngineThread
  | UiThread.
#[export] Instance part_eq_dec : EqDecision Part.
Proof. solve_decision. Defined.

(** The fields of the configuration that decide what is started. *)
Record RunConfig (Addr : Type) := {
  no_ui : bool;
  grpc_addr : option Addr;
  api_addr : option Addr;
}.
Arguments no_ui {Addr} _.
Arguments grpc_addr {Addr} _.
Arguments api_addr {Addr} _.

(** How the fallible calls of the start answer, in the order of the code. *)
Record StartEnv (Engine : Type) := {
  env_build : res Engine;
  env_serve_tcp : res unit;
  env_connect : res unit;
  env_describe : res (list Z);
  env_recorder : res unit;
  env_engine_thread : res unit;
  env_ui_thread : res unit;
  env_create : res unit;           (* [generator_fn.create()] in [run_generator] *)
}.
Arguments env_build {Engine} _.
Arguments env_serve_tcp {Engine} _.
Arguments env_connect {Engine} _.
Arguments env_describe {Engine} _.
Arguments env_recorder {Engine} _.
Arguments env_engine_thread {Engine} _.
Arguments env_ui_thread {Engine} _.
Arguments env_create {Engine} _.

(** A fallible computation that starts parts on its way. *)
Definition starting (A : Type) : Type := traced Part A.

Section start.
Context {Addr Engine : Type} (cfg : RunConfig Addr) (env : StartEnv Engine).

(** [if self.cfg.no_ui && self.cfg.grpc_addr.is_none() { None } else { Some(..) }]. *)
Definition has_service : bool := negb (no_ui cfg && match grpc_addr cfg with None => true | _ => false end).

(** The seam of the terminal interface: server, client and the two drivers; the
    widgets are those the server describes. *)
Definition start_seam : starting (list Widget) :=
  let* _ := (if has_service then tret tt else tcall (Panic "service exists whenever the TUI runs")) in
  let* _ := temit SeamServer in
  let* _ := tcall (env_connect env) in
  let* groups := tcall (env_describe env) in
  let* _ := temit StatsConsumer in
  let* _ := temit ControlForwarder in
  tret (build_ui groups).

(** [Runtime::run] down to the rate-control loop: the widgets of the interface,
    if there is one. *)
Definition start : starting (option (list Widget)) :=
  let* _ := tcall (env_build env) in
  let* _ := (match api_addr cfg with Some _ => temit ApiServer | None => tret tt end) in
  let* _ := (match grpc_addr cfg, has_service with
             | Some _, true => let* _ := tcall (env_serve_tcp env) in temit GrpcEndpoint
             | _, _ => tret tt
             end) in
  let* seam := (if no_ui cfg then let* _ := temit SignalHandler in tret None
                else let* ws := start_seam in tret (Some ws)) in
  let* _ := tcall (env_recorder env) in
  let* _ := temit RecorderThread in
  let* _ := tcall (env_engine_thread env) in
  let* _ := temit EngineThread in
  let* _ := (match seam with
             | Some _ => let* _ := tcall (env_ui_thread env) in temit UiThread
             | None => tret tt
             end) in
  let* _ := tcall (env_create env) in
  tret seam.

Definition when_some {A B} (o : option A) (l : list B) : list B :=
  match o with Some _ => l | None => [] end.

(** The parts the configuration asks for. *)
Definition expected_parts : list Part :=
  when_some (api_addr cfg) [ApiServer] ++ when_some (grpc_addr cfg) [GrpcEndpoint] ++
  (if no_ui cfg then [SignalHandler] else [SeamServer; StatsConsumer; ControlForwarder]) ++
  [RecorderThread; EngineThread] ++ (if no_ui cfg then [] else [UiThread]).

Definition succeeds {A} (r : res A) : bool := match r with Ok _ => true | _ => false end.

(** The fallible calls in their order, those the configuration makes: before
    the first thread, and after it up to the creation of the profile. *)
Definition calls_before : list bool :=
  succeeds (env_build env) :: when_some (grpc_addr cfg) [succeeds (env_serve_tcp env)] ++
  (if no_ui cfg then [] else [succeeds (env_connect env); succeeds (env_describe env)]).
Definition calls_threads : list bool :=
  [succeeds (env_recorder env); succeeds (env_engine_thread env)] ++
  (if no_ui cfg then [] else [succeeds (env_ui_thread env)]).
Definition calls : list bool := calls_before ++ calls_threads ++ [succeeds (env_create env)].

Definition is_thread (p : Part) : bool :=
  match p with RecorderThread | EngineThread | UiThread => true | _ => false end.

(** The case of one outcome of a call. *)
Ltac start_case :=
  cbn; split_and!; try done;
  first [by apply (bool_decide_unpack _)|by intros seam [= <-]|by intros seam ?].
Ltac try_call r :=
  match goal with |- context [r] => destruct r as [?| |]; [|start_case|start_case] end.

(** What is started is a prefix of what the configuration asks for, all of it
    when the start succeeds. *)
Lemma start_prefix :
  let '(parts, r) := start in
  parts `prefix_of` expected_parts ∧ (∀ seam, r = Ok seam → parts = expected_parts).
Proof.
  unfold start, start_seam, has_service, expected_parts.
  destruct (no_ui cfg), (grpc_addr cfg) as [a|], (api_addr cfg) as [b|].
  all: try_call (env_build env).
  all: try (try_call (env_serve_tcp env)).
  all: try (try_call (env_connect env)).
  all: try (try_call (env_describe env)).
  all: try_call (env_recorder env).
  all: try_call (env_engine_thread env).
  all: try (try_call (env_ui_thread env)).
  all: destruct (env_create env) as [[]| |]; start_case.
Qed.

(** C31: the start either brings up exactly the parts the configuration asks for,
    in the order of the code, or fails having started a prefix of them; it
    succeeds exactly when every call it makes does, and then the interface, if
    there is one, shows the widgets the server described.  Exactly one of the
    signal handler and the interface is there to end the run.  When a call
    before the threads fails — an endpoint that cannot be bound — no thread has
    been started; when the profile cannot be created everything is running. *)
Theorem start_parts :
  let '(parts, r) := start in
  parts `prefix_of` expected_parts ∧ succeeds r = forallb id calls ∧
  (∀ seam, r = Ok seam → parts = expected_parts ∧
     seam = if no_ui cfg then None else match env_describe env with Ok groups => Some (build_ui groups) | _ => None end) ∧
  (SignalHandler ∈ expected_parts ↔ UiThread ∉ expected_parts) ∧
  (forallb id calls_before = false → existsb is_thread parts = false) ∧
  (forallb id (calls_before ++ calls_threads) = true → env_create env ≠ Ok tt → parts = expected_parts ∧ succeeds r = false).
Proof.
  unfold start, start_seam, has_service, expected_parts, calls, calls_before, calls_threads.
  destruct (no_ui cfg), (grpc_addr cfg) as [a|], (api_addr cfg) as [b|].
  all: try_call (env_build env).
  all: try (try_call (env_serve_tcp env)).
  all: try (try_call (env_connect env)).
  all: try (try_call (env_describe env)).
  all: try_call (env_recorder env).
  all: try_call (env_engine_thread env).
  all: try (try_call (env_ui_thread env)).
  all: destruct (env_create env) as [[]| |]; start_case.
Qed.
End start.

(** ** The life of the process

    The main task runs the rate-control loop in place and then waits for the
    interface and the engine with blocking joins, on the one thread of the
    asynchronous runtime: the signal handler and the gRPC server, tasks of that
    runtime, move only while the loop sleeps between two iterations.  A panic of
    any thread ends the process at once ([panic = "abort"]), and so does a
    signal nobody has installed a handler for. *)

Inductive UiPhase := NoUi | UiOpen | UiClosed (ok : bool).

(** The thread of the engine: [engine.run(is_running)] and what it came to. *)
Inductive EnginePhase := EngineRuns | EngineOk | EngineErr (e : string) | EnginePanicked (e : string).

(** The task of the signal handler: not polled yet or never spawned, waiting in
    [shutdown_signal], woken by a signal, done. *)
Inductive HandlerPhase := NotInstalled | Listening | Signalled | Handled.

(** The main task, down to what [Runtime::run] returns, and the two ways a
    process ends without it. *)
Inductive MainPhase :=
  | Generating
  | JoiningUi
  | JoiningEngine
  | Reported (total : Z)    (* the report is logged, [Ok(())] *)
  | Failed (e : string)     (* [engine.join()..?] *)
  | Aborted                 (* a thread panicked *)
  | Killed.                 (* the default action of a signal *)

Record Process (G W : Type) := {
  proc_sys : System G W;
  proc_ui : UiPhase;
  proc_engine : EnginePhase;
  proc_handler : HandlerPhase;
  proc_main : MainPhase;
}.
Arguments proc_sys {G W} _.
Arguments proc_ui {G W} _.
Arguments proc_engine {G W} _.
Arguments proc_handler {G W} _.
Arguments proc_main {G W} _.

Inductive Event (E : Type) :=
  | Inner (l : Label E)              (* a step of the loop or of a worker *)
  | Install                          (* the handler task is polled for the first time *)
  | Signal                           (* SIGINT or SIGTERM arrives *)
  | HandleSignal                     (* the woken handler task is polled *)
  | StopRpc                          (* [control_request::Kind::Stop] *)
  | UiExit (ok : bool)               (* [ui::run] returns *)
  | EngineReturns (rc : res unit)    (* [engine.run] returns or panics *)
  | Join.                            (* the main task goes on *)
Arguments Inner {E} l.
Arguments Install {E}.
Arguments Signal {E}.
Arguments HandleSignal {E}.
Arguments StopRpc {E}.
Arguments UiExit {E} ok.
Arguments EngineReturns {E} rc.
Arguments Join {E}.

Section process.
Context {G : Type} `{Generator G} {W E Addr : Type} `{RateWorker W E}.
Context (cfg : RunConfig Addr).
Implicit Types p : Process G W.

Definition set_sys (s : System G W) p : Process G W :=
  {| proc_sys := s; proc_ui := proc_ui p; proc_engine := proc_engine p; proc_handler := proc_handler p;
     proc_main := proc_main p |}.
Definition set_ui (u : UiPhase) p : Process G W :=
  {| proc_sys := proc_sys p; proc_ui := u; proc_engine := proc_engine p; proc_handler := proc_handler p;
     proc_main := proc_main p |}.
Definition set_engine (e : EnginePhase) p : Process G W :=
  {| proc_sys := proc_sys p; proc_ui := proc_ui p; proc_engine := e; proc_handler := proc_handler p;
     proc_main := proc_main p |}.
Definition set_handler (h : HandlerPhase) p : Process G W :=
  {| proc_sys := proc_sys p; proc_ui := proc_ui p; proc_engine := proc_engine p; proc_handler := h;
     proc_main := proc_main p |}.
Definition set_main (m : MainPhase) p : Process G W :=
  {| proc_sys := proc_sys p; proc_ui := proc_ui p; proc_engine := proc_engine p; proc_handler := proc_handler p;
     proc_main := m |}.

(** The process is gone with whatever was still running in it. *)
Definition gone p : bool := match proc_main p with Failed _ | Aborted | Killed => true | _ => false end.

(** A task of the runtime gets the thread when the loop sleeps. *)
Definition tasks_run p : bool :=
  match proc_main p, sys_loop (proc_sys p) with Generating, Polling => true | _, _ => false end.

Definition all_left (s : System G W) : bool := bool_decide (Forall (λ w, ws_phase w = Left) (sys_workers s)).

(** What follows [run_generator] in [Runtime::run]. *)
Definition join_step p : option (Process G W) :=
  match proc_main p with
  | Generating =>
      match sys_loop (proc_sys p) with
      | Ended => Some (set_main (match proc_ui p with NoUi => JoiningEngine | _ => JoiningUi end) p)
      | _ => None
      end
  | JoiningUi =>
      match proc_ui p with
      | UiClosed true => Some (set_main JoiningEngine p)
      | UiClosed false => Some (set_main Aborted p)      (* [ui.join()..unwrap()] *)
      | _ => None
      end
  | JoiningEngine =>
      match proc_engine p with
      | EngineOk => Some (set_main (Reported (zsum (ws_done <$> sys_workers (proc_sys p)))) p)
      | EngineErr e => Some (set_main (Failed e) p)      (* [?] before [summary.finish().log()] *)
      | _ => None
      end
  | Reported _ | Failed _ | Aborted | Killed => None
  end.

(** The engine thread ends: in order when every worker has left its loop — its
    [run] joins them —, with an error or a panic at any time. *)
Definition engine_returns (rc : res unit) p : option (Process G W) :=
  match proc_engine p with
  | EngineRuns =>
      match rc with
      | Ok _ => if all_left (proc_sys p) then Some (set_engine EngineOk p) else None
      | Err e => Some (set_engine (EngineErr e) p)
      | Panic e => Some (set_main Aborted (set_engine (EnginePanicked e) p))
      end
  | _ => None
  end.

(** SIGINT or SIGTERM: where no handler is installed — always with the terminal
    interface, for which [spawn_signal_handler] is not called — the default
    action terminates the process. *)
Definition signal_arrives p : option (Process G W) :=
  match proc_main p, proc_handler p with
  | Reported _, _ => None
  | _, NotInstalled => Some (set_main Killed p)
  | _, Listening => Some (set_handler Signalled p)
  | _, _ => Some p
  end.

(** The effect of an event on a process that is there. *)
Definition proc_event (ev : Event E) p : option (res (Process G W)) :=
  match ev with
  | Inner Stop => None
  | Inner l => match sys_step l (proc_sys p) with
               | Some r => Some (let! s := r in Ok (set_sys s p))
               | None => None
               end
  | Install =>
      match proc_handler p with
      | NotInstalled => if no_ui cfg && tasks_run p then Some (Ok (set_handler Listening p)) else None
      | _ => None
      end
  | Signal => Ok <$> signal_arrives p
  | HandleSignal =>
      match proc_handler p with
      | Signalled => if tasks_run p then Some (Ok (set_handler Handled (set_sys (stop (proc_sys p)) p))) else None
      | _ => None
      end
  | StopRpc => if has_service cfg && tasks_run p then Some (Ok (set_sys (stop (proc_sys p)) p)) else None
  | UiExit ok =>
      match proc_ui p with
      | UiOpen => Some (Ok (set_ui (UiClosed ok) (set_sys (stop (proc_sys p)) p)))
      | _ => None
      end
  | EngineReturns rc => Ok <$> engine_returns rc p
  | Join => Ok <$> join_step p
  end.

Definition proc_step (ev : Event E) p : option (res (Process G W)) := if gone p then None else proc_event ev p.

(** The process after a successful start. *)
Definition proc_start (g : G) (now : Instant) (workers : list W) : Process G W :=
  {| proc_sys := sys_start g now workers; proc_ui := if no_ui cfg then NoUi else UiOpen;
     proc_engine := EngineRuns; proc_handler := NotInstalled; proc_main := Generating |}.

Definition event_ok (V : Z) (ev : Event E) p : Prop :=
  match ev with Inner l => label_ok V l (proc_sys p) | _ => True end.

Inductive lives (V : Z) (p0 : Process G W) : list (Event E) → Process G W → Prop :=
  | lives_start : lives V p0 [] p0
  | lives_step evs p ev p' :
      lives V p0 evs p → event_ok V ev p → proc_step ev p = Some (Ok p') → lives V p0 (evs ++ [ev]) p'.

(** What the state of the main task says of the others. *)
Definition main_inv (m : MainPhase) p : Prop :=
  match m with
  | Generating | Killed => True
  | JoiningUi => sys_loop (proc_sys p) = Ended ∧ proc_ui p ≠ NoUi
  | JoiningEngine => sys_loop (proc_sys p) = Ended ∧ (proc_ui p = NoUi ∨ proc_ui p = UiClosed true)
  | Reported total => stopped (proc_sys p) ∧ (proc_ui p = NoUi ∨ proc_ui p = UiClosed true) ∧
      proc_engine p = EngineOk ∧ total = zsum (ws_done <$> sys_workers (proc_sys p))
  | Failed e => proc_engine p = EngineErr e ∧ sys_loop (proc_sys p) = Ended ∧ (proc_ui p = NoUi ∨ proc_ui p = UiClosed true)
  | Aborted => proc_ui p = UiClosed false ∨ ∃ e, proc_engine p = EnginePanicked e
  end.

(** What holds at every point of a life. *)
Definition proc_inv p : Prop :=
  (no_ui cfg = true ↔ proc_ui p = NoUi) ∧
  (sys_loop (proc_sys p) = Ended → sys_running (proc_sys p) = false) ∧
  (no_ui cfg = false → proc_handler p = NotInstalled) ∧
  (proc_engine p = EngineOk → Forall (λ w, ws_phase w = Left) (sys_workers (proc_sys p))) ∧
  (∀ e, proc_engine p = EnginePanicked e → proc_main p = Aborted) ∧
  main_inv (proc_main p) p.

Lemma stopped_no_step (l : Label E) s : stopped s → l ≠ Stop → sys_step l s = None.
Proof using.
  intros [Hl Hw] Hne. destruct l as [at_ ev| | | |i|i now env]; cbn [sys_step]; rewrite ?Hl; try done.
  - destruct (sys_workers s !! i) as [w|] eqn:Hi; [|done]. rewrite decide_False; [done|].
    by rewrite (Forall_lookup_1 _ _ _ _ Hw Hi).
  - destruct (sys_workers s !! i) as [w|] eqn:Hi; [|done]. destruct (sys_limits s !! i); [|done].
    rewrite decide_False; [done|]. by rewrite (Forall_lookup_1 _ _ _ _ Hw Hi).
Qed.

(** The loop ends by clearing the flag, and stays ended. *)
Lemma sys_step_ended (l : Label E) s s' :
  sys_step l s = Some (Ok s') → (sys_loop s = Ended → sys_running s = false) →
  (sys_loop s' = Ended → sys_running s' = false) ∧ (sys_loop s = Ended → sys_loop s' = Ended).
Proof using.
  intros Hs Hr. destruct l as [at_ ev| | | |i|i now env]; cbn [sys_step] in Hs.
  - destruct (sys_loop s) eqn:Hl; [|done..]. injection Hs as Hs. unfold poll_step in Hs.
    destruct (Suspendable.current_at at_ (sys_g s)) as [g [v|]]; [|by injection Hs as <-].
    destruct (sys_running s); [|by injection Hs as <-]. by apply res_bind_Ok in Hs as (ls & _ & [= <-]).
  - destruct (sys_loop s) as [|v idx [|x rest]|]; [done|done| |done]. by injection Hs as <-.
  - destruct (sys_loop s) as [|v idx [|]|]; [done| |done|done]. by injection Hs as <-.
  - by injection Hs as <-.
  - destruct (sys_workers s !! i); [|done]. destruct (decide _); [|done]. by injection Hs as <-.
  - destruct (sys_workers s !! i); [|done]. destruct (sys_limits s !! i); [|done]. destruct (decide _); [|done].
    injection Hs as Hs. by apply res_bind_Ok in Hs as (r & _ & [= <-]).
Qed.

(** A step that leaves the workers where they are, or none of them can move. *)
Lemma all_left_kept (l : Label E) s s' :
  sys_step l s = Some (Ok s') → Forall (λ w, ws_phase w = Left) (sys_workers s) →
  Forall (λ w, ws_phase w = Left) (sys_workers s').
Proof using.
  intros Hs Hw. destruct l as [at_ ev| | | |i|i now env]; cbn [sys_step] in Hs.
  - destruct (sys_loop s); [|done..]. injection Hs as Hs. unfold poll_step in Hs.
    destruct (Suspendable.current_at at_ (sys_g s)) as [g [v|]]; [|by injection Hs as <-].
    destruct (sys_running s); [|by injection Hs as <-]. by apply res_bind_Ok in Hs as (ls & _ & [= <-]).
  - destruct (sys_loop s) as [|v idx [|x rest]|]; [done|done| |done]. by injection Hs as <-.
  - destruct (sys_loop s) as [|v idx [|]|]; [done| |done|done]. by injection Hs as <-.
  - by injection Hs as <-.
  - destruct (sys_workers s !! i) as [w|] eqn:Hi; [|done]. rewrite decide_False in Hs; [done|].
    by rewrite (Forall_lookup_1 _ _ _ _ Hw Hi).
  - destruct (sys_workers s !! i) as [w|] eqn:Hi; [|done]. destruct (sys_limits s !! i); [|done].
    rewrite decide_False in Hs; [done|]. by rewrite (Forall_lookup_1 _ _ _ _ Hw Hi).
Qed.

Lemma inner_step (l : Label E) p r :
  proc_step (Inner l) p = Some r →
  l ≠ Stop ∧ ∃ r', sys_step l (proc_sys p) = Some r' ∧ r = let! s := r' in Ok (set_sys s p).
Proof using.
  unfold proc_step. destruct (gone p); [done|]. intros Hs.
  cbn [proc_event] in Hs.
  destruct l; [..|done| |]; (split; [done|]); destruct (sys_step _ _) as [r'|]; try done; injection Hs as <-; by exists r'.
Qed.

Lemma inner_step_Ok (l : Label E) p p' :
  proc_step (Inner l) p = Some (Ok p') → l ≠ Stop ∧ ∃ s', sys_step l (proc_sys p) = Some (Ok s') ∧ p' = set_sys s' p.
Proof using.
  intros (Hne & r' & Hr & Hp)%inner_step. split; [done|]. symmetry in Hp. apply res_bind_Ok in Hp as (s' & -> & [= <-]).
  by exists s'.
Qed.

Lemma proc_step_alive ev p r : proc_step ev p = Some r → gone p = false.
Proof using. unfold proc_step. by destruct (gone p). Qed.

(** A step of the system, or a cleared flag, seen by the invariant. *)
Lemma main_inv_sys s' m p :
  gone (set_main m p) = false → main_inv m p → (sys_loop (proc_sys p) = Ended → sys_loop s' = Ended) →
  (stopped (proc_sys p) → s' = proc_sys p) → main_inv m (set_sys s' p).
Proof using.
  intros Hg Hm Hl Hst. destruct m; try done; cbn in *.
  - split; [apply Hl|]; apply Hm.
  - split; [apply Hl|]; apply Hm.
  - destruct Hm as (Hs & Hu & He & ->). rewrite (Hst Hs). by split_and!.
Qed.

Lemma join_step_inv p p' : proc_inv p → gone p = false → join_step p = Some p' → proc_inv p'.
Proof using.
  intros (Hui & Hend & Hh & He & Hpan & Hm) Hg Hs. unfold join_step in Hs.
  destruct (proc_main p) eqn:Hmain; [| | |done..]; cbn in Hm.
  - destruct (sys_loop (proc_sys p)) eqn:Hl; [done|done|]. injection Hs as <-.
    split_and!; [done|cbn; by rewrite Hl|done|done|by intros e' ?%Hpan|].
    cbn. destruct (proc_ui p) eqn:Hu; cbn; rewrite Hl, Hu; [by split; [|left]|by split|by split].
  - destruct Hm as [Hl _]. destruct (proc_ui p) as [| |[]] eqn:Hu; [done|done| |]; injection Hs as <-;
      unfold proc_inv; cbn; rewrite Hu; (split_and!; try done; try (by intros e' ?%Hpan)); [by right|by left].
  - destruct Hm as [Hl Hu]. destruct (proc_engine p) eqn:Heng; [done| | |done]; injection Hs as <-;
      (split_and!; cbn; rewrite ?Heng; try done).
    split_and!; [split; [done|by apply He]|done|done|done].
Qed.

Lemma engine_returns_inv rc p p' : proc_inv p → gone p = false → engine_returns rc p = Some p' → proc_inv p'.
Proof using.
  intros (Hui & Hend & Hh & He & Hpan & Hm) Hg Hs. unfold engine_returns in Hs.
  destruct (proc_engine p) eqn:Heng; [|done..]. destruct rc as [u|e|e].
  - destruct (all_left (proc_sys p)) eqn:Hleft; [|done]. injection Hs as <-. apply bool_decide_eq_true in Hleft.
    split_and!; try done. unfold gone in Hg. cbn in *. destruct (proc_main p); try done. destruct Hm as (_ & _ & ? & _); congruence.
  - injection Hs as <-. split_and!; try done. unfold gone in Hg. cbn in *. destruct (proc_main p); try done.
    destruct Hm as (_ & _ & ? & _); congruence.
  - injection Hs as <-. split_and!; try done. cbn. right. by eexists.
Qed.

Lemma proc_step_inv ev p p' : proc_inv p → proc_step ev p = Some (Ok p') → proc_inv p'.
Proof using.
  intros Hinv Hs. pose proof (proc_step_alive _ _ _ Hs) as Hg.
  pose proof Hinv as (Hui & Hend & Hh & He & Hpan & Hm).
  assert (tasks_run p = true → proc_inv (set_sys (stop (proc_sys p)) p)) as Hstop.
  { unfold tasks_run. intros Ht. destruct (proc_main p) eqn:Hmain; try done. split_and!; try done; cbn; by rewrite Hmain. }
  destruct ev as [l| | | | |ok|rc|].
  - apply inner_step_Ok in Hs as (Hne & s' & Hs' & ->).
    destruct (sys_step_ended _ _ _ Hs' Hend) as [Hend' Hkeep].
    split_and!; [done|done|done|intros ?%He; by eapply all_left_kept|done|].
    apply main_inv_sys; [done|done|done|]. intros Hst. by rewrite (stopped_no_step _ _ Hst Hne) in Hs'.
  - unfold proc_step in Hs. rewrite Hg in Hs. cbn [proc_event] in Hs. destruct (proc_handler p) eqn:Hhp; [|done..].
    destruct (no_ui cfg && tasks_run p) eqn:Ht; [|done]. injection Hs as <-. apply andb_true_iff in Ht as [Hno _].
    split_and!; try done. intros Hno'. by rewrite Hno in Hno'.
  - unfold proc_step in Hs. rewrite Hg in Hs. cbn [proc_event] in Hs. destruct (signal_arrives p) as [q|] eqn:Hq; [|done]. injection Hs as ->.
    unfold signal_arrives in Hq. unfold gone in Hg.
    assert (∀ e, proc_engine p = EnginePanicked e → False) as Hnp.
    { intros e Hep. apply Hpan in Hep. by rewrite Hep in Hg. }
    destruct (proc_main p) eqn:Hmain, (proc_handler p) eqn:Hhp; simplify_eq; try done;
      split_and!; cbn; rewrite ?Hmain; try done; try (by intros e ?%Hnp); by intros ?%Hh.
  - unfold proc_step in Hs. rewrite Hg in Hs. cbn [proc_event] in Hs. destruct (proc_handler p) eqn:Hhp; [done|done| |done].
    destruct (tasks_run p) eqn:Ht; [|done]. injection Hs as <-. destruct (Hstop eq_refl) as (?&?&?&?&?&?).
    split_and!; try done. by intros ?%Hh.
  - unfold proc_step in Hs. rewrite Hg in Hs. cbn [proc_event] in Hs. destruct (has_service cfg && tasks_run p) eqn:Ht; [|done]. injection Hs as <-.
    apply andb_true_iff in Ht as [_ Ht]. by apply Hstop.
  - unfold proc_step in Hs. rewrite Hg in Hs. cbn [proc_event] in Hs. destruct (proc_ui p) eqn:Hu; [done| |done]. injection Hs as <-.
    split_and!; try done; cbn.
    + split; [by intros ?%Hui|done].
    + unfold gone in Hg. destruct (proc_main p); cbn in *; rewrite ?Hu in *; try done.
      all: destruct Hm as [Hm1 Hm2]; split; [done|]. all: first [done|by destruct Hm2|by destruct Hm2 as [[] _]].
  - unfold proc_step in Hs. rewrite Hg in Hs. cbn [proc_event] in Hs. destruct (engine_returns rc p) eqn:Hr; [|done]. injection Hs as <-.
    by eapply engine_returns_inv.
  - unfold proc_step in Hs. rewrite Hg in Hs. cbn [proc_event] in Hs. destruct (join_step p) eqn:Hj; [|done]. injection Hs as <-.
    by eapply join_step_inv.
Qed.

Lemma lives_inv V g now ws evs p : lives V (proc_start g now ws) evs p → proc_inv p.
Proof using.
  induction 1 as [|evs p ev p' _ IH _ Hs]; [|by eapply proc_step_inv].
  split_and!; try done. cbn. by destruct (no_ui cfg).
Qed.

(** What each kind of event can change. *)
Lemma step_changes ev p p' :
  proc_step ev p = Some (Ok p') →
  (proc_sys p' = proc_sys p ∨ proc_sys p' = stop (proc_sys p) ∨ ∃ l, ev = Inner l ∧ l ≠ Stop ∧ sys_step l (proc_sys p) = Some (Ok (proc_sys p'))) ∧
  (proc_ui p' = proc_ui p ∨ ∃ ok, ev = UiExit ok ∧ proc_ui p' = UiClosed ok) ∧
  (proc_main p' = proc_main p ∨ ev = Join ∧ join_step p = Some p' ∨ ev = Signal ∧ proc_main p' = Killed ∨
   ∃ e, ev = EngineReturns (Panic e) ∧ proc_main p' = Aborted).
Proof using.
  intros Hs. pose proof (proc_step_alive _ _ _ Hs) as Hg. destruct ev as [l| | | | |ok|rc|].
  { apply inner_step_Ok in Hs as (Hne & s' & Hs' & ->). split_and!; [right; right; by exists l|by left|by left]. }
  all: unfold proc_step in Hs; rewrite Hg in Hs; cbn [proc_event] in Hs.
  - destruct (proc_handler p); [|done..]. destruct (_ && _); [|done]. injection Hs as <-. by split_and!; left.
  - destruct (signal_arrives p) as [q|] eqn:Hq; [|done]. injection Hs as ->. unfold signal_arrives in Hq.
    destruct (proc_main p) eqn:Hm, (proc_handler p); simplify_eq; (split_and!; [by left|by left|]); cbn; rewrite ?Hm; auto 7.
  - destruct (proc_handler p); [done|done| |done]. destruct (tasks_run p); [|done]. injection Hs as <-.
    split_and!; [right; by left|by left|by left].
  - destruct (_ && _); [|done]. injection Hs as <-. split_and!; [right; by left|by left|by left].
  - destruct (proc_ui p); [done| |done]. injection Hs as <-. split_and!; [right; by left|right; by exists ok|by left].
  - destruct (engine_returns rc p) as [q|] eqn:Hr; [|done]. injection Hs as ->. unfold engine_returns in Hr.
    destruct (proc_engine p); [|done..]. destruct rc as [u|e|e]; [destruct (all_left _); [|done]| |]; injection Hr as <-;
      (split_and!; [by left|by left|]); [by left|by left|by eauto 6].
  - destruct (join_step p) as [q|] eqn:Hj; [|done]. injection Hs as ->. split_and!; [left|left|right; by left].
    all: unfold join_step in Hj; repeat (case_match; simplify_eq/=; try done).
Qed.
End process.

(** ** What a life shows *)

Section life.
Context {G : Type} `{Generator G} {W E Addr : Type} `{RateWorker W E}.
Context (cfg : RunConfig Addr) (V : Z) (g : G) (now : Instant) (ws : list W).
Implicit Types p : Process G W.

Lemma ui_closed_by_user (evs : list (Event E)) p ok :
  lives cfg V (proc_start cfg g now ws) evs p → proc_ui p = UiClosed ok → UiExit ok ∈ evs.
Proof using.
  intros Hl. revert ok. induction Hl as [|evs p ev p' _ IH _ Hs]; intros ok Hu.
  { cbn in Hu. by destruct (no_ui cfg). }
  apply elem_of_app. destruct (step_changes _ _ _ _ Hs) as (_ & [Hsame|(ok' & -> & Hu')] & _).
  - left. apply IH. congruence.
  - right. rewrite Hu' in Hu. injection Hu as ->. by left.
Qed.

(** Nobody killed or aborted the process who is not among the events. *)
Lemma ended_by_event (evs : list (Event E)) p :
  lives cfg V (proc_start cfg g now ws) evs p → Signal ∉ evs → (∀ e, EngineReturns (Panic e) ∉ evs) →
  (∀ ok, UiExit ok ∉ evs) → proc_main p ≠ Killed ∧ proc_main p ≠ Aborted.
Proof using.
  intros Hl. induction Hl as [|evs p ev p' Hl IH _ Hs]; intros Hsig Hpan Hex; [done|].
  setoid_rewrite elem_of_app in Hsig. setoid_rewrite elem_of_app in Hpan. setoid_rewrite elem_of_app in Hex.
  setoid_rewrite list_elem_of_singleton in Hsig. setoid_rewrite list_elem_of_singleton in Hpan.
  destruct IH as [Hk Ha]; [tauto|intros e He; eapply Hpan; by left|intros ok He; eapply Hex; by left|].
  destruct (step_changes _ _ _ _ Hs) as (_ & _ & [->|[[-> Hj]|[[-> _]|(e & -> & _)]]]); [done| |tauto|by destruct (Hpan e); right].
  unfold join_step in Hj. repeat (case_match; simplify_eq/=; try done).
  edestruct Hex. left. by eapply ui_closed_by_user.
Qed.

(** A life projects to an execution of the system. *)
Lemma lives_reachable (evs : list (Event E)) p :
  lives cfg V (proc_start cfg g now ws) evs p → reachable (E := E) V (sys_start g now ws) (proc_sys p).
Proof using.
  induction 1 as [|evs p ev p' _ IH Hok Hs]; [apply reach_start|].
  destruct (step_changes _ _ _ _ Hs) as ([->|[->|(l & -> & _ & Hs')]] & _); [done| |].
  - by eapply reach_step with (l := Stop).
  - exact (reach_step _ _ _ _ _ IH Hok Hs').
Qed.
End life.

(** C15: the report of a run is taken when everything has stopped: the engine
    returned in order, the flag is cleared, the loop and every worker are out,
    the interface (if any) is closed and the terminal restored, the executions of
    the report are all there will ever be, and no further event can happen. *)
Theorem report_is_final {G} `{Generator G} {W E Addr} `{RateWorker W E} (cfg : RunConfig Addr) V (g : G) now
    (ws : list W) (evs : list (Event E)) p total :
  lives cfg V (proc_start cfg g now ws) evs p → proc_main p = Reported total →
  total = zsum (ws_done <$> sys_workers (proc_sys p)) ∧ stopped (proc_sys p) ∧ proc_engine p = EngineOk ∧
  sys_running (proc_sys p) = false ∧ (no_ui cfg = false → UiExit true ∈ evs) ∧
  ∀ ev : Event E, proc_step cfg ev p = None.
Proof.
  intros Hl Hm. pose proof (lives_inv cfg V g now ws evs p Hl) as (Hui & Hend & _ & _ & _ & Hinv). rewrite Hm in Hinv.
  destruct Hinv as (Hst & Hu & Heng & Htot). split_and!; [done|done|done|by apply Hend, Hst| |].
  - intros Hno. destruct Hu as [Hu|Hu]; [apply Hui in Hu; congruence|]. by eapply ui_closed_by_user.
  - intros ev. unfold proc_step, gone. rewrite Hm.
    destruct ev as [l| | | | |ok|rc|]; cbn [proc_event];
      unfold tasks_run, join_step, signal_arrives, engine_returns; rewrite ?Hm, ?Heng, ?andb_false_r; try done.
    + destruct l; try done; by rewrite stopped_no_step.
    + by destruct (proc_handler p).
    + by destruct (proc_handler p).
    + by destruct Hu as [-> | ->].
Qed.

(** C32: with the terminal interface the run goes on until the user leaves: as
    long as the interface is open, no signal arrived and the engine did not
    panic, the main task is generating or waiting for the interface, whatever
    else has happened — the end of the profile, an error of the engine or a Stop
    over the API included.  Once the loop has ended no Stop is served any more,
    and only the interface leads the main task on.  A signal, for which no
    handler is installed, kills the process at any time, without the joins and
    without a report. *)
Theorem interface_outlives_run {G} `{Generator G} {W E Addr} `{RateWorker W E} (cfg : RunConfig Addr) V (g : G) now
    (ws : list W) (evs : list (Event E)) p :
  no_ui cfg = false → (∀ ok, UiExit ok ∉ evs) → Signal ∉ evs → (∀ e, EngineReturns (Panic e) ∉ evs) →
  lives cfg V (proc_start cfg g now ws) evs p →
  (proc_main p = Generating ∨ proc_main p = JoiningUi) ∧
  (sys_loop (proc_sys p) = Ended → proc_step (E := E) cfg StopRpc p = None) ∧
  (proc_main p = JoiningUi →
     proc_step (E := E) cfg Join p = None ∧
     ∃ p', proc_step (E := E) cfg (UiExit true) p = Some (Ok p') ∧
       proc_step (E := E) cfg Join p' = Some (Ok (set_main JoiningEngine p'))) ∧
  ∃ p', proc_step (E := E) cfg Signal p = Some (Ok p') ∧ proc_main p' = Killed ∧
    ∀ ev : Event E, proc_step cfg ev p' = None.
Proof.
  intros Hno Hexit Hsig Hpan Hl. pose proof (lives_inv cfg V g now ws evs p Hl) as (Hui & Hend & Hh & _ & _ & Hinv).
  destruct (ended_by_event _ _ _ _ _ _ _ Hl Hsig Hpan Hexit) as [Hnk Hna].
  assert (proc_ui p = UiOpen) as Hopen.
  { destruct (proc_ui p) as [| |ok] eqn:Hu; [|done|].
    - rewrite (proj2 Hui eq_refl) in Hno. done.
    - destruct (Hexit ok). exact (ui_closed_by_user cfg V g now ws evs p ok Hl Hu). }
  assert (proc_main p = Generating ∨ proc_main p = JoiningUi) as Hm.
  { unfold main_inv in Hinv. rewrite Hopen in Hinv. destruct (proc_main p); try done; [by left|by right| | |];
      exfalso; intuition discriminate. }
  assert (gone p = false) as Hg by (unfold gone; by destruct Hm as [-> | ->]).
  unfold proc_step at 1 2 3 5. rewrite Hg. cbn [proc_event]. split_and!; [done| | |].
  - intros He. unfold tasks_run. rewrite He. destruct Hm as [-> | ->]; by rewrite andb_false_r.
  - intros Hj. unfold join_step at 1. rewrite Hj, Hopen. split; [done|]. eexists. split; [done|].
    unfold proc_step, gone, proc_event, join_step. cbn. by rewrite Hj.
  - unfold signal_arrives. rewrite (Hh Hno). exists (set_main Killed p).
    split_and!; [by destruct Hm as [-> | ->]|done|done].
Qed.

(** ** The end of a run *)

Definition main_cost (m : MainPhase) : Z :=
  match m with Generating => 3 | JoiningUi => 2 | JoiningEngine => 1 | _ => 0 end.
Definition engine_cost (e : EnginePhase) : Z := match e with EngineRuns => 1 | _ => 0 end.
Definition handler_cost (h : HandlerPhase) : Z := match h with NotInstalled | Signalled => 1 | _ => 0 end.
Definition side_cost {G W} (p : Process G W) : Z :=
  main_cost (proc_main p) + engine_cost (proc_engine p) + handler_cost (proc_handler p).

(** The verdict on a process that ended by itself: that of its engine. *)
Definition ends_as_engine {G W} (p : Process G W) : Prop :=
  match proc_engine p with
  | EngineRuns => False
  | EngineOk => stopped (proc_sys p) ∧ proc_main p = Reported (zsum (ws_done <$> sys_workers (proc_sys p)))
  | EngineErr e => proc_main p = Failed e
  | EnginePanicked _ => proc_main p = Aborted
  end.

Section ending.
Context {G : Type} `{Generator G} {W E Addr : Type} `{RateWorkerLaws W E}.
Context (cfg : RunConfig Addr) (V : Z).
Implicit Types p : Process G W.

(** An event of the process itself: not a signal from outside, a request or a
    key. *)
Definition is_own (ev : Event E) : Prop :=
  match ev with Inner _ | Install | HandleSignal | EngineReturns _ | Join => True | _ => False end.

Definition own_event p p' : Prop :=
  ∃ ev : Event E, is_own ev ∧ event_ok V ev p ∧ proc_step cfg ev p = Some (Ok p').

Lemma join_step_cost p p' :
  join_step p = Some p' → ∃ m, p' = set_main m p ∧ main_cost m ≤ main_cost (proc_main p) - 1 ∧ m ≠ Killed.
Proof using.
  unfold join_step. intros Hj. repeat (case_match; simplify_eq/=; try done); eexists; (split_and!; [done| |done]); cbn; lia.
Qed.

(** An own event is a step of the system, or one of the few of the others. *)
Lemma own_event_cases p p' :
  sys_running (proc_sys p) = false → own_event p p' →
  sys_running (proc_sys p') = false ∧ pending (proc_sys p') + side_cost p' ≤ pending (proc_sys p) + side_cost p - 1 ∧
  (proc_ui p' = proc_ui p) ∧ (proc_main p' = Killed → proc_main p = Killed).
Proof using.
  intros Hrun (ev & Hev & Hok & Hs). pose proof (proc_step_alive _ _ _ _ Hs) as Hg. destruct ev as [l| | | | |ok|rc|]; try done.
  { apply inner_step_Ok in Hs as (Hne & s' & Hs' & ->).
    destruct (own_step_pending (E := E) V (proc_sys p) s' Hrun) as [Hr Hp]; [by exists l|].
    split_and!; [done| |done|done]. unfold side_cost. cbn. lia. }
  all: unfold proc_step in Hs; rewrite Hg in Hs; cbn [proc_event] in Hs.
  - destruct (proc_handler p) eqn:Hh; [|done..]. destruct (_ && _); [|done]. injection Hs as <-.
    split_and!; try done. unfold side_cost. cbn. rewrite Hh. cbn. lia.
  - destruct (proc_handler p) eqn:Hh; [done|done| |done]. destruct (tasks_run p); [|done]. injection Hs as <-.
    split_and!; try done. unfold side_cost, pending. cbn. rewrite Hh. cbn. lia.
  - destruct (engine_returns rc p) as [q|] eqn:Hr; [|done]. injection Hs as ->. unfold engine_returns in Hr.
    destruct (proc_engine p) eqn:He; [|done..].
    destruct rc as [u|e|e]; [destruct (all_left _); [|done]| |]; injection Hr as <-; (split_and!; try done);
      unfold side_cost; cbn; rewrite He; cbn; destruct (proc_main p); cbn; lia.
  - destruct (join_step p) as [q|] eqn:Hj; [|done]. injection Hs as ->. destruct (join_step_cost _ _ Hj) as (m & -> & Hc & Hk).
    split_and!; [done| |done|done]. unfold side_cost. cbn [proc_sys set_main proc_main proc_engine proc_handler]. lia.
Qed.

Lemma own_events_bound k p p' :
  sys_running (proc_sys p) = false → nsteps own_event k p p' →
  Z.of_nat k ≤ pending (proc_sys p) + side_cost p ∧ sys_running (proc_sys p') = false ∧
  proc_ui p' = proc_ui p ∧ (proc_main p' = Killed → proc_main p = Killed).
Proof using.
  intros Hrun Hk. induction Hk as [p|k p p1 p' Hstep _ IH].
  - split_and!; [|done|done|done]. destruct (pending_nonneg (proc_sys p)). unfold pending, side_cost.
    destruct (proc_main p), (proc_engine p), (proc_handler p); cbn; lia.
  - destruct (own_event_cases _ _ Hrun Hstep) as (Hrun1 & Hc & Hu & Hk). destruct (IH Hrun1) as (Hb & Hr & Hu' & Hk').
    split_and!; [lia|done|congruence|tauto].
Qed.

Lemma own_events_lives k p0 evs p p' :
  lives cfg V p0 evs p → nsteps own_event k p p' → ∃ evs', lives cfg V p0 evs' p'.
Proof using.
  intros Hl Hk. revert evs Hl. induction Hk as [p|k p p1 p' (ev & _ & Hok & Hs) _ IH]; intros evs Hl; [by exists evs|].
  eapply IH. by eapply lives_step.
Qed.

(** An end that is not from outside is that of the engine. *)
Lemma gone_as_engine p :
  proc_inv cfg p → proc_ui p = NoUi ∨ proc_ui p = UiClosed true → proc_main p ≠ Killed → gone p = true →
  ends_as_engine p ∧ proc_engine p ≠ EngineRuns ∧ proc_engine p ≠ EngineOk.
Proof using.
  intros (_ & _ & _ & _ & _ & Hm) Hu Hnk Hg. unfold ends_as_engine. unfold gone in Hg.
  destruct (proc_main p) eqn:Hmain; try done; cbn in Hm.
  - destruct Hm as (-> & _). by split_and!.
  - destruct Hm as [Hc|[e ->]]; [rewrite Hc in Hu; by destruct Hu|by split_and!].
Qed.

Lemma own_step_event p s' : gone p = false → own_step (E := E) V (proc_sys p) s' → own_event p (set_sys s' p).
Proof using.
  intros Hg (l & Hne & Hok & Hs). exists (Inner l). split; [done|]. split; [done|].
  unfold proc_step. rewrite Hg. cbn [proc_event]. by destruct l; rewrite ?Hs.
Qed.

Lemma own_steps_events k p s' :
  gone p = false → nsteps (own_step (E := E) V) k (proc_sys p) s' → nsteps own_event k p (set_sys s' p).
Proof using.
  revert p. induction k as [|k IH]; intros p Hg Hk; inversion Hk as [|? ? s1 ? Hs1 Hk1]; subst.
  - destruct p. apply nsteps_O.
  - eapply nsteps_l; [by apply own_step_event|]. by apply (IH (set_sys s1 p)).
Qed.

(** The next move of the main task and of the engine once everyone is out. *)
Lemma next_event p :
  proc_inv cfg p → stopped (proc_sys p) → proc_ui p = NoUi ∨ proc_ui p = UiClosed true → gone p = false →
  (∃ total, proc_main p = Reported total) ∨
  ∃ p', own_event p p' ∧ proc_sys p' = proc_sys p ∧ proc_ui p' = proc_ui p ∧
    (proc_engine p = EngineRuns → proc_engine p' = EngineOk) ∧
    (proc_engine p = EngineOk → proc_engine p' = EngineOk ∧ gone p' = false) ∧
    (proc_engine p = EngineRuns → gone p' = false).
Proof using.
  intros (_ & _ & _ & _ & Hpan & Hm) [Hl Hw] Hu Hg.
  destruct (proc_engine p) eqn:He.
  { right. exists (set_engine EngineOk p). split; [|by split_and!]. exists (EngineReturns (Ok tt)). split; [done|]. split; [done|].
    unfold proc_step. rewrite Hg. cbn [proc_event]. unfold engine_returns, all_left. by rewrite He, bool_decide_eq_true_2. }
  1,2: assert (is_Some (join_step p) ∨ ∃ total, proc_main p = Reported total) as [[p' Hj]|Hrep]; [| |by left].
  1,3: unfold join_step; rewrite Hl, He; unfold gone in Hg; destruct (proc_main p); cbn in Hm; try done; eauto;
       left; destruct Hu as [Hu|Hu]; rewrite Hu in *; eauto; by destruct Hm.
  1,2: right; exists p'; split; [exists Join; split; [done|]; split; [done|]; unfold proc_step; rewrite Hg; cbn [proc_event]; by rewrite Hj|].
  1,2: unfold join_step in Hj; rewrite Hl, He in Hj; unfold gone; unfold gone in Hg;
       destruct (proc_main p) eqn:Hmain; try done; destruct Hu as [Hu|Hu]; rewrite ?Hu in Hj; simplify_eq/=; by split_and!.
  unfold gone in Hg. by rewrite (Hpan _ eq_refl) in Hg.
Qed.

(** With the engine not in error, the process gets to its report. *)
Lemma joins p :
  proc_inv cfg p → stopped (proc_sys p) → sys_running (proc_sys p) = false →
  proc_ui p = NoUi ∨ proc_ui p = UiClosed true → gone p = false →
  proc_engine p = EngineRuns ∨ proc_engine p = EngineOk →
  ∃ k p', nsteps own_event k p p' ∧ ∃ total, proc_main p' = Reported total.
Proof using.
  intros Hi Hst Hrun Hu Hg He. assert (∃ c : nat, side_cost p ≤ Z.of_nat c) as [c Hc] by (exists (Z.to_nat (side_cost p)); lia).
  revert p Hi Hst Hrun Hu Hg He Hc. induction c as [|c IH]; intros p Hi Hst Hrun Hu Hg He Hc.
  all: destruct (next_event p Hi Hst Hu Hg) as [Hrep|(p' & Hown & Hsys & Hui & He1 & He2 & Hg1)];
    [exists 0%nat, p; split; [apply nsteps_O|done]|].
  all: destruct (own_event_cases _ _ Hrun Hown) as (Hrun' & Hcost & _); rewrite Hsys in Hcost.
  - unfold side_cost in *. destruct (proc_main p'), (proc_engine p'), (proc_handler p'); cbn in *; lia.
  - destruct (IH p') as (k & q & Hk & Hq); [| | | | | |lia|].
    + destruct Hown as (ev & _ & _ & Hs). by eapply proc_step_inv.
    + by rewrite Hsys.
    + done.
    + by rewrite Hui.
    + destruct He as [He|He]; [by apply Hg1|by apply He2].
    + right. destruct He as [He|He]; [by apply He1|by apply He2].
    + exists (S k), q. split; [by eapply nsteps_l|done].
Qed.
End ending.

(** C14: once the flag is cleared and the interface, if there is one, was closed
    in order, the process comes to its end: however it is scheduled it takes at
    most the pending steps of the system and five of its main task, engine and
    signal handler, and when none is left it has ended the way its engine did —
    with the report of everything executed if [run] of the engine returned in
    order, with the error, and then without a report, if it returned one, by an
    abort if it panicked.  No step of the loop or of a worker panics, and as
    long as the engine has not failed some schedule leads to the report. *)
Theorem process_ends {G} `{Generator G} {W E Addr} `{RateWorkerLaws W E} (I : W → Prop) `{!RateWorkerSafe W E I}
    (cfg : RunConfig Addr) V (g : G) t0 now xs (evs : list (Event E)) p :
  0 ≤ V < 2 ^ 53 → xs ≠ [] → Forall (λ x, started_after t0 x ∧ I x) xs →
  lives cfg V (proc_start cfg g now xs) evs p → sys_running (proc_sys p) = false →
  (proc_ui p = NoUi ∨ proc_ui p = UiClosed true) → proc_main p ≠ Killed →
  (∀ k p', nsteps (own_event (E := E) cfg V) k p p' →
     Z.of_nat k ≤ pending (proc_sys p) + 5 ∧
     ((∀ p'', ¬ own_event (E := E) cfg V p' p'') → ends_as_engine p')) ∧
  (∀ l r, label_ok (E := E) V l (proc_sys p) → proc_step cfg (Inner l) p = Some r → ∃ p', r = Ok p') ∧
  (proc_engine p = EngineRuns ∨ proc_engine p = EngineOk →
   ∃ k p', nsteps (own_event (E := E) cfg V) k p p' ∧ ∃ total, proc_main p' = Reported total).
Proof.
  intros HV Hxs Hall Hl Hrun Hui Hnk.
  assert (∀ evs p, lives cfg V (proc_start cfg g now xs) evs p →
    (0 < length xs)%nat ∧ safe_inv V (length xs) t0 I (proc_sys p)) as Hsafe.
  { intros evs' q Hq. by eapply (safe_system (E := E) I V g t0 now xs), lives_reachable. }
  destruct (Hsafe _ _ Hl) as [Hn Hs]. pose proof (lives_inv _ _ _ _ _ _ _ Hl) as Hinv. split_and!.
  - intros k p' Hk. destruct (own_events_bound cfg V k p p' Hrun Hk) as (Hb & Hrun' & Hui' & Hk'). split.
    { unfold side_cost in Hb. destruct (proc_main p), (proc_engine p), (proc_handler p); cbn in Hb; lia. }
    intros Hno. destruct (own_events_lives cfg V k _ _ _ _ Hl Hk) as [evs' Hl'].
    pose proof (lives_inv _ _ _ _ _ _ _ Hl') as Hinv'. rewrite <-Hui' in Hui.
    destruct (gone p') eqn:Hg; [by apply (gone_as_engine cfg p'); [| |intros ?%Hk'|]|].
    assert (stopped (proc_sys p')) as Hst.
    { destruct (pending_nonneg (proc_sys p')). destruct (decide (pending (proc_sys p') = 0)) as [|Hne]; [by apply pending_zero|].
      destruct (own_step_exists V HV (length xs) t0 I (proc_sys p') Hn (proj2 (Hsafe _ _ Hl')) Hrun') as (s' & Hs' & _);
        [unfold pending in *; lia|]. destruct (Hno (set_sys s' p')). by apply own_step_event. }
    destruct (next_event cfg V p' Hinv' Hst Hui Hg) as [[total Hrep]|(q & Hq & _)]; [|by destruct (Hno q)].
    destruct Hinv' as (_ & _ & _ & _ & _ & Hm). rewrite Hrep in Hm. destruct Hm as (_ & _ & He & ->).
    unfold ends_as_engine. by rewrite He.
  - intros l r Hok Hstep. apply inner_step in Hstep as (Hne & r' & Hr' & ->).
    destruct (sys_step_safe V HV (length xs) t0 I _ l r' Hn Hs Hok Hr') as (s' & -> & _). by eexists.
  - intros He. destruct (gone p) eqn:Hg.
    { destruct (gone_as_engine cfg p Hinv Hui Hnk Hg) as (_ & ? & ?). tauto. }
    destruct (pending_nonneg (proc_sys p)).
    destruct (own_steps_stop V HV (length xs) t0 I (Z.to_nat (pending (proc_sys p))) (proc_sys p) Hn Hs Hrun)
      as (s' & Hk & Hst); [unfold pending; lia|].
    pose proof (own_steps_events (E := E) cfg V _ p s' Hg Hk) as Hk'.
    destruct (own_events_lives cfg V _ _ _ _ _ Hl Hk') as [evs' Hl'].
    destruct (joins (E := E) cfg V (set_sys s' p)) as (k & p' & Hk2 & Hrep); try done; [by eapply lives_inv| |].
    + by apply (own_steps_pending (E := E) V _ _ _ Hrun Hk).
    + eexists _, p'. split; [by eapply nsteps_trans|done].
Qed.

(** ** Examples *)

Section execution.
Context {G : Type} `{Generator G} {W E Addr : Type} `{RateWorker W E}.
Context (cfg : RunConfig Addr).

(** A life given by its events. *)
Fixpoint proc_run (evs : list (Event E)) (p : Process G W) : option (Process G W) :=
  match evs with
  | [] => Some p
  | ev :: evs => match proc_step cfg ev p with Some (Ok p) => proc_run evs p | _ => None end
  end.

Fixpoint events_ok (V : Z) (evs : list (Event E)) (p : Process G W) : Prop :=
  match evs with
  | [] => True
  | ev :: evs => event_ok V ev p ∧ match proc_step cfg ev p with Some (Ok p) => events_ok V evs p | _ => False end
  end.

Lemma proc_run_lives V evs evs0 p0 p p' :
  lives cfg V p0 evs0 p → events_ok V evs p → proc_run evs p = Some p' → lives cfg V p0 (evs0 ++ evs) p'.
Proof.
  revert evs0 p. induction evs as [|ev evs IH]; intros evs0 p Hl Hok Hr; cbn in *; [injection Hr as <-; by rewrite app_nil_r|].
  destruct Hok as [Hev Hok]. destruct (proc_step cfg ev p) as [[p1| |]|] eqn:Hs; [|done..].
  replace (evs0 ++ ev :: evs) with ((evs0 ++ [ev]) ++ evs) by by rewrite <-app_assoc.
  apply (IH _ p1); [by eapply lives_step|done|done].
Qed.
End execution.

Definition headless : RunConfig nat := {| no_ui := true; grpc_addr := None; api_addr := None |}.
Definition with_ui : RunConfig nat := {| no_ui := false; grpc_addr := Some 1%nat; api_addr := None |}.
Definition example_workers : list (ShapedCoroWorker Z) := [{| task := 0; shaper := Shaper.new 0 0 |}].
Definition example_process (cfg : RunConfig nat) : Process Gen (ShapedCoroWorker Z) :=
  proc_start (H := boxed_generator (λ x, x)) cfg example_generator 0 example_workers.
Definition load_events : list (Event unit) :=
  [Inner (Poll 0 None); Inner Store; Inner Publish; Inner (Look 0); Inner (Round 0 50000000 (λ _, tt))].

Lemma start_parts_witness :
  let env : StartEnv unit := {| env_build := Ok tt; env_serve_tcp := Ok tt; env_connect := Ok tt;
    env_describe := Ok [1; 2]; env_recorder := Ok tt; env_engine_thread := Ok tt; env_ui_thread := Ok tt;
    env_create := Err "failed to find parameters for sin function" |} in
  (start with_ui env).2 = Err "failed to find parameters for sin function" ∧
  (start with_ui env).1 = [GrpcEndpoint; SeamServer; StatsConsumer; ControlForwarder; RecorderThread; EngineThread; UiThread].
Proof.
  intros env. pose proof (start_parts with_ui env) as (_ & _ & _ & _ & _ & Hc).
  split; [reflexivity|]. destruct (Hc eq_refl) as [Hp _]; [done|]. reflexivity.
Defined.

(** An engine that failed takes the report with it, whatever its workers did. *)
Example engine_error_skips_report :
  proc_main <$> proc_run (H := boxed_generator (λ x, x)) headless
    (load_events ++ [EngineReturns (Err "no certificates"); Install; Signal; HandleSignal; Inner (Poll 60000000 None); Join; Join])
    (example_process headless) = Some (Failed "no certificates").
Proof. reflexivity. Qed.

(** A signal before the handler task was polled, and one with the interface. *)
Example early_signal_kills :
  proc_main <$> proc_run (E := unit) (H := boxed_generator (λ x, x)) headless [Signal] (example_process headless) = Some Killed.
Proof. reflexivity. Qed.
Example signal_with_interface_kills :
  proc_main <$> proc_run (H := boxed_generator (λ x, x)) with_ui (load_events ++ [Signal]) (example_process with_ui) = Some Killed.
Proof. reflexivity. Qed.

Lemma report_is_final_witness :
  ∃ p, proc_run (H := boxed_generator (λ x, x)) headless
      (Install :: load_events ++ [Signal; HandleSignal; Inner (Poll 60000000 None); Join; Inner (Look 0); EngineReturns (Ok tt); Join]) (example_process headless) = Some p ∧
    proc_main p = Reported 5 ∧ ∀ ev : Event unit, proc_step (H := boxed_generator (λ x, x)) headless ev p = None.
Proof.
  eexists. split; [vm_compute; reflexivity|]. split; [reflexivity|].
  eapply (report_is_final (H := boxed_generator (λ x, x)) headless 100 example_generator 0 example_workers); [|reflexivity].
  eapply (proc_run_lives (H := boxed_generator (λ x, x)) headless 100
    (Install :: load_events ++ [Signal; HandleSignal; Inner (Poll 60000000 None); Join; Inner (Look 0); EngineReturns (Ok tt); Join]) []); [apply lives_start| |vm_compute; reflexivity].
  vm_compute. repeat split; discriminate.
Defined.

Lemma interface_outlives_run_witness :
  ∃ p, proc_run (H := boxed_generator (λ x, x)) with_ui
      (load_events ++ [StopRpc; Inner (Poll 60000000 None); Join; Inner (Look 0)]) (example_process with_ui) = Some p ∧
    stopped (proc_sys p) ∧ (proc_main p = Generating ∨ proc_main p = JoiningUi).
Proof.
  eexists. split; [vm_compute; reflexivity|]. split; [split; [reflexivity|by apply Forall_singleton]|].
  refine (proj1 _). eapply (interface_outlives_run (H := boxed_generator (λ x, x)) with_ui 100 example_generator 0 example_workers); [done| | | |].
  4: { eapply (proc_run_lives (H := boxed_generator (λ x, x)) with_ui 100
         (load_events ++ [StopRpc; Inner (Poll 60000000 None); Join; Inner (Look 0)]) []); [apply lives_start| |vm_compute; reflexivity].
       vm_compute. repeat split; discriminate. }
  1: intros ok Hin. 2: intros Hin. 3: intros e Hin.
  all: apply list_elem_of_In in Hin; cbn in Hin; repeat destruct Hin as [Hin|Hin]; done.
Defined.

Lemma process_ends_witness :
  ∃ p, proc_run (H := boxed_generator (λ x, x)) with_ui (load_events ++ [Inner (Look 0); UiExit true]) (example_process with_ui) = Some p ∧
    pending (proc_sys p) = 3 ∧
    ∃ k p', nsteps (own_event (H := boxed_generator (λ x, x)) (E := unit) with_ui 100) k p p' ∧ ∃ total, proc_main p' = Reported total.
Proof.
  eexists. split; [vm_compute; reflexivity|]. split; [reflexivity|].
  match goal with |- ∃ k p', nsteps _ _ ?p p' ∧ _ =>
    destruct (process_ends (H := boxed_generator (λ x, x)) (E := unit) (λ w, 0 ≤ task w)
      (RateWorkerSafe0 := coro_rate_worker_safe (λ w, 0 ≤ w) tt ltac:(intros e w Hw; eexists; split; [reflexivity|lia]))
      with_ui 100 example_generator 0 0 example_workers (load_events ++ [Inner (Look 0); UiExit true]) p)
      as (_ & _ & Hend); [done|done| | |done|by right|done|exact (Hend (or_introl eq_refl))]
  end.
  - repeat (apply Forall_cons; split; [by split; [apply started_now|]|]). by apply Forall_nil.
  - eapply (proc_run_lives (H := boxed_generator (λ x, x)) with_ui 100 (load_events ++ [Inner (Look 0); UiExit true]) []);
      [apply lives_start| |vm_compute; reflexivity].
    vm_compute. repeat split; discriminate.
Defined.
