(* ===== verification/Netlink.v ===== *)
(** * The neighbours of a port ([mod nl] of [dwd-core/src/worker/dpdk.rs])

    [get_neighbors] asks the kernel for its neighbour table and walks through
    the datagrams of the answer, each of which holds several messages behind
    one another.  The kernel and the parser of messages are an environment: a
    datagram has a size and a message, or none, at every offset. *)
From S2P Require Import Prelude Machine.

Inductive NeighbourState := Reachable | OtherState.
Inductive AddressFamily := Inet | Inet6 | OtherFamily.
Inductive NeighbourAttribute := LinkLocalAddress (addr : list Z) | OtherAttribute.
#[export] Instance state_eq_dec : EqDecision NeighbourState.
Proof. solve_decision. Defined.
#[export] Instance family_eq_dec : EqDecision AddressFamily.
Proof. solve_decision. Defined.

Record NeighbourMessage := {
  family : AddressFamily;
  state : NeighbourState;
  ifindex : Z;
  attributes : list NeighbourAttribute;
}.

Inductive NetlinkPayload :=
  | Done
  | NewNeighbour (entry : NeighbourMessage)
  | NetlinkError (err : string)
  | OtherPayload.

Record NetlinkMessage := { msg_length : Z; payload : NetlinkPayload }.

(** What a [recv] leaves in the buffer: the size of the datagram, and how the
    bytes from an offset on deserialize. *)
Record Datagram := { size_ : Z; deserialize : Z → option NetlinkMessage }.

Definition RECEIVE_BUFFER : Z := 4096.

(** The addresses of an entry: those of six bytes, if it is a reachable
    neighbour of the interface. *)
Definition hardware_address (nla : NeighbourAttribute) : option (list Z) :=
  match nla with
  | LinkLocalAddress addr => if (length addr =? 6)%nat then Some addr else None
  | OtherAttribute => None
  end.

Definition entry_addresses (if_index : Z) (entry : NeighbourMessage) : list (list Z) :=
  if (bool_decide (family entry = Inet) || bool_decide (family entry = Inet6)) &&
     bool_decide (state entry = Reachable) && (ifindex entry =? if_index)
  then omap hardware_address (attributes entry) else [].

Definition payload_addresses (if_index : Z) (p : NetlinkPayload) : list (list Z) :=
  match p with NewNeighbour entry => entry_addresses if_index entry | _ => [] end.

(** The inner loop over a datagram: whether the dump is done, and the addresses
    collected.  [None] is a loop that goes on. *)
Fixpoint walk_datagram (fuel : nat) (if_index : Z) (d : Datagram) (offset : Z) (out : list (list Z)) :
    option (res (bool * list (list Z))) :=
  match fuel with
  | O => None
  | S fuel =>
      if RECEIVE_BUFFER <? offset then Some (Panic "range start index out of range for slice")
      else match deserialize d offset with
           | None => Some (Panic "called `Result::unwrap()` on an `Err` value")
           | Some msg =>
               match payload msg with
               | Done => Some (Ok (true, out))
               | NetlinkError err => Some (Err err)
               | p =>
                   let out := out ++ payload_addresses if_index p in
                   let offset := offset + msg_length msg in
                   if (offset =? size_ d) || (msg_length msg =? 0) then Some (Ok (false, out))
                   else walk_datagram fuel if_index d offset out
               end
           end
  end.

(** An offset grows by at least one and stays in the buffer. *)
Definition WALK_FUEL : nat := 4098.

(** [get_neighbors] over what the calls of [recv] answer; [None] while it waits
    for a datagram. *)
Fixpoint receive_loop (if_index : Z) (recvs : list (res Datagram)) (out : list (list Z)) :
    option (res (list (list Z))) :=
  match recvs with
  | [] => None
  | Ok d :: recvs =>
      match walk_datagram WALK_FUEL if_index d 0 out with
      | None => None
      | Some (Ok (true, out)) => Some (Ok out)
      | Some (Ok (false, out)) => receive_loop if_index recvs out
      | Some (Err e) => Some (Err e)
      | Some (Panic e) => Some (Panic e)
      end
  | Err e :: _ => Some (Err e)
  | Panic e :: _ => Some (Panic e)
  end.

(** [socket] is the outcome of opening, binding, connecting and sending the
    request. *)
Definition get_neighbors (socket : res unit) (if_index : Z) (recvs : list (res Datagram)) :
    option (res (list (list Z))) :=
  match socket with
  | Ok _ => receive_loop if_index recvs []
  | Err e => Some (Err e)
  | Panic e => Some (Panic e)
  end.

(** ** The walk ends *)

(** Lengths are unsigned. *)
Definition lengths_ok (d : Datagram) : Prop :=
  ∀ offset msg, deserialize d offset = Some msg → 0 ≤ msg_length msg.

Lemma walk_total fuel if_index d offset out :
  lengths_ok d → 1 ≤ Z.of_nat fuel → RECEIVE_BUFFER + 2 - offset ≤ Z.of_nat fuel →
  walk_datagram fuel if_index d offset out ≠ None.
Proof.
  intros Hd. revert offset out. induction fuel as [|fuel IH]; intros offset out H1 Hf; cbn [walk_datagram]; [lia|].
  destruct (Z.ltb_spec RECEIVE_BUFFER offset) as [|Hoff]; [done|].
  destruct (deserialize d offset) as [msg|] eqn:Hmsg; [|done]. pose proof (Hd _ _ Hmsg) as Hlen.
  destruct (payload msg); [done| |done|];
    (destruct (Z.eqb_spec (offset + msg_length msg) (size_ d)); [done|];
     destruct (Z.eqb_spec (msg_length msg) 0); [done|]; cbn [orb]; apply IH; lia).
Qed.

(** ** The answer of the kernel *)

(** The messages lie behind one another in a datagram. *)
Fixpoint laid_out (d : Datagram) (offset : Z) (msgs : list NetlinkMessage) : Prop :=
  match msgs with
  | [] => offset = size_ d
  | msg :: msgs => 0 ≤ offset ≤ RECEIVE_BUFFER ∧ 0 < msg_length msg ∧ offset + msg_length msg ≤ size_ d ∧
      deserialize d offset = Some msg ∧ laid_out d (offset + msg_length msg) msgs
  end.

Definition packs (d : Datagram) (msgs : list NetlinkMessage) : Prop :=
  msgs ≠ [] ∧ size_ d ≤ RECEIVE_BUFFER ∧ laid_out d 0 msgs.

(** What a list of messages means, on its own: everything up to the end of the
    dump, or an error; whether the end was met. *)
Fixpoint read_messages (if_index : Z) (msgs : list NetlinkMessage) (out : list (list Z)) : res (bool * list (list Z)) :=
  match msgs with
  | [] => Ok (false, out)
  | msg :: msgs =>
      match payload msg with
      | Done => Ok (true, out)
      | NetlinkError err => Err err
      | p => read_messages if_index msgs (out ++ payload_addresses if_index p)
      end
  end.

Lemma read_messages_app if_index l k out :
  read_messages if_index (l ++ k) out =
    match read_messages if_index l out with
    | Ok (false, out) => read_messages if_index k out
    | r => r
    end.
Proof. revert out. induction l as [|msg l IH]; intros out; [done|]. cbn. destruct (payload msg); [done|apply IH|done|apply IH]. Qed.

Lemma walk_laid_out fuel if_index d offset msgs out :
  laid_out d offset msgs → msgs ≠ [] → (length msgs ≤ fuel)%nat →
  walk_datagram fuel if_index d offset out = Some (read_messages if_index msgs out).
Proof.
  revert fuel offset out. induction msgs as [|msg msgs IH]; intros fuel offset out Hl Hne Hf; [done|].
  cbn [length] in Hf. destruct fuel as [|fuel]; [lia|]. destruct Hl as (Hoff & Hlen & Hsz & Hmsg & Hl).
  cbn [walk_datagram read_messages]. destruct (Z.ltb_spec RECEIVE_BUFFER offset); [lia|]. rewrite Hmsg.
  assert (∀ p, (if (offset + msg_length msg =? size_ d) || (msg_length msg =? 0)
    then Some (Ok (false, out ++ payload_addresses if_index p))
    else walk_datagram fuel if_index d (offset + msg_length msg) (out ++ payload_addresses if_index p)) =
    Some (read_messages if_index msgs (out ++ payload_addresses if_index p))) as Hnext.
  { intros p. destruct (Z.eqb_spec (msg_length msg) 0); [lia|]. rewrite orb_false_r.
    destruct msgs as [|m msgs]; [cbn in Hl; by rewrite Hl, Z.eqb_refl|].
    destruct (Z.eqb_spec (offset + msg_length msg) (size_ d)); [destruct Hl as (_ & ? & ? & _); lia|].
    apply IH; [done|done|lia]. }
  destruct (payload msg); [done|apply Hnext|done|apply Hnext].
Qed.

Lemma laid_out_length d offset msgs :
  laid_out d offset msgs → 0 ≤ offset → Z.of_nat (length msgs) ≤ size_ d - offset.
Proof.
  revert offset. induction msgs as [|msg msgs IH]; intros offset Hl H0; cbn in *; [lia|].
  destruct Hl as (_ & Hlen & _ & _ & Hl). apply IH in Hl; lia.
Qed.

(** C30: however the kernel cuts its answer into datagrams, [get_neighbors] is the
    plain reading of the sequence of messages: the six-byte addresses of the
    reachable IPv4 and IPv6 entries of the interface in the order of the dump
    up to its end, or the error of the first error message before it; without
    an end it waits for the next datagram.  The walk through a datagram ends
    even when its messages are malformed. *)
Theorem get_neighbors_reads_dump if_index ds msgss :
  Forall2 packs ds msgss →
  get_neighbors (Ok tt) if_index (Ok <$> ds) =
    match read_messages if_index (concat msgss) [] with
    | Ok (true, out) => Some (Ok out)
    | Ok (false, _) => None
    | Err e => Some (Err e)
    | Panic e => Some (Panic e)
    end ∧
  (∀ d offset out, lengths_ok d → 0 ≤ offset → walk_datagram WALK_FUEL if_index d offset out ≠ None).
Proof.
  intros Hds. split.
  2: { intros d offset out Hd Ho. apply walk_total; [done|done|]. unfold RECEIVE_BUFFER, WALK_FUEL. lia. }
  cbn [get_neighbors]. generalize (@nil (list Z)). induction Hds as [|d msgs ds msgss (Hne & Hsz & Hl) _ IH]; intros out; [done|].
  cbn [fmap list_fmap receive_loop concat]. rewrite (walk_laid_out _ if_index d 0 msgs) by
    (try done; pose proof (laid_out_length _ _ _ Hl ltac:(lia)); unfold RECEIVE_BUFFER, WALK_FUEL in *; lia).
  rewrite read_messages_app. destruct (read_messages if_index msgs out) as [[[] out']| |]; [done|apply IH|done..].
Qed.

(** One reachable neighbour of interface 2, one of interface 3, then the end. *)
Definition example_entry (i : Z) (last : Z) : NetlinkMessage :=
  {| msg_length := 16; payload := NewNeighbour {| family := Inet; state := Reachable; ifindex := i;
       attributes := [OtherAttribute; LinkLocalAddress [1; 2; 3; 4; 5; last]; LinkLocalAddress [1; 2]] |} |}.
Definition example_datagrams : list Datagram :=
  [{| size_ := 32; deserialize o := if o =? 0 then Some (example_entry 2 6) else if o =? 16 then Some (example_entry 3 7) else None |};
   {| size_ := 16; deserialize o := if o =? 0 then Some {| msg_length := 16; payload := Done |} else None |}].

Lemma get_neighbors_reads_dump_witness :
  get_neighbors (Ok tt) 2 (Ok <$> example_datagrams) = Some (Ok [[1; 2; 3; 4; 5; 6]]).
Proof.
  destruct (get_neighbors_reads_dump 2 example_datagrams
    [[example_entry 2 6; example_entry 3 7]; [{| msg_length := 16; payload := Done |}]]) as [-> _]; [|reflexivity].
  constructor; [|constructor; [|constructor]]; (split; [discriminate|split; [discriminate|vm_compute; repeat split; discriminate]]).
Defined.
