(* ===== verification/Eal.v ===== *)
(** * The arguments and ports of DPDK ([dpdk/src/eal.rs], [ethdev.rs])

    What the crate adds to the library it binds: the arguments it builds for the
    environment abstraction layer and the iterator over the ports.  Memory,
    errors and the life of the layer are in [Bindings].  The library itself is an
    environment. *)
From S2P Require Import Prelude Machine F64 Text Dpdk.

(** ** The arguments of the EAL *)

(** [EalBuilder]: the arguments, and whether logs are captured. *)
Record EalBuilder := { args : list string; log_capture : bool }.

Module EalBuilder.
Definition new : EalBuilder := {| args := []; log_capture := false |}.

(** [CString::new(v).expect(..)]. *)
Definition with_string (v : string) (b : EalBuilder) : res EalBuilder :=
  if has_nul v then Panic "must not contain '0' byte"
  else Ok {| args := args b ++ [v]; log_capture := log_capture b |}.

Definition from_coremask (name : string) (mask : Z) : res EalBuilder :=
  let! b := with_string name new in
  let! b := with_string "-c" b in
  with_string ("0x" +:+ fmt_hex mask) b.

Definition with_main_lcore (id : Z) (b : EalBuilder) : res EalBuilder :=
  with_string ("--main-lcore=" +:+ fmt_u64 id) b.

Definition with_allow (pci : string) (b : EalBuilder) : res EalBuilder :=
  let! b := with_string "-a" b in
  with_string (pci +:+ ",mprq_en=0,rxq_cqe_comp_en=0") b.

Definition with_proc_type (ty : string) (b : EalBuilder) : res EalBuilder :=
  with_string ("--proc-type=" +:+ ty) b.

Definition with_in_memory (b : EalBuilder) : res EalBuilder := with_string "--in-memory" b.

(** [EalLoggingContext::new]: the library returns a stream or null. *)
Definition with_log_capture (stream : bool) (b : EalBuilder) : res EalBuilder :=
  if stream then Ok {| args := args b; log_capture := true |} else Err "ENOMEM".
End EalBuilder.

Section init.
(** [rte_eal_init] and [rte_errno] after it; the stream of the logs. *)
Context (rte_eal_init : list string → Z) (errno : string) (stream : bool).

(** [Eal::new]: the arguments the layer was started with. *)
Definition eal_init (b : EalBuilder) : res (list string) :=
  if rte_eal_init (args b) =? -1 then Err errno else Ok (args b).

(** [DpdkEngine::init_eal]. *)
Definition init_eal (cfg : Config) : res (list string) :=
  let! b := EalBuilder.from_coremask "dwd_core" (core_mask cfg) in
  let! b := EalBuilder.with_main_lcore (main_lcore cfg) b in
  let! b := EalBuilder.with_proc_type "primary" b in
  let! b := EalBuilder.with_in_memory b in
  let! b := EalBuilder.with_log_capture stream b in
  let! b := foldl (λ b pci, let! b := b in EalBuilder.with_allow pci b) (Ok b) (fst <$> ports cfg) in
  eal_init b.
End init.

(** The arguments of a configuration. *)
Definition eal_args (cfg : Config) : list string :=
  ["dwd_core"; "-c"; "0x" +:+ fmt_hex (core_mask cfg); "--main-lcore=" +:+ fmt_u64 (main_lcore cfg);
   "--proc-type=primary"; "--in-memory"] ++
  concat ((λ pci, ["-a"; pci +:+ ",mprq_en=0,rxq_cqe_comp_en=0"]) <$> (fst <$> ports cfg)).

Lemma with_string_ok s b :
  has_nul s = false → EalBuilder.with_string s b = Ok {| args := args b ++ [s]; log_capture := log_capture b |}.
Proof. unfold EalBuilder.with_string. by intros ->. Qed.

Lemma core_mask_range cfg : 0 ≤ core_mask cfg < 2 ^ 128.
Proof.
  unfold core_mask. assert (∀ ids v, 0 ≤ v < 2 ^ 128 → 0 ≤ foldl CoreMask.add v ids < 2 ^ 128) as Hf.
  { assert (∀ v id, 0 ≤ v < 2 ^ 128 → 0 ≤ CoreMask.add v id < 2 ^ 128) as Ha.
    { intros v id Hv. unfold CoreMask.add. pose proof (Z.mod_pos_bound id 128 ltac:(lia)).
      assert (0 ≤ Z.lor v (Z.shiftl 1 (id `mod` 128))) as H0.
      { apply Z.lor_nonneg. split; [lia|]. by apply Z.shiftl_nonneg. }
      split; [done|]. destruct (Z.eq_dec (Z.lor v (Z.shiftl 1 (id `mod` 128))) 0) as [->|Hne]; [done|].
      apply Z.log2_lt_pow2; [lia|]. rewrite Z.log2_lor by (try (apply Z.shiftl_nonneg); lia).
      rewrite Z.shiftl_1_l, Z.log2_pow2 by lia. apply Z.max_lub_lt; [|lia].
      destruct (Z.eq_dec v 0) as [->|]; [done|]. apply Z.log2_lt_pow2; lia. }
    induction ids as [|id ids IH]; intros v Hv; [done|]. apply IH, Ha, Hv. }
  apply Hf. pose proof (Hf [main_lcore cfg] 0 ltac:(lia)). done.
Qed.

Lemma with_allow_eq pci b :
  EalBuilder.with_allow pci b =
    if has_nul pci then Panic "must not contain '0' byte"
    else Ok {| args := args b ++ ["-a"; pci +:+ ",mprq_en=0,rxq_cqe_comp_en=0"]; log_capture := log_capture b |}.
Proof.
  unfold EalBuilder.with_allow. rewrite with_string_ok by done. cbn [res_bind].
  unfold EalBuilder.with_string. rewrite has_nul_app, orb_false_r. destruct (has_nul pci); [done|].
  cbn [args log_capture]. by rewrite <-app_assoc.
Qed.

Lemma fold_allow pcis b :
  foldl (λ b pci, let! b := b in EalBuilder.with_allow pci b) (Ok b) pcis =
    if existsb has_nul pcis then Panic "must not contain '0' byte"
    else Ok {| args := args b ++ concat ((λ pci, ["-a"; pci +:+ ",mprq_en=0,rxq_cqe_comp_en=0"]) <$> pcis);
               log_capture := log_capture b |}.
Proof.
  assert (∀ l, foldl (λ b pci, let! b := b in EalBuilder.with_allow pci b)
    (Panic "must not contain '0' byte") l = Panic "must not contain '0' byte") as Hpanic.
  { intros l. induction l; done. }
  revert b. induction pcis as [|pci pcis IH]; intros b; cbn [foldl existsb].
  - destruct b as [a lc]. cbn. by rewrite app_nil_r.
  - cbn [res_bind]. rewrite with_allow_eq. destruct (has_nul pci); [apply Hpanic|].
    rewrite IH. cbn [orb]. destruct (existsb _ _); [done|]. cbn. by rewrite <-app_assoc.
Qed.

(** C33: the layer is started with exactly the arguments the configuration says:
    the number after [-c] reads back as the mask whose bits are the main core
    and the cores of the ports, every device is on the allow list, in the order
    of the map; a NUL in the name of a device panics, a refusal of the layer is
    an error, and nothing else fails.  A core number of 128 or more, which the
    configuration file can hold, is not rejected and selects another core. *)
Theorem init_eal_arguments rte_eal_init errno cfg :
  0 ≤ main_lcore cfg < 2 ^ 16 →
  match init_eal rte_eal_init errno true cfg with
  | Ok a => a = eal_args cfg ∧ rte_eal_init a ≠ -1 ∧ existsb has_nul (fst <$> ports cfg) = false
  | Err e => e = errno ∧ rte_eal_init (eal_args cfg) = -1
  | Panic _ => existsb has_nul (fst <$> ports cfg) = true
  end ∧
  read_digits 16 0 (fmt_hex (core_mask cfg)) = Some (core_mask cfg) ∧
  (Forall (λ id, 0 ≤ id < 128) (main_lcore cfg :: cores cfg) →
     ∀ n, 0 ≤ n → Z.testbit (core_mask cfg) n = true ↔ n ∈ main_lcore cfg :: cores cfg) ∧
  (∀ id, id ∈ cores cfg → Z.testbit (core_mask cfg) (id `mod` 128) = true).
Proof.
  intros Hm. split; [|split; [apply read_fmt_hex, core_mask_range|apply core_mask_bits]].
  - unfold init_eal, EalBuilder.from_coremask, EalBuilder.with_main_lcore, EalBuilder.with_proc_type, EalBuilder.with_in_memory.
    repeat (rewrite with_string_ok by (rewrite ?has_nul_app; first [done|by apply digits_no_nul]); cbn [res_bind EalBuilder.with_log_capture args log_capture]).
    rewrite fold_allow. destruct (existsb has_nul _) eqn:Hn; cbn [res_bind]; [done|].
    unfold eal_init. cbn [args log_capture EalBuilder.new]. rewrite <-!app_assoc.
    change (_ ++ _) with (eal_args cfg). destruct (Z.eqb_spec (rte_eal_init (eal_args cfg)) (-1)); done.
Qed.

(** ** The iterator over the ports *)

Section eth_dev.
(** [rte_eth_find_next_owned_by] without an owner and [RTE_MAX_ETHPORTS]. *)
Context (find_next : Z → Z) (max_ports : Z).

(** [EthDevIterator]: the port to look from, nothing once it is exhausted. *)
Definition EthDevIterator : Type := option Z.
Definition eth_dev_iter : EthDevIterator := Some 0.

Definition eth_dev_next (it : EthDevIterator) : EthDevIterator * option Z :=
  match it with
  | None => (None, None)
  | Some port_id =>
      let port_id := find_next port_id in
      if port_id =? max_ports then (None, None)
      else (Some (as_u16 (as_u16 port_id + 1)), Some (as_u16 port_id))
  end.

(** A [for] loop over the iterator. *)
Fixpoint eth_dev_loop (fuel : nat) (it : EthDevIterator) : option (list Z) :=
  match fuel with
  | O => None
  | S fuel =>
      match eth_dev_next it with
      | (it, Some port) => match eth_dev_loop fuel it with Some l => Some (port :: l) | None => None end
      | (_, None) => Some []
      end
  end.

(** What the library documents: the first usable port from the one given, or
    [RTE_MAX_ETHPORTS]. *)
Context (usable : Z → bool).
Hypothesis Hmax : 0 < max_ports < 2 ^ 16.
Hypothesis find_next_first : ∀ p, 0 ≤ p ≤ max_ports →
  p ≤ find_next p ≤ max_ports ∧ (find_next p < max_ports → usable (find_next p) = true) ∧
  ∀ q, p ≤ q < find_next p → usable q = false.

Lemma eth_dev_loop_from fuel p :
  0 ≤ p ≤ max_ports → max_ports - p < Z.of_nat fuel →
  eth_dev_loop fuel (Some p) = Some (filter (λ q, usable q = true) (seqZ p (max_ports - p))).
Proof using All.
  revert p. induction fuel as [|fuel IH]; intros p Hp Hf; [lia|]. cbn [eth_dev_loop eth_dev_next].
  destruct (find_next_first p Hp) as (Hr & Hu & Hgap). set (q := find_next p) in *.
  replace (max_ports - p) with ((q - p) + (max_ports - q)) by lia. rewrite seqZ_app by lia.
  replace (p + (q - p)) with q by lia. rewrite filter_app.
  assert (filter (λ q, usable q = true) (seqZ p (q - p)) = []) as ->.
  { destruct (filter _ _) as [|x l] eqn:Hl; [done|]. exfalso.
    assert (x ∈ x :: l) as Hx by (by left). rewrite <-Hl in Hx. apply list_elem_of_filter in Hx as [Hx Hin].
    apply elem_of_seqZ in Hin. by rewrite (Hgap x) in Hx by lia. }
  cbn [app]. destruct (Z.eqb_spec q max_ports) as [->|Hne]; [by rewrite Z.sub_diag|].
  unfold as_u16. rewrite (Z.mod_small q) by lia.
  rewrite (seqZ_cons q) by lia. rewrite filter_cons_True by (apply Hu; lia).
  destruct (Z.eq_dec (q + 1) (2 ^ 16)) as [Heq|]; [lia|].
  rewrite Z.mod_small by lia. rewrite IH by lia.
  replace (Z.pred (max_ports - q)) with (max_ports - (q + 1)) by lia. by rewrite <-Z.add_1_r.
Qed.
End eth_dev.

(** The loop over the ports terminates and visits exactly the usable ports,
    in increasing order. *)
Theorem eth_dev_loop_visits find_next max_ports usable fuel :
  0 < max_ports < 2 ^ 16 →
  (∀ p, 0 ≤ p ≤ max_ports →
     p ≤ find_next p ≤ max_ports ∧ (find_next p < max_ports → usable (find_next p) = true) ∧
     ∀ q, p ≤ q < find_next p → usable q = false) →
  max_ports < Z.of_nat fuel →
  eth_dev_loop find_next max_ports fuel eth_dev_iter =
    Some (filter (λ q, usable q = true) (seqZ 0 max_ports)).
Proof.
  intros Hmax Hfind Hf. unfold eth_dev_iter.
  rewrite (eth_dev_loop_from find_next max_ports usable Hmax Hfind) by lia. by rewrite Z.sub_0_r.
Qed.

Lemma init_eal_arguments_witness :
  let cfg := {| main_lcore := 0; ports := [("0000:01:00.0"%string, [1; 35])] |} in
  init_eal (λ _, 3) "" true cfg = Ok ["dwd_core"; "-c"; "0x800000003"; "--main-lcore=0"; "--proc-type=primary";
    "--in-memory"; "-a"; "0000:01:00.0,mprq_en=0,rxq_cqe_comp_en=0"] ∧
  read_digits 16 0 "800000003" = Some (2 ^ 35 + 3).
Proof.
  intros cfg. split; [reflexivity|]. destruct (init_eal_arguments (λ _, 3) "" cfg) as (_ & H & _); [done|]. exact H.
Defined.

(** Ports 2 and 5 of eight. *)
Definition example_find_next (p : Z) : Z := if p <=? 2 then 2 else if p <=? 5 then 5 else 8.

Lemma eth_dev_loop_visits_witness : eth_dev_loop example_find_next 8 9 eth_dev_iter = Some [2; 5].
Proof.
  assert (eth_dev_loop example_find_next 8 9 eth_dev_iter =
    Some (filter (λ q, ((q =? 2) || (q =? 5)) = true) (seqZ 0 8))) as ->; [|reflexivity].
  apply (eth_dev_loop_visits example_find_next 8 (λ q, (q =? 2) || (q =? 5)) 9); [done| |done].
  intros p Hp. unfold example_find_next. destruct (Z.leb_spec p 2); [|destruct (Z.leb_spec p 5)].
  - split_and!; [lia..|done|]. intros q Hq. destruct (Z.eqb_spec q 2), (Z.eqb_spec q 5); (done || lia).
  - split_and!; [lia..|done|]. intros q Hq. destruct (Z.eqb_spec q 2), (Z.eqb_spec q 5); (done || lia).
  - split_and!; [lia..|done|]. intros q Hq. destruct (Z.eqb_spec q 2), (Z.eqb_spec q 5); (done || lia).
Defined.
