(* ===== verification/Bindings.v ===== *)
(** * Memory, errors and life of the DPDK bindings
    ([dpdk/src/boxed.rs], [error.rs], [lib.rs], [ethdev.rs], the lifetime in [eal.rs])

    A value placed in the memory of a NUMA node and freed by its owner; the
    errors the library's return codes become; the stream of its logs, closed
    while the library is still up.  The library is an environment. *)
From S2P Require Import Prelude Machine Text Dpdk.

(** ** Errors ([error.rs]) *)

(** [{}] of an [i32]. *)
Definition fmt_i32 (v : Z) : string := if v <? 0 then "-" +:+ fmt_u64 (- v) else fmt_u64 v.

(** [Display for Error]; the description is [rte_strerror]'s. *)
Definition error_display (rte_strerror : Z → string) (errno : Z) : string :=
  "[" +:+ fmt_i32 errno +:+ "]: " +:+ rte_strerror errno.

(** [rte_eth_dev_get_port_by_name]: the return code and the port written. *)
Definition eth_dev_get_port_by_name (lib : string → Z * Z) (rte_strerror : Z → string) (name : string) : res Z :=
  if has_nul name then Panic "unexpected NUL"
  else let '(ec, id) := lib name in if ec =? 0 then Ok id else Err (error_display rte_strerror ec).

(** [rte_lcore_id]: [LCORE_ID_ANY] is not a core. *)
Definition lcore_id (rte_lcore_id : Z) : res CoreId := core_id_new (as_u16 rte_lcore_id).

(** [RTE_ETH_RSS_IP]. *)
Definition RTE_ETH_RSS_IP : Z :=
  foldr (λ n, Z.lor (Z.shiftl 1 n)) 0 [2; 3; 7; 8; 9; 13; 16].

(** ** Boxes ([boxed.rs]) *)

(** The memory of the library: what lives at an address, and on which node. *)
Abbreviation Heap T := (gmap Z (T * Z)).
Definition ENOMEM : Z := 12.

Section boxed.
Context {T : Type}.
Implicit Types h : Heap T.

(** [rte_malloc_socket]: null (zero), or an address that is not in use. *)
Context (rte_malloc_socket : Heap T → Z → Z) (rte_strerror : Z → string).

(** [RteBox::new], [deref], an assignment through [deref_mut], and [drop]. *)
Definition box_new (v : T) (socket_id : Z) h : res (Heap T * Z) :=
  let ptr := rte_malloc_socket h socket_id in
  if ptr =? 0 then Err (error_display rte_strerror ENOMEM) else Ok (<[ptr := (v, socket_id)]> h, ptr).
Definition box_deref (ptr : Z) h : option T := fst <$> h !! ptr.
Definition box_set (ptr : Z) (v : T) h : Heap T := alter (λ x, (v, snd x)) ptr h.
Definition box_drop (ptr : Z) h : Heap T := delete ptr h.

(** The life of boxes as a program has it: made, written to through the owner,
    dropped once. *)
Inductive BoxOp := BoxNew (v : T) (socket_id : Z) | BoxSet (ptr : Z) (v : T) | BoxDrop (ptr : Z).

(** The owners: the boxes alive, with the values they should hold. *)
Definition box_step (s : Heap T * gmap Z T) (op : BoxOp) : Heap T * gmap Z T :=
  let '(h, owned) := s in
  match op with
  | BoxNew v socket_id =>
      match box_new v socket_id h with Ok (h, ptr) => (h, <[ptr := v]> owned) | _ => (h, owned) end
  | BoxSet ptr v => if decide (is_Some (owned !! ptr)) then (box_set ptr v h, <[ptr := v]> owned) else s
  | BoxDrop ptr => if decide (is_Some (owned !! ptr)) then (box_drop ptr h, delete ptr owned) else s
  end.

Hypothesis malloc_fresh : ∀ h socket_id, rte_malloc_socket h socket_id ≠ 0 → h !! rte_malloc_socket h socket_id = None.

(** The boxes and nothing else are in the memory the program started with. *)
Definition box_inv (h0 : Heap T) (s : Heap T * gmap Z T) : Prop :=
  (∀ ptr, is_Some (snd s !! ptr) → h0 !! ptr = None) ∧ (∀ ptr, snd s !! ptr = None → fst s !! ptr = h0 !! ptr) ∧
  ∀ ptr v, snd s !! ptr = Some v → box_deref ptr (fst s) = Some v.

Lemma box_step_inv h0 s op : box_inv h0 s → box_inv h0 (box_step s op).
Proof using malloc_fresh.
  destruct s as [h owned]. intros (Hd & Hout & Hin). cbn [fst snd] in *. unfold box_inv, box_deref in *.
  destruct op as [v socket_id|ptr v|ptr]; cbn [box_step].
  - unfold box_new. destruct (Z.eqb_spec (rte_malloc_socket h socket_id) 0) as [|Hne]; [done|].
    pose proof (malloc_fresh h socket_id Hne) as Hfresh. set (p := rte_malloc_socket h socket_id) in *. cbn [fst snd].
    assert (owned !! p = None) as Hown.
    { destruct (owned !! p) as [w|] eqn:Hw; [|done]. apply Hin in Hw. by rewrite Hfresh in Hw. }
    split_and!; intros q; (destruct (decide (p = q)) as [<-|Hpq]; [rewrite !lookup_insert_eq|rewrite !lookup_insert_ne by done]).
    + intros _. by rewrite <-Hout.
    + apply Hd.
    + done.
    + apply Hout.
    + by intros ? [= ->].
    + apply Hin.
  - destruct (decide _) as [[w Hw]|]; [|done]. cbn [fst snd]. unfold box_set.
    split_and!; intros q; (destruct (decide (ptr = q)) as [<-|Hpq];
      [rewrite ?lookup_alter_eq, !lookup_insert_eq|rewrite ?lookup_alter_ne, !lookup_insert_ne by done]).
    + intros _. by apply Hd.
    + apply Hd.
    + done.
    + apply Hout.
    + intros ? [= ->]. apply Hin in Hw. by destruct (h !! ptr).
    + apply Hin.
  - destruct (decide _) as [[w Hw]|]; [|done]. cbn [fst snd]. unfold box_drop.
    split_and!; intros q; (destruct (decide (ptr = q)) as [<-|Hpq];
      [rewrite !lookup_delete_eq|rewrite !lookup_delete_ne by done]).
    + by intros [].
    + apply Hd.
    + intros _. symmetry. by apply Hd.
    + apply Hout.
    + done.
    + apply Hin.
Qed.

(** However boxes are made, written and dropped, each holds the value last
    written to it until it is dropped, whatever happens to the others, and when
    all have been dropped the memory is what it was. *)
Theorem boxes_own_their_memory h ops :
  let s := foldl box_step (h, ∅) ops in
  (∀ ptr v, snd s !! ptr = Some v → box_deref ptr (fst s) = Some v) ∧
  (snd s = ∅ → fst s = h).
Proof using malloc_fresh.
  assert (∀ s, box_inv h s → box_inv h (foldl box_step s ops)) as Hall.
  { induction ops as [|op ops IH]; [done|]. intros s Hs. apply IH. by apply box_step_inv. }
  destruct (Hall (h, ∅)) as (_ & Hout & Hin).
  { split_and!; [by intros ? [? ?]|done|done]. }
  split; [exact Hin|]. intros He. apply map_eq. intros ptr. apply Hout. by rewrite He.
Qed.
End boxed.

(** ** The life of the EAL ([eal.rs]) *)

Inductive EalEvent := LogOpened | Initialized (rc : Z) | LogFreed | CleanedUp.
#[export] Instance eal_event_eq_dec : EqDecision EalEvent.
Proof. solve_decision. Defined.

(** [with_log_capture] opens the stream; [Eal::new] gives it to the [Eal], or
    drops it with its argument on an error; dropping the [Eal] closes it first. *)
Definition drop_context (ctx : bool) : list EalEvent := if ctx then [LogFreed] else [].
Definition eal_new (rc : Z) (errno : string) (ctx : bool) : list EalEvent * res bool :=
  if rc =? -1 then (Initialized rc :: drop_context ctx, Err errno) else ([Initialized rc], Ok ctx).
Definition eal_drop (ctx : bool) : list EalEvent := drop_context ctx ++ [CleanedUp].

(** From the builder to the end of the engine. *)
Definition eal_life (capture : bool) (rc : Z) (errno : string) : list EalEvent :=
  let '(evs, r) := eal_new rc errno capture in
  (if capture then [LogOpened] else []) ++ evs ++ match r with Ok ctx => eal_drop ctx | _ => [] end.

(** A stream that was opened is closed exactly once, and while the library is up:
    never after the clean-up, which happens exactly when the start succeeded. *)
Theorem log_stream_closed_first capture rc errno :
  let evs := eal_life capture rc errno in
  length (filter (λ e, e = LogFreed) evs) = length (filter (λ e, e = LogOpened) evs) ∧
  (CleanedUp ∈ evs ↔ rc ≠ -1) ∧
  (∀ i j, evs !! i = Some LogFreed → evs !! j = Some CleanedUp → (i < j)%nat).
Proof.
  assert (∀ evs : list EalEvent, (CleanedUp ∈ evs ↔ bool_decide (CleanedUp ∈ evs) = true)) as Hdec.
  { intros evs. by rewrite bool_decide_eq_true. }
  intros evs. rewrite Hdec. subst evs. unfold eal_life, eal_new, eal_drop, drop_context.
  destruct (Z.eqb_spec rc (-1)) as [->|Hne], capture; split_and!; try done.
  all: intros [|[|[|[|i]]]] [|[|[|[|j]]]]; cbn; try done; lia.
Qed.

(** A node with room for one value. *)
Lemma boxes_own_their_memory_witness :
  let malloc := λ (h : Heap Z) (_ : Z), if decide (h !! 8 = None) then 8 else 0 in
  let s := foldl (box_step malloc (λ _, "Cannot allocate memory"%string)) (∅, ∅) [BoxNew 5 0; BoxNew 6 0; BoxSet 8 7; BoxDrop 8] in
  fst s = ∅.
Proof.
  intros malloc s. apply (boxes_own_their_memory malloc (λ _, "Cannot allocate memory"%string)).
  - intros h n. unfold malloc. by destruct (decide _).
  - reflexivity.
Defined.
