(* ===== verification/DpdkInit.v ===== *)
(** * Starting and stopping the DPDK engine ([dwd-core/src/worker/dpdk.rs])

    [DpdkEngine::new] gives every core of the configuration a worker with a pool
    of its own and a pair of queues of its port, [run] launches them and shuts
    the ports down.  The driver's calls are an environment. *)
From S2P Require Import Prelude Machine F64 Text Stat Dpdk Netlink Eal.

(** What initialisation decides about a worker. *)
Record InitWorker := {
  iw_port_id : Z;
  iw_rx_queue_id : Z;
  iw_tx_queue_id : Z;
  iw_src_mac : list Z;
  iw_mempool : string;
  iw_stat : nat;          (* index into the statistics *)
}.

(** The engine while it is being built, with what the driver was told: the
    names of the pools, the queues set up. *)
Record InitState := {
  pools : list string;
  workers : gmap Z InitWorker;
  configured : list (Z * Z * Z);        (* port, receive queues, transmit queues *)
  rx_setups : list (Z * Z * string);    (* port, queue, pool *)
  tx_setups : list (Z * Z);             (* port, queue *)
}.

Definition init_new : InitState :=
  {| pools := []; workers := ∅; configured := []; rx_setups := []; tx_setups := [] |}.

Definition mempool_name (core : Z) : string := "mp::" +:+ fmt_u64 core.

Definition assign_queues (port_id queue_id : Z) (mac : list Z) (w : InitWorker) : InitWorker :=
  {| iw_port_id := port_id; iw_rx_queue_id := queue_id; iw_tx_queue_id := as_u16 (queue_id + 1);
     iw_src_mac := mac; iw_mempool := iw_mempool w; iw_stat := iw_stat w |}.

Section init.
(** The calls of the driver: a pool of that name can be created next to those
    there are; memory for the [i]-th worker; the port of a device; the
    interface of a port, if it answers; its address; the neighbours of an
    interface; the return codes of the configuration calls. *)
Context (pool_create : list string → string → bool) (rte_malloc : nat → bool).
Context (get_port_by_name : string → res Z) (dev_info_get : Z → option Z) (macaddr_get : Z → list Z).
Context (neighbors : Z → res (list (list Z))).
Context (dev_configure : Z → Z → Z → Z) (rx_queue_setup tx_queue_setup : Z → Z → Z).
Context (cfg : Config).

(** The body of the loop of [init_workers]: [pps_limits] has an entry for every
    core, made by the same iteration over the configuration. *)
Definition init_worker (idx : nat) (core : Z) (st : InitState) : res InitState :=
  if negb (pool_create (pools st) (mempool_name core)) then Err "dpdk error"
  else if negb (bool_decide (core ∈ cores cfg)) then Panic "must exist"
  else if negb (rte_malloc idx) then Err "dpdk error"
  else Ok {| pools := pools st ++ [mempool_name core];
             workers := <[core := {| iw_port_id := 0; iw_rx_queue_id := 0; iw_tx_queue_id := 0;
                                     iw_src_mac := replicate 6 0; iw_mempool := mempool_name core;
                                     iw_stat := idx |}]> (workers st);
             configured := configured st; rx_setups := rx_setups st; tx_setups := tx_setups st |}.

Fixpoint init_workers_loop (idx : nat) (cs : list Z) (st : InitState) : res InitState :=
  match cs with
  | [] => Ok st
  | core :: cs => let! st := init_worker idx core st in init_workers_loop (S idx) cs st
  end.

(** [DpdkEngine::init_workers]. *)
Definition init_workers (st : InitState) : res InitState := init_workers_loop 0 (cores cfg) st.

(** The loop over the cores of a port. *)
Fixpoint rx_loop (port_id : Z) (mac : list Z) (idx : nat) (cs : list Z) (st : InitState) : res InitState :=
  match cs with
  | [] => Ok st
  | core :: cs =>
      let queue_id := as_u16 (Z.of_nat idx) in
      match workers st !! core with
      | None => Panic "worker must be initialized"
      | Some w =>
          if rx_queue_setup port_id queue_id <? 0 then Err "dpdk error"
          else rx_loop port_id mac (S idx) cs
                 {| pools := pools st; workers := <[core := assign_queues port_id queue_id mac w]> (workers st);
                    configured := configured st;
                    rx_setups := rx_setups st ++ [(port_id, queue_id, iw_mempool w)]; tx_setups := tx_setups st |}
      end
  end.

(** The loop over the transmit queues. *)
Fixpoint tx_loop (port_id : Z) (queues : list Z) (st : InitState) : res InitState :=
  match queues with
  | [] => Ok st
  | queue_id :: queues =>
      if tx_queue_setup port_id queue_id <? 0 then Err "dpdk error"
      else tx_loop port_id queues
             {| pools := pools st; workers := workers st; configured := configured st; rx_setups := rx_setups st;
                tx_setups := tx_setups st ++ [(port_id, queue_id)] |}
  end.

Definition rx_queues_count (cs : list Z) : Z := as_u16 (Z.of_nat (length cs)).
Definition tx_queues_count : Z := as_u16 (as_u16 (Z.of_nat (cores_count cfg)) + 1).

(** The body of the loop of [init_ports]. *)
Definition init_port (pci : string) (cs : list Z) (st : InitState) : res InitState :=
  let! port_id := get_port_by_name pci in
  let! _ := core_id_new port_id in
  match dev_info_get port_id with
  | None => Err "invalid PCI device"
  | Some if_index =>
      let! _ := neighbors if_index in
      if dev_configure port_id (rx_queues_count cs) tx_queues_count <? 0 then Err "dpdk error"
      else
        let st := {| pools := pools st; workers := workers st;
                     configured := configured st ++ [(port_id, rx_queues_count cs, tx_queues_count)];
                     rx_setups := rx_setups st; tx_setups := tx_setups st |} in
        let! st := rx_loop port_id (macaddr_get port_id) 0 cs st in
        tx_loop port_id (seqZ 0 tx_queues_count) st
  end.

(** [DpdkEngine::init_ports]. *)
Fixpoint init_ports (ps : list (string * list Z)) (st : InitState) : res InitState :=
  match ps with
  | [] => Ok st
  | (pci, cs) :: ps => let! st := init_port pci cs st in init_ports ps st
  end.

(** [DpdkEngine::new] after the capture was read: the layer, the workers, the
    ports, the packets of the capture, then the two counts. *)
Definition dpdk_new (eal : res (list string)) (load : res (gmap Z (list Mbuf))) (eth_dev_count lcore_count : Z) :
    res (InitState * gmap Z (list Mbuf)) :=
  let! _ := eal in
  let! st := init_workers init_new in
  let! st := init_ports (ports cfg) st in
  let! mbufs := load in
  if negb (eth_dev_count =? Z.of_nat (length (ports cfg))) then Err "invalid ports count"
  else if negb (lcore_count =? Z.of_nat (cores_count cfg) + 1) then Err "invalid cores count"
  else Ok (st, mbufs).
End init.

(** ** Shutting down *)

(** The loop that reads a receive queue until a burst is empty, over the counts
    [rte_eth_rx_burst] returns; [None] is a loop that goes on. *)
Fixpoint drain (fuel : nat) (rx_burst : nat → Z) (i : nat) : option nat :=
  match fuel with
  | O => None
  | S fuel => if rx_burst i =? 0 then Some i else drain fuel rx_burst (S i)
  end.

(** Step 2 of the shutdown: one reference is left on every packet. *)
Definition reset_mbufs (l : list Mbuf) : list Mbuf := refcnt_set 1 <$> l.
Definition reset_references (mbufs : gmap Z (list Mbuf)) : gmap Z (list Mbuf) := reset_mbufs <$> mbufs.

(** The actions of [DpdkEngine::run], in order. *)
Inductive DpdkAction :=
  | DevStart (port_id : Z)
  | Launch
  | Wait
  | Drained (port_id queue_id : Z)
  | ResetReferences
  | DevStop (port_id : Z)
  | SleepMs (ms : Z)
  | ClearWorkers
  | EalCleanup.

Section run.
(** The ports, their receive queues after configuration. *)
Context (eth_devs : list Z) (nb_rx_queues : Z → Z).

(** [DpdkEngine::run] when the receive queues fall silent. *)
Definition dpdk_run : list DpdkAction :=
  (DevStart <$> eth_devs) ++ [Launch; Wait] ++
  concat ((λ p, Drained p <$> seqZ 0 (nb_rx_queues p)) <$> eth_devs) ++
  [ResetReferences] ++ (DevStop <$> eth_devs) ++ [SleepMs 100; ClearWorkers; EalCleanup].
End run.

(** [run_worker]: the main core returns at once, another runs its worker. *)
Definition run_worker {A} (main : Z) (ws : gmap Z A) (core_id : Z) : res (option A) :=
  if core_id =? main then Ok None
  else match ws !! core_id with
       | Some w => Ok (Some w)
       | None => Panic "must be initialized"
       end.

(** ** What initialisation establishes *)

Lemma mempool_name_inj c c' :
  0 ≤ c < 2 ^ 16 → 0 ≤ c' < 2 ^ 16 → mempool_name c = mempool_name c' → c = c'.
Proof.
  intros Hc Hc' Heq. unfold mempool_name, fmt_u64 in Heq. apply (inj (String.append "mp::")) in Heq.
  pose proof (read_fmt_u64 c "" ltac:(unfold is_u64; lia)) as H1.
  pose proof (read_fmt_u64 c' "" ltac:(unfold is_u64; lia)) as H2.
  rewrite Heq, H2 in H1. by injection H1.
Qed.

(** The cores the layer launches: the bits of the mask it was given.  They are
    the configured numbers only below 128, the width of the mask. *)
Definition layer_cores (cfg : Config) : gset Z :=
  list_to_set (base.filter (λ c, Z.testbit (core_mask cfg) c = true) (seqZ 0 128)).

Lemma elem_of_layer_cores cfg c :
  c ∈ layer_cores cfg ↔ ∃ id, id ∈ main_lcore cfg :: cores cfg ∧ c = id `mod` 128.
Proof.
  unfold layer_cores. rewrite elem_of_list_to_set, list_elem_of_filter, elem_of_seqZ. split.
  - intros [Hb Hc]. by apply core_mask_testbit in Hb; [|lia].
  - intros (id & Hid & ->). pose proof (Z.mod_pos_bound id 128 ltac:(lia)).
    split; [apply core_mask_testbit; [lia|by exists id]|lia].
Qed.

Definition masked (X : gset Z) : gset Z := set_map (λ id, id `mod` 128) X.

Lemma size_add (x : Z) (X : gset Z) : (size ({[x]} ∪ X) ≤ S (size X))%nat.
Proof. rewrite size_union_alt, size_singleton. pose proof (subseteq_size (X ∖ {[x]}) X ltac:(set_solver)). lia. Qed.

Lemma size_masked X : (size (masked X) ≤ size X)%nat.
Proof.
  unfold masked, set_map. assert (∀ l : list Z, (size (list_to_set l : gset Z) ≤ length l)%nat) as Hl.
  { intros l. induction l as [|x l IH]; [done|]. cbn [list_to_set length]. pose proof (size_add x (list_to_set l)). lia. }
  etrans; [apply Hl|]. by rewrite length_fmap.
Qed.

(** A set that is not made smaller has no two numbers on one bit. *)
Lemma masked_inj X id id' :
  size (masked X) = size X → id ∈ X → id' ∈ X → id `mod` 128 = id' `mod` 128 → id = id'.
Proof.
  intros Hs H1 H2 Heq. apply dec_stable. intros Hne.
  assert (masked X = masked (X ∖ {[id']})) as Hx.
  { apply set_eq. intros c. unfold masked. rewrite !elem_of_map. split; [|set_solver]. intros (i & -> & Hi).
    destruct (decide (i = id')) as [->|]; [exists id|exists i]; set_solver. }
  pose proof (size_masked (X ∖ {[id']})) as Hle. rewrite <-Hx, size_difference, size_singleton in Hle by set_solver.
  assert (size X ≠ 0)%nat by (intros H0; apply size_empty_inv in H0; set_solver). lia.
Qed.

(** As many cores as configured numbers, the main core included: none of these
    is repeated, not even modulo the width of the mask. *)
Lemma layer_cores_distinct cfg :
  Z.of_nat (cores_count cfg) + 1 = Z.of_nat (size (layer_cores cfg)) →
  main_lcore cfg ∉ cores cfg ∧
  ∀ id id', id ∈ main_lcore cfg :: cores cfg → id' ∈ main_lcore cfg :: cores cfg → id `mod` 128 = id' `mod` 128 → id = id'.
Proof.
  unfold cores_count. set (C := list_to_set (cores cfg) : gset Z). set (X := {[main_lcore cfg]} ∪ C). intros Hc.
  assert (∀ id, id ∈ X ↔ id ∈ main_lcore cfg :: cores cfg) as HX.
  { intros id. unfold X, C. rewrite elem_of_union, elem_of_singleton, elem_of_list_to_set. by rewrite elem_of_cons. }
  assert (layer_cores cfg = masked X) as HL.
  { apply set_eq. intros c. unfold masked. rewrite elem_of_layer_cores, elem_of_map. setoid_rewrite HX. naive_solver. }
  rewrite HL in Hc. pose proof (size_masked X) as Hle.
  pose proof (size_add (main_lcore cfg) C : (size X ≤ S (size C))%nat) as HXs.
  split.
  - intros Hin. assert (X = C) as HXe; [|rewrite HXe in *; lia]. unfold X, C. apply set_eq. set_solver.
  - intros id id' H1%HX H2%HX. apply (masked_inj X); [lia|done|done].
Qed.

(** The cores of a list of ports. *)
Lemma ports_lookup (ps : list (string * list Z)) c :
  c ∈ concat (snd <$> ps) → ∃ pci cs i, (pci, cs) ∈ ps ∧ cs !! i = Some c.
Proof.
  rewrite list_elem_of_In, in_concat. setoid_rewrite <-list_elem_of_In.
  intros (cs & Hcs & (i & Hi)%list_elem_of_lookup_1). apply list_elem_of_fmap in Hcs as ([pci cs'] & -> & Hin).
  by exists pci, cs', i.
Qed.

Lemma ports_elem (ps : list (string * list Z)) pci cs i c :
  (pci, cs) ∈ ps → cs !! i = Some c → c ∈ concat (snd <$> ps) ∧ (length cs ≤ length (concat (snd <$> ps)))%nat.
Proof.
  intros Hin Hi. split.
  - apply list_elem_of_In, in_concat. exists cs. rewrite <-!list_elem_of_In. split; [|by eapply list_elem_of_lookup_2].
    apply list_elem_of_fmap. by exists (pci, cs).
  - clear Hi. induction ps as [|[pci' cs'] ps IH]; [by apply not_elem_of_nil in Hin|].
    csimpl. rewrite length_app. apply elem_of_cons in Hin as [[= -> ->]|Hin]; [lia|]. specialize (IH Hin). lia.
Qed.

Lemma ports_once (ps : list (string * list Z)) pci cs cs' :
  NoDup (fst <$> ps) → (pci, cs) ∈ ps → (pci, cs') ∈ ps → cs = cs'.
Proof.
  induction ps as [|[q l] ps IH]; intros Hnd H1 H2; [by apply not_elem_of_nil in H1|].
  csimpl in *. apply NoDup_cons in Hnd as [Hno Hnd].
  assert (∀ l, (q, l) ∉ ps) as Hq by (intros k Hk; apply Hno, list_elem_of_fmap; by exists (q, k)).
  apply elem_of_cons in H1 as [H1|H1], H2 as [H2|H2]; simplify_eq; [done|by apply Hq in H2|by apply Hq in H1|by apply IH].
Qed.

Section established.
Context (pool_create : list string → string → bool) (rte_malloc : nat → bool).
Context (get_port_by_name : string → res Z) (dev_info_get : Z → option Z) (macaddr_get : Z → list Z).
Context (neighbors : Z → res (list (list Z))).
Context (dev_configure : Z → Z → Z → Z) (rx_queue_setup tx_queue_setup : Z → Z → Z).
Context (cfg : Config).

(** Documented: the name of a pool is unique, the library refuses a second one;
    a port has one device. *)
Hypothesis pool_unique : ∀ used name, pool_create used name = true → name ∉ used.
Hypothesis port_unique : ∀ pci pci' p, get_port_by_name pci = Ok p → get_port_by_name pci' = Ok p → pci = pci'.
(** Cores are numbers of 16 bits, and there are fewer than the queue numbers;
    the devices are the keys of a map. *)
Hypothesis cores_u16 : Forall (λ c, 0 ≤ c < 2 ^ 16) (cores cfg).
Hypothesis cores_few : Z.of_nat (length (cores cfg)) < 2 ^ 16 - 1.
Hypothesis devices_distinct : NoDup (fst <$> ports cfg).

Definition fresh_worker (core : Z) (idx : nat) : InitWorker :=
  {| iw_port_id := 0; iw_rx_queue_id := 0; iw_tx_queue_id := 0; iw_src_mac := replicate 6 0;
     iw_mempool := mempool_name core; iw_stat := idx |}.

Lemma init_workers_spec idx cs st st' :
  init_workers_loop pool_create rte_malloc cfg idx cs st = Ok st' → NoDup (pools st) →
  Forall (λ c, 0 ≤ c < 2 ^ 16) cs →
  NoDup (pools st') ∧ pools st' = pools st ++ (mempool_name <$> cs) ∧ configured st' = configured st ∧
  rx_setups st' = rx_setups st ∧ tx_setups st' = tx_setups st ∧ NoDup cs ∧
  (∀ i c, cs !! i = Some c → workers st' !! c = Some (fresh_worker c (idx + i))) ∧
  (∀ c, c ∉ cs → workers st' !! c = workers st !! c).
Proof.
  revert idx st. induction cs as [|core cs IH]; intros idx st Hr Hnd Hall; cbn in Hr.
  { injection Hr as <-. rewrite app_nil_r. split_and!; try done. apply NoDup_nil_2. }
  apply Forall_cons in Hall as [Hc Hall]. apply res_bind_Ok in Hr as (st1 & H1 & Hr). unfold init_worker in H1.
  destruct (pool_create _ _) eqn:Hp; [|done]. cbn [negb] in H1. apply pool_unique in Hp.
  destruct (bool_decide _); [|done]. destruct (rte_malloc idx); [|done]. injection H1 as <-.
  destruct (IH (S idx) _ Hr) as (Hnd' & Hpools & Hcf & Hrx & Htx & Hcs & Hw & Hother); [|done|].
  { cbn. apply NoDup_app. split_and!; [done| |apply NoDup_singleton]. intros x Hx ->%list_elem_of_singleton. done. }
  cbn [pools workers configured rx_setups tx_setups] in *.
  assert (core ∉ cs) as Hnin.
  { intros Hin. rewrite Hpools, <-app_assoc in Hnd'. apply NoDup_app in Hnd' as (_ & _ & Hnd').
    apply NoDup_cons in Hnd' as [Hno _]. apply Hno, list_elem_of_fmap. by exists core. }
  split_and!; [done|by rewrite Hpools, <-app_assoc|done|done|done|by apply NoDup_cons| |].
  - intros [|i] c Hi; cbn in Hi.
    + injection Hi as <-. rewrite Hother, lookup_insert_eq by done. by rewrite Nat.add_0_r.
    + rewrite (Hw i c Hi). by replace (S idx + i)%nat with (idx + S i)%nat by lia.
  - intros c [Hne Hnc]%not_elem_of_cons. by rewrite Hother, lookup_insert_ne.
Qed.

Lemma rx_loop_spec port_id mac idx cs st st' :
  rx_loop rx_queue_setup port_id mac idx cs st = Ok st' → NoDup cs →
  Z.of_nat idx + Z.of_nat (length cs) < 2 ^ 16 →
  pools st' = pools st ∧ configured st' = configured st ∧ tx_setups st' = tx_setups st ∧
  (∀ i c, cs !! i = Some c → ∃ w, workers st !! c = Some w ∧
     workers st' !! c = Some (assign_queues port_id (Z.of_nat (idx + i)) mac w) ∧
     (port_id, Z.of_nat (idx + i), iw_mempool w) ∈ rx_setups st') ∧
  (∀ c, c ∉ cs → workers st' !! c = workers st !! c) ∧ rx_setups st ⊆ rx_setups st'.
Proof.
  revert idx st. induction cs as [|core cs IH]; intros idx st Hr Hnd Hlen; cbn in Hr.
  { injection Hr as <-. by split_and!. }
  apply NoDup_cons in Hnd as [Hnin Hnd]. cbn [length] in Hlen.
  destruct (workers st !! core) as [w|] eqn:Hw; [|done]. destruct (_ <? _); [done|].
  unfold as_u16 in Hr. rewrite Z.mod_small in Hr by lia.
  destruct (IH (S idx) _ Hr Hnd ltac:(lia)) as (Hp & Hcf & Htx & Hws & Hother & Hrx).
  cbn [pools workers configured rx_setups tx_setups] in *. split_and!; [done..| | |].
  - intros [|i] c Hi; cbn in Hi.
    + injection Hi as <-. exists w. rewrite Hother, lookup_insert_eq, Nat.add_0_r by done.
      split_and!; [done|done|]. apply Hrx, elem_of_app. right. by left.
    + assert (c ≠ core) as Hne by (intros ->; by apply Hnin; eapply list_elem_of_lookup_2).
      destruct (Hws i c Hi) as (w' & Hw' & Hs & Hin). rewrite lookup_insert_ne in Hw' by done.
      replace (idx + S i)%nat with (S idx + i)%nat by lia. by exists w'.
  - intros c [Hne Hnc]%not_elem_of_cons. by rewrite Hother, lookup_insert_ne.
  - intros x Hx. apply Hrx, elem_of_app. by left.
Qed.

Lemma tx_loop_spec port_id queues st st' :
  tx_loop tx_queue_setup port_id queues st = Ok st' →
  pools st' = pools st ∧ configured st' = configured st ∧ rx_setups st' = rx_setups st ∧ workers st' = workers st ∧
  tx_setups st ⊆ tx_setups st' ∧ ∀ q, q ∈ queues → (port_id, q) ∈ tx_setups st'.
Proof.
  revert st. induction queues as [|q queues IH]; intros st Hr; cbn in Hr.
  { injection Hr as <-. split_and!; try done. by intros q ?%not_elem_of_nil. }
  destruct (_ <? _); [done|]. destruct (IH _ Hr) as (? & ? & ? & ? & Hsub & Hin). cbn in *.
  split_and!; [done|done|done|done| |].
  - intros x Hx. apply Hsub, elem_of_app. by left.
  - intros x [->|Hx]%elem_of_cons; [|by apply Hin]. apply Hsub, elem_of_app. right. by left.
Qed.

(** What a port's step does to the workers of its cores, and to no other. *)
Lemma init_port_spec pci cs st st' :
  init_port get_port_by_name dev_info_get macaddr_get neighbors dev_configure rx_queue_setup tx_queue_setup cfg pci cs st = Ok st' →
  NoDup cs → Z.of_nat (length cs) < 2 ^ 16 - 1 →
  ∃ p, get_port_by_name pci = Ok p ∧ p < 128 ∧ pools st' = pools st ∧
    (p, Z.of_nat (length cs), tx_queues_count cfg) ∈ configured st' ∧ configured st ⊆ configured st' ∧
    (∀ i c, cs !! i = Some c → ∃ w, workers st !! c = Some w ∧
       workers st' !! c = Some (assign_queues p (Z.of_nat i) (macaddr_get p) w) ∧
       (p, Z.of_nat i, iw_mempool w) ∈ rx_setups st') ∧
    (∀ c, c ∉ cs → workers st' !! c = workers st !! c) ∧
    rx_setups st ⊆ rx_setups st' ∧ tx_setups st ⊆ tx_setups st' ∧
    (∀ q, 0 ≤ q < tx_queues_count cfg → (p, q) ∈ tx_setups st').
Proof.
  intros Hr Hnd Hlen. unfold init_port in Hr. apply res_bind_Ok in Hr as (p & Hp & Hr). exists p.
  apply res_bind_Ok in Hr as (x & Hx & Hr). unfold core_id_new in Hx. destruct (Z.ltb_spec p 128); [|done].
  destruct (dev_info_get p) as [if_index|]; [|done]. apply res_bind_Ok in Hr as (nb & _ & Hr).
  destruct (_ <? 0); [done|]. apply res_bind_Ok in Hr as (st1 & Hrx & Htx).
  destruct (rx_loop_spec _ _ _ _ _ _ Hrx Hnd) as (R1 & R2 & R3 & R4 & R5 & R6); [lia|].
  destruct (tx_loop_spec _ _ _ _ Htx) as (T1 & T2 & T3 & T4 & T5 & T6).
  cbn [pools workers configured rx_setups tx_setups] in *. unfold rx_queues_count, as_u16 in R2. rewrite Z.mod_small in R2 by lia.
  rewrite T1, T2, T3, T4, R1, R2. split_and!; try done.
  - apply elem_of_app. right. by left.
  - intros x' Hx'. apply elem_of_app. by left.
  - intros y Hy. apply T5. by rewrite R3.
  - intros q Hq. apply T6, elem_of_seqZ. lia.
Qed.

Lemma init_ports_spec ps st st' :
  init_ports get_port_by_name dev_info_get macaddr_get neighbors dev_configure rx_queue_setup tx_queue_setup cfg ps st = Ok st' →
  NoDup (concat (snd <$> ps)) → Z.of_nat (length (concat (snd <$> ps))) < 2 ^ 16 - 1 →
  pools st' = pools st ∧ configured st ⊆ configured st' ∧ rx_setups st ⊆ rx_setups st' ∧ tx_setups st ⊆ tx_setups st' ∧
  (∀ c, c ∉ concat (snd <$> ps) → workers st' !! c = workers st !! c) ∧
  ∀ pci cs i c, (pci, cs) ∈ ps → cs !! i = Some c →
    ∃ p w, get_port_by_name pci = Ok p ∧ workers st !! c = Some w ∧
      workers st' !! c = Some (assign_queues p (Z.of_nat i) (macaddr_get p) w) ∧
      (p, Z.of_nat i, iw_mempool w) ∈ rx_setups st' ∧
      (p, Z.of_nat (length cs), tx_queues_count cfg) ∈ configured st' ∧
      (∀ q, 0 ≤ q < tx_queues_count cfg → (p, q) ∈ tx_setups st').
Proof.
  revert st. induction ps as [|[pci cs] ps IH]; intros st Hr Hnd Hlen; cbn [init_ports] in Hr.
  { injection Hr as <-. split_and!; try done. by intros pci cs i c ?%not_elem_of_nil. }
  apply res_bind_Ok in Hr as (st1 & H1 & Hr). csimpl in *. cbn [concat] in *.
  apply NoDup_app in Hnd as (Hcs & Hdis & Hnd). rewrite length_app in Hlen.
  destruct (init_port_spec pci cs st st1 H1 Hcs) as (p & Hp & _ & P1 & P2 & P3 & P4 & P5 & P6 & P7 & P8); [lia|].
  destruct (IH st1 Hr Hnd ltac:(lia)) as (I1 & I2 & I3 & I4 & I5 & I6). split_and!; [by rewrite I1|by etrans|by etrans|by etrans| |].
  - intros c Hc. rewrite elem_of_app in Hc. rewrite I5, P5; [done|intros ?; apply Hc; by left|intros ?; apply Hc; by right].
  - intros pci' cs' i c [Heq|Hin]%elem_of_cons Hi.
    + injection Heq as -> ->. destruct (P4 i c Hi) as (w & Hw & Hw' & Hrx). exists p, w.
      assert (c ∉ concat (snd <$> ps)) as Hc by (apply Hdis; by eapply list_elem_of_lookup_2).
      rewrite I5 by done. split_and!; try done; [by apply I3|by apply I2|]. intros q Hq. by apply I4, P8.
    + destruct (I6 pci' cs' i c Hin Hi) as (p' & w & Hp' & Hw & Hrest).
      assert (c ∉ cs) as Hc.
      { intros Hc. apply (Hdis c Hc), list_elem_of_In, in_concat. exists cs'. rewrite <-!list_elem_of_In. split; [|by eapply list_elem_of_lookup_2].
        apply list_elem_of_fmap. by exists (pci', cs'). }
      exists p', w. by rewrite P5 in Hw.
Qed.

Lemma tx_queues_count_eq : NoDup (cores cfg) → tx_queues_count cfg = Z.of_nat (length (cores cfg)) + 1.
Proof using cores_few.
  intros Hnd. unfold tx_queues_count, cores_count, as_u16. rewrite size_list_to_set by done.
  rewrite Z.mod_small by (rewrite Z.mod_small; lia). rewrite Z.mod_small; lia.
Qed.

(** What an accepted configuration leaves in the engine, core by core. *)
Lemma dpdk_new_layout eal load eth_count lcore_count st mbufs :
  dpdk_new pool_create rte_malloc get_port_by_name dev_info_get macaddr_get neighbors dev_configure
    rx_queue_setup tx_queue_setup cfg eal load eth_count lcore_count = Ok (st, mbufs) →
  lcore_count = Z.of_nat (cores_count cfg) + 1 ∧ NoDup (cores cfg) ∧
  (∀ c w, workers st !! c = Some w → c ∈ cores cfg) ∧
  ∀ pci cs i c, (pci, cs) ∈ ports cfg → cs !! i = Some c →
    ∃ p k, get_port_by_name pci = Ok p ∧ cores cfg !! k = Some c ∧
      workers st !! c = Some (assign_queues p (Z.of_nat i) (macaddr_get p) (fresh_worker c k)) ∧
      (p, Z.of_nat i, mempool_name c) ∈ rx_setups st ∧ (p, Z.of_nat (length cs), tx_queues_count cfg) ∈ configured st ∧
      (∀ q, 0 ≤ q < tx_queues_count cfg → (p, q) ∈ tx_setups st) ∧ (i < length cs ≤ length (cores cfg))%nat.
Proof.
  intros Hnew. unfold dpdk_new in Hnew. apply res_bind_Ok in Hnew as (a & _ & Hnew).
  apply res_bind_Ok in Hnew as (st1 & Hw & Hnew). apply res_bind_Ok in Hnew as (st2 & Hp & Hnew).
  apply res_bind_Ok in Hnew as (mb & _ & Hnew). destruct (_ =? Z.of_nat (length (ports cfg))); [|done]. cbn [negb] in Hnew.
  destruct (Z.eqb_spec lcore_count (Z.of_nat (cores_count cfg) + 1)) as [Hcount|]; [|done]. injection Hnew as -> _.
  destruct (init_workers_spec 0 _ _ _ Hw NoDup_nil_2 cores_u16) as (_ & _ & _ & _ & _ & Hnd & Hws & Hother).
  destruct (init_ports_spec _ _ _ Hp Hnd cores_few) as (_ & _ & _ & _ & Hrest & Hports).
  split_and!; [done|done| |].
  - intros c w Hx. apply dec_stable. intros Hno. rewrite Hrest, Hother in Hx by done. done.
  - intros pci cs i c Hin Hi. destruct (ports_elem _ _ _ _ _ Hin Hi) as [(k & Hk)%list_elem_of_lookup_1 Hle].
    destruct (Hports pci cs i c Hin Hi) as (p & w & Hg & Hw1 & Hw2 & H3 & H4 & H5).
    rewrite (Hws k c Hk) in Hw1. injection Hw1 as <-. exists p, k. apply lookup_lt_Some in Hi. by split_and!.
Qed.

(** C23: a configuration that is accepted is laid out without conflict: its cores
    are distinct, even modulo the width of the mask — a core listed twice fails
    on the name of its pool — and none of them is the main core; core number [i]
    of a port works on receive queue [i] and transmit queue [i + 1] of that port,
    with a pool and statistics of its own; the queues were set up, within the
    counts the port was configured with, transmit queue 0 is nobody's, and no two
    workers share a queue, a pool or a place in the statistics.  Of the cores the
    layer launches, the bits of the mask, exactly those with a configured number
    find their worker, all of them when the numbers are below 128: a larger one,
    which nothing refuses, has its bit on a core without a worker, and that
    panics ([wrapped_core_panics]). *)
Theorem dpdk_new_assigns eal load eth_count lcore_count st mbufs :
  dpdk_new pool_create rte_malloc get_port_by_name dev_info_get macaddr_get neighbors dev_configure
    rx_queue_setup tx_queue_setup cfg eal load eth_count lcore_count = Ok (st, mbufs) →
  lcore_count = Z.of_nat (size (layer_cores cfg)) →
  NoDup (cores cfg) ∧ (main_lcore cfg ∉ cores cfg) ∧
  (∀ pci cs i c, (pci, cs) ∈ ports cfg → cs !! i = Some c →
     ∃ p w, get_port_by_name pci = Ok p ∧ workers st !! c = Some w ∧ iw_port_id w = p ∧
       iw_src_mac w = macaddr_get p ∧ iw_mempool w = mempool_name c ∧ cores cfg !! iw_stat w = Some c ∧
       iw_rx_queue_id w = Z.of_nat i ∧ iw_tx_queue_id w = Z.of_nat i + 1 ∧
       (p, Z.of_nat i, mempool_name c) ∈ rx_setups st ∧ (p, Z.of_nat i + 1) ∈ tx_setups st ∧
       ∃ rx tx, (p, rx, tx) ∈ configured st ∧ iw_rx_queue_id w < rx ∧ 0 < iw_tx_queue_id w < tx) ∧
  (∀ c c' w w', c ≠ c' → workers st !! c = Some w → workers st !! c' = Some w' →
     iw_mempool w ≠ iw_mempool w' ∧ iw_stat w ≠ iw_stat w' ∧
     (iw_port_id w = iw_port_id w' → iw_rx_queue_id w ≠ iw_rx_queue_id w' ∧ iw_tx_queue_id w ≠ iw_tx_queue_id w')) ∧
  (∀ id id', id ∈ main_lcore cfg :: cores cfg → id' ∈ main_lcore cfg :: cores cfg →
     id `mod` 128 = id' `mod` 128 → id = id') ∧
  (∀ c, c ∈ layer_cores cfg →
     ((∃ r, run_worker (main_lcore cfg) (workers st) c = Ok r) ↔ c ∈ main_lcore cfg :: cores cfg) ∧
     (Forall (λ id, 0 ≤ id < 128) (main_lcore cfg :: cores cfg) →
        ∃ r, run_worker (main_lcore cfg) (workers st) c = Ok r)).
Proof.
  intros Hnew Hlc. destruct (dpdk_new_layout _ _ _ _ _ _ Hnew) as (Hcount & Hnd & Hdom & Hfinal).
  pose proof (tx_queues_count_eq Hnd) as Htx.
  assert (∀ i : nat, Z.of_nat i < Z.of_nat (length (cores cfg)) → as_u16 (Z.of_nat i + 1) = Z.of_nat i + 1) as Hu16.
  { intros i Hi. unfold as_u16. apply Z.mod_small. lia. }
  destruct (layer_cores_distinct cfg) as [Hmain Hdist]; [congruence|].
  assert (∀ c, (∃ r, run_worker (main_lcore cfg) (workers st) c = Ok r) ↔ c ∈ main_lcore cfg :: cores cfg) as Hfinds.
  { intros c. unfold run_worker. rewrite elem_of_cons. destruct (Z.eqb_spec c (main_lcore cfg)) as [->|Hne].
    { split; [by left|by eexists]. }
    split.
    - intros [x Hx]. destruct (workers st !! c) as [w|] eqn:Hw; [|done]. right. by eapply Hdom.
    - intros [?|Hc]; [done|]. destruct (ports_lookup _ _ Hc) as (pci & cs & i & Hin & Hi).
      destruct (Hfinal pci cs i c Hin Hi) as (p & k & _ & _ & -> & _). by eexists. }
  split_and!; [done|done| | |done|].
  - intros pci cs i c Hin Hi. destruct (Hfinal pci cs i c Hin Hi) as (p & k & Hg & Hk & Hw' & Hrx & Hcf & Hq & Hle).
    eexists p, _. split; [done|]. split; [exact Hw'|]. cbn. rewrite Hu16 by lia.
    split_and!; try done; [apply Hq; lia|]. exists (Z.of_nat (length cs)), (tx_queues_count cfg). split; [done|]. lia.
  - intros c c' w w' Hne Hw1 Hw2.
    destruct (ports_lookup _ _ (Hdom _ _ Hw1)) as (pci & cs & i & Hin & Hi).
    destruct (ports_lookup _ _ (Hdom _ _ Hw2)) as (pci' & cs' & i' & Hin' & Hi').
    destruct (Hfinal pci cs i c Hin Hi) as (p & k & Hg & Hk & Hwk & _ & _ & _ & Hle).
    destruct (Hfinal pci' cs' i' c' Hin' Hi') as (p' & k' & Hg' & Hk' & Hwk' & _ & _ & _ & Hle').
    rewrite Hwk in Hw1. rewrite Hwk' in Hw2. injection Hw1 as <-. injection Hw2 as <-. cbn.
    rewrite !Hu16 by lia. rewrite Forall_forall in cores_u16. split_and!.
    + intros Heq%mempool_name_inj; [done|apply cores_u16; by eapply list_elem_of_lookup_2..].
    + intros ->. congruence.
    + intros ->. pose proof (port_unique _ _ _ Hg Hg') as <-.
      pose proof (ports_once _ _ _ _ devices_distinct Hin Hin') as <-.
      assert (i ≠ i') by (intros ->; congruence). lia.
  - intros c Hc. split; [apply Hfinds|]. intros Hall. apply Hfinds.
    apply elem_of_layer_cores in Hc as (id & Hid & ->). rewrite Forall_forall in Hall. by rewrite Z.mod_small by auto.
Qed.
End established.

(** A device with two cores and one with a third; pools with distinct names. *)
Definition example_config : Config :=
  {| main_lcore := 0; ports := [("0000:01:00.0"%string, [1; 2]); ("0000:02:00.0"%string, [3])] |}.
Definition example_pool (used : list string) (name : string) : bool := bool_decide (name ∉ used).
Definition example_port (pci : string) : res Z :=
  if bool_decide (pci = "0000:01:00.0"%string) then Ok 0
  else if bool_decide (pci = "0000:02:00.0"%string) then Ok 1 else Err "no such device".
Definition example_new (cfg : Config) : res (InitState * gmap Z (list Mbuf)) :=
  dpdk_new example_pool (λ _, true) example_port (λ p, Some (10 + p)) (λ p, [2; 0; 0; 0; 0; p]) (λ _, Ok [])
    (λ _ _ _, 0) (λ _ _, 0) (λ _ _, 0) cfg (Ok []) (Ok ∅) 2 4.

Lemma dpdk_new_assigns_witness :
  ∃ st, example_new example_config = Ok (st, ∅) ∧
    (iw_port_id <$> workers st !! 3, iw_tx_queue_id <$> workers st !! 3) = (Some 1, Some 1) ∧
    ∀ c, c ∈ layer_cores example_config → ∃ r, run_worker 0 (workers st) c = Ok r.
Proof.
  eexists. split; [vm_compute; reflexivity|]. split; [vm_compute; reflexivity|]. intros c Hc.
  eapply (dpdk_new_assigns example_pool (λ _, true) example_port (λ p, Some (10 + p)) (λ p, [2; 0; 0; 0; 0; p])
    (λ _, Ok []) (λ _ _ _, 0) (λ _ _, 0) (λ _ _, 0) example_config) with (mbufs := ∅) (eth_count := 2) (lcore_count := 4) (eal := Ok []) (load := Ok ∅).
  - intros used name. unfold example_pool. by intros ?%bool_decide_eq_true.
  - intros pci pci' p. unfold example_port. repeat case_bool_decide; intros; simplify_eq; congruence.
  - by apply (bool_decide_unpack _); vm_compute.
  - done.
  - by apply (bool_decide_unpack _); vm_compute.
  - vm_compute. reflexivity.
  - vm_compute. reflexivity.
  - exact Hc.
  - by apply (bool_decide_unpack _); vm_compute.
Defined.

(** Core 130 is accepted, the layer launches core 2 for it, and that core has no
    worker. *)
Definition wrapped_config : Config := {| main_lcore := 0; ports := [("0000:01:00.0"%string, [130])] |}.

Example wrapped_core_panics :
  ∃ st, dpdk_new example_pool (λ _, true) example_port (λ p, Some (10 + p)) (λ p, [2; 0; 0; 0; 0; p]) (λ _, Ok [])
      (λ _ _ _, 0) (λ _ _, 0) (λ _ _, 0) wrapped_config (Ok []) (Ok ∅) 1 (Z.of_nat (size (layer_cores wrapped_config))) = Ok (st, ∅) ∧
    layer_cores wrapped_config = {[0; 2]} ∧ is_panic (run_worker 0 (workers st) 2) = true.
Proof. eexists. split; [vm_compute; reflexivity|]. split; [by apply (bool_decide_unpack _); vm_compute|vm_compute; reflexivity]. Qed.

(** A core listed twice, or the main core among them, is refused. *)
Example core_twice_refused :
  example_new {| main_lcore := 0; ports := [("0000:01:00.0"%string, [1; 1])] |} = Err "dpdk error".
Proof. vm_compute. reflexivity. Qed.

(** A receive queue is drained exactly when a burst comes back empty: with
    traffic that never pauses — the ports are stopped only afterwards — no
    number of bursts ends the loop. *)
Theorem drain_needs_silence rx_burst :
  (∃ fuel n, drain fuel rx_burst 0 = Some n) ↔ ∃ i, rx_burst i = 0.
Proof.
  assert (∀ fuel i n, drain fuel rx_burst i = Some n → rx_burst n = 0) as Hd.
  { intros fuel. induction fuel as [|fuel IH]; intros i n Hn; [done|]. cbn in Hn.
    destruct (Z.eqb_spec (rx_burst i) 0) as [H0|]; [by injection Hn as <-|by eapply IH]. }
  split; [intros (fuel & n & Hn); exists n; by eapply Hd|].
  intros [i Hi]. assert (∀ k j, (j + k = i)%nat → ∃ n, drain (S k) rx_burst j = Some n) as Hk.
  { intros k. induction k as [|k IH]; intros j Hj; cbn [drain].
    - replace j with i by lia. rewrite Hi. by eexists.
    - destruct (rx_burst j =? 0); [by eexists|]. apply (IH (S j)). lia. }
  destruct (Hk i 0%nat eq_refl) as [n Hn]. by exists (S i), n.
Qed.
