(* ===== verification/Transport.v ===== *)
(** * Under the HTTP engines: buffers and TLS
    ([dwd-core/src/engine/http/io.rs], [engine/http/tls.rs], [engine/http3/tls.rs])

    [TokioIo] lets hyper read from a tokio stream and the other way round.  Both
    libraries read into a buffer with a filled and an initialised part; the
    adapter hands the unfilled part of one buffer to the other library as a
    buffer of its own, over the same memory.  rustls is an environment. *)
From S2P Require Import Prelude Machine.

(** ** Buffers

    [tokio::io::ReadBuf] and [hyper::rt::ReadBuf]: the memory, how many bytes of
    it are filled, how many are known to be initialised. *)
Record ReadBuf := { raw : list Z; filled : nat; initialized : nat }.

Definition readbuf_ok (b : ReadBuf) : Prop := (filled b ≤ initialized b ≤ length (raw b))%nat.
Definition remaining (b : ReadBuf) : nat := (length (raw b) - filled b)%nat.
Definition filled_bytes (b : ReadBuf) : list Z := take (filled b) (raw b).

(** [ReadBuf::uninit] over a piece of memory. *)
Definition uninit (memory : list Z) : ReadBuf := {| raw := memory; filled := 0; initialized := 0 |}.

(** The memory of the unfilled part, and the buffer when that part has changed. *)
Definition unfilled (b : ReadBuf) : list Z := drop (filled b) (raw b).
Definition with_unfilled (b : ReadBuf) (memory : list Z) : ReadBuf :=
  {| raw := take (filled b) (raw b) ++ memory; filled := filled b; initialized := initialized b |}.

(** [put_slice]. *)
Definition put_slice (data : list Z) (b : ReadBuf) : ReadBuf :=
  {| raw := take (filled b) (raw b) ++ data ++ drop (filled b + length data) (raw b);
     filled := filled b + length data; initialized := Nat.max (initialized b) (filled b + length data) |}.

(** hyper's [ReadBufCursor::advance]. *)
Definition advance (n : nat) (b : ReadBuf) : ReadBuf :=
  {| raw := raw b; filled := filled b + n; initialized := Nat.max (initialized b) (filled b + n) |}.

(** tokio's [assume_init] and [set_filled]; the latter panics beyond the
    initialised part. *)
Definition assume_init (n : nat) (b : ReadBuf) : ReadBuf :=
  {| raw := raw b; filled := filled b; initialized := Nat.max (initialized b) (filled b + n) |}.
Definition set_filled (n : nat) (b : ReadBuf) : res ReadBuf :=
  if (n <=? initialized b)%nat then Ok {| raw := raw b; filled := n; initialized := initialized b |}
  else Panic "filled must not become larger than initialized".

(** ** Readers *)

Inductive PollResult := ReadReady | ReadPending | ReadFailed (err : string).
#[export] Instance poll_result_eq_dec : EqDecision PollResult.
Proof. solve_decision. Defined.

(** [poll_read] of either library. *)
Definition reader (S : Type) : Type := S → ReadBuf → res (S * ReadBuf * PollResult).

Section adapter.
Context {S : Type} (inner : reader S).

(** [TokioIo] as hyper's [Read] over tokio's [AsyncRead]. *)
Definition hyper_poll_read : reader S := λ s buf,
  let! r := inner s (uninit (unfilled buf)) in
  let '(s, tbuf, p) := r in
  match p with
  | ReadReady => Ok (s, advance (filled tbuf) (with_unfilled buf (raw tbuf)), ReadReady)
  | p => Ok (s, with_unfilled buf (raw tbuf), p)
  end.

(** [TokioIo] as tokio's [AsyncRead] over hyper's [Read]. *)
Definition tokio_poll_read : reader S := λ s tbuf,
  let! r := inner s (uninit (unfilled tbuf)) in
  let '(s, buf, p) := r in
  match p with
  | ReadReady =>
      let! t := set_filled (filled tbuf + filled buf) (assume_init (filled buf) (with_unfilled tbuf (raw buf))) in
      Ok (s, t, ReadReady)
  | p => Ok (s, with_unfilled tbuf (raw buf), p)
  end.
End adapter.

(** The writing half hands every call through. *)
Record writer (S : Type) := {
  poll_write : S → list Z → res (S * PollResult * nat);
  poll_flush : S → res (S * PollResult);
  poll_shutdown : S → res (S * PollResult);
  is_write_vectored : S → bool;
  poll_write_vectored : S → list (list Z) → res (S * PollResult * nat);
}.
Arguments poll_write {S} _.
Arguments poll_flush {S} _.
Arguments poll_shutdown {S} _.
Arguments is_write_vectored {S} _.
Arguments poll_write_vectored {S} _.

Definition hyper_write {S} (inner : writer S) : writer S :=
  {| poll_write s buf := poll_write inner s buf; poll_flush s := poll_flush inner s;
     poll_shutdown s := poll_shutdown inner s; is_write_vectored s := is_write_vectored inner s;
     poll_write_vectored s bufs := poll_write_vectored inner s bufs |}.
Definition tokio_write {S} (inner : writer S) : writer S :=
  {| poll_write s buf := poll_write inner s buf; poll_flush s := poll_flush inner s;
     poll_shutdown s := poll_shutdown inner s; is_write_vectored s := is_write_vectored inner s;
     poll_write_vectored s bufs := poll_write_vectored inner s bufs |}.

(** ** A stream of bytes behind a reader *)

(** A source gives at most as many bytes as there is room for. *)
Definition source (S : Type) : Type := S → nat → S * list Z * PollResult.

Definition source_ok {S} (src : source S) : Prop :=
  ∀ s n, let '(_, data, p) := src s n in (length data ≤ n)%nat ∧ (p ≠ ReadReady → data = []).

(** The contract of [poll_read]: it appends what the source gives to the filled
    part and touches nothing of what was filled. *)
Definition reads_from {S} (src : source S) (r : reader S) : Prop :=
  ∀ s b, readbuf_ok b →
    let '(s', data, p) := src s (remaining b) in
    ∃ b', r s b = Ok (s', b', p) ∧ readbuf_ok b' ∧ length (raw b') = length (raw b) ∧
      filled_bytes b' = filled_bytes b ++ data.

(** A reader that does so. *)
Definition source_reader {S} (src : source S) : reader S := λ s b,
  let '(s', data, p) := src s (remaining b) in Ok (s', put_slice data b, p).

Lemma put_slice_spec data b :
  readbuf_ok b → (length data ≤ remaining b)%nat →
  readbuf_ok (put_slice data b) ∧ length (raw (put_slice data b)) = length (raw b) ∧
  filled_bytes (put_slice data b) = filled_bytes b ++ data.
Proof.
  unfold readbuf_ok, remaining, filled_bytes. intros Hb Hd. cbn.
  rewrite !length_app, length_take, length_drop. split_and!; [lia..|].
  rewrite app_assoc, take_app_le by (rewrite length_app, length_take; lia).
  rewrite take_ge; [done|]. rewrite length_app, length_take. lia.
Qed.

Lemma source_reader_reads {S} (src : source S) : source_ok src → reads_from src (source_reader src).
Proof.
  intros Hsrc s b Hb. unfold source_reader. pose proof (Hsrc s (remaining b)) as Hd.
  destruct (src s (remaining b)) as [[s' data] p]. destruct Hd as [Hd _].
  destruct (put_slice_spec data b Hb Hd) as (H1 & H2 & H3). eexists. split; [done|]. by split_and!.
Qed.

(** A read into the unfilled part, seen from the whole buffer. *)
Lemma uninit_remaining b : readbuf_ok b → remaining (uninit (unfilled b)) = remaining b ∧ readbuf_ok (uninit (unfilled b)).
Proof. unfold readbuf_ok, remaining, uninit, unfilled. cbn. rewrite length_drop. lia. Qed.

Lemma advance_unfilled b memory n :
  readbuf_ok b → length memory = remaining b → (n ≤ length memory)%nat →
  readbuf_ok (advance n (with_unfilled b memory)) ∧ length (raw (advance n (with_unfilled b memory))) = length (raw b) ∧
  filled_bytes (advance n (with_unfilled b memory)) = filled_bytes b ++ take n memory.
Proof.
  unfold readbuf_ok, remaining, filled_bytes. intros Hb Hm Hn. cbn.
  rewrite length_app, length_take. split_and!; [lia..|]. rewrite take_app, length_take, take_take.
  f_equal; f_equal; lia.
Qed.

Lemma with_unfilled_spec b memory :
  readbuf_ok b → length memory = remaining b →
  readbuf_ok (with_unfilled b memory) ∧ length (raw (with_unfilled b memory)) = length (raw b) ∧
  filled_bytes (with_unfilled b memory) = filled_bytes b.
Proof.
  unfold readbuf_ok, remaining, filled_bytes. intros Hb Hm. cbn. rewrite length_app, length_take. split_and!; [lia..|].
  rewrite take_app, length_take, take_take. replace (filled b - filled b `min` length (raw b))%nat with 0%nat by lia.
  rewrite app_nil_r. f_equal. lia.
Qed.

(** What an adapter knows of the read it passed on. *)
Lemma inner_read {S} (src : source S) r s b :
  source_ok src → reads_from src r → readbuf_ok b →
  let '(s', data, p) := src s (remaining b) in
  ∃ t, r s (uninit (unfilled b)) = Ok (s', t, p) ∧ length (raw t) = remaining b ∧
    (filled t ≤ length (raw t))%nat ∧ take (filled t) (raw t) = data ∧ (p ≠ ReadReady → data = []).
Proof.
  intros Hsrc Hr Hb. destruct (uninit_remaining b Hb) as [Hrem Hok]. specialize (Hr s _ Hok). rewrite Hrem in Hr.
  pose proof (Hsrc s (remaining b)) as Hd. destruct (src s (remaining b)) as [[s' data] p].
  destruct Hr as (t & Hrt & Ht & Hlen & Hf), Hd as [Hd Hp]. exists t. unfold readbuf_ok in Ht.
  split_and!; [done|rewrite Hlen; unfold uninit, unfilled, remaining; cbn; by rewrite length_drop|lia|exact Hf|done].
Qed.

Lemma hyper_reads {S} (src : source S) r : source_ok src → reads_from src r → reads_from src (hyper_poll_read r).
Proof.
  intros Hsrc Hr s b Hb. pose proof (inner_read src r s b Hsrc Hr Hb) as Hin. unfold hyper_poll_read.
  destruct (src s (remaining b)) as [[s' data] p]. destruct Hin as (t & -> & Hmem & Hle & Hdata & Hp). cbn [res_bind].
  destruct (with_unfilled_spec b (raw t) Hb Hmem) as (W1 & W2 & W3).
  destruct p as [| |e]; [|eexists; (split; [done|]); rewrite Hp, app_nil_r by done; by split_and!..].
  destruct (advance_unfilled b (raw t) (filled t) Hb Hmem Hle) as (H1 & H2 & H3).
  eexists. split; [done|]. split_and!; [done|done|]. by rewrite H3, Hdata.
Qed.

(** Filling after marking as initialised is advancing. *)
Lemma set_filled_advance b n :
  set_filled (filled b + n) (assume_init n b) = Ok (advance n b).
Proof. unfold set_filled. cbn. destruct (Nat.leb_spec (filled b + n) (initialized b `max` (filled b + n))); [done|lia]. Qed.

Lemma tokio_hyper {S} (r : reader S) s b : tokio_poll_read r s b = hyper_poll_read r s b.
Proof.
  unfold tokio_poll_read, hyper_poll_read. destruct (r s (uninit (unfilled b))) as [[[s' t] p]| |]; [|done..].
  cbn [res_bind]. destruct p; [|done..].
  pose proof (set_filled_advance (with_unfilled b (raw t)) (filled t)) as Hs. cbn [filled with_unfilled] in Hs.
  by rewrite Hs.
Qed.

(** C29: [TokioIo] is transparent in both directions, and so is one around the
    other: whatever reader it wraps, a read appends to the filled part exactly
    what the wrapped stream gives for the room there is, leaves what was filled
    alone, reports pending reads and errors as they are without filling
    anything, keeps the buffer within its memory, and never trips the check of
    [set_filled]; the two directions are one function. *)
Theorem tokio_io_transparent {S} (src : source S) (r : reader S) :
  source_ok src → reads_from src r →
  reads_from src (hyper_poll_read r) ∧ reads_from src (tokio_poll_read r) ∧
  reads_from src (tokio_poll_read (hyper_poll_read r)) ∧
  ∀ s b, tokio_poll_read r s b = hyper_poll_read r s b.
Proof.
  intros Hsrc Hr. pose proof (hyper_reads src r Hsrc Hr) as Hh.
  assert (∀ r', reads_from src r' → reads_from src (tokio_poll_read r')) as Ht.
  { intros r' Hr' s b Hb. rewrite tokio_hyper. by apply (hyper_reads src r' Hsrc Hr'). }
  split_and!; [done|by apply Ht|by apply Ht|apply tokio_hyper].
Qed.

(** A stream that holds bytes, read a piece at a time. *)
Definition bytes_source : source (list Z) := λ s n, (drop (n `min` 3) s, take (n `min` 3) s, ReadReady).

Lemma bytes_source_ok : source_ok bytes_source.
Proof. intros s n. cbn. split; [rewrite length_take; lia|done]. Qed.

Lemma tokio_io_transparent_witness :
  let r := source_reader bytes_source in
  let b := {| raw := [9; 0; 0; 0; 0]; filled := 1; initialized := 1 |} in
  ∃ b', tokio_poll_read (hyper_poll_read r) [1; 2; 3; 4] b = Ok ([4], b', ReadReady) ∧ filled_bytes b' = [9; 1; 2; 3].
Proof.
  intros r b. destruct (tokio_io_transparent bytes_source r bytes_source_ok (source_reader_reads _ bytes_source_ok)) as (_ & _ & H & _).
  destruct (H [1; 2; 3; 4] b) as (b' & Hr & _ & _ & Hf); [unfold readbuf_ok; cbn; lia|]. exists b'. by split.
Defined.

(** ** TLS *)

(** Protocol versions and what a rustls client is configured with. *)
Inductive ProtocolVersion := TLS12 | TLS13.
Record ClientConfig := {
  protocol_versions : list ProtocolVersion;
  alpn_protocols : list string;
  verifies_chain : bool;        (* the verifier looks at the certificate chain *)
  client_auth : bool;
}.

Definition ALPN_HTTP11 : string := "http/1.1".
Definition ALPN_H3 : string := "h3".

Module Tls12.
(** [engine/http/tls.rs], the default versions of the library. *)
Definition insecure_client_config : ClientConfig :=
  {| protocol_versions := [TLS13; TLS12]; alpn_protocols := [ALPN_HTTP11]; verifies_chain := false; client_auth := false |}.
End Tls12.

Module Tls13.
(** [engine/http3/tls.rs]. *)
Definition insecure_client_config : ClientConfig :=
  {| protocol_versions := [TLS13]; alpn_protocols := [ALPN_H3]; verifies_chain := false; client_auth := false |}.
End Tls13.

Section tls.
Context {Cert Sig Message Ip : Type}.

Inductive ServerName := DnsName (name : string) | IpAddress (ip : Ip).

(** The library's check of a handshake signature, and its reading of a server
    name: a host name or an address. *)
Context (signature_ok : Message → Cert → Sig → bool) (parse_name : string → option ServerName).

(** [NoVerifier]: any chain is accepted, signatures are checked as usual. *)
Definition verify_server_cert (end_entity : Cert) (intermediates : list Cert) : res unit := Ok tt.
Definition verify_signature (message : Message) (cert : Cert) (dss : Sig) : res unit :=
  if signature_ok message cert dss then Ok tt else Err "invalid signature".

Record Tls := { connector : ClientConfig; server_name : ServerName }.

(** [Tls::new]. *)
Definition tls_new (name : option string) (ip : Ip) : res Tls :=
  let! sn := match name with
             | Some name => match parse_name name with Some sn => Ok sn | None => Err "invalid dns name" end
             | None => Ok (IpAddress ip)
             end in
  Ok {| connector := Tls12.insecure_client_config; server_name := sn |}.

(** The name a handshake puts on the wire: host names only. *)
Definition sni (t : Tls) : option string :=
  match server_name t with DnsName name => Some name | IpAddress _ => None end.

(** What the handshake of [Tls::connect] asks of the verifier. *)
Definition connect (t : Tls) (chain : Cert * list Cert) (message : Message) (dss : Sig) : res unit :=
  let! _ := verify_server_cert (fst chain) (snd chain) in
  verify_signature message (fst chain) dss.

(** A client exists unless the name given is malformed; it shows that name, or
    none for an address; any chain will do for it, but not one whose key the
    peer does not have. *)
Theorem tls_accepts_any_chain name ip :
  match tls_new name ip with
  | Ok t => server_name t = (match name ≫= parse_name with Some sn => sn | None => IpAddress ip end) ∧
      (∀ n, name = Some n → is_Some (parse_name n)) ∧ (name = None → sni t = None) ∧
      ∀ chain message dss, connect t chain message dss = Ok tt ↔ signature_ok message (fst chain) dss = true
  | Err _ => ∃ n, name = Some n ∧ parse_name n = None
  | Panic _ => False
  end.
Proof.
  unfold tls_new. destruct name as [n|]; [destruct (parse_name n) as [sn|] eqn:Hn|]; cbn; rewrite ?Hn.
  - split_and!; [done|intros ? [= <-]; by eexists|done|]. intros chain message dss. unfold connect, verify_signature. cbn.
    by destruct (signature_ok _ _ _).
  - by exists n.
  - split_and!; [done|done|done|]. intros chain message dss. unfold connect, verify_signature. cbn.
    by destruct (signature_ok _ _ _).
Qed.
End tls.
