(* ===== verification/Engine.v ===== *)
(** * The engines ([dwd-core/src/engine.rs], [engine/*/engine.rs])

    [Engine::new] of a mode makes the limits and the statistics, [Engine::run]
    builds the workers and runs them on threads.  What a run of an engine leaves
    behind is the list of its threads, each with the workers it runs: the
    arguments a worker is made with, the worker, and the names of the limit it
    reads and of the statistics it counts into, which it shares. *)
From S2P Require Import Prelude Machine F64 Time Shaper Rounding RateControl Stat Produce Pool Task Seam Udp Http HttpRaw Http3 Jsonline Cfg Transport System.

(** [v[i]]. *)
Definition index {A} (v : list A) (i : nat) : res A :=
  match v !! i with Some x => Ok x | None => Panic "index out of bounds" end.

(** ** Workers *)

Record HttpArgs := {
  ha_addr : SocketAddr;
  ha_bind : VecProduce SocketAddr;
  ha_data : VecProduce Request;
  ha_tls : option (Tls (Ip := IpAddr));
  ha_requests_per_socket : RequestsPerSocket;
  ha_timeout : Duration;
  ha_tcp_linger : option Z;
  ha_tcp_no_delay : bool;
}.

Record HttpRawArgs := {
  ra_addr : SocketAddr;
  ra_bind : VecProduce SocketAddr;
  ra_data : VecProduce bytes;
  ra_requests_per_sock : Z;
  ra_timeout : Duration;
  ra_tcp_linger : option Z;
  ra_tcp_no_delay : bool;
}.

Record Http3Args := {
  h3a_addr : SocketAddr;
  h3a_server_name : string;
  h3a_bind : VecProduce SocketAddr;
  h3a_data : VecProduce Request;
  h3a_client_config : ClientConfig;
  h3a_requests_per_conn : RequestsPerConn;
  h3a_timeout : Duration;
}.

Record UdpArgs := {
  ua_addr : SocketAddr;
  ua_bind : VecProduce SocketAddr;
  ua_data : OneProduce bytes;
  ua_requests_per_sock : Z;
}.

Section engines.
Context {Sender Sock Ep Conn : Type}.

(** A worker of each engine as its loop starts. *)
Inductive Worker :=
  | HttpTask (args : HttpArgs) (w : ShapedCoroWorker (HttpWorker Sender))
  | HttpRawTask (args : HttpRawArgs) (w : ShapedCoroWorker (RawWorker Sock))
  | Http3Task (args : Http3Args) (w : ShapedCoroWorker (Http3Worker Ep Conn))
  | UdpTask (args : UdpArgs) (shaper : Shaper) (w : UdpWorker Sock).

(** With the names of what it shares: the limit among all limits, the
    statistics among those of the threads. *)
Record Job := { job_worker : Worker; job_limit : nat; job_stat : nat }.

(** A thread: the workers it starts and how it ends. *)
Definition Thread : Type := traced Job unit.

(** What the machine answers to a run. *)
Record PoolEnv := {
  pe_spawn : nat → res unit;             (* [Builder::spawn] of a thread *)
  pe_runtime : nat → res unit;           (* [LocalRuntime::new] in a thread *)
  pe_now : nat → nat → Instant;          (* the clock at [Shaper::new] of a thread's task *)
  pe_draw : nat → nat → Z → Z → Z;       (* [random_range] of a thread's task *)
  pe_await : Job → res unit;             (* how a worker ends *)
}.

Context (parse_name : string → option (ServerName (Ip := IpAddr))).
(** [QuicClientConfig::try_from]. *)
Context (quic_client_config : ClientConfig → res unit).
Context (env : PoolEnv).

(** ** The engines *)

(** [limits] by name: per thread, or one for each. *)
Record Engine (C L S : Type) := { eng_cfg : C; eng_limits : L; eng_stat : S }.
Arguments eng_cfg {C L S} _.
Arguments eng_limits {C L S} _.
Arguments eng_stat {C L S} _.

Definition WebEngineStat : Type :=
  Stat TxWorkerStat RxWorkerStat SockWorkerStat HttpWorkerStat unit.
Definition UdpEngineStat : Type := Stat TxWorkerStat unit SockWorkerStat unit unit.

Definition WebEngine (C : Type) : Type := Engine C (list (list nat)) WebEngineStat.

(** [Engine::new] of the HTTP engines. *)
Definition web_engine_new {C} (num_jobs threads : nat) (c : C) : WebEngine C :=
  {| eng_cfg := c; eng_limits := engine_limits num_jobs threads;
     eng_stat := stat_new (replicate threads default_value) |}.

Definition http_engine_new {T} (c : HttpConfig T) : WebEngine (HttpConfig T) :=
  web_engine_new (http_concurrency c) (threads (http_native c)) c.
Definition http3_engine_new {T} (c : Http3Config T) : WebEngine (Http3Config T) :=
  web_engine_new (h3_concurrency c) (threads (h3_native c)) c.

Definition udp_engine_new (c : UdpConfig) : Engine UdpConfig (list nat) UdpEngineStat :=
  let num_threads := threads (udp_native c) in
  {| eng_cfg := c; eng_limits := seq 0 num_threads; eng_stat := stat_new (replicate num_threads default_value) |}.

(** The factory of the threads, shared by the HTTP engines: [make idx] is the
    worker of task [idx]. *)
Definition web_thread {C} (e : WebEngine C) (make : nat → nat → res Worker) (tid : nat) : res Thread :=
  let! _ := index (stats (eng_stat e)) tid in
  let! limits := index (eng_limits e) tid in
  let! num_tasks := tasks_of_thread limits in
  Ok (local_task_pool_run (pe_runtime env tid)
        (λ idx, let! w := make tid idx in
                let! limit := index limits idx in
                Ok {| job_worker := w; job_limit := limit; job_stat := tid |})
        (pe_await env) num_tasks).

Definition shaped {W} (tid idx : nat) (job : W) : ShapedCoroWorker W :=
  {| task := job; shaper := Shaper.new 0 (pe_now env tid idx) |}.

Definition gen_of (c : NativeLoadConfig) : RequestsPerSocket :=
  RequestsPerSocket.of_config (get_requests_per_socket c) (get_requests_per_socket_deviation c).

(** [Engine::run], http/engine.rs. *)
Definition http_args (c : HttpConfig Request) (tls : option Tls) : HttpArgs :=
  {| ha_addr := http_addr c; ha_bind := bind_endpoints (http_native c);
     ha_data := vec_produce_new (http_requests c); ha_tls := tls;
     ha_requests_per_socket := gen_of (http_native c); ha_timeout := http_timeout c;
     ha_tcp_linger := http_tcp_linger c; ha_tcp_no_delay := http_tcp_no_delay c |}.

Definition http_make (c : HttpConfig Request) (tls : option Tls) (tid idx : nat) : res Worker :=
  let! job := http_new (gen_of (http_native c)) (pe_draw env tid idx) in
  Ok (HttpTask (http_args c tls) (shaped tid idx job)).

Definition http_engine_run (e : WebEngine (HttpConfig Request)) : traced Thread unit :=
  let c := eng_cfg e in
  let* tls := tcall (if http_tls c
                     then let! t := tls_new parse_name (http_server_name c) (ip (http_addr c)) in Ok (Some t)
                     else Ok None) in
  thread_pool_run (web_thread e (http_make c tls)) (pe_spawn env) snd (threads (http_native c)).

(** [EngineRaw::run], http/engine_raw.rs. *)
Definition raw_args (c : HttpConfig bytes) : HttpRawArgs :=
  {| ra_addr := http_addr c; ra_bind := bind_endpoints (http_native c);
     ra_data := vec_produce_new (http_requests c);
     ra_requests_per_sock := get_requests_per_socket (http_native c); ra_timeout := http_timeout c;
     ra_tcp_linger := http_tcp_linger c; ra_tcp_no_delay := http_tcp_no_delay c |}.

Definition raw_make (c : HttpConfig bytes) (tid idx : nat) : res Worker :=
  Ok (HttpRawTask (raw_args c) (shaped tid idx raw_new)).

Definition raw_engine_run (e : WebEngine (HttpConfig bytes)) : traced Thread unit :=
  let c := eng_cfg e in
  if http_tls c
  then tcall (Err "TLS (HTTPS) is not supported in http/raw mode; use the `http` mode instead")
  else thread_pool_run (web_thread e (raw_make c)) (pe_spawn env) snd (threads (http_native c)).

(** [Engine::run], http3/engine.rs. *)
Definition http3_args (c : Http3Config Request) : Http3Args :=
  {| h3a_addr := h3_addr c; h3a_server_name := h3_server_name c; h3a_bind := bind_endpoints (h3_native c);
     h3a_data := vec_produce_new (h3_requests c); h3a_client_config := Tls13.insecure_client_config;
     h3a_requests_per_conn := gen_of (h3_native c); h3a_timeout := h3_timeout c |}.

Definition http3_make (c : Http3Config Request) (tid idx : nat) : res Worker :=
  let! job := http3_new (gen_of (h3_native c)) (pe_draw env tid idx) in
  Ok (Http3Task (http3_args c) (shaped tid idx job)).

Definition http3_engine_run (e : WebEngine (Http3Config Request)) : traced Thread unit :=
  let c := eng_cfg e in
  let* _ := tcall (quic_client_config Tls13.insecure_client_config) in
  thread_pool_run (web_thread e (http3_make c)) (pe_spawn env) snd (threads (h3_native c)).

(** [Engine::run], udp/engine.rs: a thread is one worker, made before the
    thread is. *)
Definition udp_args (c : UdpConfig) : UdpArgs :=
  {| ua_addr := udp_addr c; ua_bind := bind_endpoints (udp_native c);
     ua_data := {| one_v := b "GET / HTTP/1.1" ++ CRLF ++ CRLF |};
     ua_requests_per_sock := get_requests_per_socket (udp_native c) |}.

Definition udp_job (c : UdpConfig) (tid limit : nat) : Job :=
  {| job_worker := UdpTask (udp_args c) (Shaper.new 0 (pe_now env tid 0)) udp_new;
     job_limit := limit; job_stat := tid |}.

Definition udp_thread (e : Engine UdpConfig (list nat) UdpEngineStat) (tid : nat) : res Thread :=
  let! _ := index (stats (eng_stat e)) tid in
  let! limit := index (eng_limits e) tid in
  let job := udp_job (eng_cfg e) tid limit in
  Ok (let* _ := temit job in tcall (pe_await env job)).

Definition udp_engine_run (e : Engine UdpConfig (list nat) UdpEngineStat) : traced Thread unit :=
  thread_pool_run (udp_thread e) (pe_spawn env) snd (threads (udp_native (eng_cfg e))).

(** ** [Box<dyn Engine>] *)

Inductive BoxedEngine :=
  | BoxHttp (e : WebEngine (HttpConfig Request))
  | BoxHttpRaw (e : WebEngine (HttpConfig bytes))
  | BoxHttp3 (e : WebEngine (Http3Config Request))
  | BoxUdp (e : Engine UdpConfig (list nat) UdpEngineStat).

(** [build], without the feature "dpdk". *)
Definition build (mode : ModeConfig) : BoxedEngine :=
  match mode with
  | HttpModeConfig c => BoxHttp (http_engine_new c)
  | HttpRawModeConfig c => BoxHttpRaw (http_engine_new c)
  | Http3ModeConfig c => BoxHttp3 (http3_engine_new c)
  | UdpModeConfig c => BoxUdp (udp_engine_new c)
  end.

(** [Engine::limits], [Engine::generator], [Engine::describe] and [Engine::run]. *)
Definition limits (e : BoxedEngine) : list nat :=
  match e with
  | BoxHttp e => concat (eng_limits e)
  | BoxHttpRaw e => concat (eng_limits e)
  | BoxHttp3 e => concat (eng_limits e)
  | BoxUdp e => eng_limits e
  end.

Definition engine_generator (e : BoxedEngine) : Z :=
  match e with
  | BoxHttp e => shared_generator (eng_stat e)
  | BoxHttpRaw e => shared_generator (eng_stat e)
  | BoxHttp3 e => shared_generator (eng_stat e)
  | BoxUdp e => shared_generator (eng_stat e)
  end.

Definition kind (e : BoxedEngine) : EngineKind :=
  match e with
  | BoxHttp _ => HttpEngine
  | BoxHttpRaw _ => HttpEngineRaw
  | BoxHttp3 _ => Http3Engine
  | BoxUdp _ => UdpEngine
  end.

Definition run (e : BoxedEngine) : traced Thread unit :=
  match e with
  | BoxHttp e => http_engine_run e
  | BoxHttpRaw e => raw_engine_run e
  | BoxHttp3 e => http3_engine_run e
  | BoxUdp e => udp_engine_run e
  end.


(** ** What a run starts *)

(** The threads and jobs of a mode. *)
Definition threads_of (mode : ModeConfig) : nat :=
  match mode with
  | HttpModeConfig c => threads (http_native c)
  | HttpRawModeConfig c => threads (http_native c)
  | Http3ModeConfig c => threads (h3_native c)
  | UdpModeConfig c => threads (udp_native c)
  end.
Definition jobs_of (mode : ModeConfig) : nat :=
  match mode with
  | HttpModeConfig c => http_concurrency c
  | HttpRawModeConfig c => http_concurrency c
  | Http3ModeConfig c => h3_concurrency c
  | UdpModeConfig c => threads (udp_native c)
  end.
Definition native_of (mode : ModeConfig) : NativeLoadConfig :=
  match mode with
  | HttpModeConfig c => http_native c
  | HttpRawModeConfig c => http_native c
  | Http3ModeConfig c => h3_native c
  | UdpModeConfig c => udp_native c
  end.

(** Counts are [NonZero], the others [u64]. *)
Definition mode_ok (mode : ModeConfig) : Prop :=
  (0 < threads_of mode)%nat ∧ (0 < jobs_of mode)%nat ∧
  is_u64 (get_requests_per_socket (native_of mode)) ∧ is_u64 (get_requests_per_socket_deviation (native_of mode)).

(** A machine that can start what it is asked to. *)
Definition env_ok : Prop :=
  (∀ t, pe_spawn env t = Ok tt) ∧ (∀ t, pe_runtime env t = Ok tt) ∧
  ∀ t idx, RequestsPerSocket.fair (pe_draw env t idx).

(** The configurations an engine refuses. *)
Definition refused (mode : ModeConfig) : Prop :=
  match mode with
  | HttpModeConfig c => http_tls c = true ∧ ∃ name, http_server_name c = Some name ∧ parse_name name = None
  | HttpRawModeConfig c => http_tls c = true
  | _ => False
  end.

(** An empty bucket, made when the clock was read for one of the tasks. *)
Definition new_shaper (sh : Shaper) : Prop := ∃ t idx, sh = Shaper.new 0 (pe_now env t idx).

Lemma shaped_new {W} t idx (job : W) : new_shaper (shaper (shaped t idx job)).
Proof. by exists t, idx. Qed.

Lemma udp_new_shaper t : new_shaper (Shaper.new 0 (pe_now env t 0)).
Proof. by exists t, 0%nat. Qed.

(** A worker as it is made for a mode: with the arguments of the configuration,
    without a connection, with clear books and an empty bucket. *)
Definition made_for (mode : ModeConfig) (w : Worker) : Prop :=
  match mode, w with
  | HttpModeConfig c, HttpTask args w =>
      (∃ tls, args = http_args c tls ∧ (http_tls c = false ↔ tls = None)) ∧
      hw_stream (task w) = None ∧ hw_stat (task w) = default_value ∧ new_shaper (shaper w) ∧
      0 ≤ requests_per_sock_left (task w) ≤ Z.max 1 (RequestsPerSocket.most (gen_of (http_native c)))
  | HttpRawModeConfig c, HttpRawTask args w =>
      args = raw_args c ∧ task w = raw_new ∧ new_shaper (shaper w)
  | Http3ModeConfig c, Http3Task args w =>
      args = http3_args c ∧ conn (task w) = None ∧ endpoint (task w) = None ∧ h3_stat (task w) = default_value ∧
      new_shaper (shaper w) ∧
      0 ≤ requests_per_conn_left (task w) ≤ Z.max 1 (RequestsPerSocket.most (gen_of (h3_native c)))
  | UdpModeConfig c, UdpTask args sh w => args = udp_args c ∧ w = udp_new ∧ new_shaper sh
  | _, _ => False
  end.

(** The workers of the threads a run has started. *)
Definition jobs_started (ts : list Thread) : list Job := concat (fst <$> ts).

(** What a pool of threads for [jobs] jobs with the limits [lims] starts. *)
Definition pool_starts (threads jobs : nat) (lims : list nat) (Q : Worker → Prop) (run : traced Thread unit) : Prop :=
  let '(ts, r) := run in
  length ts = (threads `min` jobs)%nat ∧
  job_limit <$> jobs_started ts = lims ∧
  (∀ t th j, ts !! t = Some th → j ∈ fst th → job_stat j = t ∧ Q (job_worker j)) ∧
  ((jobs < threads)%nat → is_panic r = true) ∧
  ((threads ≤ jobs)%nat → (∀ j, pe_await env j = Ok tt) → r = Ok tt).

Lemma index_lt {A} (v : list A) i : (i < length v)%nat → ∃ x, v !! i = Some x ∧ index v i = Ok x.
Proof. intros [x Hx]%lookup_lt_is_Some_2. exists x. unfold index. by rewrite Hx. Qed.

(** A thread of [threads] that starts jobs with given limits. *)
Definition thread_starts (lims : list (list nat)) (Q : Worker → Prop) (t : nat) (th : Thread) : Prop :=
  lims !! t = Some (job_limit <$> fst th) ∧ (∀ j, j ∈ fst th → job_stat j = t ∧ Q (job_worker j)) ∧
  ((∀ j, pe_await env j = Ok tt) → snd th = Ok tt).

Lemma jobs_started_limits lims Q k ts :
  Forall2 (thread_starts lims Q) (seq 0 k) ts →
  job_limit <$> jobs_started ts = concat (take k lims).
Proof.
  intros Hts. unfold jobs_started, Thread, traced in *.
  change (map job_limit (concat (fst <$> ts)) = concat (take k lims)). rewrite concat_map. f_equal.
  apply list_eq. intros i. change (map ?f ?l) with (f <$> l). rewrite !list_lookup_fmap.
  destruct (ts !! i) as [th|] eqn:Hi; cbn.
  - destruct (Forall2_lookup_r _ _ _ _ _ Hts Hi) as (t & [-> Hlt]%lookup_seq & Hl & _).
    rewrite lookup_take_lt by done. exact (eq_sym Hl).
  - apply lookup_ge_None_1 in Hi. apply Forall2_length in Hts. rewrite length_seq in Hts.
    by rewrite lookup_take_ge by lia.
Qed.

Lemma thread_pool_starts factory threads jobs lims Q :
  env_ok → (0 < jobs)%nat → 
  (∀ t, (t < threads `min` jobs)%nat → ∃ th, factory t = Ok th ∧ thread_starts lims Q t th) →
  ((jobs < threads)%nat → is_panic (factory jobs) = true) →
  pool_starts threads jobs (concat (take (threads `min` jobs) lims)) Q
    (thread_pool_run factory (pe_spawn env) snd threads).
Proof.
  intros (Hspawn & _) Hj Hf Hpanic. unfold thread_pool_run.
  set (make := λ idx, let! worker := factory idx in let! _ := pe_spawn env idx in Ok worker).
  destruct (res_mapM_spec make (thread_starts lims Q) (seq 0 (threads `min` jobs))) as (ts & Hm & Hts).
  { intros t [_ Ht]%elem_of_seq. destruct (Hf t) as (th & Hth & Hs); [lia|]. exists th.
    unfold make. by rewrite Hth, Hspawn. }
  pose proof (jobs_started_limits _ _ _ _ Hts) as Hlim.
  pose proof (Forall2_length _ _ _ Hts) as Hlen. rewrite length_seq in Hlen.
  assert (∀ t th j, ts !! t = Some th → j ∈ fst th → job_stat j = t ∧ Q (job_worker j)) as Hjob.
  { intros t th j Ht Hin. destruct (Forall2_lookup_r _ _ _ _ _ Hts Ht) as (t' & [-> _]%lookup_seq & _ & H & _). by apply H. }
  destruct (decide (jobs < threads)%nat) as [Hlt|Hge].
  - rewrite Nat.min_r in Hlen, Hm by lia. specialize (Hpanic Hlt).
    destruct (factory jobs) as [| |msg] eqn:Hfj; [done..|].
    replace (seq 0 threads) with (seq 0 jobs ++ jobs :: seq (S jobs) (threads - jobs - 1)).
    2: { replace threads with (jobs + S (threads - jobs - 1))%nat at 2 by lia. by rewrite seq_app. }
    rewrite (start_each_stops _ _ _ _ _ msg Hm) by (unfold make; by rewrite Hfj). cbn.
    split_and!; [lia|done|done|done|lia].
  - rewrite Nat.min_l in Hm, Hlen, Hlim |- * by lia. rewrite (start_each_trace _ _ _ Hm). unfold tbind, pool_starts, Thread, traced in *. cbn.
    match goal with |- context [res_mapM ?f ts] => set (joins := res_mapM f ts) end.
    assert ((∀ j, pe_await env j = Ok tt) → ∃ k, joins = Ok k) as Hjoin.
    { intros Ha. apply res_mapM_total. intros th (t & Ht)%list_elem_of_lookup_1.
      destruct (Forall2_lookup_r _ _ _ _ _ Hts Ht) as (? & _ & _ & _ & H). exists tt. by apply H. }
    destruct joins as [k| |]; cbn; rewrite ?app_nil_r; split_and!; try done; try lia.
    all: intros _ Ha; by destruct (Hjoin Ha).
Qed.

(** The thread factory of the HTTP engines starts what it should, when every
    worker can be made. *)
Lemma web_thread_starts {C} jobs threads (c : C) make Q t :
  env_ok → (t < threads `min` jobs)%nat →
  (∀ t idx, ∃ w, make t idx = Ok w ∧ Q w) →
  ∃ th, web_thread (web_engine_new jobs threads c) make t = Ok th ∧ thread_starts (engine_limits jobs threads) Q t th.
Proof.
  intros (_ & Hrt & _) Ht Hmake. assert (0 < threads)%nat as Hp by lia. unfold web_thread. cbn [web_engine_new eng_limits eng_stat stats stat_new].
  destruct (index_lt (replicate threads (default_value : PerCpuStat TxWorkerStat RxWorkerStat SockWorkerStat HttpWorkerStat unit)) t)
    as (? & _ & ->); [rewrite length_replicate; lia|].
  destruct (index_lt (engine_limits jobs threads) t) as (l & Hl & ->).
  { rewrite (proj1 (engine_limits_dealt jobs threads Hp)). lia. }
  cbn [res_bind]. unfold tasks_of_thread. destruct (length l) as [|n] eqn:Hlen.
  { apply nil_length_inv, (engine_limits_lookup_nil _ _ _ _ Hp Hl) in Hlen. lia. }
  cbn [res_bind]. eexists. split; [done|]. rewrite Hrt.
  set (factory := λ idx, let! w := make t idx in let! limit := index l idx in
         Ok {| job_worker := w; job_limit := limit; job_stat := t |}).
  destruct (res_mapM_spec factory
    (λ idx j, l !! idx = Some (job_limit j) ∧ job_stat j = t ∧ Q (job_worker j)) (seq 0 (S n))) as (js & Hm & Hjs).
  { intros idx [_ Hi]%elem_of_seq. destruct (index_lt l idx) as (k & Hk & Hik); [lia|].
    destruct (Hmake t idx) as (w & Hw & HQ). unfold factory. rewrite Hw, Hik. cbn. by eexists. }
  destruct (local_task_pool_starts factory (pe_await env) (S n) js Hm) as [Hfst Hsnd].
  pose proof (Forall2_length _ _ _ Hjs) as Hn. rewrite length_seq in Hn. split_and!.
  - rewrite Hl, Hfst. f_equal. apply list_eq. intros i. rewrite list_lookup_fmap.
    destruct (js !! i) as [j|] eqn:Hi; cbn.
    + by destruct (Forall2_lookup_r _ _ _ _ _ Hjs Hi) as (? & [-> _]%lookup_seq & H & _).
    + apply lookup_ge_None_1 in Hi. apply lookup_ge_None_2. lia.
  - rewrite Hfst. intros j (i & Hi)%list_elem_of_lookup_1.
    by destruct (Forall2_lookup_r _ _ _ _ _ Hjs Hi) as (? & _ & _ & H).
  - intros Ha. apply Hsnd. auto.
Qed.

(** Taking the threads that have jobs loses no limit. *)
Lemma concat_take_limits jobs threads :
  (0 < threads)%nat →
  concat (take (threads `min` jobs) (engine_limits jobs threads)) = flat_limits jobs threads.
Proof.
  intros Ht. unfold flat_limits. rewrite <-(take_drop (threads `min` jobs) (engine_limits jobs threads)) at 2.
  rewrite concat_app. replace (concat (drop _ _)) with (@nil nat); [by rewrite app_nil_r|]. symmetry.
  apply concat_nil_Forall, List.Forall_forall. intros l Hl%list_elem_of_In.
  apply list_elem_of_lookup_1 in Hl as (i & Hi). rewrite lookup_drop in Hi.
  apply (engine_limits_lookup_nil _ _ _ _ Ht Hi).
  apply lookup_lt_Some in Hi. rewrite (proj1 (engine_limits_dealt jobs threads Ht)) in Hi. lia.
Qed.

Lemma web_run_starts {C} jobs threads (c : C) make Q :
  env_ok → (0 < threads)%nat → (0 < jobs)%nat → (∀ t idx, ∃ w, make t idx = Ok w ∧ Q w) →
  pool_starts threads jobs (flat_limits jobs threads) Q
    (thread_pool_run (web_thread (web_engine_new jobs threads c) make) (pe_spawn env) snd threads).
Proof.
  intros He Ht Hj Hmake. rewrite <-concat_take_limits by done. apply thread_pool_starts; [done..| |].
  - intros t Hlt. by apply web_thread_starts.
  - intros Hlt. unfold web_thread. cbn [web_engine_new eng_limits eng_stat stats stat_new].
    destruct (index_lt (replicate threads (default_value : PerCpuStat TxWorkerStat RxWorkerStat SockWorkerStat HttpWorkerStat unit)) jobs)
      as (? & _ & ->); [by rewrite length_replicate|].
    destruct (index_lt (engine_limits jobs threads) jobs) as (l & Hl & ->).
    { by rewrite (proj1 (engine_limits_dealt jobs threads Ht)). }
    by rewrite (proj2 (engine_limits_lookup_nil _ _ _ _ Ht Hl)) by done.
Qed.

(** Workers can always be made. *)
Lemma http_make_ok c tls t idx :
  env_ok → mode_ok (HttpModeConfig c) → (http_tls c = false ↔ tls = None) →
  ∃ w, http_make c tls t idx = Ok w ∧ made_for (HttpModeConfig c) w.
Proof.
  intros (_ & _ & Hf) (_ & _ & Hr & Hd) Htls.
  destruct (RequestsPerSocket.next_ok (gen_of (http_native c)) (pe_draw env t idx)) as (v & Hv & Hb);
    [by apply RequestsPerSocket.of_config_ok|done|].
  unfold http_make, http_new. rewrite Hv. cbn [res_bind]. eexists. split; [done|].
  split; [by exists tls|]. by split_and!; try apply Hb; try apply shaped_new.
Qed.

Lemma http3_make_ok c t idx :
  env_ok → mode_ok (Http3ModeConfig c) → ∃ w, http3_make c t idx = Ok w ∧ made_for (Http3ModeConfig c) w.
Proof.
  intros (_ & _ & Hf) (_ & _ & Hr & Hd).
  destruct (RequestsPerSocket.next_ok (gen_of (h3_native c)) (pe_draw env t idx)) as (v & Hv & Hb);
    [by apply RequestsPerSocket.of_config_ok|done|].
  unfold http3_make, http3_new. rewrite Hv. cbn [res_bind]. eexists. split; [done|].
  by split_and!; try apply Hb; try apply shaped_new.
Qed.

Lemma udp_run_starts c :
  env_ok → (0 < threads (udp_native c))%nat →
  pool_starts (threads (udp_native c)) (threads (udp_native c)) (seq 0 (threads (udp_native c))) (made_for (UdpModeConfig c))
    (udp_engine_run (udp_engine_new c)).
Proof.
  intros He Ht. set (n := threads (udp_native c)) in *.
  pose proof (thread_pool_starts (udp_thread (udp_engine_new c)) n n ((λ i, [i]) <$> seq 0 n) (made_for (UdpModeConfig c)) He Ht) as H.
  rewrite Nat.min_id, take_ge in H by (by rewrite length_fmap, length_seq).
  replace (concat ((λ i, [i]) <$> seq 0 n)) with (seq 0 n) in H.
  2: { generalize (seq 0 n). intros l. induction l as [|x l IH]; [done|]. csimpl. by rewrite <-IH. }
  apply H; [|lia]. intros t Hlt. unfold udp_thread. cbn [udp_engine_new eng_limits eng_stat stats stat_new].
  destruct (index_lt (replicate n (default_value : UdpWorkerStat)) t) as (? & _ & Hi); [by rewrite length_replicate|].
  destruct (index_lt (seq 0 n) t) as (k & Hk & Hik); [by rewrite length_seq|]. fold n.
  unfold UdpWorkerStat in Hi. rewrite Hi, Hik. cbn [res_bind]. apply lookup_seq in Hk as [-> _].
  eexists. split; [done|]. split_and!.
  - by rewrite list_lookup_fmap, lookup_seq_lt by done.
  - intros j ->%list_elem_of_singleton. split; [done|]. split; [done|]. split; [done|apply udp_new_shaper].
  - intros Ha. cbn. by rewrite Ha.
Qed.

(** ** The limits in memory *)

(** The stores of an iteration of [run_generator], by name. *)
Definition store_limits (names : list nat) (values : list Z) (m : gmap nat Z) : gmap nat Z :=
  foldl (λ m kv, <[kv.1 := kv.2]> m) m (zip names values).

Lemma store_limits_other names values m k :
  k ∉ names → store_limits names values m !! k = m !! k.
Proof.
  unfold store_limits. revert values m. induction names as [|n names IH]; intros [|v values] m Hk; [done..|].
  cbn. rewrite IH by set_solver. rewrite lookup_insert_ne; [done|]. set_solver.
Qed.

Lemma store_limits_read names values m :
  NoDup names → length values = length names →
  (λ k, default 0 (store_limits names values m !! k)) <$> names = values.
Proof.
  intros Hn. revert values m. induction Hn as [|n names Hin Hn IH]; intros [|v values] m Hlen; try done.
  unfold store_limits. csimpl. f_equal; [|apply IH; by injection Hlen].
  change (default 0 (store_limits names values (<[n:=v]> m) !! n) = v).
  rewrite store_limits_other by done. by rewrite lookup_insert_eq.
Qed.

(** ** Runs of an engine *)

Lemma limits_perm mode : mode_ok mode → limits (build mode) ≡ₚ seq 0 (jobs_of mode).
Proof. intros (Ht & _). destruct mode; [by apply flat_limits_perm..|done]. Qed.

Lemma run_or_refused mode :
  mode_ok mode → env_ok → (∀ c, TLS13 ∈ protocol_versions c → quic_client_config c = Ok tt) →
  (refused mode ∧ ∃ msg, run (build mode) = ([], Err msg)) ∨
  (¬ refused mode ∧ pool_starts (threads_of mode) (jobs_of mode) (limits (build mode)) (made_for mode) (run (build mode))).
Proof.
  intros Hm He Hq. destruct (Hm) as (Ht & Hj & _).
  destruct mode as [c|c|c|c]; cbn [run build limits threads_of jobs_of refused] in *.
  - unfold http_engine_run. cbn [http_engine_new web_engine_new eng_cfg]. destruct (http_tls c) eqn:Htls.
    + unfold tls_new. destruct (http_server_name c) as [name|] eqn:Hname; [destruct (parse_name name) as [sn|] eqn:Hp|].
      * right. split; [by intros (Htrue & name' & Hn & Hnone); simplify_eq|]. cbn [res_bind]. rewrite tbind_tcall_Ok. apply web_run_starts; [done..|]. intros t idx. by apply http_make_ok; rewrite ?Htls.
      * left. cbn. split; [by eauto|by eexists].
      * right. split; [by intros (Htrue & name' & Hn & Hnone); simplify_eq|]. cbn [res_bind]. rewrite tbind_tcall_Ok. apply web_run_starts; [done..|]. intros t idx. by apply http_make_ok; rewrite ?Htls.
    + right. split; [by intros (Htrue & name' & Hn & Hnone); simplify_eq|]. rewrite tbind_tcall_Ok. apply web_run_starts; [done..|]. intros t idx. by apply http_make_ok; rewrite ?Htls.
  - unfold raw_engine_run. cbn [http_engine_new web_engine_new eng_cfg]. destruct (http_tls c); [left; by eauto|].
    right. split; [done|]. apply web_run_starts; [done..|]. intros t idx. eexists. split; [done|]. by split_and!; try apply shaped_new.
  - right. split; [by intros []|]. unfold http3_engine_run. cbn [http3_engine_new web_engine_new eng_cfg].
    rewrite Hq, tbind_tcall_Ok by (cbn; set_solver). apply web_run_starts; [done..|]. intros t idx. by apply http3_make_ok.
  - right. split; [by intros []|]. by apply udp_run_starts.
Qed.

(** C19: running an engine starts exactly one worker for every limit the
    rate-control loop stores to, whatever the mode: thread by thread, in the
    order of [limits], each worker fresh and with the arguments of the
    configuration, counting into the statistics of its thread; no two workers
    share a limit, so what all of them read after an iteration adds up to the
    rate published, divided as [distribute] does.  With fewer jobs than threads
    the workers are started all the same and then the run panics; a
    configuration that asks for TLS the engine cannot do is refused before
    anything is started. *)
Theorem engine_runs_jobs mode :
  mode_ok mode → env_ok → (∀ c, TLS13 ∈ protocol_versions c → quic_client_config c = Ok tt) →
  let '(ts, r) := run (build mode) in
  (refused mode → ts = [] ∧ ∃ msg, r = Err msg) ∧
  (¬ refused mode →
    pool_starts (threads_of mode) (jobs_of mode) (limits (build mode)) (made_for mode) (ts, r) ∧
    limits (build mode) ≡ₚ seq 0 (jobs_of mode) ∧
    ∀ v m, is_u64 v → ∃ values, distribute v (length (limits (build mode))) = Ok values ∧ zsum values = v ∧
      (λ j, default 0 (store_limits (limits (build mode)) values m !! job_limit j)) <$> jobs_started ts = values).
Proof.
  intros Hm He Hq. pose proof (limits_perm mode Hm) as Hperm.
  destruct (run (build mode)) as [ts r] eqn:Hrun.
  assert ((refused mode ∧ ∃ msg, (ts, r) = ([], Err msg)) ∨ (¬ refused mode ∧
    pool_starts (threads_of mode) (jobs_of mode) (limits (build mode)) (made_for mode) (ts, r))) as [(Hr & msg & [= -> ->])|(Hr & H)].
  - rewrite <-Hrun. by apply run_or_refused.
  - split; [by eauto|done].
  - split; [done|]. intros _. split_and!; [done|done|]. intros v m Hv.
    assert (0 < length (limits (build mode)))%nat as Hl by (rewrite Hperm, length_seq; apply Hm).
    exists (share v (length (limits (build mode))) <$> seq 0 (length (limits (build mode)))).
    rewrite distribute_share, share_sum by done. split_and!; [done..|].
    destruct H as (_ & Hj & _). etransitivity; [|apply (store_limits_read (limits (build mode)) _ m)].
    + etransitivity; [apply (list_fmap_compose job_limit (λ k, default 0 (store_limits _ _ m !! k)))|]. by rewrite Hj.
    + rewrite Hperm. apply NoDup_seq.
    + by rewrite length_fmap, length_seq.
Qed.
End engines.

(** ** An example *)

Definition example_native (n : nat) : NativeLoadConfig :=
  native_load_config_new n (Some 100) (Some 10) [{| ip := V4 0; port := 0 |}].
Definition example_http {T} (tls : bool) (jobs threads : nat) (requests : list T) : HttpConfig T :=
  {| http_addr := {| ip := V4 2130706433; port := 443 |}; http_native := example_native threads;
     http_concurrency := jobs; http_tls := tls; http_server_name := Some "example.org"; http_timeout := NANOS_PER_SEC;
     http_tcp_linger := None; http_tcp_no_delay := false; http_requests := requests |}.
Definition example_pool : PoolEnv (Sender := nat) (Sock := nat) (Ep := nat) (Conn := nat) :=
  {| pe_spawn _ := Ok tt; pe_runtime _ := Ok tt; pe_now _ _ := 0; pe_draw _ _ lo _ := lo; pe_await _ := Ok tt |}.
Definition example_parse_name (name : string) : option (ServerName (Ip := IpAddr)) :=
  match name with EmptyString => None | _ => Some (DnsName name) end.
Definition example_quic (c : ClientConfig) : res unit :=
  if existsb (λ v, match v with TLS13 => true | TLS12 => false end) (protocol_versions c)
  then Ok tt else Err "no initial cipher suite".

Lemma example_pool_ok : env_ok example_pool.
Proof. split_and!; [done|done|]. intros t idx lo hi. cbn. lia. Qed.

Lemma example_mode_ok jobs threads :
  (0 < jobs)%nat → (0 < threads)%nat →
  mode_ok (HttpModeConfig (example_http true jobs threads [])) ∧ mode_ok (HttpRawModeConfig (example_http true jobs threads [])).
Proof. intros. unfold mode_ok, is_u64. cbn. lia. Qed.

Lemma example_quic_ok c : TLS13 ∈ protocol_versions c → example_quic c = Ok tt.
Proof.
  intros Hin. unfold example_quic.
  replace (existsb _ _) with true; [done|]. symmetry. apply existsb_exists. exists TLS13. by rewrite <-list_elem_of_In.
Qed.

Lemma engine_runs_jobs_witness :
  let start mode := run example_parse_name example_quic example_pool (build mode) in
  job_limit <$> jobs_started (start (HttpModeConfig (example_http true 3 2 []))).1 = [0; 2; 1]%nat ∧
  is_panic (start (HttpModeConfig (example_http true 2 3 []))).2 = true ∧
  (start (HttpRawModeConfig (example_http true 3 2 []))).1 = [].
Proof.
  pose proof (λ mode H, engine_runs_jobs example_parse_name example_quic example_pool mode H example_pool_ok example_quic_ok) as Hrun.
  assert (∀ jobs threads, ¬ refused example_parse_name (HttpModeConfig (example_http true jobs threads []))) as Hr.
  { intros ? ? (_ & ? & [= <-] & ?). done. }
  intros start. split_and!.
  - specialize (Hrun _ (proj1 (example_mode_ok 3 2 ltac:(lia) ltac:(lia)))).
    fold (start (HttpModeConfig (example_http true 3 2 []))) in Hrun.
    destruct (start _) as [ts r]. destruct Hrun as [_ H]. destruct (H (Hr _ _)) as ((_ & Hl & _) & _). exact Hl.
  - specialize (Hrun _ (proj1 (example_mode_ok 2 3 ltac:(lia) ltac:(lia)))).
    fold (start (HttpModeConfig (example_http true 2 3 []))) in Hrun.
    destruct (start _) as [ts r]. destruct Hrun as [_ H]. destruct (H (Hr _ _)) as ((_ & _ & _ & Hp & _) & _). apply Hp. cbn. lia.
  - specialize (Hrun _ (proj2 (example_mode_ok 3 2 ltac:(lia) ltac:(lia)))).
    fold (start (HttpRawModeConfig (example_http true 3 2 []))) in Hrun.
    destruct (start _) as [ts r]. destruct Hrun as [H _]. by destruct (H eq_refl) as [-> _].
Defined.
