(* ===== verification/Whole.v ===== *)
(** * A run of the whole program

    The workers an engine starts ([Engine]) are the workers of the running
    system ([System]), each with the limit of its job; what they count
    ([Http], [HttpRaw], [Http3], [Udp]) is what they execute.  Put together: the
    numbers a run reports never exceed what its profile asks for, and when its
    workers keep up they do not fall short of it by more than a stated bound. *)
From S2P Require Import Prelude Machine F64 Time Rounding Shaper Generator Profile Peak Suspendable RateControl Histogram Stat Ledger Produce Pool Task Exchange Conformance Keeping Udp Http HttpRaw Http3 Jsonline Cfg Transport System Books Achieve Engine.

(** ** The rate a profile publishes

    A profile within its peak, and manual rates within [V]: then no poll yields
    more than [V], whatever is suspended, resumed or set in between. *)
Section profile.
Context {W E : Type} `{RateWorker W E} (sin : f64 → f64) (V : Z).
#[local] Instance profile_generator : Generator Gen := boxed_generator sin.
Implicit Types s : System Gen W.

(** What is assumed of a step: the drivers keep their word, clocks do not run
    backwards, and a rate set by hand is at most [V]. *)
Definition input_ok (l : Label E) s : Prop :=
  match l with
  | Poll _ (Some (Set_ v, _)) => 0 ≤ v ≤ V
  | Poll _ _ => True
  | l => label_ok V l s
  end.

Inductive runs (s0 : System Gen W) : System Gen W → Prop :=
  | runs_start : runs s0 s0
  | runs_step s l s' : runs s0 s → input_ok l s → sys_step l s = Some (Ok s') → runs s0 s'.

Definition controlled (c : Config) (x : SuspendableGenerator Gen) : Prop :=
  made_from c (g x) ∧ within (value x) V.

Hypothesis Hsin : ∀ x, sine_ok (sin x).

Lemma controlled_poll c at_ x :
  profile_ok c → peak c ≤ V → controlled c x →
  controlled c (Suspendable.current_at at_ x).1 ∧ within (Suspendable.current_at at_ x).2 V.
Proof using Hsin.
  intros Hok Hpk [Hm Hv]. pose proof (peak_nonneg c Hok). unfold Suspendable.current_at.
  destruct (suspended_at x).
  - split; [by split|]. destruct (value x) as [v|]; [exact Hv|]. intros r [= <-]. lia.
  - destruct (current_within sin (at_ - suspended_duration x) Hsin c (g x) Hok Hm) as [Hm' Hw].
    cbn. destruct (current_at sin _ (g x)) as [x' v]. split; [by split|]. intros r Hr. specialize (Hw r Hr). lia.
Qed.

Lemma controlled_event c now ev x :
  controlled c x → (∀ v, ev = Set_ v → 0 ≤ v ≤ V) → controlled c (Suspendable.apply_event now ev x).
Proof using.
  intros [Hm Hv] Hset. assert (within None V) as Hnone by done.
  destruct ev as [| |v]; cbn; unfold Suspendable.set, Suspendable.suspend, Suspendable.resume; destruct (suspended_at x); try (by split).
  all: split; [done|]; intros r [= <-]; by apply Hset.
Qed.

Lemma controlled_label_ok c l s :
  profile_ok c → peak c ≤ V → controlled c (sys_g s) → input_ok l s → label_ok V l s.
Proof using Hsin.
  intros Hok Hpk Hc Hin. destruct l as [at_ ev| | | |i|i now env]; try done. cbn [label_ok].
  destruct (controlled_poll c at_ (sys_g s) Hok Hpk Hc) as [_ Hw].
  destruct (Suspendable.current_at at_ (sys_g s)) as [x [v|]]; [|done]. destruct (sys_running s); [|done]. by apply Hw.
Qed.

Lemma controlled_step c l s s' :
  profile_ok c → peak c ≤ V → controlled c (sys_g s) → input_ok l s → sys_step l s = Some (Ok s') →
  controlled c (sys_g s').
Proof using Hsin.
  intros Hok Hpk Hc Hin Hstep. destruct l as [at_ ev| | | |i|i now env]; cbn [sys_step] in Hstep.
  - destruct (sys_loop s); [|done..]. injection Hstep as Hstep. unfold poll_step in Hstep.
    destruct (controlled_poll c at_ (sys_g s) Hok Hpk Hc) as [Hc' Hw].
    destruct (Suspendable.current_at at_ (sys_g s)) as [x [v|]]; cbn [fst snd] in *; [|by injection Hstep as <-].
    destruct (sys_running s); [|by injection Hstep as <-].
    res_inv. destruct ev as [[ev now]|]; cbn; [|done]. apply controlled_event; [done|]. by intros v' ->.
  - destruct (sys_loop s) as [|? ? [|]|]; simplify_eq/=; done.
  - destruct (sys_loop s) as [|? ? [|]|]; simplify_eq/=; done.
  - by simplify_eq/=.
  - destruct (sys_workers s !! i); [|done]. destruct (decide _); by simplify_eq/=.
  - destruct (sys_workers s !! i), (sys_limits s !! i); try done. destruct (decide _); [|done].
    injection Hstep as Hstep. by res_inv.
Qed.

Lemma runs_reachable asin c created x now workers s :
  profile_ok c → peak c ≤ V → create asin created c = Ok x →
  runs (sys_start x now workers) s → reachable V (sys_start x now workers) s ∧ controlled c (sys_g s).
Proof using Hsin.
  intros Hok Hpk Hc Hr. induction Hr as [|s l s' _ [IH Hi] Hin Hstep].
  - split; [constructor|]. split; [|done]. apply activate_made_from. by eapply create_made_from.
  - pose proof (controlled_label_ok c l s Hok Hpk Hi Hin). split; [by econstructor|by eapply controlled_step].
Qed.

(** An execution given by its labels. *)
Fixpoint inputs_ok (ls : list (Label E)) s : Prop :=
  match ls with
  | [] => True
  | l :: ls => input_ok l s ∧ match sys_step l s with Some (Ok s') => inputs_ok ls s' | _ => False end
  end.

Lemma sys_run_runs ls s0 s s' :
  runs s0 s → inputs_ok ls s → sys_run ls s = Some (Ok s') → runs s0 s'.
Proof using.
  revert s. induction ls as [|l ls IH]; intros s Hs Hok Hrun; cbn in *; [by injection Hrun as <-|].
  destruct Hok as [Hl Hok]. destruct (sys_step l s) as [[s1| |]|] eqn:Hstep; [|done..].
  apply (IH s1); [by eapply runs_step|done|done].
Qed.
End profile.

(** ** The workers of an engine as workers of the system *)

Section workers.
Context {Sender Sock Ep Conn : Type} (ln : f64 → f64) (parse : bytes → Parsed).
Abbreviation Worker := (Engine.Worker (Sender := Sender) (Sock := Sock) (Ep := Ep) (Conn := Conn)).

(** What the outside answers to one execution, of a worker of any kind. *)
Record Outside := {
  out_http : HttpEnv SocketAddr Request Sender;
  out_raw : RawEnv SocketAddr Sock;
  out_http3 : Http3Env Request Ep Conn;
  out_udp : UdpEnv Sock;
}.

Definition outside_ok (e : Outside) : Prop :=
  Http.env_ok (out_http e) ∧ HttpRaw.env_ok (out_raw e) ∧ Http3.env_ok (out_http3 e) ∧ 0 ≤ udp_bind_idx (out_udp e).

(** The tasks with the arguments they were made with. *)
Definition http_task_of (a : HttpArgs) : Task (HttpWorker Sender) (HttpEnv SocketAddr Request Sender) :=
  http_task ln (vec (ha_bind a)) (vec (ha_data a)) (if ha_tls a is Some _ then true else false)
    (ha_requests_per_socket a) (ha_tcp_linger a) (ha_tcp_no_delay a).

Definition raw_task_of (a : HttpRawArgs) : Task (RawWorker Sock) (RawEnv SocketAddr Sock) :=
  raw_task ln parse (vec (ra_bind a)) (vec (ra_data a)) (ra_requests_per_sock a) (ra_tcp_linger a) (ra_tcp_no_delay a).

Definition http3_task_of (a : Http3Args) : Task (Http3Worker Ep Conn) (Http3Env Request Ep Conn) :=
  http3_task ln (h3a_addr a) (vec (h3a_bind a)) (vec (h3a_data a)) (h3a_requests_per_conn a).

Definition udp_data_len (a : UdpArgs) : Z := Z.of_nat (length (one_v (ua_data a))).

(** A round of any worker. *)
Definition engine_round (w : Worker) (now : Instant) (limit : Z) (env : nat → Outside) : res (Worker * Z) :=
  match w with
  | HttpTask a w =>
      let! r := coro_round (H := http_task_of a) w now limit (λ i, out_http (env i)) in Ok (HttpTask a (fst r), snd r)
  | HttpRawTask a w =>
      let! r := coro_round (H := raw_task_of a) w now limit (λ i, out_raw (env i)) in Ok (HttpRawTask a (fst r), snd r)
  | Http3Task a w =>
      let! r := coro_round (H := http3_task_of a) w now limit (λ i, out_http3 (env i)) in Ok (Http3Task a (fst r), snd r)
  | UdpTask a sh w =>
      let! r := udp_round (vec (ua_bind a)) (udp_data_len a) (ua_requests_per_sock a) sh w now limit (λ i, out_udp (env i)) in
      Ok (UdpTask a (fst (fst r)) (snd (fst r)), snd r)
  end.

Definition engine_shaper (w : Worker) : Shaper :=
  match w with
  | HttpTask _ w => shaper w
  | HttpRawTask _ w => shaper w
  | Http3Task _ w => shaper w
  | UdpTask _ sh _ => sh
  end.

#[local] Instance engine_rate_worker : RateWorker Worker Outside :=
  {| worker_shaper := engine_shaper; worker_round := engine_round; round_env_ok env := ∀ i, outside_ok (env i) |}.

#[local] Instance engine_rate_worker_laws : RateWorkerLaws Worker Outside.
Proof.
  split. intros B w now limit env w' n HB Hb Hl He Hel Hr.
  destruct w as [a w|a w|a w|a sh w]; cbn in Hb, Hel, Hr; apply res_bind_Ok in Hr as ([s k] & Hr & [= <- <-]).
  - by apply (worker_round_above (RateWorkerLaws := coro_rate_worker_laws (H := http_task_of a)) B w now limit
      (λ i, out_http (env i)) s k).
  - by apply (worker_round_above (RateWorkerLaws := coro_rate_worker_laws (H := raw_task_of a)) B w now limit
      (λ i, out_raw (env i)) s k).
  - by apply (worker_round_above (RateWorkerLaws := coro_rate_worker_laws (H := http3_task_of a)) B w now limit
      (λ i, out_http3 (env i)) s k).
  - apply (worker_round_above (RateWorkerLaws := udp_rate_worker_laws (vec (ua_bind a)) (udp_data_len a) (ua_requests_per_sock a))
      B (sh, w) now limit (λ i, out_udp (env i)) s k); [done|done|done|intros i; apply (He i)|done|].
    cbn. by rewrite Hr; destruct s.
Qed.

#[local] Instance engine_rate_worker_keeps : RateWorkerKeeps Worker Outside 32.
Proof.
  split; [done|..].
  - intros w now limit env w' n Hlow He Hel Hk Hr.
    destruct w as [a w|a w|a w|a sh w]; cbn in Hlow, Hel, Hk, Hr; apply res_bind_Ok in Hr as ([s k] & Hr & [= <- <-]).
    + by apply (worker_round_below (RateWorkerKeeps := coro_rate_worker_keeps (H := http_task_of a)) w now limit
        (λ i, out_http (env i)) s k).
    + by apply (worker_round_below (RateWorkerKeeps := coro_rate_worker_keeps (H := raw_task_of a)) w now limit
        (λ i, out_raw (env i)) s k).
    + by apply (worker_round_below (RateWorkerKeeps := coro_rate_worker_keeps (H := http3_task_of a)) w now limit
        (λ i, out_http3 (env i)) s k).
    + pose proof (udp_rate_worker_keeps (Sock := Sock) (vec (ua_bind a)) (udp_data_len a) (ua_requests_per_sock a) 32 ltac:(done)) as Hu.
      apply (worker_round_below (RateWorkerKeeps := Hu) (sh, w) now limit (λ i, out_udp (env i)) s k);
        [exact Hlow|intros i; apply (He i)|exact Hel|exact Hk|].
      cbn. by rewrite Hr; destruct s.
  - intros w now env w' n Hlow He Hel Hr.
    destruct w as [a w|a w|a w|a sh w]; cbn in Hlow, Hel, Hr; apply res_bind_Ok in Hr as ([s k] & Hr & [= <- <-]).
    + by apply (worker_round_zero (RateWorkerKeeps := coro_rate_worker_keeps (H := http_task_of a)) w now
        (λ i, out_http (env i)) s k).
    + by apply (worker_round_zero (RateWorkerKeeps := coro_rate_worker_keeps (H := raw_task_of a)) w now
        (λ i, out_raw (env i)) s k).
    + by apply (worker_round_zero (RateWorkerKeeps := coro_rate_worker_keeps (H := http3_task_of a)) w now
        (λ i, out_http3 (env i)) s k).
    + pose proof (udp_rate_worker_keeps (Sock := Sock) (vec (ua_bind a)) (udp_data_len a) (ua_requests_per_sock a) 32 ltac:(done)) as Hu.
      apply (worker_round_zero (RateWorkerKeeps := Hu) (sh, w) now (λ i, out_udp (env i)) s k);
        [exact Hlow|intros i; apply (He i)|exact Hel|].
      cbn. by rewrite Hr; destruct s.
Qed.

(** ** What a worker has counted *)

Abbreviation http_idle a :=
  (idle (Http.most (ha_requests_per_socket a)) (Http.left_ok (ha_requests_per_socket a)) (Z.max 1)).
Abbreviation raw_idle a :=
  (idle (HttpRaw.most (ra_requests_per_sock a)) (HttpRaw.done_ok (ra_requests_per_sock a))
    (λ n, HttpRaw.most (ra_requests_per_sock a) - n)).
Abbreviation http3_idle a :=
  (idle (Http3.most (h3a_requests_per_conn a)) (Http3.left_ok (h3a_requests_per_conn a)) (Z.max 1)).

(** The books of a task after [k] executions, and the arguments it needs not to
    panic: something to bind to and something to send. *)
Definition http_books (a : HttpArgs) (k : Z) (w : HttpWorker Sender) : Prop :=
  (vec (ha_bind a) ≠ [] ∧ vec (ha_data a) ≠ [] ∧ RequestsPerSocket.gen_ok (ha_requests_per_socket a)) ∧
  http_idle a k w.
Definition raw_books (a : HttpRawArgs) (k : Z) (w : RawWorker Sock) : Prop :=
  (vec (ra_bind a) ≠ [] ∧ vec (ra_data a) ≠ [] ∧ is_u64 (ra_requests_per_sock a)) ∧
  raw_idle a k w.
Definition http3_books (a : Http3Args) (k : Z) (w : Http3Worker Ep Conn) : Prop :=
  (vec (h3a_bind a) ≠ [] ∧ vec (h3a_data a) ≠ [] ∧ RequestsPerSocket.gen_ok (h3a_requests_per_conn a)) ∧
  http3_idle a k w.
Definition udp_books (a : UdpArgs) (k : Z) (w : UdpWorker Sock) : Prop :=
  (vec (ua_bind a) ≠ [] ∧ is_u64 (ua_requests_per_sock a)) ∧ udp_inv (udp_data_len a) (ua_requests_per_sock a) k w.

Definition engine_counts (k : Z) (w : Worker) : Prop :=
  match w with
  | HttpTask a w => http_books a k (task w)
  | HttpRawTask a w => raw_books a k (task w)
  | Http3Task a w => http3_books a k (task w)
  | UdpTask a _ w => udp_books a k w
  end.

(** One execution adds one to the books. *)
Lemma http_books_step a e k w :
  Http.env_ok e → 0 ≤ k → k + 1 < 2 ^ 64 → http_books a k w →
  ∃ w', execute (Task := http_task_of a) e w = Ok w' ∧ http_books a (k + 1) w'.
Proof.
  intros (? & ? & ?) Hk Hk' [(? & ? & ?) Hi].
  assert (∃ w', execute (Task := http_task_of a) e w = Ok w' ∧ http_idle a (k + 1) w') as (w' & Hw & Hi')
    by (by eapply http_execute_spec).
  exists w'. split; [exact Hw|]. by split.
Qed.

Lemma raw_books_step a e k w :
  HttpRaw.env_ok e → 0 ≤ k → k + 1 < 2 ^ 64 → raw_books a k w →
  ∃ w', execute (Task := raw_task_of a) e w = Ok w' ∧ raw_books a (k + 1) w'.
Proof.
  intros (? & ?) Hk Hk' [(? & ? & ?) Hi].
  assert (∃ w', execute (Task := raw_task_of a) e w = Ok w' ∧ raw_idle a (k + 1) w') as (w' & Hw & Hi')
    by (by eapply raw_execute_spec).
  exists w'. split; [exact Hw|]. by split.
Qed.

Lemma http3_books_step a e k w :
  Http3.env_ok e → 0 ≤ k → k + 1 < 2 ^ 64 → http3_books a k w →
  ∃ w', execute (Task := http3_task_of a) e w = Ok w' ∧ http3_books a (k + 1) w'.
Proof.
  intros (? & ? & ?) Hk Hk' [(? & ? & ?) Hi].
  assert (∃ w', execute (Task := http3_task_of a) e w = Ok w' ∧ http3_idle a (k + 1) w') as (w' & Hw & Hi')
    by (by eapply http3_execute_spec).
  exists w'. split; [exact Hw|]. by split.
Qed.

#[local] Instance engine_worker_counts : RateWorkerCounts Worker Outside engine_counts.
Proof.
  split. intros B w now limit env k HB Hb Hl He Hel Hk Hroom HI.
  destruct w as [a w|a w|a w|a sh w]; cbn in Hb, Hel, He, HI |- *.
  - destruct (coro_round_counts (H := http_task_of a) _ _ B w now limit (λ i, out_http (env i)) k
      (λ e k w, http_books_step a e k w) HB Hb Hl (λ i, proj1 (He i)) Hel Hk Hroom HI) as (w' & n & -> & Hw').
    by eexists _, _.
  - destruct (coro_round_counts (H := raw_task_of a) _ _ B w now limit (λ i, out_raw (env i)) k
      (λ e k w, raw_books_step a e k w) HB Hb Hl (λ i, proj1 (proj2 (He i))) Hel Hk Hroom HI) as (w' & n & -> & Hw').
    by eexists _, _.
  - destruct (coro_round_counts (H := http3_task_of a) _ _ B w now limit (λ i, out_http3 (env i)) k
      (λ e k w, http3_books_step a e k w) HB Hb Hl (λ i, proj1 (proj2 (proj2 (He i)))) Hel Hk Hroom HI) as (w' & n & -> & Hw').
    by eexists _, _.
  - destruct HI as [[H1 H2] HI].
    destruct (udp_round_counts (vec (ua_bind a)) (udp_data_len a) (ua_requests_per_sock a) H1 H2 B sh w now limit
      (λ i, out_udp (env i)) k HB Hb Hl (λ i, proj2 (proj2 (proj2 (He i)))) Hel Hk Hroom HI) as (sh' & w' & n & -> & Hw').
    by eexists _, _.
Qed.

(** The figures a worker reports: requests sent, and executions with an outcome. *)
Definition requests_sent (w : Worker) : Z :=
  match w with
  | HttpTask _ w => w_num_requests (tx (hw_stat (task w)))
  | HttpRawTask _ w => w_num_requests (tx (rw_stat (task w)))
  | Http3Task _ w => w_num_requests (tx (h3_stat (task w)))
  | UdpTask _ _ w => udp_requests w
  end.

Definition web_outcomes (s : WebStat) : Z :=
  w_num_responses (rx s) + w_num_timeouts (rx s) + w_num_sock_errors (sock s).

Definition outcomes (w : Worker) : Z :=
  match w with
  | HttpTask _ w => web_outcomes (hw_stat (task w))
  | HttpRawTask _ w => web_outcomes (rw_stat (task w))
  | Http3Task _ w => web_outcomes (h3_stat (task w))
  | UdpTask _ _ w => udp_requests w + udp_errors w
  end.

Lemma counts_figures k w : engine_counts k w → outcomes w = k ∧ requests_sent w ≤ k.
Proof.
  destruct w as [a w|a w|a w|a sh w]; cbn; intros [_ Hi].
  1-3: destruct Hi as [_ []]; unfold web_outcomes; cbn in *; lia.
  destruct Hi as (H1 & H2 & _ & H4 & _). lia.
Qed.

(** ** From the configuration to the counters *)

(** There is something to bind to, and something to send. *)
Definition payload_ok (mode : ModeConfig) : Prop :=
  vec (bind_endpoints (native_of mode)) ≠ [] ∧
  match mode with
  | HttpModeConfig c => http_requests c ≠ []
  | HttpRawModeConfig c => http_requests c ≠ []
  | Http3ModeConfig c => h3_requests c ≠ []
  | UdpModeConfig _ => True
  end.

Lemma made_for_started pool mode t0 (w : Worker) :
  (∀ t idx, t0 ≤ pe_now pool t idx) → made_for pool mode w → started_after t0 w.
Proof.
  intros Ht Hw. assert (new_shaper pool (engine_shaper w)) as (t & idx & Hsh).
  { destruct mode, w; try done; cbn in Hw |- *; intuition. }
  exists (pe_now pool t idx). split; [apply Ht|exact Hsh].
Qed.

Lemma made_for_counts pool mode (w : Worker) :
  mode_ok mode → payload_ok mode → made_for pool mode w → engine_counts 0 w.
Proof.
  intros (_ & _ & Hr & Hd) [Hb Hp] Hw. destruct mode as [c|c|c|c], w as [a w|a w|a w|a sh w]; try done; cbn in Hb, Hp, Hr, Hd, Hw.
  - destruct Hw as ((tls & -> & _) & Hs & Hst & _ & Hl). split.
    + split_and!; [done|done|by apply RequestsPerSocket.of_config_ok].
    + by apply idle_new.
  - destruct Hw as (-> & Hnew & _). split; [by split_and!|]. rewrite Hnew. apply idle_new; [|done..].
    unfold HttpRaw.done_ok, HttpRaw.most. cbn. lia.
  - destruct Hw as (-> & Hc & _ & Hst & _ & Hl). split.
    + split_and!; [done|done|by apply RequestsPerSocket.of_config_ok].
    + by apply idle_new.
  - destruct Hw as (-> & -> & _). split; [by split|]. apply udp_inv_new.
Qed.

Context (parse_name : string → option (ServerName (Ip := IpAddr))) (quic_client_config : ClientConfig → res unit).
Section generic.
Context {G : Type} `{Generator G}.

(** The workers started for a mode: one for every limit, with an empty bucket and
    empty books. *)
Lemma workers_started pool mode t0 :
  mode_ok mode → payload_ok mode → ¬ refused parse_name mode → Engine.env_ok pool →
  (∀ c, TLS13 ∈ protocol_versions c → quic_client_config c = Ok tt) → (∀ t idx, t0 ≤ pe_now pool t idx) →
  let xs := job_worker <$> jobs_started (run parse_name quic_client_config pool (build mode)).1 in
  length xs = length (limits (build mode)) ∧ (0 < length xs)%nat ∧
  Forall (λ x, started_after t0 x ∧ engine_counts 0 x) xs.
Proof.
  intros Hm Hp Href Hpool Hq Ht0 xs.
  destruct (run_or_refused parse_name quic_client_config pool mode Hm Hpool Hq) as [[? _]|[_ Hstart]]; [done|].
  unfold pool_starts in Hstart. subst xs. destruct (run _ _ _ _) as [ts res]. destruct Hstart as (_ & Hlim & Hjobs & _).
  cbn [fst]. set (xs := job_worker <$> jobs_started ts) in *.
  assert (length xs = length (limits (build mode))) as Hlen by (rewrite <-Hlim; subst xs; by rewrite !length_fmap).
  split; [done|]. split; [rewrite Hlen, (limits_perm mode Hm), length_seq; apply Hm|].
  apply Forall_fmap, Forall_forall. intros j Hj. unfold jobs_started in Hj.
  apply list_elem_of_In, in_concat in Hj as (js & Hjs & Hj). apply list_elem_of_In, list_elem_of_fmap in Hjs as (th & -> & Hth).
  apply list_elem_of_lookup_1 in Hth as (t & Hth). apply list_elem_of_In in Hj.
  destruct (Hjobs t th j Hth Hj) as [_ Hmade]. cbn. split; [by eapply made_for_started|by eapply made_for_counts].
Qed.

(** The same for any generator that never asks for more than [V]. *)
Lemma run_within_rate pool mode V (g : G) t0 now T K (s : System G Worker) :
  mode_ok mode → payload_ok mode → ¬ refused parse_name mode → Engine.env_ok pool →
  (∀ c, TLS13 ∈ protocol_versions c → quic_client_config c = Ok tt) →
  (∀ t idx, t0 ≤ pe_now pool t idx) → 0 ≤ V < 2 ^ 53 →
  let ts := (run parse_name quic_client_config pool (build mode)).1 in
  let allowed := V * (T - t0) * (R + 1) ^ 4 + 2 * K * V * NANOS_PER_SEC * R ^ 3 in
  allowed + V * NANOS_PER_SEC * R ^ 4 < 2 ^ 64 * NANOS_PER_SEC * R ^ 4 →
  reachable (E := Outside) V (sys_start g now (job_worker <$> jobs_started ts)) s →
  Forall (λ w, prev_ts (worker_shaper (ws_worker w)) ≤ T ∧ ws_rounds w ≤ K) (sys_workers s) →
  length (sys_workers s) = length (limits (build mode)) ∧
  (λ w, outcomes (ws_worker w)) <$> sys_workers s = ws_done <$> sys_workers s ∧
  zsum ((λ w, requests_sent (ws_worker w)) <$> sys_workers s) ≤ zsum (ws_done <$> sys_workers s) ∧
  zsum (ws_done <$> sys_workers s) * NANOS_PER_SEC * R ^ 4 ≤ allowed ∧
  (∀ (l : Label Outside) r, label_ok V l s → sys_step l s = Some r → ∃ s', r = Ok s').
Proof.
  intros Hm Hp Href Hpool Hq Ht0 HV ts allowed Hroom Hr Hs.
  destruct (workers_started pool mode t0 Hm Hp Href Hpool Hq Ht0) as (Hlen & Hn & Hxs). fold ts in Hlen, Hn, Hxs.
  set (xs := job_worker <$> jobs_started ts) in *.
  pose proof (books_start (E := Outside) engine_counts V HV (length xs) t0 g now xs eq_refl Hxs) as Hb0.
  pose proof (reachable_books engine_counts V HV (length xs) t0 Hn _ _ Hb0 Hr) as Hb.
  pose proof Hb as [(_ & _ & Hlw & _) Hc].
  destruct (pool_bound (E := Outside) V g t0 now xs s T K HV) as [Hbound _];
    [intros Hnil; rewrite Hnil in Hn; cbn in Hn; lia|eapply Forall_impl; [exact Hxs|by intros ? []]|done|done|].
  fold allowed in Hbound.
  assert (Forall (λ w, ws_done w + V < 2 ^ 64) (sys_workers s)) as Hfits.
  { assert (zsum (ws_done <$> sys_workers s) + V < 2 ^ 64) as Hsum.
    { apply (Z.mul_lt_mono_pos_r (NANOS_PER_SEC * R ^ 4)); [done|]. generalize dependent allowed. intros. lia. }
    apply Forall_lookup. intros i w Hi. assert (ws_done w ≤ zsum (ws_done <$> sys_workers s)); [|lia].
    apply (zsum_lookup_le _ i); [|by rewrite list_lookup_fmap, Hi].
    apply Forall_fmap. eapply Forall_impl; [exact Hc|by intros ? []]. }
  assert (Forall (λ w, outcomes (ws_worker w) = ws_done w ∧ requests_sent (ws_worker w) ≤ ws_done w) (sys_workers s)) as Hfig.
  { eapply Forall_impl; [apply Forall_and; split; [exact Hc|exact Hfits]|]. intros w [[_ HI] Hw]. by apply counts_figures, HI. }
  split_and!; [by rewrite Hlw| | |exact Hbound|].
  - apply list_fmap_ext. intros i w Hi. by apply (Forall_lookup_1 _ _ _ _ Hfig Hi).
  - apply zsum_mono. eapply Forall_impl; [exact Hfig|by intros ? []].
  - intros l r Hl Hstep. by eapply (books_no_panic engine_counts V HV (length xs) t0 Hn s l r).
Qed.

(** C2: a run of the program achieves its rate.  Take the workers the engine
    starts for the mode, any generator, any interleaving and any answers of the
    network, and two states of a run: [s1], in which the limits of a rate of at
    least [m] are stored, and a later [s2], between which the rates polled stay
    between [m] and [V].  If every worker keeps up — each of its rounds comes
    before more has gathered than a round takes — then between the two the
    workers count, as responses, timeouts or errors, at least [m] outcomes per
    second, less one for each worker, four parts in [R] = 2^51, and two parts in
    [R] of an operation for each of the at most [K] rounds of a worker. *)
Theorem run_achieves_rate pool mode V m (g : G) t0 now T1 T2 T K (s1 s2 : System G Worker) :
  mode_ok mode → payload_ok mode → ¬ refused parse_name mode → Engine.env_ok pool →
  (∀ c, TLS13 ∈ protocol_versions c → quic_client_config c = Ok tt) →
  (∀ t idx, t0 ≤ pe_now pool t idx) → V < 2 ^ 53 →
  let ts := (run parse_name quic_client_config pool (build mode)).1 in
  let n := Z.of_nat (length (limits (build mode))) in
  let counted (s : System G Worker) := zsum ((λ w, outcomes (ws_worker w)) <$> sys_workers s) in
  V * (T - t0) * (R + 1) ^ 4 + 2 * K * V * NANOS_PER_SEC * R ^ 3 + V * NANOS_PER_SEC * R ^ 4 <
    2 ^ 64 * NANOS_PER_SEC * R ^ 4 →
  n ≤ m ≤ V → keeping (E := Outside) V 32 0 (sys_start g now (job_worker <$> jobs_started ts)) s1 →
  rate_at_least m s1 → keeping (E := Outside) V 32 m s1 s2 → T1 ≤ T →
  Forall (λ w, prev_ts (worker_shaper (ws_worker w)) ≤ T1 ∧ ws_rounds w ≤ K) (sys_workers s1) →
  Forall (λ w, T2 ≤ prev_ts (worker_shaper (ws_worker w)) ≤ T ∧ ws_rounds w ≤ K) (sys_workers s2) →
  m * (T2 - T1) * (R - 1) ^ 4 ≤
    (counted s2 - counted s1 + n) * NANOS_PER_SEC * R ^ 4 + 2 * n * K * NANOS_PER_SEC * R ^ 3.
Proof.
  intros Hm Hp Href Hpool Hq Ht0 HV ts n counted Hroom Hnm Hk1 Hrate Hk2 HT Hs1 Hs2.
  destruct (workers_started pool mode t0 Hm Hp Href Hpool Hq Ht0) as (Hlen & Hn & Hxs). fold ts in Hlen, Hn, Hxs.
  assert (0 ≤ V < 2 ^ 53) as HV' by lia.
  pose proof (keeping_reachable _ _ _ _ _ Hk1) as Hr1.
  pose proof (reachable_trans _ _ _ _ Hr1 (keeping_reachable _ _ _ _ _ Hk2)) as Hr2.
  destruct (run_within_rate pool mode V g t0 now T K s1 Hm Hp Href Hpool Hq Ht0 HV' Hroom Hr1) as (_ & Hc1 & _).
  { eapply Forall_impl; [exact Hs1|]. intros w [? ?]. split; lia. }
  destruct (run_within_rate pool mode V g t0 now T K s2 Hm Hp Href Hpool Hq Ht0 HV' Hroom Hr2) as (_ & Hc2 & _).
  { eapply Forall_impl; [exact Hs2|]. intros w [? ?]. split; lia. }
  unfold counted. rewrite Hc1, Hc2. unfold n in *. rewrite <-Hlen in *.
  apply (pool_delivers (E := Outside) V m g t0 now (job_worker <$> jobs_started ts) s1 s2 T1 T2 K); try done.
  - intros Hnil. rewrite Hnil in Hn. cbn in Hn. lia.
  - eapply Forall_impl; [exact Hxs|by intros ? []].
  - eapply Forall_impl; [exact Hs1|by intros ? []].
  - eapply Forall_impl; [exact Hs2|]. intros w [[? ?] ?]. by split.
Qed.
End generic.

(** C1: a run of the program, from its configuration to the numbers it reports.
    Take a profile of any nesting, the workers the engine starts for the mode as
    the workers of the running system, any interleaving, any answers of the
    network and any events of the control channel.  If the peak of the profile
    and every rate set by hand are at most [V], and what that allows up to [T]
    fits the counters, then there is a worker for every limit, no step panics,
    the outcomes the workers have counted are exactly their executions, at most
    as many requests were sent, and all of it stays below [V] per second since
    the start, up to the rounding of the token buckets over the at most [K]
    rounds of each worker. *)
Theorem run_within_profile sin asin profile created x pool mode V t0 now T K (s : System Gen Worker) :
  (∀ x, sine_ok (sin x)) → profile_ok profile → create asin created profile = Ok x → peak profile ≤ V →
  mode_ok mode → payload_ok mode → ¬ refused parse_name mode → Engine.env_ok pool →
  (∀ c, TLS13 ∈ protocol_versions c → quic_client_config c = Ok tt) →
  (∀ t idx, t0 ≤ pe_now pool t idx) → V < 2 ^ 53 →
  let ts := (run parse_name quic_client_config pool (build mode)).1 in
  let start := sys_start (H := profile_generator sin) x now (job_worker <$> jobs_started ts) in
  let allowed := V * (T - t0) * (R + 1) ^ 4 + 2 * K * V * NANOS_PER_SEC * R ^ 3 in
  allowed + V * NANOS_PER_SEC * R ^ 4 < 2 ^ 64 * NANOS_PER_SEC * R ^ 4 →
  runs (E := Outside) sin V start s →
  Forall (λ w, prev_ts (worker_shaper (ws_worker w)) ≤ T ∧ ws_rounds w ≤ K) (sys_workers s) →
  length (sys_workers s) = length (limits (build mode)) ∧
  (λ w, outcomes (ws_worker w)) <$> sys_workers s = ws_done <$> sys_workers s ∧
  zsum ((λ w, requests_sent (ws_worker w)) <$> sys_workers s) ≤ zsum (ws_done <$> sys_workers s) ∧
  zsum (ws_done <$> sys_workers s) * NANOS_PER_SEC * R ^ 4 ≤ allowed ∧
  (∀ (l : Label Outside) r, input_ok sin V l s → sys_step (H := profile_generator sin) l s = Some r → ∃ s', r = Ok s').
Proof.
  intros Hsin Hok Hc Hpk Hm Hp Href Hpool Hq Ht0 HV ts start allowed Hroom Hr Hs.
  pose proof (peak_nonneg profile Hok).
  destruct (runs_reachable sin V Hsin asin profile created x now _ s Hok Hpk Hc Hr) as [Hreach Hctl].
  destruct (run_within_rate (H := profile_generator sin) pool mode V x t0 now T K s Hm Hp Href Hpool Hq Ht0 ltac:(lia) Hroom Hreach Hs)
    as (H1 & H2 & H3 & H4 & H5).
  split_and!; [exact H1|exact H2|exact H3|exact H4|]. intros l r Hin. apply H5.
  by apply (controlled_label_ok sin V Hsin profile).
Qed.
End workers.

(** ** An example: two HTTPS workers at a constant rate *)

Definition example_request : Request := 
  {| req_method := b "GET"; req_uri := {| scheme := None; authority := None; path := b "/"; query := None |}; req_headers := [] |}.
Definition example_mode : ModeConfig := HttpModeConfig (example_http true 2 2 [example_request]).

(** Every request is answered with 200. *)
Definition example_outside : Outside (Sender := nat) (Sock := nat) (Ep := nat) (Conn := nat) := {|
  out_http := {|
    he_bind_idx := 0; he_socket := λ _, true; he_bind := λ _, true; he_connect := Ready tt; he_nodelay := true;
    he_linger := true; he_tls := Ready tt; he_handshake := Ready 7%nat; he_data_idx := 3; he_send := λ _ _, Ready 200;
    he_frames := [Ready tt]; he_elapsed := 120; he_timed_out := 0; he_info_update := tcp_info_default;
    he_info_drop := tcp_info_default; he_draw := λ lo _, lo |};
  out_raw := {|
    re_bind_idx := 0; re_socket := λ _, true; re_bind := λ _, true; re_connect := Errored; re_nodelay := true;
    re_linger := true; re_data_idx := 0; re_write := Ready tt; re_reads := []; re_elapsed := 0; re_timed_out := 0 |};
  out_http3 := {|
    h3_bind_idx := 0; h3_client := λ _, None; h3_connect := λ _, true; h3_connecting := Errored; h3_handshake := Errored;
    h3_data_idx := 0; h3_send := λ _ _, Errored; h3_finish := Ready tt; h3_response := Errored; h3_chunks := [];
    h3_elapsed := 0; h3_timed_out := 0; h3_draw := λ lo _, lo |};
  out_udp := {| udp_bind_idx := 0; udp_bind := None; udp_connect := true; udp_send := true |} |}.

Lemma example_outside_ok : outside_ok example_outside.
Proof. split_and!; try done; intros lo hi Hlh; cbn; lia. Qed.

(** The rate is published and both workers take their turns. *)
Definition whole_labels : list (Label (Outside (Sender := nat) (Sock := nat) (Ep := nat) (Conn := nat))) :=
  [Poll 0 None; Store; Store; Publish; Look 0; Look 1; Round 1 40000000 (λ _, example_outside);
   Round 0 20000000 (λ _, example_outside)].

Abbreviation example_workers :=
  (job_worker <$> jobs_started (run example_parse_name example_quic example_pool (build example_mode)).1).
Definition example_sine : f64 → f64 := λ _, f64_zero.
Definition example_profile : Generator.Config := Const {| const_rps := 100; const_duration := 1 |}.
Abbreviation example_start := (sys_start (H := profile_generator example_sine) example_generator 0 example_workers).
Abbreviation example_run :=
  (sys_run (H := profile_generator example_sine) (H0 := engine_rate_worker (λ x, x) (λ _, Partial)) whole_labels example_start).

Lemma example_inputs_ok :
  inputs_ok (H := engine_rate_worker (λ x, x) (λ _, Partial)) example_sine 100 whole_labels example_start.
Proof.
  pose proof example_outside_ok as He. vm_compute in He |- *.
  repeat match goal with
  | |- _ ∧ _ => split
  | |- nat → _ => intros _; exact He
  | |- _ => first [exact I|reflexivity|discriminate]
  end.
Qed.

Lemma example_sine_ok x : sine_ok (example_sine x).
Proof. right. split; [reflexivity|]. split; [exact I|]. apply Z.leb_le. vm_compute. reflexivity. Qed.

Lemma run_within_profile_witness :
  ∃ s, example_run = Some (Ok s) ∧ ws_done <$> sys_workers s = [1; 2] ∧
    (λ w, outcomes (ws_worker w)) <$> sys_workers s = [1; 2] ∧
    zsum ((λ w, requests_sent (ws_worker w)) <$> sys_workers s) ≤ 3.
Proof.
  assert (∃ s, example_run = Some (Ok s) ∧ ws_done <$> sys_workers s = [1; 2] ∧
    Forall (λ w, prev_ts (engine_shaper (ws_worker w)) ≤ 40000000 ∧ ws_rounds w ≤ 1) (sys_workers s)) as (s & Hs & Hd & Hw).
  { eexists. split; [vm_compute; reflexivity|]. split; [reflexivity|].
    repeat (apply Forall_cons; split; [by split; vm_compute|]). by apply Forall_nil. }
  destruct (run_within_profile (λ x, x) (λ _, Partial) example_parse_name example_quic
    example_sine (λ x, x) example_profile 0 example_generator example_pool example_mode 100 0 0 40000000 1 s) as (_ & Ho & Hr & _).
  - exact example_sine_ok.
  - split_and!; vm_compute; done.
  - reflexivity.
  - done.
  - apply (example_mode_ok 2 2); lia.
  - by split.
  - intros (_ & ? & [= <-] & ?). done.
  - exact example_pool_ok.
  - exact example_quic_ok.
  - intros t idx. cbn. lia.
  - done.
  - vm_compute. reflexivity.
  - eapply (sys_run_runs example_sine 100 whole_labels); [apply runs_start|exact example_inputs_ok|exact Hs].
  - exact Hw.
  - exists s. rewrite Ho, Hd. split_and!; [exact Hs|done|done|]. etrans; [exact Hr|]. by rewrite Hd.
Defined.

(** ** The same workers, once the rate is stored *)

Definition stored_labels : list (Label (Outside (Sender := nat) (Sock := nat) (Ep := nat) (Conn := nat))) :=
  [Poll 0 None; Store; Store; Publish].
Definition kept_labels : list (Label (Outside (Sender := nat) (Sock := nat) (Ep := nat) (Conn := nat))) :=
  [Look 0; Round 0 400000000 (λ _, example_outside); Look 1; Round 1 400000000 (λ _, example_outside)].
Abbreviation example_run_from :=
  (sys_run (H := profile_generator example_sine) (H0 := engine_rate_worker (λ x, x) (λ _, Partial))).
Abbreviation example_keeps_ok :=
  (keeps_ok (H := profile_generator example_sine) (H0 := engine_rate_worker (λ x, x) (λ _, Partial))).


Ltac keeps_now :=
  pose proof example_outside_ok as He; vm_compute in He |- *; repeat match goal with
  | |- _ ∧ _ => split
  | |- nat → _ => intros _; exact He
  | |- _ ∨ _ => right
  | |- _ => first [exact I|reflexivity|discriminate]
  end.

Lemma stored_labels_keep : example_keeps_ok 100 32 0 stored_labels example_start.
Proof. keeps_now. Qed.

Lemma kept_labels_run :
  ∃ s1 s2, example_run_from stored_labels example_start = Some (Ok s1) ∧ example_run_from kept_labels s1 = Some (Ok s2) ∧
    (λ w, outcomes (ws_worker w)) <$> sys_workers s1 = [0; 0] ∧ (λ w, outcomes (ws_worker w)) <$> sys_workers s2 = [20; 20] ∧
    example_keeps_ok 100 32 100 kept_labels s1 ∧ rate_at_least 100 s1 ∧
    Forall (λ w, prev_ts (engine_shaper (ws_worker w)) ≤ 0 ∧ ws_rounds w ≤ 1) (sys_workers s1) ∧
    Forall (λ w, 400000000 ≤ prev_ts (engine_shaper (ws_worker w)) ≤ 400000000 ∧ ws_rounds w ≤ 1) (sys_workers s2).
Proof.
  eexists _, _. split; [vm_compute; reflexivity|]. split; [vm_compute; reflexivity|].
  split; [reflexivity|]. split; [reflexivity|]. split; [keeps_now|].
  split; [split; [|done]; intros [|[|i]] l; [by intros [= <-]; vm_compute..|done]|].
  split; repeat (apply Forall_cons; split; [by split_and!; vm_compute|]); by apply Forall_nil.
Qed.

Lemma run_achieves_rate_witness :
  ∃ s1 s2, example_run_from stored_labels example_start = Some (Ok s1) ∧ example_run_from kept_labels s1 = Some (Ok s2) ∧
    (λ w, outcomes (ws_worker w)) <$> sys_workers s2 = [20; 20] ∧
    100 * (400000000 - 0) * (R - 1) ^ 4 ≤
      (40 - 0 + 2) * NANOS_PER_SEC * R ^ 4 + 2 * 2 * 1 * NANOS_PER_SEC * R ^ 3.
Proof.
  destruct kept_labels_run as (s1 & s2 & Hs1 & Hs2 & Ho1 & Ho2 & Hk & Hr & Hw1 & Hw2). exists s1, s2.
  pose proof (run_achieves_rate (λ x, x) (λ _, Partial) example_parse_name example_quic (H := profile_generator example_sine)
    example_pool example_mode 100 100 example_generator 0 0 0 400000000 400000000 1 s1 s2) as Ha.
  cbv beta zeta in Ha. rewrite Ho1, Ho2 in Ha. split_and!; [done..|]. apply Ha; clear Ha.
  - apply (example_mode_ok 2 2); lia.
  - by split.
  - intros (_ & ? & [= <-] & ?). done.
  - exact example_pool_ok.
  - exact example_quic_ok.
  - intros t idx. cbn. lia.
  - done.
  - vm_compute. reflexivity.
  - done.
  - eapply (sys_run_keeping 100 32 0 stored_labels); [apply keep_start|exact stored_labels_keep|exact Hs1].
  - exact Hr.
  - eapply (sys_run_keeping 100 32 100 kept_labels); [apply keep_start|exact Hk|exact Hs2].
  - done.
  - exact Hw1.
  - exact Hw2.
Defined.
