(* ===== verification/Main.v ===== *)
(** * The program from its command line to its exit code
    ([dwd/src/main.rs], [cfg.rs], [logging.rs], the DPDK command of [cmd.rs];
    [dwd-core/src/api/server.rs], [grpc/mod.rs])

    [main] reads the command, sets up the log, resolves the configuration and
    runs the [Runtime]; an error becomes a line of the log and the exit code 1.
    The servers the run may host are here too, with what they bind and when. *)
From S2P Require Import Prelude Machine F64 Time Generator Jsonline Http3 Cfg Dpdk Seam Runtime.

(** ** The log ([logging.rs]) *)

(** Levels in the order of [LevelFilter], the quieter first. *)
Inductive Level := WARN | INFO | DEBUG | TRACE.
#[export] Instance level_eq_dec : EqDecision Level.
Proof. solve_decision. Defined.
Definition level_rank (l : Level) : Z := match l with WARN => 0 | INFO => 1 | DEBUG => 2 | TRACE => 3 end.
Definition level_min (a b : Level) : Level := if level_rank b <? level_rank a then b else a.

Record Targets := { with_target : list (string * Level); with_default : Level }.

Definition level_of (verbosity : Z) : Level :=
  if verbosity =? 0 then INFO else if verbosity =? 1 then DEBUG else TRACE.
Definition log_targets (verbosity : Z) : Targets :=
  let level := level_of verbosity in
  {| with_target := [("dwd", level); ("dwd_core", level); ("dpdk", level)]; with_default := level_min WARN level |}.

(** [init]: setting the subscriber fails when there is one. *)
Definition log_init (try_init : Targets → res unit) (verbosity : Z) : res unit := try_init (log_targets verbosity).

(** More flags never show less of the program, and other crates only warn. *)
Theorem verbosity_only_adds v v' i t l :
  0 ≤ v ≤ v' → with_target (log_targets v) !! i = Some (t, l) →
  with_default (log_targets v') = WARN ∧
  ∃ l', with_target (log_targets v') !! i = Some (t, l') ∧ level_rank l ≤ level_rank l'.
Proof.
  intros Hv Hi. assert (level_rank (level_of v) ≤ level_rank (level_of v') ∧ with_default (log_targets v') = WARN) as [Hl Hd].
  { unfold log_targets, level_of. cbn [with_default].
    destruct (Z.eqb_spec v 0), (Z.eqb_spec v 1), (Z.eqb_spec v' 0), (Z.eqb_spec v' 1); by try lia. }
  split; [exact Hd|]. destruct i as [|[|[|i]]]; cbn in Hi |- *; [..|done]; injection Hi as <- <-; by eexists.
Qed.

(** ** The configuration ([cfg.rs], [cmd.rs]) *)

(** What serde reads of the DPDK file: the main core and the ports. *)
Record DpdkFile := { file_master_lcore : Z; file_ports : list (string * list Z) }.

Record DpdkCmd := { dpdk_path : string; pcap_path : string }.
Record DpdkConfig := { dpdk_worker : Dpdk.Config; dpdk_pcap : string }.

Section config.
Context {Net M Addr : Type} `{HeaderMap M}.
Context (contains : Net → IpAddr → bool) (interfaces : list NetworkInterface).
Context (open : string → res (list (res bytes))) (from_str : bytes → res (JsonLineRecord M)).
Context (valid_value : bytes → bool) (parse_authority : bytes → res bytes).
Context (read : string → res bytes) (from_slice : bytes → res DpdkFile).

(** [DpdkCmd::into_config]. *)
Definition dpdk_into_config (cmd : DpdkCmd) : res DpdkConfig :=
  let! data := read (dpdk_path cmd) in
  let! cfg := from_slice data in
  Ok {| dpdk_worker := {| Dpdk.main_lcore := file_master_lcore cfg; Dpdk.ports := file_ports cfg |};
        dpdk_pcap := pcap_path cmd |}.

(** [ModeCmd] with the feature "dpdk". *)
Inductive AnyModeCmd := NativeMode (v : ModeCmd (Net := Net)) | DpdkMode (v : DpdkCmd).
Inductive AnyModeConfig := NativeModeConfig (c : ModeConfig) | DpdkModeConfig (c : DpdkConfig).

Definition any_into_config (m : AnyModeCmd) : res AnyModeConfig :=
  match m with
  | NativeMode v =>
      let! c := mode_into_config contains interfaces open from_str valid_value parse_authority v in
      Ok (NativeModeConfig c)
  | DpdkMode v => let! c := dpdk_into_config v in Ok (DpdkModeConfig c)
  end.

Record Cmd := {
  cmd_mode : AnyModeCmd;
  cmd_generator : option string;
  cmd_verbose : Z;
  cmd_api_addr : option Addr;
  cmd_grpc_addr : option Addr;
  cmd_no_ui : bool;
}.

Record Config := {
  cfg_mode : AnyModeConfig;
  cfg_generator_fn : Instant → res Gen;
  cfg_run : RunConfig Addr;
}.

(** [TryFrom<Cmd> for Config]. *)
Definition try_from (load : string → Instant → res Gen) (v : Cmd) : res Config :=
  let! mode := any_into_config (cmd_mode v) in
  Ok {| cfg_mode := mode; cfg_generator_fn := generator_fn load (cmd_generator v);
        cfg_run := {| no_ui := cmd_no_ui v; grpc_addr := cmd_grpc_addr v; api_addr := cmd_api_addr v |} |}.
End config.
Arguments Cmd : clear implicits.
Arguments Config : clear implicits.

(** ** The servers of a run ([api/server.rs], [grpc/mod.rs]) *)

Inductive HostAction (Addr : Type) :=
  | Bound (addr : Addr)
  | Logged (line : string) (addr : Addr)
  | Spawned.
Arguments Bound {Addr} addr.
Arguments Logged {Addr} line addr.
Arguments Spawned {Addr}.

Section servers.
Context {Addr : Type}.

(** [Server::run] of the API and the task around it in [Runtime::run], which
    logs an error and ends. *)
Definition api_server_run (bind : res Addr) (addr : Addr) (serve : res unit) : traced (HostAction Addr) unit :=
  let* local := tcall bind in
  let* _ := temit (Bound addr) in
  let* _ := temit (Logged "API server listening on" local) in
  tcall serve.
Definition api_task (m : traced (HostAction Addr) unit) : list string :=
  match snd m with Err e => ["API server error: " +:+ e] | _ => [] end.

(** [grpc::serve_tcp]: the address it is bound to. *)
Definition serve_tcp (bind : res Addr) (addr : Addr) (reflection_v1 reflection_v1alpha : res unit) :
    traced (HostAction Addr) Addr :=
  let* local := tcall bind in
  let* _ := temit (Bound addr) in
  let* _ := temit (Logged "gRPC API server listening on" local) in
  let* _ := tcall reflection_v1 in
  let* _ := tcall reflection_v1alpha in
  let* _ := temit Spawned in
  tret local.

(** The control endpoint is bound before anything is spawned, so an address in
    use is an error of the start; the task is there exactly when the call
    returns, and then on the address that was bound. *)
Theorem control_endpoint_bound_eagerly bind addr v1 v1alpha :
  let m := serve_tcp bind addr v1 v1alpha in
  (Spawned ∈ fst m ↔ ∃ local, snd m = Ok local) ∧
  (∀ local, snd m = Ok local → bind = Ok local ∧
     fst m = [Bound addr; Logged "gRPC API server listening on" local; Spawned]) ∧
  (∀ e, bind = Err e → m = ([], Err e)).
Proof.
  unfold serve_tcp. destruct bind as [local| |]; cbn.
  2-3: split_and!; [split; [by intros ?%elem_of_nil|by intros []]|done|by intros ? [= <-]].
  destruct v1 as [[]| |], v1alpha as [[]| |]; cbn; split_and!; try done.
  all: try (by intros ? [= <-]).
  all: split; [intros Hin; first [by eexists|exfalso; repeat (apply elem_of_cons in Hin as [?|Hin]; [done|]); by apply elem_of_nil in Hin]
    |intros []; first [done|do 2 right; left]].
Qed.
End servers.

(** ** From the command line to the exit code ([main.rs]) *)

Inductive Exit := ExitCode (code : Z) | Aborts (msg : string).

(** How a run that was started ends: the interface's error is unwrapped, the
    engine's is returned before the report. *)
Inductive Ending := UiFailed (msg : string) | EngineJoined (rc : res unit).

Definition runtime_run {Addr Engine} (cfg : RunConfig Addr) (env : StartEnv Engine) (ending : Ending) : traced Part unit :=
  let* _ := start cfg env in
  tcall (match ending with
         | UiFailed msg => Panic msg
         | EngineJoined rc => rc
         end).

Section main.
Context {Net M Addr Engine : Type}.
Context (try_into : Cmd Net Addr → res (Config Addr)).
Context (try_init : Targets → res unit) (build : res unit).

(** [run]. *)
Definition run (cmd : Cmd Net Addr) (env : Config Addr → StartEnv Engine) (ending : Ending) : traced Part unit :=
  let* cfg := tcall (try_into cmd) in
  let* _ := tcall build in
  runtime_run (cfg_run cfg) (env cfg) ending.

(** [main]: what was started, the errors logged and the exit. *)
Definition main (cmd : Cmd Net Addr) (env : Config Addr → StartEnv Engine) (ending : Ending) :
    list Part * list string * Exit :=
  match log_init try_init (cmd_verbose cmd) with
  | Ok _ =>
      let m := run cmd env ending in
      match snd m with
      | Ok _ => (fst m, [], ExitCode 0)
      | Err e => (fst m, ["ERROR: " +:+ e], ExitCode 1)
      | Panic e => (fst m, [], Aborts e)
      end
  | Err e | Panic e => ([], [], Aborts e)
  end.
End main.

Section outcome.
Context {Net M Addr Engine : Type} `{HeaderMap M}.
Context (contains : Net → IpAddr → bool) (interfaces : list NetworkInterface).
Context (open : string → res (list (res bytes))) (from_str : bytes → res (JsonLineRecord M)).
Context (valid_value : bytes → bool) (parse_authority : bytes → res bytes).
Context (read : string → res bytes) (from_slice : bytes → res DpdkFile) (load : string → Instant → res Gen).
Context (try_init : Targets → res unit) (build : res unit).
Abbreviation resolve := (try_from contains interfaces open from_str valid_value parse_authority read from_slice load).
Abbreviation main := (main (Engine := Engine) (Addr := Addr) resolve try_init build).

(** The flags of a command decide what runs: with a configuration that cannot be
    resolved nothing is started and the exit code is 1 with the error logged;
    the exit code is 0 only when exactly the parts the flags ask for were
    started and every one of them ended without an error, and an exit code of 1
    always comes with one line that says why. *)
Theorem main_runs_the_flags cmd env ending :
  let rc := {| no_ui := cmd_no_ui cmd; grpc_addr := cmd_grpc_addr cmd; api_addr := cmd_api_addr cmd |} in
  let '(parts, errors, exit) := main cmd env ending in
  parts `prefix_of` expected_parts rc ∧
  (∀ e, try_init (log_targets (cmd_verbose cmd)) = Ok tt → resolve cmd = Err e →
     parts = [] ∧ errors = ["ERROR: " +:+ e] ∧ exit = ExitCode 1) ∧
  (exit = ExitCode 0 → parts = expected_parts rc ∧ errors = [] ∧ ending = EngineJoined (Ok tt)) ∧
  (exit = ExitCode 1 ↔ ∃ e, errors = ["ERROR: " +:+ e]).
Proof.
  intros rc. unfold Main.main, log_init.
  assert (∀ P : Prop, (∃ e, @nil string = ["ERROR: " +:+ e]) → P) as Hno by by intros P [e He].
  destruct (try_init _) as [[]| |].
  2-3: split_and!; try done; [apply prefix_nil|split; [done|apply Hno]].
  unfold run. destruct (resolve cmd) as [cfg|e|e] eqn:Hc; cbn.
  2: split_and!; try done; [apply prefix_nil|by intros ? _ [= ->]|split; [by eexists|done]].
  2: split_and!; try done; [apply prefix_nil|split; [done|apply Hno]].
  assert (cfg_run cfg = rc) as Hrc.
  { unfold try_from in Hc. by apply res_bind_Ok in Hc as (m & _ & [= <-]). }
  unfold tbind at 1. cbn [fst snd]. destruct build as [[]| |]; cbn.
  2: split_and!; try done; [apply prefix_nil|split; [by eexists|done]].
  2: split_and!; try done; [apply prefix_nil|split; [done|apply Hno]].
  unfold runtime_run. rewrite Hrc. pose proof (start_prefix rc (env cfg)) as Hs. unfold tbind.
  destruct (start rc (env cfg)) as [parts [seam| |]], Hs as [Hp Hall]; cbn [fst snd].
  2: split_and!; try done; split; [by eexists|done].
  2: split_and!; try done; split; [done|apply Hno].
  specialize (Hall seam eq_refl) as ->. destruct ending as [msg|[[]|e|e]]; cbn; rewrite ?app_nil_r; split_and!; try done.
  all: first [split; [done|apply Hno]|split; [by eexists|done]].
Qed.
End outcome.
