(* ===== verification/Backend.v ===== *)
(** * The test backend ([dwd-backend/src])

    The server the generator is tried against: static content over HTTP, HTTPS
    and HTTP/3.  Its command line, its configuration, how it comes up — what it
    has bound and spawned stays in a trace when a later call fails — and how it
    answers a request over HTTP/3; then the server and the generator's HTTP/3
    worker ([Http3]) on the two ends of a connection.  Files, certificates,
    sockets, rustls, quinn, h3 and actix-web are an environment. *)
From S2P Require Import Prelude Machine F64 Histogram Stat Ledger Text Produce Task Exchange Http Http3.

(** ** Errors *)

(** [std::io::Error]: a kind and a message. *)
Inductive ErrorKind := NotFound | InvalidInput | InvalidData | OtherKind.
#[export] Instance error_kind_eq_dec : EqDecision ErrorKind.
Proof. solve_decision. Defined.

Inductive io (A : Type) := IoOk (a : A) | IoErr (kind : ErrorKind) (msg : string).
Arguments IoOk {A} a.
Arguments IoErr {A} kind msg.

Definition kind_name (k : ErrorKind) : string :=
  match k with NotFound => "NotFound" | InvalidInput => "InvalidInput" | InvalidData => "InvalidData" | OtherKind => "Other" end.
Definition io_error (k : ErrorKind) (msg : string) : string := kind_name k +:+ ": " +:+ msg.

(** [?] on an [io::Result]. *)
Definition io_res {A} (r : io A) : res A :=
  match r with IoOk a => Ok a | IoErr k msg => Err (io_error k msg) end.

(** [.map_err(invalid_data)]. *)
Definition invalid_data {A} (r : res A) : res A :=
  match r with Err msg => Err (io_error InvalidData msg) | r => r end.

(** ** Command line ([cli.rs]) *)

Inductive Mode := ModeHttp | ModeHttps | ModeHttp3.
#[export] Instance mode_eq_dec : EqDecision Mode.
Proof. solve_decision. Defined.

Definition default_port (m : Mode) : Z := match m with ModeHttp => 80 | ModeHttps | ModeHttp3 => 443 end.

Record Cli := {
  cli_config : option string;
  cli_mode : option Mode;
  cli_port : option Z;
  cli_cert : option string;
  cli_key : option string;
}.

(** [requires] and [conflicts_with] of the arguments. *)
Definition requires {A B} (a : option A) (b : option B) : bool :=
  match a, b with Some _, None => false | _, _ => true end.
Definition conflicts_with {A B} (a : option A) (b : option B) : bool :=
  match a, b with Some _, Some _ => false | _, _ => true end.
Definition cli_accepted (c : Cli) : bool :=
  conflicts_with (cli_config c) (cli_mode c) && requires (cli_port c) (cli_mode c) &&
  (requires (cli_cert c) (cli_mode c) && requires (cli_cert c) (cli_key c)) &&
  (requires (cli_key c) (cli_mode c) && requires (cli_key c) (cli_cert c)).

(** ** Configuration ([config.rs]) *)

Record HttpConfig := { http_port : Z }.
Record HttpsConfig := { https_enabled : bool; https_port : Z; https_cert : option string; https_key : option string }.
Record Http3Config := { http3_enabled : bool; http3_port : Z; http3_cert : option string; http3_key : option string }.
Record ContentConfig := { content_file : string; content_payload : string }.
Record Config := {
  address : string;
  cfg_http : HttpConfig;
  cfg_https : HttpsConfig;
  cfg_http3 : Http3Config;
  cfg_content : ContentConfig;
}.

Definition default_address : string := "::".
Definition default_content_payload : string := "default content".
Definition http_default : HttpConfig := {| http_port := 80 |}.
Definition https_default : HttpsConfig :=
  {| https_enabled := true; https_port := 443; https_cert := None; https_key := None |}.
Definition http3_default : Http3Config :=
  {| http3_enabled := true; http3_port := 443; http3_cert := None; http3_key := None |}.
Definition content_default : ContentConfig :=
  {| content_file := "/etc/dwd-backend/content"; content_payload := default_content_payload |}.
Definition config_default : Config :=
  {| address := default_address; cfg_http := http_default; cfg_https := https_default;
     cfg_http3 := http3_default; cfg_content := content_default |}.

(** A document as toml reads it: any section and any field may be missing. *)
Record TlsToml := {
  t_enabled : option bool;
  t_port : option Z;
  t_cert : option string;
  t_key : option string;
}.
Record ConfigToml := {
  t_address : option string;
  t_http : option (option Z);
  t_https : option TlsToml;
  t_http3 : option TlsToml;
  t_content : option (option string * option string);
}.

(** [#[serde(default)]]: what is missing is taken from the default of its struct. *)
Definition config_of_toml (t : ConfigToml) : Config := {|
  address := default default_address (t_address t);
  cfg_http := match t_http t with
              | Some port => {| http_port := default (http_port http_default) port |}
              | None => http_default
              end;
  cfg_https := match t_https t with
               | Some s => {| https_enabled := default (https_enabled https_default) (t_enabled s);
                              https_port := default (https_port https_default) (t_port s);
                              https_cert := t_cert s; https_key := t_key s |}
               | None => https_default
               end;
  cfg_http3 := match t_http3 t with
               | Some s => {| http3_enabled := default (http3_enabled http3_default) (t_enabled s);
                              http3_port := default (http3_port http3_default) (t_port s);
                              http3_cert := t_cert s; http3_key := t_key s |}
               | None => http3_default
               end;
  cfg_content := match t_content t with
                 | Some (file, payload) =>
                     {| content_file := default (content_file content_default) file;
                        content_payload := default (content_payload content_default) payload |}
                 | None => content_default
                 end;
|}.

(** ** The environment

    Files do not change while the backend starts. *)

Record CertKey := { cert_chain : list string; key : string }.

Record ServerConfig := {
  server_cert : CertKey;
  alpn_protocols : list string;
  max_early_data_size : Z;
}.

Record BackendEnv (Addr : Type) := {
  be_var : option string;                           (* [DWD_BACKEND_CONFIG] *)
  be_read : string → io string;                     (* [fs::read_to_string] *)
  be_toml : string → res ConfigToml;                (* [toml::from_str] *)
  be_open : string → io string;                     (* [File::open]: the file opened *)
  be_certs : string → res (list string);            (* [rustls_pemfile::certs] *)
  be_private_key : string → res (option string);    (* [rustls_pemfile::private_key] *)
  be_self_signed : res (string * string);           (* [rcgen::generate_simple_self_signed] *)
  be_versions : res unit;                           (* [with_safe_default_protocol_versions] *)
  be_single_cert : CertKey → res unit;              (* [with_single_cert] *)
  be_quic : ServerConfig → res unit;                (* [QuicServerConfig::try_from] *)
  be_resolve : string → Z → io (list Addr);         (* [to_socket_addrs] *)
  be_bind_quic : Addr → io unit;                    (* [Endpoint::server] *)
  be_bind_http : string → Z → io unit;              (* [HttpServer::bind] *)
  be_bind_https : string → Z → io unit;             (* [HttpServer::bind_rustls_0_23] *)
  be_run : io unit;                                 (* [server.run().await] *)
}.
Arguments be_var {Addr} _.
Arguments be_read {Addr} _.
Arguments be_toml {Addr} _.
Arguments be_open {Addr} _.
Arguments be_certs {Addr} _.
Arguments be_private_key {Addr} _.
Arguments be_self_signed {Addr} _.
Arguments be_versions {Addr} _.
Arguments be_single_cert {Addr} _.
Arguments be_quic {Addr} _.
Arguments be_resolve {Addr} _.
Arguments be_bind_quic {Addr} _.
Arguments be_bind_http {Addr} _.
Arguments be_bind_https {Addr} _.
Arguments be_run {Addr} _.

(** What the backend does to the outside on its way. *)
Inductive Action (Addr : Type) :=
  | Print (line : string)
  | BindQuic (addr : Addr) (config : ServerConfig)
  | BindHttp (address : string) (port : Z)
  | BindHttps (address : string) (port : Z) (config : ServerConfig)
  | SpawnHttp3 (body : string)    (* [tokio::spawn(run_http3_server(..))] *)
  | RunHttp3 (body : string)      (* [run_http3_server(..).await] *)
  | RunTcp (body : string).       (* [server.run().await] *)
Arguments Print {Addr} line.
Arguments BindQuic {Addr} addr config.
Arguments BindHttp {Addr} address port.
Arguments BindHttps {Addr} address port config.
Arguments SpawnHttp3 {Addr} body.
Arguments RunHttp3 {Addr} body.
Arguments RunTcp {Addr} body.

Section backend.
Context {Addr : Type} (env : BackendEnv Addr).
Abbreviation M := (traced (Action Addr)).

Definition println (line : string) : M unit := temit (Print line).

(** [Config::load]. *)
Definition load (path : string) : M Config :=
  match be_read env path with
  | IoOk raw => let* t := tcall (invalid_data (be_toml env raw)) in tret (config_of_toml t)
  | IoErr NotFound _ =>
      let* _ := println ("Config " +:+ path +:+ " not found, using default values") in
      tret config_default
  | IoErr k msg => tcall (Err (io_error k msg))
  end.

(** [Config::resolve_content]. *)
Definition resolve_content (cfg : Config) : res string :=
  match be_read env (content_file (cfg_content cfg)) with
  | IoOk content => Ok content
  | IoErr NotFound _ => Ok (content_payload (cfg_content cfg))
  | IoErr k msg => Err (io_error k msg)
  end.

(** [tls::get_cert_and_key]. *)
Definition get_cert_and_key (cert_path key_path : option string) : M CertKey :=
  match cert_path, key_path with
  | None, None =>
      let* _ := println "Generating a temporary self-signed certificate..." in
      let* c := tcall (invalid_data (be_self_signed env)) in
      tret {| cert_chain := [fst c]; key := snd c |}
  | Some cert_path, Some key_path =>
      let* cert_file := tcall (io_res (be_open env cert_path)) in
      let* key_file := tcall (io_res (be_open env key_path)) in
      let* chain := tcall (invalid_data (be_certs env cert_file)) in
      if decide (chain = []) then tcall (Err (io_error InvalidData ("no certificates found in " +:+ cert_path)))
      else
        let* k := tcall (invalid_data (be_private_key env key_file)) in
        match k with
        | Some k => tret {| cert_chain := chain; key := k |}
        | None => tcall (Err (io_error InvalidData ("no private key found in " +:+ key_path)))
        end
  | _, _ => tcall (Err (io_error InvalidInput "certificate and private key must be configured together"))
  end.

(** [tls::build_rustls_config] and [tls::build_quic_config]. *)
Definition build_rustls_config (c : CertKey) : res ServerConfig :=
  let! _ := invalid_data (be_versions env) in
  let! _ := invalid_data (be_single_cert env c) in
  Ok {| server_cert := c; alpn_protocols := []; max_early_data_size := 0 |}.

Definition build_quic_config (c : CertKey) : res ServerConfig :=
  let! tls := build_rustls_config c in
  let tls := {| server_cert := server_cert tls; alpn_protocols := ["h3"]; max_early_data_size := 2 ^ 32 - 1 |} in
  let! _ := invalid_data (be_quic env tls) in
  Ok tls.

(** [server::build_body], [server::resolve_socket_addr] and [server::bind_http3]. *)
Definition CONTENT_PREFIX : string := "Content: ".
Definition build_body (content : string) : string := CONTENT_PREFIX +:+ content.

Definition resolve_socket_addr (address : string) (port : Z) : res Addr :=
  let! addrs := io_res (be_resolve env address port) in
  match head addrs with
  | Some a => Ok a
  | None => Err (io_error InvalidInput ("failed to resolve address " +:+ address +:+ ":" +:+ fmt_u64 port))
  end.

Definition bind_http3 (addr : Addr) (config : ServerConfig) : M unit :=
  let* _ := tcall (io_res (be_bind_quic env addr)) in temit (BindQuic addr config).

(** [server::run_tcp_servers]. *)
Definition run_tcp_servers (address : string) (http_port : option Z) (https : option (Z * ServerConfig))
    (body : string) : M unit :=
  let* _ := (match http_port with
             | Some port =>
                 let* _ := tcall (io_res (be_bind_http env address port)) in
                 let* _ := temit (BindHttp address port) in
                 println ("HTTP listening on " +:+ address +:+ ":" +:+ fmt_u64 port)
             | None => tret tt
             end) in
  let* _ := (match https with
             | Some (port, tls) =>
                 let* _ := tcall (io_res (be_bind_https env address port)) in
                 let* _ := temit (BindHttps address port tls) in
                 println ("HTTPS listening on " +:+ address +:+ ":" +:+ fmt_u64 port)
             | None => tret tt
             end) in
  let* _ := temit (RunTcp body) in
  tcall (io_res (be_run env)).

(** [main::run_from_config], the HTTP/3 part of it first. *)
Definition start_http3 (cfg : Config) (https_keys : option CertKey) (body : string) : M unit :=
  if http3_enabled (cfg_http3 cfg) then
    let* cert_key := (match http3_cert (cfg_http3 cfg), http3_key (cfg_http3 cfg), https_keys with
                      | None, None, Some keys => tret keys
                      | cert, key, _ => get_cert_and_key cert key
                      end) in
    let* quic_config := tcall (build_quic_config cert_key) in
    let* addr := tcall (resolve_socket_addr (address cfg) (http3_port (cfg_http3 cfg))) in
    let* _ := bind_http3 addr quic_config in
    let* _ := temit (SpawnHttp3 body) in
    println ("HTTP3 listening on " +:+ address cfg +:+ ":" +:+ fmt_u64 (http3_port (cfg_http3 cfg)) +:+ " (UDP/QUIC)")
  else tret tt.

Definition run_from_config (path : string) : M unit :=
  let* cfg := load path in
  let* content := tcall (resolve_content cfg) in
  let body := build_body content in
  let* https_keys := (if https_enabled (cfg_https cfg)
                      then let* k := get_cert_and_key (https_cert (cfg_https cfg)) (https_key (cfg_https cfg)) in
                           tret (Some k)
                      else tret None) in
  let* _ := start_http3 cfg https_keys body in
  let* https := (match https_keys with
                 | Some k => let* tls := tcall (build_rustls_config k) in tret (Some (https_port (cfg_https cfg), tls))
                 | None => tret None
                 end) in
  run_tcp_servers (address cfg) (Some (http_port (cfg_http cfg))) https body.

(** [main::run_single]. *)
Definition DEFAULT_ADDRESS : string := "::".
Definition run_single (cli : Cli) (mode : Mode) : M unit :=
  let port := default (default_port mode) (cli_port cli) in
  let body := build_body default_content_payload in
  match mode with
  | ModeHttp => run_tcp_servers DEFAULT_ADDRESS (Some port) None body
  | ModeHttps =>
      let* keys := get_cert_and_key (cli_cert cli) (cli_key cli) in
      let* tls := tcall (build_rustls_config keys) in
      run_tcp_servers DEFAULT_ADDRESS None (Some (port, tls)) body
  | ModeHttp3 =>
      let* cert_key := get_cert_and_key (cli_cert cli) (cli_key cli) in
      let* quic_config := tcall (build_quic_config cert_key) in
      let* addr := tcall (resolve_socket_addr DEFAULT_ADDRESS port) in
      let* _ := bind_http3 addr quic_config in
      let* _ := println ("HTTP3 listening on " +:+ DEFAULT_ADDRESS +:+ ":" +:+ fmt_u64 port +:+ " (UDP/QUIC)") in
      temit (RunHttp3 body)
  end.

(** [main::main], once clap has accepted the command line. *)
Definition DEFAULT_CONFIG_PATH : string := "/etc/dwd-backend/config.toml".
Definition config_path (cli : Cli) : string :=
  match cli_config cli with
  | Some path => path
  | None => default DEFAULT_CONFIG_PATH (be_var env)
  end.
Definition main (cli : Cli) : M unit :=
  match cli_mode cli with
  | Some mode => run_single cli mode
  | None => run_from_config (config_path cli)
  end.

(** ** Coming up *)

Definition is_print (a : Action Addr) : bool := match a with Print _ => true | _ => false end.
Definition effects {A} (m : M A) : list (Action Addr) := filter (λ a, is_print a = false) (fst m).

Lemma effects_tbind {A B} (m : M A) (f : A → M B) :
  effects (tbind m f) = effects m ++ match snd m with Ok a => effects (f a) | _ => [] end.
Proof using. unfold effects, tbind. destruct m as [tr [a| |]]; cbn; [by rewrite filter_app|by rewrite app_nil_r..]. Qed.

Lemma tbind_tret {A B} (a : A) (f : A → M B) : tbind (tret a) f = f a.
Proof using. unfold tbind. cbn. by destruct (f a). Qed.

Lemma snd_tbind {A B} (m : M A) (f : A → M B) : snd (tbind m f) = res_bind (snd m) (λ a, snd (f a)).
Proof using. by destruct m as [tr [a| |]]. Qed.

(** Nothing of the outside is touched while files are read and certificates made. *)
Lemma quiet_bind {A B} (m : M A) (f : A → M B) :
  effects m = [] → (∀ a, effects (f a) = []) → effects (tbind m f) = [].
Proof using. intros Hm Hf. rewrite effects_tbind, Hm. destruct (snd m); [apply Hf|done..]. Qed.

Lemma load_quiet path : effects (load path) = [].
Proof using.
  unfold load. destruct (be_read env path) as [raw|[] msg]; try done; by apply quiet_bind.
Qed.

Lemma get_cert_and_key_quiet cert key : effects (get_cert_and_key cert key) = [].
Proof using.
  unfold get_cert_and_key. destruct cert as [cert|], key as [key|]; try done.
  2: by repeat (apply quiet_bind; [done|intros ?]).
  repeat (apply quiet_bind; [done|intros ?]). destruct (decide _); [done|].
  apply quiet_bind; [done|by intros []].
Qed.

(** What the configuration asks to be bound and run, in this order, with the
    keys of HTTPS and with the keys and the address of HTTP/3. *)
Definition tls_of (k : CertKey) : ServerConfig :=
  {| server_cert := k; alpn_protocols := []; max_early_data_size := 0 |}.
Definition quic_of (k : CertKey) : ServerConfig :=
  {| server_cert := k; alpn_protocols := ["h3"]; max_early_data_size := 2 ^ 32 - 1 |}.
Definition quic_listener (body : string) (quic : option (CertKey * Addr)) : list (Action Addr) :=
  match quic with Some (k, a) => [BindQuic a (quic_of k); SpawnHttp3 body] | None => [] end.
Definition tcp_listeners (addr : string) (http : option Z) (https : option (Z * ServerConfig)) : list (Action Addr) :=
  match http with Some port => [BindHttp addr port] | None => [] end ++
  match https with Some (port, tls) => [BindHttps addr port tls] | None => [] end.
Definition listeners (cfg : Config) (body : string) (keys : option CertKey) (quic : option (CertKey * Addr)) :
    list (Action Addr) :=
  quic_listener body quic ++
  tcp_listeners (address cfg) (Some (http_port (cfg_http cfg))) ((λ k, (https_port (cfg_https cfg), tls_of k)) <$> keys) ++
  [RunTcp body].

(** The keys are those of the files named, or generated; HTTP/3 without files
    of its own takes those of HTTPS. *)
Definition keys_loaded (cfg : Config) (keys : option CertKey) : Prop :=
  if https_enabled (cfg_https cfg)
  then ∃ k, keys = Some k ∧ snd (get_cert_and_key (https_cert (cfg_https cfg)) (https_key (cfg_https cfg))) = Ok k
  else keys = None.
Definition quic_loaded (cfg : Config) (keys : option CertKey) (quic : option (CertKey * Addr)) : Prop :=
  if http3_enabled (cfg_http3 cfg)
  then ∃ k a, quic = Some (k, a) ∧ resolve_socket_addr (address cfg) (http3_port (cfg_http3 cfg)) = Ok a ∧
    match http3_cert (cfg_http3 cfg), http3_key (cfg_http3 cfg), keys with
    | None, None, Some ks => k = ks
    | cert, key, _ => snd (get_cert_and_key cert key) = Ok k
    end
  else quic = None.

Lemma build_rustls_config_Ok k c : build_rustls_config k = Ok c → c = tls_of k.
Proof using. unfold build_rustls_config. intros H. by res_inv. Qed.
Lemma build_quic_config_Ok k c : build_quic_config k = Ok c → c = quic_of k.
Proof using. unfold build_quic_config. intros H. res_inv. by rewrite (build_rustls_config_Ok _ _ H). Qed.

(** A start either reaches the end and runs, or stops at a prefix of what it
    was to bind without running anything. *)
Definition reaches (m : M unit) (l : list (Action Addr)) (body : string) : Prop :=
  (snd m = io_res (be_run env) ∧ effects m = l ++ [RunTcp body]) ∨
  ((∀ u, snd m ≠ Ok u) ∧ effects m `prefix_of` l).

Definition opens (m : M unit) (l : list (Action Addr)) : Prop :=
  (snd m = Ok tt ∧ effects m = l) ∨ ((∀ u, snd m ≠ Ok u) ∧ effects m `prefix_of` l).

Lemma opens_bind (m : M unit) (f : unit → M unit) l l' body :
  opens m l → reaches (f tt) l' body → reaches (tbind m f) (l ++ l') body.
Proof using.
  unfold reaches. intros [[Hm He]|[Hm He]] Hf; rewrite effects_tbind, snd_tbind.
  - rewrite Hm, He. cbn. destruct Hf as [[Hs He']|[Hs He']]; [left|right].
    + by rewrite He', app_assoc.
    + split; [done|]. by apply prefix_app.
  - right. destruct (snd m) as [u| |]; [by destruct (Hm u)|cbn; rewrite app_nil_r..];
      by (split; [|apply prefix_app_r]).
Qed.

Lemma opens_nothing : opens (tret tt) [].
Proof using. by left. Qed.

Lemma opens_bound (r : io unit) a line :
  is_print a = false → opens (let* _ := tcall (io_res r) in let* _ := temit a in println line) [a].
Proof using.
  intros Ha. destruct r as [[]|]; [left|right].
  - split; [done|]. unfold effects, tbind. cbn. by rewrite decide_True.
  - split; [done|apply prefix_nil].
Qed.

Lemma run_reaches body : reaches (let* _ := temit (RunTcp body) in tcall (io_res (be_run env))) [] body.
Proof using. left. split; [|done]. unfold tbind. cbn. by destruct (be_run env). Qed.

Lemma run_tcp_servers_reaches addr http https body :
  reaches (run_tcp_servers addr http https body) (tcp_listeners addr http https) body.
Proof using.
  unfold run_tcp_servers, tcp_listeners. apply opens_bind.
  { destruct http; [by apply opens_bound|apply opens_nothing]. }
  rewrite <-(app_nil_r (match https with _ => _ end)). apply opens_bind; [|apply run_reaches].
  destruct https as [[]|]; [by apply opens_bound|apply opens_nothing].
Qed.

(** A failure of what touches nothing outside. *)
Definition gives_up (m : M unit) : Prop := (∀ u, snd m ≠ Ok u) ∧ effects m = [].

Lemma quiet_step {A} (m : M A) (f : A → M unit) :
  effects m = [] → (∃ a, snd m = Ok a ∧ effects (tbind m f) = effects (f a) ∧ snd (tbind m f) = snd (f a)) ∨
                   ((∀ a, snd m ≠ Ok a) ∧ gives_up (tbind m f)).
Proof using.
  intros Hm. unfold gives_up. rewrite effects_tbind, snd_tbind, Hm.
  destruct (snd m) as [a| |]; [left; by exists a|right; by split..].
Qed.

(** Peels the quiet step off the front of the computation [m]. *)
Ltac peel Hm x :=
  match goal with |- context [effects (tbind ?m ?f)] =>
    destruct (quiet_step m f Hm) as [(x & ?Hx & -> & ->)|[? [? ?]]] end.

Lemma start_http3_opens cfg keys body :
  gives_up (start_http3 cfg keys body) ∨
  ∃ quic, quic_loaded cfg keys quic ∧ opens (start_http3 cfg keys body) (quic_listener body quic).
Proof using.
  unfold start_http3, quic_loaded, gives_up, opens. destruct (http3_enabled _); [|right; exists None; split; [done|by left]].
  set (get := match http3_cert _, http3_key _, keys with None, None, Some k => tret k | _, _, _ => _ end).
  assert (effects get = []) as Hget.
  { subst get. destruct (http3_cert _), (http3_key _), keys; first [apply get_cert_and_key_quiet|done]. }
  peel Hget k; [|by left].
  assert (effects (tcall (build_quic_config k)) = []) as Hq by done. peel Hq c; [|by left].
  assert (effects (tcall (resolve_socket_addr (address cfg) (http3_port (cfg_http3 cfg)))) = []) as Ha by done.
  peel Ha a; [|by left]. cbn in Hx0, Hx1. apply build_quic_config_Ok in Hx0 as ->.
  right. exists (Some (k, a)). split.
  - exists k, a. split_and!; [done|done|]. subst get. clear -Hx.
    destruct (http3_cert _), (http3_key _), keys; first [done|by injection Hx as ->].
  - unfold bind_http3. destruct (be_bind_quic env a) as [[]|]; cbn [io_res]; [left|right].
    + split; [done|]. rewrite !effects_tbind. done.
    + split; [done|apply prefix_nil].
Qed.

(** HTTP/3 is served as soon as its socket is bound. *)
Lemma start_http3_spawns cfg keys body :
  effects (start_http3 cfg keys body) = [] ∨
  snd (start_http3 cfg keys body) = Ok tt ∧ ∃ a c, effects (start_http3 cfg keys body) = [BindQuic a c; SpawnHttp3 body].
Proof using.
  unfold start_http3. destruct (http3_enabled _); [|by left].
  set (get := match http3_cert _, http3_key _, keys with None, None, Some k => tret k | _, _, _ => _ end).
  assert (effects get = []) as Hget.
  { subst get. destruct (http3_cert _), (http3_key _), keys; first [apply get_cert_and_key_quiet|done]. }
  peel Hget k; [|by left].
  assert (effects (tcall (build_quic_config k)) = []) as Hq by done. peel Hq c; [|by left].
  assert (effects (tcall (resolve_socket_addr (address cfg) (http3_port (cfg_http3 cfg)))) = []) as Ha by done.
  peel Ha a; [|by left]. unfold bind_http3. destruct (be_bind_quic env a) as [[]|]; cbn [io_res]; [right|by left].
  split; [done|]. by exists a, c.
Qed.

Definition https_keys_of (cfg : Config) : M (option CertKey) :=
  if https_enabled (cfg_https cfg)
  then let* k := get_cert_and_key (https_cert (cfg_https cfg)) (https_key (cfg_https cfg)) in tret (Some k)
  else tret None.

Lemma https_keys_of_spec cfg keys : snd (https_keys_of cfg) = Ok keys ↔ keys_loaded cfg keys.
Proof using.
  unfold https_keys_of, keys_loaded. destruct (https_enabled _); [|cbn; split; [by intros [= <-]|by intros ->]].
  rewrite snd_tbind, res_bind_Ok. cbn. split.
  - intros (k & Hk & [= <-]). by exists k.
  - intros (k & -> & Hk). by exists k.
Qed.

(** Everything the calls after the keys depend on. *)
Definition able (cfg : Config) (keys : option CertKey) (quic : option (CertKey * Addr)) : Prop :=
  match quic with
  | Some (k, a) => build_quic_config k = Ok (quic_of k) ∧ be_bind_quic env a = IoOk tt
  | None => True
  end ∧
  be_bind_http env (address cfg) (http_port (cfg_http cfg)) = IoOk tt ∧
  match keys with
  | Some k => build_rustls_config k = Ok (tls_of k) ∧ be_bind_https env (address cfg) (https_port (cfg_https cfg)) = IoOk tt
  | None => True
  end.

Lemma start_http3_able cfg keys quic body :
  quic_loaded cfg keys quic → able cfg keys quic →
  snd (start_http3 cfg keys body) = Ok tt ∧ effects (start_http3 cfg keys body) = quic_listener body quic.
Proof using.
  unfold quic_loaded, able, start_http3. destruct (http3_enabled _); [|by intros ->].
  intros (k & a & -> & Ha & Hk) [[Hc Hb] _].
  set (get := match http3_cert _, http3_key _, keys with None, None, Some k => tret k | _, _, _ => _ end).
  assert (snd get = Ok k ∧ effects get = []) as [Hg Hq].
  { subst get. destruct (http3_cert _), (http3_key _), keys; subst; auto using get_cert_and_key_quiet. }
  rewrite effects_tbind, snd_tbind, Hg, Hq. cbn [res_bind app]. rewrite Hc, tbind_tcall_Ok, Ha, tbind_tcall_Ok.
  unfold bind_http3. by rewrite Hb.
Qed.

Lemma run_tcp_servers_able cfg body keys quic :
  able cfg keys quic →
  let m := run_tcp_servers (address cfg) (Some (http_port (cfg_http cfg)))
    ((λ k, (https_port (cfg_https cfg), tls_of k)) <$> keys) body in
  snd m = io_res (be_run env) ∧
  effects m = tcp_listeners (address cfg) (Some (http_port (cfg_http cfg)))
    ((λ k, (https_port (cfg_https cfg), tls_of k)) <$> keys) ++ [RunTcp body].
Proof using.
  unfold able, run_tcp_servers. intros (_ & Hh & Hs). rewrite Hh. generalize (be_run env). intros r.
  destruct keys as [k|]; cbn [fmap option_fmap option_map]; [destruct Hs as [_ ->]|]; by destruct r as [[]|].
Qed.

Lemma run_not_listener body cfg keys quic l :
  l `prefix_of` quic_listener body quic ++ tcp_listeners (address cfg) (Some (http_port (cfg_http cfg)))
    ((λ k, (https_port (cfg_https cfg), tls_of k)) <$> keys) →
  l `prefix_of` listeners cfg body keys quic ∧ RunTcp body ∉ l.
Proof using.
  intros Hl. split; [unfold listeners; rewrite app_assoc; by apply prefix_app_r|].
  intros Hin. destruct Hl as [l' Hl]. assert (RunTcp body ∈ l ++ l') as Hin' by (apply elem_of_app; by left).
  rewrite <-Hl in Hin'. destruct quic as [[k a]|], keys; cbn in Hin';
    by repeat match goal with H : _ ∈ _ |- _ => inversion_clear H end.
Qed.

(** After the keys: HTTP/3, then the rest. *)
Definition serve_tcp (cfg : Config) (body : string) (keys : option CertKey) : M unit :=
  let* https := (match keys with
                 | Some k => let* tls := tcall (build_rustls_config k) in tret (Some (https_port (cfg_https cfg), tls))
                 | None => tret None
                 end) in
  run_tcp_servers (address cfg) (Some (http_port (cfg_http cfg))) https body.
Definition after_keys (cfg : Config) (body : string) (keys : option CertKey) : M unit :=
  let* _ := start_http3 cfg keys body in serve_tcp cfg body keys.

Lemma serve_tcp_reaches cfg body keys :
  reaches (serve_tcp cfg body keys)
    (tcp_listeners (address cfg) (Some (http_port (cfg_http cfg))) ((λ k, (https_port (cfg_https cfg), tls_of k)) <$> keys)) body.
Proof using.
  unfold serve_tcp. destruct keys as [k|]; [|apply run_tcp_servers_reaches].
  destruct (build_rustls_config k) as [c| |] eqn:Hc; [|by right; split; [|apply prefix_nil]..].
  rewrite (build_rustls_config_Ok _ _ Hc), tbind_tcall_Ok. apply run_tcp_servers_reaches.
Qed.

Lemma run_from_config_after path cfg content :
  snd (load path) = Ok cfg → resolve_content cfg = Ok content →
  (gives_up (run_from_config path) ∧ ∀ keys, ¬ keys_loaded cfg keys) ∨
  ∃ keys, keys_loaded cfg keys ∧
    effects (run_from_config path) = effects (after_keys cfg (build_body content) keys) ∧
    snd (run_from_config path) = snd (after_keys cfg (build_body content) keys).
Proof using.
  intros Hl Hc. unfold run_from_config, gives_up. rewrite !effects_tbind, !snd_tbind, Hl, load_quiet.
  cbn [res_bind app]. rewrite Hc, tbind_tcall_Ok.
  fold (https_keys_of cfg). change (tbind (https_keys_of cfg) _) with
    (tbind (https_keys_of cfg) (after_keys cfg (build_body content))).
  assert (effects (https_keys_of cfg) = []) as Hq.
  { unfold https_keys_of. destruct (https_enabled _); [|done]. apply quiet_bind; [apply get_cert_and_key_quiet|done]. }
  destruct (quiet_step _ (after_keys cfg (build_body content)) Hq) as [(keys & Hk & -> & ->)|[Hn Hg]].
  - right. exists keys. by rewrite <-https_keys_of_spec.
  - left. split; [exact Hg|]. intros keys. rewrite <-https_keys_of_spec. apply Hn.
Qed.

(** What is bound over UDP is bound first and served at once. *)
Lemma quic_served_at_once cfg body keys a c :
  BindQuic a c ∈ effects (after_keys cfg body keys) →
  [BindQuic a c; SpawnHttp3 body] `prefix_of` effects (after_keys cfg body keys).
Proof using.
  unfold after_keys. rewrite effects_tbind. set (rest := match snd _ with Ok _ => _ | _ => _ end).
  assert (BindQuic a c ∉ rest) as Hrest.
  { subst rest. destruct (snd _); [|apply not_elem_of_nil..].
    destruct (serve_tcp_reaches cfg body keys) as [[_ ->]|[_ [l Hl]]].
    - by destruct keys; cbn; rewrite !not_elem_of_cons; split_and!; try done; apply not_elem_of_nil.
    - intros Hin. assert (BindQuic a c ∈ effects (serve_tcp cfg body keys) ++ l) as Hin' by (apply elem_of_app; by left).
      rewrite <-Hl in Hin'. destruct keys; cbn in Hin'; by repeat match goal with H : _ ∈ _ |- _ => inversion_clear H end. }
  destruct (start_http3_spawns cfg keys body) as [->|(_ & a' & c' & ->)]; [done|].
  intros [Hin|?]%elem_of_app; [|done]. rewrite !elem_of_cons in Hin.
  destruct Hin as [[= -> ->]|[?|[]%elem_of_nil]]; [|done]. by eexists.
Qed.

(** C35: the backend in its configuration-driven mode.  With the configuration
    and the content it found, either it gives up before anything is bound, or
    the keys of every listener have been loaded (HTTP/3 without files of its own
    has those of HTTPS) and what it binds is, in the order HTTP/3, HTTP, HTTPS,
    a prefix of exactly the listeners the configuration enables, each on its own
    port.  Every protocol serves the same body, the content behind the prefix.
    HTTP/3 is served as soon as its socket is bound, before HTTP and HTTPS are,
    whatever becomes of them; HTTP and HTTPS are served only when everything is
    bound, and then the outcome is that of their server.  When the calls it
    needs succeed, it comes to that. *)
Theorem backend_comes_up path cfg content :
  snd (load path) = Ok cfg → resolve_content cfg = Ok content →
  let m := run_from_config path in
  let body := build_body content in
  (gives_up m ∨
   ∃ keys quic, keys_loaded cfg keys ∧ quic_loaded cfg keys quic ∧
     (∀ a c, BindQuic a c ∈ effects m → [BindQuic a c; SpawnHttp3 body] `prefix_of` effects m) ∧
     ((snd m = io_res (be_run env) ∧ effects m = listeners cfg body keys quic) ∨
      ((∀ u, snd m ≠ Ok u) ∧ effects m `prefix_of` listeners cfg body keys quic ∧ RunTcp body ∉ effects m))) ∧
  (∀ keys quic, keys_loaded cfg keys → quic_loaded cfg keys quic → able cfg keys quic →
     snd m = io_res (be_run env) ∧ effects m = listeners cfg body keys quic).
Proof using.
  intros Hl Hc m body. destruct (run_from_config_after path cfg content Hl Hc) as [[Hg Hn]|(keys & Hk & He & Hs)].
  { split; [by left|]. intros keys quic Hk. by destruct (Hn keys). }
  fold m body in He, Hs. split.
  - unfold gives_up. rewrite !Hs, !He. unfold after_keys.
    destruct (start_http3_opens cfg keys body) as [[Hno Hem]|(quic & Hquic & Hop)].
    { left. rewrite effects_tbind, snd_tbind, Hem. destruct (snd (start_http3 cfg keys body)) as [u| |]; [by destruct (Hno u)|done..]. }
    right. exists keys, quic. split; [done|]. split; [done|]. split; [apply quic_served_at_once|].
    destruct (opens_bind _ (λ _, serve_tcp cfg body keys) _ _ _ Hop (serve_tcp_reaches cfg body keys)) as [[H1 H2]|[H1 H2]]; [left|right].
    + unfold listeners. by rewrite app_assoc.
    + split; [exact H1|]. by apply run_not_listener.
  - intros keys' quic Hk' Hq Hable.
    assert (keys' = keys) as -> by (apply https_keys_of_spec in Hk, Hk'; rewrite Hk in Hk'; by injection Hk').
    rewrite Hs, He. unfold after_keys, listeners. rewrite effects_tbind, snd_tbind.
    destruct (start_http3_able cfg keys quic body Hq Hable) as [-> ->]. cbn [res_bind].
    destruct (run_tcp_servers_able cfg body keys quic Hable) as [Hrun Heff].
    cbn zeta in Hrun, Heff. unfold serve_tcp.
    destruct keys as [k|]; cbn [fmap option_fmap option_map] in Hrun, Heff |- *; [|rewrite tbind_tret; by rewrite Hrun, Heff].
    destruct Hable as (_ & _ & Htls & _). rewrite Htls, tbind_tcall_Ok, tbind_tret. by rewrite Hrun, Heff.
Qed.

(** ** The command line *)

(** What an action may be in the single-protocol mode on [port]. *)
Definition single_action (port : Z) (body : string) (a : Action Addr) : Prop :=
  match a with
  | BindQuic x _ => resolve_socket_addr DEFAULT_ADDRESS port = Ok x
  | BindHttp addr p | BindHttps addr p _ => addr = DEFAULT_ADDRESS ∧ p = port
  | RunHttp3 b | RunTcp b => b = body
  | SpawnHttp3 _ => False
  | Print _ => True
  end.

Definition all_single (port : Z) (body : string) (m : M unit) : Prop :=
  Forall (single_action port body) (effects m) ∧ (length (effects m) ≤ 2)%nat.

Lemma all_single_quiet port body {A} (m : M A) (f : A → M unit) :
  effects m = [] → (∀ a, snd m = Ok a → all_single port body (f a)) → all_single port body (tbind m f).
Proof using.
  intros Hm Hf. unfold all_single. destruct (quiet_step m f Hm) as [(a & Ha & -> & _)|[_ [_ ->]]]; [by apply Hf|].
  split; [apply Forall_nil_2|cbn; lia].
Qed.

Lemma all_single_reaches port body m l :
  reaches m l body → Forall (single_action port body) l → (length l ≤ 1)%nat → all_single port body m.
Proof using.
  unfold all_single. intros [[_ ->]|[_ Hp]] Hl Hlen.
  - split; [apply Forall_app_2; [done|by apply Forall_singleton]|rewrite length_app; cbn; lia].
  - pose proof (prefix_length _ _ Hp). destruct Hp as [l' ->]. apply Forall_app in Hl as [? _]. split; [done|lia].
Qed.

Lemma run_single_single cli mode :
  all_single (default (default_port mode) (cli_port cli)) (build_body default_content_payload) (run_single cli mode).
Proof using.
  unfold run_single. set (port := default _ _). set (body := build_body _). destruct mode.
  - eapply all_single_reaches; [apply run_tcp_servers_reaches|by repeat constructor|cbn; lia].
  - apply all_single_quiet; [apply get_cert_and_key_quiet|intros k _]. apply all_single_quiet; [done|intros c _].
    eapply all_single_reaches; [apply run_tcp_servers_reaches|by repeat constructor|cbn; lia].
  - apply all_single_quiet; [apply get_cert_and_key_quiet|intros k _]. apply all_single_quiet; [done|intros c _].
    apply all_single_quiet; [done|intros a Ha]. unfold all_single, bind_http3. generalize (be_bind_quic env a).
    generalize ("HTTP3 listening on " +:+ DEFAULT_ADDRESS +:+ ":" +:+ fmt_u64 port +:+ " (UDP/QUIC)").
    intros line [[]|]; [|by split; [apply Forall_nil_2|cbn; lia]].
    change (effects _) with [BindQuic a c; RunHttp3 body]. split; [by repeat constructor|cbn; lia].
Qed.

(** The two ways to run exclude each other: an accepted command line without a
    mode names nothing but the configuration, which is looked for in the order
    argument, environment, default; one with a mode has a certificate together
    with its key or neither, and opens at most one listener, on the port given
    or the default of the protocol, serving the default content. *)
Theorem cli_modes c :
  cli_accepted c = true →
  match cli_mode c with
  | None => main c = run_from_config (config_path c) ∧ cli_port c = None ∧ cli_cert c = None ∧ cli_key c = None ∧
      config_path c = default DEFAULT_CONFIG_PATH (match cli_config c with Some p => Some p | None => be_var env end)
  | Some mode => main c = run_single c mode ∧ cli_config c = None ∧ (cli_cert c = None ↔ cli_key c = None) ∧
      all_single (default (default_port mode) (cli_port c)) (build_body default_content_payload) (main c)
  end.
Proof using.
  unfold main, config_path. destruct c as [config mode port cert key]. cbn [cli_mode cli_config cli_port cli_cert cli_key].
  pose proof (run_single_single {| cli_config := config; cli_mode := mode; cli_port := port; cli_cert := cert; cli_key := key |}) as Hs.
  destruct mode as [m|], config, port, cert, key; intros Ha; try (cbv in Ha; discriminate Ha).
  all: first [by split_and!; [..|apply Hs]|done].
Qed.
End backend.

(** ** Answering ([server.rs]) *)

Definition CONTENT_TYPE_TEXT : string := "text/plain; charset=utf-8".

(** [index], the handler of [GET /] over HTTP and HTTPS. *)
Record HttpResponse := { resp_status : Z; resp_content_type : string; resp_body : string }.
Definition index (body : string) : HttpResponse :=
  {| resp_status := 200; resp_content_type := CONTENT_TYPE_TEXT; resp_body := body |}.

(** What goes out on a request stream of HTTP/3. *)
Inductive Sent :=
  | Head (status : Z) (content_type : string)
  | Data (bytes : string)
  | Finished.

(** The outcomes of the calls on a request stream, and on a connection: the
    streams it accepts, and how it ends. *)
Record RequestStream := {
  rs_resolve : res unit;
  rs_send_response : res unit;
  rs_send_data : res unit;
  rs_finish : res unit;
}.
Record Connection := {
  cn_incoming : res unit;                   (* [incoming.await] *)
  cn_new : res unit;                        (* [h3::server::Connection::new] *)
  cn_streams : list RequestStream;          (* [accept]: [Ok(Some(..))] *)
  cn_end : res unit;                        (* [Ok(None)] or an error *)
}.

(** [handle_h3_request]. *)
Definition handle_h3_request (s : RequestStream) (body : string) : traced Sent unit :=
  let* _ := tcall (rs_resolve s) in
  let* _ := tcall (rs_send_response s) in
  let* _ := temit (Head 200 CONTENT_TYPE_TEXT) in
  let* _ := tcall (rs_send_data s) in
  let* _ := temit (Data body) in
  let* _ := tcall (rs_finish s) in
  temit Finished.

(** [handle_h3_connection]: a task for every stream accepted. *)
Fixpoint accept_loop (streams : list RequestStream) (ends : res unit) (body : string) :
    traced (traced Sent unit) unit :=
  match streams with
  | [] => tcall ends
  | s :: streams => let* _ := temit (handle_h3_request s body) in accept_loop streams ends body
  end.
Definition handle_h3_connection (c : Connection) (body : string) : traced (traced Sent unit) unit :=
  let* _ := tcall (cn_new c) in accept_loop (cn_streams c) (cn_end c) body.

(** [run_http3_server]: a task for every incoming connection, until the endpoint
    is closed. *)
Definition connection_task (c : Connection) (body : string) : traced (traced Sent unit) unit :=
  let* _ := tcall (cn_incoming c) in handle_h3_connection c body.
Definition run_http3_server (incoming : list Connection) (body : string) : list (traced (traced Sent unit) unit) :=
  (λ c, connection_task c body) <$> incoming.

(** Every stream of a connection that comes up gets a task of its own, whatever
    happens to the others, and its answer is a prefix of the head, the content
    and the end, the whole of it exactly when every call on it succeeds. *)
Definition full_answer (body : string) : list Sent := [Head 200 CONTENT_TYPE_TEXT; Data body; Finished].

Definition stream_ok (s : RequestStream) : bool :=
  match rs_resolve s, rs_send_response s, rs_send_data s, rs_finish s with
  | Ok _, Ok _, Ok _, Ok _ => true
  | _, _, _, _ => false
  end.

Lemma handle_h3_request_spec s body :
  fst (handle_h3_request s body) `prefix_of` full_answer body ∧
  (fst (handle_h3_request s body) = full_answer body ↔ stream_ok s = true) ∧
  (snd (handle_h3_request s body) = Ok tt ↔ stream_ok s = true).
Proof.
  unfold handle_h3_request, stream_ok, full_answer.
  destruct (rs_resolve s) as [[]| |], (rs_send_response s) as [[]| |], (rs_send_data s) as [[]| |], (rs_finish s) as [[]| |];
    cbn; (split_and!; [by eexists|by split|by split]).
Qed.

Lemma accept_loop_spec streams ends body :
  accept_loop streams ends body = ((λ s, handle_h3_request s body) <$> streams, ends).
Proof. induction streams as [|s streams IH]; [done|]. cbn. by rewrite IH. Qed.

Theorem http3_server_answers incoming body i c :
  incoming !! i = Some c →
  run_http3_server incoming body !! i = Some (connection_task c body) ∧
  (cn_incoming c = Ok tt → cn_new c = Ok tt →
   connection_task c body = ((λ s, handle_h3_request s body) <$> cn_streams c, cn_end c)).
Proof.
  intros Hi. split; [unfold run_http3_server; by rewrite list_lookup_fmap, Hi|].
  intros H1 H2. unfold connection_task, handle_h3_connection. rewrite H1, tbind_tcall_Ok, H2, tbind_tcall_Ok.
  apply accept_loop_spec.
Qed.

(** ** The backend and the generator's worker

    The two ends of a stream.  Of QUIC and HTTP/3 only what they document of a
    stream is assumed: fewer than 2^62 bytes, reliable and in order.  A client
    reads no response but the one the server sent, data in pieces of the
    transport's choosing, and the end of the stream only behind every frame sent
    — whether the server finished the stream or dropped it, which finishes it,
    too; a frame that was not sent to its end is an error.  Nothing says that
    the client gets to read any of it: the connection may be lost and the time
    of the request run out at every await, also behind the server's [finish],
    which does not wait for delivery. *)
Definition data_bytes (sent : list Sent) : Z :=
  zsum ((λ x, match x with Data b => Z.of_nat (String.length b) | _ => 0 end) <$> sent).

(** What the server sent says how far it got. *)
Lemma handled_figures s body :
  let sent := fst (handle_h3_request s body) in
  (∀ code ct rest, sent = Head code ct :: rest → code = 200) ∧
  (∀ code ct rest, sent = Head code ct :: rest → data_bytes sent =
     match rs_send_data s with Ok _ => Z.of_nat (String.length body) | _ => 0 end) ∧
  (∀ code ct rest, sent = Head code ct :: rest → rs_resolve s = Ok tt ∧ rs_send_response s = Ok tt).
Proof.
  unfold handle_h3_request.
  destruct (rs_resolve s) as [[]| |], (rs_send_response s) as [[]| |], (rs_send_data s) as [[]| |], (rs_finish s) as [[]| |];
    unfold data_bytes; cbn; split_and!; intros; simplify_eq; try done. all: rewrite ?zsum_cons, ?zsum_nil; lia.
Qed.

(** The bytes read up to the end of the stream, or up to where the reads fail. *)
Fixpoint read_body (chunks : list (poll (option Z))) : Z * bool :=
  match chunks with
  | Ready (Some n) :: chunks => let '(total, ended) := read_body chunks in (n + total, ended)
  | Ready None :: _ => (0, true)
  | _ => (0, false)
  end.

Section answers.
Context {Req Ep Conn : Type} (ln : f64 → f64).
Context (addr : SocketAddr) (binds : list SocketAddr) (requests : list Req) (gen : RequestsPerConn).
Abbreviation W := (Http3Worker Ep Conn).
Abbreviation Env := (Http3Env Req Ep Conn).
Implicit Types (e : Env) (w : W).

Record faithful (sent : list Sent) e : Prop := {
  fa_response : ∀ code, h3_response e = Ready code → ∃ content_type rest, sent = Head code content_type :: rest;
  fa_pieces : Forall (λ c, match c with Ready (Some n) => 0 ≤ n | _ => True end) (h3_chunks e);
  fa_size : fst (read_body (h3_chunks e)) < 2 ^ 62;
  fa_end : snd (read_body (h3_chunks e)) = true → fst (read_body (h3_chunks e)) = data_bytes sent;
}.

(** Every call of the worker succeeds, down to the end of the stream. *)
Record delivers e : Prop := {
  de_client : ∀ a, h3_client e a ≠ None;
  de_connect : ∀ ep, h3_connect e ep = true;
  de_connecting : h3_connecting e = Ready tt;
  de_handshake : ∃ c, h3_handshake e = Ready c;
  de_send : ∀ r c, h3_send e r c = Ready tt;
  de_sent : h3_finish e = Ready tt;
  de_response : ∃ code, h3_response e = Ready code;
  de_end : snd (read_body (h3_chunks e)) = true;
}.

(** The figures of the statistics an answer touches. *)
Record Figures := {
  fg_responses : Z; fg_timeouts : Z; fg_sock_errors : Z;
  fg_2xx : Z; fg_3xx : Z; fg_4xx : Z; fg_5xx : Z; fg_bytes : Z;
}.
Definition figures w : Figures :=
  let s := h3_stat w in {|
    fg_responses := w_num_responses (rx s); fg_timeouts := w_num_timeouts (rx s); fg_sock_errors := w_num_sock_errors (sock s);
    fg_2xx := w_num_2xx (http s); fg_3xx := w_num_3xx (http s); fg_4xx := w_num_4xx (http s); fg_5xx := w_num_5xx (http s);
    fg_bytes := w_bytes_rx (rx s) |}.

(** The three outcomes of an execution: a response with [n] bytes, a socket
    error, a timeout. *)
Definition answered (n : Z) (f : Figures) : Figures :=
  {| fg_responses := fg_responses f + 1; fg_timeouts := fg_timeouts f; fg_sock_errors := fg_sock_errors f;
     fg_2xx := fg_2xx f + 1; fg_3xx := fg_3xx f; fg_4xx := fg_4xx f; fg_5xx := fg_5xx f;
     fg_bytes := if 0 <? n then u64_add (fg_bytes f) n else fg_bytes f |}.
Definition errored (f : Figures) : Figures :=
  {| fg_responses := fg_responses f; fg_timeouts := fg_timeouts f; fg_sock_errors := fg_sock_errors f + 1;
     fg_2xx := fg_2xx f; fg_3xx := fg_3xx f; fg_4xx := fg_4xx f; fg_5xx := fg_5xx f; fg_bytes := fg_bytes f |}.
Definition timed_out (f : Figures) : Figures :=
  {| fg_responses := fg_responses f; fg_timeouts := fg_timeouts f + 1; fg_sock_errors := fg_sock_errors f;
     fg_2xx := fg_2xx f; fg_3xx := fg_3xx f; fg_4xx := fg_4xx f; fg_5xx := fg_5xx f; fg_bytes := fg_bytes f |}.

Definition with_bytes (n : Z) (f : Figures) : Figures :=
  {| fg_responses := fg_responses f; fg_timeouts := fg_timeouts f; fg_sock_errors := fg_sock_errors f;
     fg_2xx := fg_2xx f; fg_3xx := fg_3xx f; fg_4xx := fg_4xx f; fg_5xx := fg_5xx f;
     fg_bytes := if 0 <? n then u64_add (fg_bytes f) n else fg_bytes f |}.

(** A worker with these figures. *)
Definition at_ (f : Figures) w : Prop := figures w = f ∧ length (w_hist (rx (h3_stat w))) = 45%nat.
Definition never w : Prop := False.

Section exchange.
Context (e : Env) (f : Figures).
Hypothesis Hok : env_ok e.
Hypothesis Hbinds : binds ≠ [].
Hypothesis Hrequests : requests ≠ [].
Hypothesis Hgen : RequestsPerSocket.gen_ok gen.
Hypothesis Hroom : 0 ≤ fg_responses f < 2 ^ 64 - 1 ∧ 0 ≤ fg_timeouts f < 2 ^ 64 - 1 ∧
  0 ≤ fg_sock_errors f < 2 ^ 64 - 1 ∧ 0 ≤ fg_2xx f < 2 ^ 64 - 1.
Hypothesis Hcode : ∀ code, h3_response e = Ready code → code = 200.
Hypothesis Hpieces : Forall (λ c, match c with Ready (Some n) => 0 ≤ n | _ => True end) (h3_chunks e).
Hypothesis Htotal : fst (read_body (h3_chunks e)) < 2 ^ 64.

(** An await that fails is one that did not deliver. *)
Definition lost w : Prop := at_ f w ∧ ¬ delivers e.

Lemma aspec_pure {A} (φ : Prop) P (m : async W A) (Q : A → W → Prop) R T :
  (φ → aspec P m Q R T) → aspec (λ w, φ ∧ P w) m Q R T.
Proof using. intros Hm w [Hφ Hw]. by apply Hm. Qed.

Lemma await_lost {A} (p : poll A) :
  (delivers e → ∃ a, p = Ready a) → aspec (at_ f) (await p) (λ a w, p = Ready a ∧ at_ f w) lost lost.
Proof using.
  intros Hd w Hw. eexists _, _. split; [reflexivity|]. destruct p; [done|..]; split; try done; by intros [a ?]%Hd.
Qed.

Lemma curr_conn_lost : aspec (at_ f) (curr_conn addr binds e) (λ _, at_ f) lost lost.
Proof using Hok Hbinds.
  destruct Hok as (Hi & _ & _). destruct (vec_produce_at_Ok binds _ Hbinds Hi) as (bind & _ & Hbind).
  assert (aspec (at_ f) (reconnect addr binds e) (λ _, at_ f) lost lost) as Hrec.
  { unfold reconnect. eapply (aspec_bind _ _ _ (λ _, at_ f)).
    - unfold get_endpoint. intros w Hw. unfold get. unfold abind at 1. cbn [fst snd res_bind].
      destruct (endpoint w) as [ep|]; [by eexists _, _|]. rewrite lift_abind, Hbind. cbn [res_bind].
      revert w Hw. eapply aspec_bind; [apply await_lost|].
      + intros Hd. destruct (h3_client e _) eqn:Hc; [by eexists|]. by destruct (de_client e Hd (align_family addr bind)).
      + intros ep. apply aspec_pure. intros _. eapply (aspec_bind _ _ _ (λ _, at_ f)); [by apply aspec_modify|].
        intros _. apply (aspec_ret ep (λ _, at_ f)).
    - intros ep. eapply aspec_bind; [apply await_lost; intros Hd; rewrite (de_connect e Hd); by eexists|].
      intros ?. apply aspec_pure. intros _.
      eapply aspec_bind; [apply await_lost; intros Hd; rewrite (de_connecting e Hd); by eexists|].
      intros ?. apply aspec_pure. intros _. eapply (aspec_bind _ _ _ (λ _, at_ f)); [by apply aspec_modify|].
      intros _. eapply aspec_weaken; [apply await_lost, de_handshake|by intros ?? []|done..]. }
  intros w Hw. unfold curr_conn, get, modify. unfold abind at 1 2. cbn [fst snd res_bind].
  destruct (conn w) as [c|]; [by eexists _, _|by apply Hrec].
Qed.

Lemma read_body_nonneg chunks :
  Forall (λ c, match c with Ready (Some n) => 0 ≤ n | _ => True end) chunks → 0 ≤ fst (read_body chunks).
Proof using.
  induction 1 as [|c chunks Hc _ IH]; [done|]. destruct c as [[n|]| |]; try done.
  cbn. destruct (read_body chunks). cbn in *. lia.
Qed.

(** The loop over the body adds up what it reads up to the end. *)
Lemma recv_body_lost chunks n :
  Forall (λ c, match c with Ready (Some n) => 0 ≤ n | _ => True end) chunks →
  (delivers e → snd (read_body chunks) = true) → 0 ≤ n → n + fst (read_body chunks) < 2 ^ 64 →
  aspec (at_ f) (recv_body chunks n)
    (λ m w, (m = n + fst (read_body chunks) ∧ snd (read_body chunks) = true) ∧ at_ f w) lost lost.
Proof using.
  intros Hall. revert n. induction Hall as [|c chunks Hc Hall IH]; intros n Hd Hn Hlt; cbn [recv_body].
  - intros w Hw. eexists _, _. split; [reflexivity|]. split; [done|]. by intros ?%Hd.
  - pose proof (read_body_nonneg _ Hall). eapply aspec_bind; [apply await_lost|].
    + intros ?%Hd. destruct c; [by eexists|done..].
    + intros a. apply aspec_pure. intros ->. cbn [read_body] in *. destruct a as [x|].
      * destruct (read_body chunks) as [total ended]. cbn [fst snd] in *. rewrite u64_add_id by lia.
        eapply aspec_weaken; [apply IH; [done|lia..]| |done..]. intros m w [[-> ?] ?]. by rewrite Z.add_assoc.
      * intros w Hw. eexists _, _. split; [reflexivity|]. cbn. by rewrite Z.add_0_r.
Qed.

Lemma perform_lost c :
  aspec (at_ f) (perform_request requests e c)
    (λ code w, (h3_response e = Ready code ∧ snd (read_body (h3_chunks e)) = true) ∧
       at_ (with_bytes (fst (read_body (h3_chunks e))) f) w) lost lost.
Proof using Hok Hrequests Hpieces Htotal Hroom.
  destruct Hok as (_ & Hi & _). destruct (vec_produce_at_Ok requests _ Hrequests Hi) as (req & _ & Hreq).
  unfold perform_request. eapply aspec_bind; [by eapply aspec_lift|intros r].
  eapply aspec_bind; [apply await_lost; intros Hd; rewrite (de_send e Hd); by eexists|].
  intros ?. apply aspec_pure. intros _. eapply (aspec_bind _ _ _ (λ _, at_ f)); [by apply aspec_modify|]. intros _.
  eapply aspec_bind; [apply await_lost; intros Hd; rewrite (de_sent e Hd); by eexists|].
  intros ?. apply aspec_pure. intros _. eapply aspec_bind; [apply await_lost, de_response|].
  intros code. apply aspec_pure. intros Hresp.
  eapply aspec_bind; [apply recv_body_lost; [done|apply de_end|done|lia]|].
  intros n. apply aspec_pure. intros [-> Hend]. rewrite Z.add_0_l.
  eapply (aspec_bind _ _ _ (λ _, at_ (with_bytes (fst (read_body (h3_chunks e))) f))).
  - apply aspec_modify. intros w [<- Hh]. unfold at_, figures, with_bytes, with_stat. cbn -[u64_add].
    by destruct (0 <? _).
  - intros _ w Hw. by eexists _, _.
Qed.

Lemma keep_figures g c : aspec (at_ g) (keep_or_drop gen e c) (λ _, at_ g) never never.
Proof using Hok Hgen.
  destruct Hok as (_ & _ & Hd). intros w Hw. unfold keep_or_drop.
  destruct (RequestsPerSocket.next_ok gen (h3_draw e) Hgen Hd) as (m & Hm & _).
  destruct (_ <? _); [|rewrite Hm]; by eexists _, _.
Qed.

Lemma record_hist h us : length h = 45%nat → ∃ h', record ln h us = Ok h' ∧ length h' = 45%nat.
Proof using.
  intros Hl. destruct (record_clamped ln h us) as (i & b & _ & _ & _ & ->); [by intros ->|rewrite Hl; done|].
  eexists. split; [done|]. by rewrite length_insert.
Qed.

(** An execution ends with the response and all of its bytes, or with a socket
    error, or without either when the timeout cuts it off. *)
Definition outcome w : Prop :=
  (is_Some (match h3_response e with Ready code => Some code | _ => None end) ∧ snd (read_body (h3_chunks e)) = true ∧
   at_ (answered (fst (read_body (h3_chunks e))) f) w) ∨
  at_ (errored f) w ∧ ¬ delivers e.

Lemma exchange_lost : aspec (at_ f) (do_execute ln addr binds requests gen e) (λ _, outcome) never lost.
Proof using All.
  destruct Hroom as (? & ? & ? & ?).
  assert (∀ w, lost w → at_ (errored f) (with_stat on_sock_err w) ∧ ¬ delivers e) as Herr.
  { intros w [[<- Hh] Hd]. split; [|done]. split; [|done]. unfold figures, errored, with_stat. cbn -[u64_add] in *.
    by rewrite u64_add_id by lia. }
  unfold do_execute, exchange. eapply aspec_or_return; [apply curr_conn_lost| |].
  2: { apply aspec_modify. intros w Hw. right. by apply Herr. }
  intros c. eapply aspec_or_return; [eapply aspec_drop_on_timeout; [apply perform_lost|by intros ? ?]| |].
  2: { intros w Hw. eexists _, _. split; [reflexivity|]. right. by apply Herr. }
  intros code. apply aspec_pure. intros [Hresp Hend].
  eapply (aspec_bind _ _ _ (λ _, at_ (answered (fst (read_body (h3_chunks e))) f))).
  - apply aspec_modify_res. intros w [Hw Hh]. unfold with_stat_res, on_response. cbn [ww_stat ww_put http3_worker].
    destruct (record_hist (w_hist (rx (h3_stat w))) (h3_elapsed e) Hh) as (h & Hrec & Hlen). rewrite Hrec. cbn [res_bind].
    eexists. split; [reflexivity|]. rewrite (Hcode _ Hresp). split; [|done]. unfold figures in *. cbn -[u64_add] in *.
    unfold with_bytes, answered in *. injection Hw as -> -> -> -> -> -> -> ->. by rewrite !u64_add_id by lia.
  - intros _. eapply aspec_weaken; [apply keep_figures| |by intros ? []..].
    intros ? w Hw. left. by rewrite Hresp.
Qed.
End exchange.

(** C34: whatever becomes of the connection, an execution of the HTTP/3 worker
    against the backend — any state of the worker, any outcome of every call of
    the server on the stream, any transport that keeps the contract of a stream —
    is counted as exactly one of: a response with status 2xx, then the server did
    send its head and the bytes counted are exactly those of the content behind
    its prefix, or none if the server failed to send them; a socket error; a
    timeout, both without a byte.  It is a response whenever every call of the
    worker succeeds.  The worker goes on in each case. *)
Theorem backend_answers_worker e s content k w :
  env_ok e → binds ≠ [] → requests ≠ [] → RequestsPerSocket.gen_ok gen →
  0 ≤ k → k + 1 < 2 ^ 64 →
  idle (most gen) (left_ok gen) (Z.max 1) k w →
  let body := build_body content in
  faithful (fst (handle_h3_request s body)) e →
  ∃ w', http3_execute ln addr binds requests gen e w = Ok w' ∧
    idle (most gen) (left_ok gen) (Z.max 1) (k + 1) w' ∧
    ((rs_resolve s = Ok tt ∧ rs_send_response s = Ok tt ∧
      figures w' = answered (match rs_send_data s with Ok _ => Z.of_nat (String.length body) | _ => 0 end) (figures w)) ∨
     (¬ delivers e ∧ (figures w' = errored (figures w) ∨ figures w' = timed_out (figures w)))).
Proof using.
  intros Hok Hb Hr Hg Hk Hk' Hi body [Hresp Hpieces Hsize Hend].
  assert (∃ w', http3_execute ln addr binds requests gen e w = Ok w' ∧
    idle (most gen) (left_ok gen) (Z.max 1) (k + 1) w') as (w' & Hw' & Hi').
  { destruct Hok as (? & ? & ?). by apply http3_execute_spec. }
  exists w'. split; [exact Hw'|]. split; [exact Hi'|]. destruct Hi as [_ Ha]. cbn [ww_stat http3_worker] in Ha.
  destruct Ha as [Hh _ H1 H2 H3 Hsum _ _ (H4 & H5 & H6 & H7) Hcodes _]. unfold web_codes in Hcodes.
  destruct (handled_figures s body) as (Hcode & Hbytes & Hsent).
  destruct (exchange_lost e (figures w) Hok Hb Hr Hg) with (s := w) as (w1 & p & Hrun & Hpost).
  - cbn. split_and!; lia.
  - intros code (ct & rest & Heq)%Hresp. by apply (Hcode code ct rest).
  - done.
  - lia.
  - by split.
  - unfold http3_execute, web_execute, with_timeout in Hw'. rewrite Hrun in Hw'. cbn in Hw'. destruct p as [u| |].
    + injection Hw' as <-. destruct Hpost as [(Hre & He & [Hf _])|[[Hf _] Hd]]; [left|right; split; [done|by left]].
      destruct (h3_response e) as [code| |]; [|by destruct Hre..]. destruct (Hresp code eq_refl) as (ct & rest & Heq).
      destruct (Hsent code ct rest Heq). by rewrite Hf, (Hend He), (Hbytes code ct rest Heq).
    + done.
    + right. destruct Hpost as [[Hf Hlen] Hd]. split; [done|]. right. unfold with_stat_res, on_timeout in Hw'. cbn in Hw'.
      destruct (record_hist (w_hist (rx (h3_stat w1))) (h3_timed_out e) Hlen) as (h & Hrec & _). rewrite Hrec in Hw'.
      injection Hw' as <-. rewrite <-Hf. unfold figures, timed_out in *. cbn -[u64_add] in *.
      injection Hf as _ Hf _ _ _ _ _ _. by rewrite u64_add_id by lia.
Qed.
End answers.

(** ** An example: nothing is configured and every call succeeds *)

Definition example_backend : BackendEnv nat := {|
  be_var := None; be_read := λ _, IoErr NotFound "no such file"; be_toml := λ _, Err "not read";
  be_open := λ _, IoErr NotFound "no such file"; be_certs := λ _, Ok []; be_private_key := λ _, Ok None;
  be_self_signed := Ok ("certificate", "key"); be_versions := Ok tt; be_single_cert := λ _, Ok tt;
  be_quic := λ _, Ok tt; be_resolve := λ _ _, IoOk [7%nat; 8%nat]; be_bind_quic := λ _, IoOk tt;
  be_bind_http := λ _ _, IoOk tt; be_bind_https := λ _ _, IoOk tt; be_run := IoOk tt |}.
Definition example_keys : CertKey := {| cert_chain := ["certificate"]; key := "key" |}.

Lemma backend_comes_up_witness :
  let m := run_from_config example_backend "/etc/dwd-backend/config.toml" in
  snd m = Ok tt ∧
  effects m = [BindQuic 7%nat (quic_of example_keys); SpawnHttp3 "Content: default content"; BindHttp "::" 80;
    BindHttps "::" 443 (tls_of example_keys); RunTcp "Content: default content"].
Proof.
  destruct (backend_comes_up example_backend "/etc/dwd-backend/config.toml" config_default default_content_payload
    eq_refl eq_refl) as [_ H].
  apply (H (Some example_keys) (Some (example_keys, 7%nat))).
  - by exists example_keys.
  - by exists example_keys, 7%nat.
  - by split_and!.
Defined.

Lemma cli_modes_witness :
  let c := {| cli_config := None; cli_mode := Some ModeHttps; cli_port := None; cli_cert := None; cli_key := None |} in
  all_single example_backend 443 "Content: default content" (main example_backend c).
Proof.
  intros c. pose proof (cli_modes example_backend c eq_refl) as H. destruct H as (_ & _ & _ & H). exact H.
Defined.

(** A connection that comes up, one stream whose client goes away in the middle
    and one that is answered in full. *)
Definition cut_stream : RequestStream :=
  {| rs_resolve := Ok tt; rs_send_response := Ok tt; rs_send_data := Err "reset"; rs_finish := Ok tt |}.
Definition good_stream : RequestStream :=
  {| rs_resolve := Ok tt; rs_send_response := Ok tt; rs_send_data := Ok tt; rs_finish := Ok tt |}.

Lemma http3_server_answers_witness :
  let c := {| cn_incoming := Ok tt; cn_new := Ok tt; cn_streams := [cut_stream; good_stream]; cn_end := Ok tt |} in
  fst <$> fst (connection_task c "Content: x") = [[Head 200 CONTENT_TYPE_TEXT]; full_answer "Content: x"].
Proof.
  intros c. destruct (http3_server_answers [c] "Content: x" 0 c eq_refl) as [_ H]. by rewrite H.
Defined.

(** Three executions of a worker: one answered in full, its content cut in
    pieces, one with a server that could not send the content, and one whose
    connection breaks behind the head although the server finished. *)
Definition fresh_worker : Http3Worker nat nat :=
  {| endpoint := None; conn := None; requests_per_conn_left := 5; h3_stat := default_value |}.
Definition reading (chunks : list (poll (option Z))) : Http3Env nat nat nat :=
  let e := Http3.example_env true in {|
  h3_bind_idx := h3_bind_idx e; h3_client := h3_client e; h3_connect := h3_connect e;
  h3_connecting := h3_connecting e; h3_handshake := h3_handshake e; h3_data_idx := h3_data_idx e;
  h3_send := h3_send e; h3_finish := h3_finish e; h3_response := Ready 200; h3_chunks := chunks;
  h3_elapsed := h3_elapsed e; h3_timed_out := h3_timed_out e; h3_draw := h3_draw e |}.

(** The environment keeps the contract of a stream. *)
Ltac keeps_contract := split; [intros code [= <-]; by eexists _, _|by repeat constructor|by vm_compute|by vm_compute].

Lemma backend_answers_worker_witness :
  let run chunks := http3_execute (λ x, x) example_target [example_bind] [1%nat] (RequestsPerSocket.fixed 5)
    (reading chunks) fresh_worker in
  ∃ w1 w2 w3, run [Ready (Some 1); Ready (Some 9); Ready None] = Ok w1 ∧ run [Ready None] = Ok w2 ∧ run [Ready (Some 4); Errored] = Ok w3 ∧
    figures w1 = answered 10 (figures fresh_worker) ∧ figures w2 = answered 0 (figures fresh_worker) ∧
    figures w3 = errored (figures fresh_worker).
Proof.
  intros run.
  pose proof (λ s chunks, backend_answers_worker (λ x, x) example_target [example_bind] [1%nat] (RequestsPerSocket.fixed 5)
    (reading chunks) s "x" 0 fresh_worker (h3_example_env_ok true)) as H.
  unshelve (epose proof (H good_stream [Ready (Some 1); Ready (Some 9); Ready None] _ _ _ _ _ _ _) as H1);
    [done|done|done|done|done|by apply idle_new|keeps_contract|].
  unshelve (epose proof (H cut_stream [Ready None] _ _ _ _ _ _ _) as H2);
    [done|done|done|done|done|by apply idle_new|keeps_contract|].
  unshelve (epose proof (H good_stream [Ready (Some 4); Errored] _ _ _ _ _ _ _) as H3);
    [done|done|done|done|done|by apply idle_new|keeps_contract|].
  destruct H1 as (w1 & R1 & _ & F1), H2 as (w2 & R2 & _ & F2), H3 as (w3 & R3 & _ & F3). clear H.
  exists w1, w2, w3. split_and!; [exact R1|exact R2|exact R3|clear R1 R2..].
  - clear R3. destruct F1 as [(_ & _ & F)|[Hd _]]; [exact F|]. destruct Hd. split; eauto; discriminate.
  - clear R3. destruct F2 as [(_ & _ & F)|[Hd _]]; [exact F|]. destruct Hd. split; eauto; discriminate.
  - vm_compute in R3. injection R3 as <-. by destruct F3 as [(_ & _ & F)|[_ [F|F]]].
Defined.
