(* ===== verification/Client.v ===== *)
(** * The example client of the test backend ([dwd-backend/example/h3_client.rs])

    A program of one request: it connects, asks, and prints the status and the
    body.  The body comes in buffers that need not be contiguous, copied piece
    by piece; the request and the driver of the connection race in a [select!],
    so at every point at which the request waits the driver's end may come
    first.  Resolving, quinn, h3 and rustls are an environment; the other end is
    the server of [Backend]. *)
From S2P Require Import Prelude Machine Task Transport Http3 Backend.

(** ** Buffers *)

(** [bytes::Buf]: what remains, the contiguous piece at its front, and stepping
    over bytes; the laws are those of its documentation. *)
Class Buf (B : Type) := {
  content : B → string;
  chunk : B → string;
  advance : nat → B → B;
}.
Class BufLaws (B : Type) `{Buf B} := {
  chunk_prefix b : ∃ rest, content b = chunk b +:+ rest ∧ content (advance (String.length (chunk b)) b) = rest;
  chunk_some b : content b ≠ "" → chunk b ≠ "";
}.

Definition has_remaining {B} `{Buf B} (b : B) : bool := negb (bool_decide (content b = "")).

(** The inner loop: [fuel] rounds of copying a piece and stepping over it;
    [None] when they are not enough. *)
Fixpoint copy_out {B} `{Buf B} (fuel : nat) (b : B) (body : string) : option string :=
  if has_remaining b then
    match fuel with
    | O => None
    | S fuel => copy_out fuel (advance (String.length (chunk b)) b) (body +:+ chunk b)
    end
  else Some body.

Lemma string_app_assoc (a b c : string) : (a +:+ b) +:+ c = a +:+ (b +:+ c).
Proof. induction a as [|x a IH]; [done|exact (f_equal (String x) IH)]. Qed.
Lemma string_app_nil (a : string) : a +:+ "" = a.
Proof. induction a as [|x a IH]; [done|exact (f_equal (String x) IH)]. Qed.
Lemma string_length_app (a b : string) : String.length (a +:+ b) = (String.length a + String.length b)%nat.
Proof. induction a as [|x a IH]; [done|exact (f_equal S IH)]. Qed.

(** As many rounds as there are bytes are enough, and copy exactly the content. *)
Lemma copy_out_total {B} `{BufLaws B} fuel (b : B) body :
  (String.length (content b) ≤ fuel)%nat → copy_out fuel b body = Some (body +:+ content b).
Proof.
  revert b body. induction fuel as [|fuel IH]; intros b body Hf; cbn [copy_out]; unfold has_remaining;
    (destruct (bool_decide_reflect (content b = "")) as [He|He]; cbn [negb]; [by rewrite He, string_app_nil|]).
  - destruct (content b); [done|cbn in Hf; lia].
  - destruct (chunk_prefix b) as (rest & Hc & Hr). pose proof (chunk_some b He) as Hne.
    assert (0 < String.length (chunk b))%nat by (destruct (chunk b); [done|cbn; lia]).
    rewrite IH; rewrite Hr.
    + by rewrite Hc, string_app_assoc.
    + rewrite Hc, string_length_app in Hf. lia.
Qed.

(** ** The program *)

Record Uri := { host : option string; port_u16 : option Z }.

(** What the client does that can be seen from outside. *)
Inductive ClientAction (Addr : Type) :=
  | Connects (addr : Addr) (server : string)
  | Println (line : string)
  | WaitsIdle.
Arguments Connects {Addr} addr server.
Arguments Println {Addr} line.
Arguments WaitsIdle {Addr}.

(** The answers from outside.  Those the request waits for are errors also when
    the driver ends there: [select!] then drops the request and [main] returns
    the driver's error. *)
Record ClientEnv (Addr B : Type) := {
  ce_arg : option string;                                (* [std::env::args().nth(1)] *)
  ce_parse : string → res Uri;
  ce_resolve : string → Z → res (list Addr);             (* [to_socket_addrs] *)
  ce_versions : res unit;                                (* [with_safe_default_protocol_versions] *)
  ce_quic : ClientConfig → res unit;                     (* [QuicClientConfig::try_from] *)
  ce_endpoint : res unit;
  ce_connect : res unit;                                 (* [endpoint.connect(..)?] *)
  ce_connecting : res unit;                              (* [.await?] of it *)
  ce_h3 : res unit;                                      (* [h3::client::new] *)
  ce_request : res unit;                                 (* [Request::builder().uri(..).body(())] *)
  ce_send : res unit;
  ce_finish : res unit;
  ce_response : res Z;
  ce_data : list (res (option B));                       (* [recv_data], call after call *)
}.
Arguments ce_arg {Addr B} _.
Arguments ce_parse {Addr B} _.
Arguments ce_resolve {Addr B} _.
Arguments ce_versions {Addr B} _.
Arguments ce_quic {Addr B} _.
Arguments ce_endpoint {Addr B} _.
Arguments ce_connect {Addr B} _.
Arguments ce_connecting {Addr B} _.
Arguments ce_h3 {Addr B} _.
Arguments ce_request {Addr B} _.
Arguments ce_send {Addr B} _.
Arguments ce_finish {Addr B} _.
Arguments ce_response {Addr B} _.
Arguments ce_data {Addr B} _.

Definition DEFAULT_URL : string := "https://127.0.0.1:8443/".

(** The configuration of rustls: any certificate will do. *)
Definition client_tls : ClientConfig :=
  {| protocol_versions := [TLS13; TLS12]; Transport.alpn_protocols := ["h3"]; verifies_chain := false; client_auth := false |}.

(** [NoVerify]: any chain is accepted, the signature of the handshake is checked
    with the provider's algorithms, for TLS 1.2 and 1.3 alike. *)
Section verifier.
Context {Cert Sig Message : Type} (signature_ok : Message → Cert → Sig → bool).

Definition verify_server_cert (end_entity : Cert) (intermediates : list Cert) : res unit := Ok tt.
Definition verify_signature (message : Message) (cert : Cert) (dss : Sig) : res unit :=
  if signature_ok message cert dss then Ok tt else Err "invalid signature".

(** What a handshake asks of it. *)
Definition handshake (chain : Cert * list Cert) (message : Message) (dss : Sig) : res unit :=
  let! _ := verify_server_cert (fst chain) (snd chain) in
  verify_signature message (fst chain) dss.

(** The client talks to a backend with any certificate, the self-signed one
    included, that proves it has the key of it. *)
Theorem client_accepts_any_chain chain message dss :
  handshake chain message dss = Ok tt ↔ signature_ok message (fst chain) dss = true.
Proof. unfold handshake, verify_signature. cbn. by destruct (signature_ok _ _ _). Qed.
End verifier.

Section client.
Context {Addr B : Type} `{Buf B}.
Context (status_text : Z → string) (from_utf8_lossy : string → string).
Implicit Types e : ClientEnv Addr B.
Abbreviation M := (traced (ClientAction Addr)).

(** The outer loop, until [recv_data] gives [None]; a list that ends before
    leaves the request waiting until the driver ends. *)
Fixpoint recv_all (data : list (res (option B))) (body : string) : res string :=
  match data with
  | [] => Err "connection closed"
  | r :: data =>
      let! c := r in
      match c with
      | None => Ok body
      | Some b =>
          match copy_out (String.length (content b)) b body with
          | Some body => recv_all data body
          | None => Panic "unreachable"
          end
      end
  end.

(** [let request = async move { .. }]. *)
Definition request e : M unit :=
  let* _ := tcall (ce_request e) in
  let* _ := tcall (ce_send e) in
  let* _ := tcall (ce_finish e) in
  let* status := tcall (ce_response e) in
  let* _ := temit (Println ("Status: " +:+ status_text status)) in
  let* body := tcall (recv_all (ce_data e) "") in
  temit (Println ("Body: " +:+ from_utf8_lossy body)).

(** [ok_or]. *)
Definition ok_or {A} (msg : string) (o : option A) : res A := match o with Some a => Ok a | None => Err msg end.

Definition client_main e : M unit :=
  let url := default DEFAULT_URL (ce_arg e) in
  let* uri := tcall (ce_parse e url) in
  let* server := tcall (ok_or "no host in URL" (host uri)) in
  let port := default 443 (port_u16 uri) in
  let* addrs := tcall (ce_resolve e server port) in
  let* addr := tcall (ok_or "failed to resolve address" (head addrs)) in
  let* _ := tcall (ce_versions e) in
  let* _ := tcall (ce_quic e client_tls) in
  let* _ := tcall (ce_endpoint e) in
  let* _ := tcall (ce_connect e) in
  let* _ := temit (Connects addr server) in
  let* _ := tcall (ce_connecting e) in
  let* _ := tcall (ce_h3 e) in
  let* _ := request e in
  temit WaitsIdle.

(** ** The client and the backend *)

Context `{!BufLaws B}.

(** What the server put into the frames of data. *)
Definition data_content (sent : list Sent) : string :=
  foldr (λ x rest, match x with Data b => b +:+ rest | _ => rest end) "" sent.

Lemma answer_content s body :
  let sent := fst (handle_h3_request s body) in
  (∀ code ct rest, sent = Head code ct :: rest → code = 200) ∧
  (∀ code ct rest, sent = Head code ct :: rest → data_content sent = match rs_send_data s with Ok _ => body | _ => "" end) ∧
  (∀ code ct rest, sent = Head code ct :: rest → rs_resolve s = Ok tt ∧ rs_send_response s = Ok tt).
Proof using.
  unfold handle_h3_request.
  destruct (rs_resolve s) as [[]| |], (rs_send_response s) as [[]| |], (rs_send_data s) as [[]| |], (rs_finish s) as [[]| |];
    cbn; split_and!; intros; simplify_eq; rewrite ?string_app_nil; done.
Qed.

(** What is read up to the end of the stream, or up to where the reads fail. *)
Fixpoint read_content (data : list (res (option B))) : string * bool :=
  match data with
  | Ok (Some b) :: data => let '(rest, ended) := read_content data in (content b +:+ rest, ended)
  | Ok None :: _ => ("", true)
  | _ => ("", false)
  end.

(** No read of the client fails. *)
Definition reads_answer e : bool :=
  match ce_response e with Ok _ => snd (read_content (ce_data e)) | _ => false end.

(** The contract of a stream, as for the worker in [Backend]: no response but
    the one sent, the end of the stream behind everything sent; any read may
    fail. *)
Record keeps_contract (sent : list Sent) e : Prop := {
  kc_response : ∀ code, ce_response e = Ok code → ∃ content_type rest, sent = Head code content_type :: rest;
  kc_end : snd (read_content (ce_data e)) = true → fst (read_content (ce_data e)) = data_content sent;
  kc_returns : (∀ msg, ce_response e ≠ Panic msg) ∧ Forall (λ r, ∀ msg, r ≠ Panic msg) (ce_data e);
}.

(** A body that arrives in full is copied in full, and a stream that breaks off
    gives an error, however it was cut. *)
Lemma recv_all_content data body :
  Forall (λ r, ∀ msg, r ≠ Panic msg) data →
  if snd (read_content data) then recv_all data body = Ok (body +:+ fst (read_content data))
  else ∃ err, recv_all data body = Err err.
Proof using BufLaws0.
  intros Hall. revert body. induction Hall as [|r data Hr _ IH]; intros body; [by eexists|].
  destruct r as [[b|]|err|msg]; [| |by eexists|by destruct (Hr msg)]; [|cbn; by rewrite string_app_nil].
  cbn [recv_all res_bind read_content]. rewrite copy_out_total by done. specialize (IH (body +:+ content b)).
  destruct (read_content data) as [rest []]; cbn [fst snd] in *; [|done]. by rewrite IH, string_app_assoc.
Qed.

(** The call to the client gets through to the server. *)
Record calls e uri server addr addrs : Prop := {
  calls_parse : ce_parse e (default DEFAULT_URL (ce_arg e)) = Ok uri;
  calls_host : host uri = Some server;
  calls_resolve : ce_resolve e server (default 443 (port_u16 uri)) = Ok (addr :: addrs);
  calls_tls : ce_versions e = Ok tt ∧ ce_quic e client_tls = Ok tt;
  calls_connect : ce_endpoint e = Ok tt ∧ ce_connect e = Ok tt ∧ ce_connecting e = Ok tt ∧ ce_h3 e = Ok tt;
  calls_request : ce_request e = Ok tt ∧ ce_send e = Ok tt ∧ ce_finish e = Ok tt;
}.

(** A client that gets its request through to the backend connects to the first
    address of the host, on the port of the URL or 443.  Then it either gets the
    response — the status is printed as soon as it is there — and the stream to
    its end, and prints exactly the content the server sent, whatever the
    transport cuts the data into, or it returns an error and prints no body.
    The former is what happens when no read fails, the response of a server that
    could not send its content included. *)
Theorem client_shows_content e s body uri server addr addrs :
  calls e uri server addr addrs → keeps_contract (fst (handle_h3_request s body)) e →
  let status := Println ("Status: " +:+ status_text 200) in
  let shown := Println ("Body: " +:+ from_utf8_lossy (match rs_send_data s with Ok _ => body | _ => "" end)) in
  if reads_answer e
  then client_main e = ([Connects addr server; status; shown; WaitsIdle], Ok tt) ∧
    rs_resolve s = Ok tt ∧ rs_send_response s = Ok tt
  else (fst (client_main e) = [Connects addr server] ∨ fst (client_main e) = [Connects addr server; status]) ∧
    ∃ err, snd (client_main e) = Err err.
Proof using BufLaws0.
  intros [Hparse Hhost Hres [Hv Hq] (He1 & He2 & He3 & He4) (Hr1 & Hr2 & Hr3)] [Hresp Hend [Hp1 Hp2]] status shown.
  pose proof (recv_all_content (ce_data e) "" Hp2) as Hrecv.
  destruct (answer_content s body) as (Hcode & Hbytes & Hsent). set (sent := fst (handle_h3_request s body)) in *.
  unfold reads_answer, client_main, request. rewrite Hparse, tbind_tcall_Ok, Hhost. cbn [ok_or]. rewrite tbind_tcall_Ok, Hres, tbind_tcall_Ok.
  cbn [ok_or head]. rewrite tbind_tcall_Ok, Hv, tbind_tcall_Ok, Hq, tbind_tcall_Ok, He1, tbind_tcall_Ok, He2, tbind_tcall_Ok.
  rewrite He3, tbind_tcall_Ok, He4, tbind_tcall_Ok, Hr1, tbind_tcall_Ok, Hr2, tbind_tcall_Ok, Hr3, tbind_tcall_Ok.
  destruct (ce_response e) as [code|err|msg] eqn:Hre; [|split; [by left|by eexists]|by destruct (Hp1 msg)].
  destruct (Hresp code eq_refl) as (ct & rest & Heq). rewrite (Hcode code ct rest Heq).
  destruct (snd (read_content (ce_data e))) eqn:Hf.
  - split; [|by apply (Hsent code ct rest)].
    rewrite (Hend eq_refl), (Hbytes code ct rest Heq) in Hrecv. cbn. by rewrite Hrecv.
  - destruct Hrecv as [err Herr]. cbn. rewrite Herr. split; [by right|by eexists].
Qed.
End client.

(** ** An example *)

(** A buffer of pieces, none of them empty. *)
Fixpoint first_piece (b : list string) : string :=
  match b with [] => "" | "" :: b => first_piece b | p :: _ => p end.
Fixpoint step_over (n : nat) (b : list string) : list string :=
  match b with
  | [] => []
  | p :: b => if decide (n < String.length p)%nat then String.substring n (String.length p - n) p :: b
              else step_over (n - String.length p) b
  end.
#[export] Instance pieces_buf : Buf (list string) :=
  {| content b := foldr String.append "" b; chunk := first_piece; advance := step_over |}.

Lemma step_over_0 b : foldr String.append "" (step_over 0 b) = foldr String.append "" b.
Proof.
  induction b as [|p b IH]; [done|]. cbn [step_over]. destruct (decide _) as [Hlt|Hge].
  - cbn [foldr]. f_equal. rewrite Nat.sub_0_r. clear. induction p as [|x p IH]; [done|exact (f_equal (String x) IH)].
  - destruct p; [exact IH|cbn in Hge; lia].
Qed.

Lemma step_over_first b :
  foldr String.append "" b = first_piece b +:+ foldr String.append "" (step_over (String.length (first_piece b)) b).
Proof.
  induction b as [|p b IH]; [done|]. destruct p as [|x p].
  - cbn [step_over]. rewrite decide_False, Nat.sub_0_r by (cbn; lia). exact IH.
  - cbn [first_piece step_over]. rewrite decide_False by lia. by rewrite Nat.sub_diag, step_over_0.
Qed.

#[export] Instance pieces_buf_laws : BufLaws (list string).
Proof.
  split; cbn.
  - intros b. eexists. split; [apply step_over_first|done].
  - intros b Hne. induction b as [|p b IH]; [done|]. destruct p; [by apply IH|done].
Qed.

Definition example_client : ClientEnv nat (list string) := {|
  ce_arg := None; ce_parse := λ _, Ok {| host := Some "127.0.0.1"; port_u16 := Some 8443 |};
  ce_resolve := λ _ p, Ok [Z.to_nat p]; ce_versions := Ok tt; ce_quic := λ _, Ok tt; ce_endpoint := Ok tt;
  ce_connect := Ok tt; ce_connecting := Ok tt; ce_h3 := Ok tt; ce_request := Ok tt; ce_send := Ok tt; ce_finish := Ok tt;
  ce_response := Ok 200; ce_data := [Ok (Some [""; "hel"; "lo"]); Ok None] |}.

Lemma client_shows_content_witness :
  client_main (λ _, "200 OK") (λ s, s) example_client =
    ([Connects 8443%nat "127.0.0.1"; Println "Status: 200 OK"; Println "Body: hello"; WaitsIdle], Ok tt).
Proof.
  pose proof (client_shows_content (λ _, "200 OK") (λ s, s) example_client
    {| rs_resolve := Ok tt; rs_send_response := Ok tt; rs_send_data := Ok tt; rs_finish := Ok tt |} "hello"
    {| host := Some "127.0.0.1"; port_u16 := Some 8443 |} "127.0.0.1" 8443%nat []) as H.
  apply H; [by split|].
  split; [intros code [= <-]; by eexists _, _|done|split; [done|by repeat constructor]].
Defined.
