(* ===== verification/Hosting.v ===== *)
(** * The service behind the built-in interface ([dwd-core/src/grpc/mod.rs],
    [dwd/src/grpc/client.rs])

    [serve] and [connect] put the service and its client on the two halves of a
    pipe: the server accepts from a stream of exactly one connection that never
    ends, the client's channel gets its half from a connector that can be called
    once.  The pipe, the stream combinators of tokio_stream and the endpoint of
    tonic are an environment, the combinators with the laws of their
    documentation; what goes over the pipe is in [Stream]. *)
From S2P Require Import Prelude Machine.

(** ** Streams of connections *)

Inductive Polled (A : Type) := Item (a : A) | Ended | Pends.
Arguments Item {A} a.
Arguments Ended {A}.
Arguments Pends {A}.

(** [tokio_stream]: [poll_next], [empty], [once], [pending] and [chain]. *)
Class Streams (S : Type → Type) := {
  poll_next {A} : S A → Polled A * S A;
  empty_ {A} : S A;
  once {A} : A → S A;
  pending {A} : S A;
  chain {A} : S A → S A → S A;
}.
Class StreamLaws (S : Type → Type) `{Streams S} := {
  empty_poll A : poll_next (empty_ : S A) = (Ended, empty_);
  once_poll A (a : A) : poll_next (once a) = (Item a, empty_);
  pending_poll A : poll_next (pending : S A) = (Pends, pending);
  chain_poll A (s t : S A) :
    poll_next (chain s t) =
      match poll_next s with
      | (Ended, s) => let '(p, t) := poll_next t in (p, chain s t)
      | (p, s) => (p, chain s t)
      end;
}.

(** What [n] polls in a row give. *)
Fixpoint polls {S A} `{Streams S} (n : nat) (s : S A) : list (Polled A) :=
  match n with
  | O => []
  | Datatypes.S n => let '(p, s) := poll_next s in p :: polls n s
  end.

(** [serve]: the connections the server is given. *)
Definition incoming {S} `{Streams S} {Io} (server_io : Io) : S (res Io) := chain (once (Ok server_io)) pending.

(** ** The client's channel *)

(** The connector: [client_io.take().expect(..)]. *)
Definition connector {Io} (client_io : option Io) : res Io * option Io :=
  match client_io with
  | Some io => (Ok io, None)
  | None => (Panic "in-process connector invoked once", None)
  end.

Fixpoint connector_calls {Io} (n : nat) (client_io : option Io) : list (res Io) :=
  match n with
  | O => []
  | Datatypes.S n => let '(r, client_io) := connector client_io in r :: connector_calls n client_io
  end.

(** [connect]: the endpoint the channel is made of and what its connector holds;
    nothing is connected before the first request. *)
Definition connect {Io Endpoint} (endpoint : string → res Endpoint) (client_io : Io) : res (Endpoint * option Io) :=
  let! e := endpoint "http://dwd.invalid" in
  Ok (e, Some client_io).

(** ** The two halves meet *)

Section hosting.
Context {S : Type → Type} `{StreamLaws S}.

Lemma polls_chain_empty {A} n (t : S A) : polls n (chain empty_ t) = polls n t.
Proof.
  revert t. induction n as [|n IH]; intros t; [done|]. cbn [polls]. rewrite chain_poll, empty_poll.
  destruct (poll_next t) as [p t']. by rewrite IH.
Qed.

Lemma polls_pending {A} n : polls n (pending : S A) = replicate n Pends.
Proof. induction n as [|n IH]; [done|]. cbn [polls]. rewrite pending_poll. by rewrite IH. Qed.

Lemma connector_spent {Io} n : connector_calls n (@None Io) = replicate n (Panic "in-process connector invoked once").
Proof. induction n as [|n IH]; [done|]. cbn. by rewrite IH. Qed.

(** However often the server asks it is given its half of the pipe once, and
    the stream of connections never ends, so the server is never torn down for
    want of them; the client's channel is made exactly when the endpoint is, and
    hands its half over at the first connection it makes, while a second one
    would panic. *)
Theorem pipe_is_hosted {Io Endpoint} (endpoint : string → res Endpoint) (server_io client_io : Io) n :
  polls (Datatypes.S n) (incoming server_io : S (res Io)) = Item (Ok server_io) :: replicate n Pends ∧
  Ended ∉ (polls n (incoming server_io : S (res Io))) ∧
  (∀ e held, connect endpoint client_io = Ok (e, held) ↔ endpoint "http://dwd.invalid" = Ok e ∧ held = Some client_io) ∧
  connector_calls (Datatypes.S n) (Some client_io) =
    Ok client_io :: replicate n (Panic "in-process connector invoked once").
Proof.
  assert (∀ n, polls (Datatypes.S n) (incoming server_io : S (res Io)) = Item (Ok server_io) :: replicate n Pends) as Hp.
  { intros k. unfold incoming. cbn [polls]. rewrite chain_poll, once_poll. by rewrite polls_chain_empty, polls_pending. }
  split_and!; [apply Hp| | |cbn; by rewrite connector_spent].
  - destruct n; [by intros ?%elem_of_nil|]. rewrite Hp. by intros [?|[? _]%elem_of_replicate]%elem_of_cons.
  - intros e held. unfold connect. destruct (endpoint _); cbn; naive_solver.
Qed.
End hosting.

(** ** An example: streams as terms *)

Inductive term (A : Type) := TEmpty | TOnce (a : A) | TPending | TChain (s t : term A).
Arguments TEmpty {A}.
Arguments TOnce {A} a.
Arguments TPending {A}.
Arguments TChain {A} s t.

Fixpoint term_poll {A} (s : term A) : Polled A * term A :=
  match s with
  | TEmpty => (Ended, TEmpty)
  | TOnce a => (Item a, TEmpty)
  | TPending => (Pends, TPending)
  | TChain s t =>
      match term_poll s with
      | (Ended, s) => let '(p, t) := term_poll t in (p, TChain s t)
      | (p, s) => (p, TChain s t)
      end
  end.

#[export] Instance term_streams : Streams term :=
  {| poll_next := @term_poll; empty_ := @TEmpty; once := @TOnce; pending := @TPending; chain := @TChain |}.
#[export] Instance term_laws : StreamLaws term.
Proof. by split. Qed.

Example incoming_example : polls 3 (incoming "pipe" : term (res string)) = [Item (Ok "pipe"); Pends; Pends].
Proof. reflexivity. Qed.
