(* ===== verification/Tests.v ===== *)
(** * The repository's unit tests, run on the model

    Each test of the crates that needs neither a socket nor a clock is a
    definition, a bool over the same inputs with the same assertions, in a module
    per source file; one theorem per module says that the definitions of the
    development pass them.  They show that the definitions agree with the program
    where the authors wrote down what it gives.  A third-party parser is replaced
    by what it gives on the test's input; the calls that go over a connection
    ([in_process_seam_roundtrip], [network_endpoint_roundtrip]) go through
    [Stream.moves] and [Seam.control].  Left out are the tests of library calls
    ([https_round_trip], [convertible_to_quic_client_config],
    [uses_renamed_binary_name]) and the sweep of [record_index_is_identical]. *)
From Stdlib Require Import Ascii.
From S2P Require Import Prelude Machine F64 Text Time Suspendable Histogram Stat Seam Stream Jsonline Http3 Summary Report Transport Backend Main.
#[local] Open Scope Z_scope.

(** [assert_eq!] and the conjunction of a test's assertions. *)
Definition assert_eq {A} `{EqDecision A} (x y : A) : bool := bool_decide (x = y).
Definition all (l : list bool) : bool := forallb id l.
Definition is_none {A} (o : option A) : bool := match o with None => true | Some _ => false end.
Definition is_ok {A} (r : res A) : bool := match r with Ok _ => true | _ => false end.

(** [str::contains]. *)
Definition contains (needle s : string) : bool := match String.index 0 needle s with Some _ => true | None => false end.

(** ** [dwd-core/src/summary.rs] *)
Module SummaryTests.
Definition summary (snapshot : StatsSnapshot) : RunSummary :=
  {| Summary.engine_kind := "http"; run_duration := duration_from_secs 10; sum_rates := replicate 10 (f64_of_u64 1000);
     sum_targets := replicate 10 1000; sum_snapshot := snapshot |}.

Definition clean_snapshot : StatsSnapshot := {|
  generator_rps := 1000;
  m_tx := Some {| m_num_requests := 10000; m_bytes_tx := 1000000 |};
  m_rx := Some {| m_num_responses := 10000; m_num_timeouts := 0; m_bytes_rx := 2000000;
                  m_histogram_buckets := replicate 40 0 |};
  m_socket := Some {| m_num_sock_created := 8; m_num_sock_errors := 0; m_num_retransmits := 0 |};
  m_http := Some {| m_num_2xx := 10000; m_num_3xx := 0; m_num_4xx := 0; m_num_5xx := 0 |};
  m_burst_tx := None |}.

(** [as_mut().unwrap()] and an assignment to fields, [None] left as it is. *)
Definition with_tx (f : TxStats → TxStats) (s : StatsSnapshot) : StatsSnapshot :=
  {| generator_rps := generator_rps s; m_tx := f <$> m_tx s; m_rx := m_rx s; m_socket := m_socket s; m_http := m_http s;
     m_burst_tx := m_burst_tx s |}.
Definition with_rx (f : RxStats → RxStats) (s : StatsSnapshot) : StatsSnapshot :=
  {| generator_rps := generator_rps s; m_tx := m_tx s; m_rx := f <$> m_rx s; m_socket := m_socket s; m_http := m_http s;
     m_burst_tx := m_burst_tx s |}.
Definition with_socket (f : SocketStats → SocketStats) (s : StatsSnapshot) : StatsSnapshot :=
  {| generator_rps := generator_rps s; m_tx := m_tx s; m_rx := m_rx s; m_socket := f <$> m_socket s; m_http := m_http s;
     m_burst_tx := m_burst_tx s |}.
Definition with_http (f : HttpStats → HttpStats) (s : StatsSnapshot) : StatsSnapshot :=
  {| generator_rps := generator_rps s; m_tx := m_tx s; m_rx := m_rx s; m_socket := m_socket s; m_http := f <$> m_http s;
     m_burst_tx := m_burst_tx s |}.
Definition responses (n : Z) (rx : RxStats) : RxStats :=
  {| m_num_responses := n; m_num_timeouts := m_num_timeouts rx; m_bytes_rx := m_bytes_rx rx;
     m_histogram_buckets := m_histogram_buckets rx |}.

Definition clean_run_has_no_issues : bool := assert_eq (length (issues (summary clean_snapshot))) 0%nat.

Definition issues_detect_anomalies : bool :=
  let snapshot := with_rx (λ rx, {| m_num_responses := 9000; m_num_timeouts := 100; m_bytes_rx := m_bytes_rx rx;
                                    m_histogram_buckets := m_histogram_buckets rx |}) clean_snapshot in
  let snapshot := with_http (λ http, {| m_num_2xx := 8800; m_num_3xx := m_num_3xx http; m_num_4xx := 50; m_num_5xx := 150 |})
                    snapshot in
  let snapshot := with_socket (λ sock, {| m_num_sock_created := m_num_sock_created sock; m_num_sock_errors := 3;
                                          m_num_retransmits := 7 |}) snapshot in
  assert_eq (length (issues (summary snapshot))) 6%nat.

Definition unanswered_below_threshold_is_tolerated : bool :=
  assert_eq (length (issues (summary (with_rx (responses 9950) clean_snapshot)))) 0%nat.

Definition underachieved_target_is_flagged : bool :=
  let snapshot := with_tx (λ tx, {| m_num_requests := 5000; m_bytes_tx := m_bytes_tx tx |}) clean_snapshot in
  let r := summary (with_rx (responses 5000) snapshot) in
  match issues r with
  | [i] => contains "underachieved" (issue_text r i)
  | _ => false
  end.

Definition distribution_median_odd_and_even : bool :=
  let f := f64_of_u64 in
  all [assert_eq (distribution [f 3; f 1; f 2]) (Some (2, 1, 3));
       assert_eq (distribution [f 4; f 1; f 2; f 3]) (Some (3, 1, 4));
       assert_eq (distribution []) None].

Definition mean_of_samples : bool := all [assert_eq (mean [1; 2; 3]) (Some 2); assert_eq (mean []) None].

(** [(x - y).abs() < 1e-9]. *)
Definition close (x y : f64) : bool :=
  let eps := f64_div f64_one (f64_of_u64 1000000000) in
  f64_ltb (f64_sub x y) eps && f64_ltb (f64_sub y x) eps.

Definition burst_stats_math : bool :=
  let counts := <[31%nat := 10]> (<[0%nat := 10]> (replicate 32 0)) in
  match burst_stats counts with
  | Some (total, avg, full) =>
      all [assert_eq total 20; close avg (f64_lit 33 (-1)); close full (f64_of_u64 50);
           is_none (burst_stats (replicate 32 0))]
  | None => false
  end.

(** [==] on floats. *)
Definition float_eq (x y : f64) : bool := f64_leb x y && f64_leb y x.

Definition pct_handles_zero_denominator : bool :=
  all [float_eq (pct 1 0) f64_zero; float_eq (pct 1 4) (f64_of_u64 25)].

Definition formatting : bool :=
  all [assert_eq (fmt_bytes 512) "512 B";
       assert_eq (fmt_bytes 2048) "2.00 KiB";
       assert_eq (fmt_bytes (5 * 1024 * 1024 * 1024)) "5.00 GiB";
       assert_eq (fmt_bitrate 1000000 (f64_of_u64 8)) "1.0 Mbit/s";
       assert_eq (fmt_us 999) "999us";
       assert_eq (fmt_us 1500) "1.50ms";
       assert_eq (fmt_us 2000000) "2.00s";
       assert_eq (fmt_us u64_max) "n/a";
       assert_eq (fmt_duration 59940000000) "59.9s";
       assert_eq (fmt_duration (duration_from_secs 61)) "1m01s";
       assert_eq (fmt_duration (duration_from_secs 3723)) "1h02m03s"].

Definition summary_tests : list bool :=
  [clean_run_has_no_issues; issues_detect_anomalies; unanswered_below_threshold_is_tolerated;
   underachieved_target_is_flagged; distribution_median_odd_and_even; mean_of_samples; burst_stats_math;
   pct_handles_zero_denominator; formatting].

Theorem summary_tests_pass : all summary_tests = true.
Proof. vm_compute. reflexivity. Qed.
End SummaryTests.

(** ** [dwd-core/src/grpc/server.rs] and [dwd/src/grpc/client.rs] *)
Module SeamTests.
#[local] Instance event_eq_dec : EqDecision GeneratorEvent.
Proof. solve_decision. Defined.

Definition Control : Type := Service (list GeneratorEvent).

(** A fresh service with its channel and flag. *)
Definition service : Control := {| control_tx := []; Seam.is_running := true |}.

(** [try_recv] of the channel a service sends to. *)
Definition recv (s : Control) : Control * option GeneratorEvent :=
  let '(c, ev) := try_recv (control_tx s) in ({| control_tx := c; Seam.is_running := Seam.is_running s |}, ev).

Definition control_forwards_generator_events : bool :=
  let '(s, ev1) := recv (control service (Some (KSet 1234))) in
  let '(s, ev2) := recv (control s (Some KSuspend)) in
  all [assert_eq ev1 (Some (Set_ 1234)); assert_eq ev2 (Some Suspend); Seam.is_running s].

Definition control_stop_flips_run_flag : bool :=
  let '(s, ev) := recv (control service (Some KStop)) in
  all [negb (Seam.is_running s); is_none ev].

Definition sample_snapshot : StatsSnapshot := {|
  generator_rps := 1000;
  m_tx := Some {| m_num_requests := 42; m_bytes_tx := 4096 |};
  m_rx := Some {| m_num_responses := 40; m_num_timeouts := 2; m_bytes_rx := 8192; m_histogram_buckets := [0; 5; 10; 3] |};
  m_socket := Some {| m_num_sock_created := 7; m_num_sock_errors := 1; m_num_retransmits := 3 |};
  m_http := Some {| m_num_2xx := 30; m_num_3xx := 4; m_num_4xx := 5; m_num_5xx := 1 |};
  m_burst_tx := None |}.

Definition remote_stat_mirrors_snapshot : bool :=
  let stat := remote_store remote_new sample_snapshot in
  all [assert_eq (generator stat) 1000; assert_eq (num_requests stat) 42; assert_eq (bytes_tx stat) 4096;
       assert_eq (num_responses stat) 40; assert_eq (num_timeouts stat) 2; assert_eq (bytes_rx stat) 8192;
       assert_eq (num_sock_created stat) 7; assert_eq (num_sock_errors stat) 1; assert_eq (num_retransmits stat) 3;
       assert_eq (num_2xx stat) 30; assert_eq (num_5xx stat) 1].

(** The quantiles of the mirror's histogram are those of the buckets, with any
    power function. *)
Definition remote_stat_reconstructs_histogram (powf : f64 → f64 → f64) : Prop :=
  let stat := remote_store remote_new sample_snapshot in
  Forall (λ q, quantile powf (hist stat) q = quantile powf [0; 5; 10; 3] q)
    [f64_lit 1 (-1); f64_div (f64_of_u64 9) (f64_of_u64 10); f64_div (f64_of_u64 99) (f64_of_u64 100); f64_one].

Definition remote_stat_defaults_to_zero_for_absent_groups : bool :=
  let stat := remote_new in
  all [assert_eq (generator stat) 0; assert_eq (num_requests stat) 0; assert_eq (num_responses stat) 0;
       match num_bursts_tx stat 0 with Ok n => assert_eq n 0 | _ => false end; assert_eq (hist stat) []].

(** Describing, controlling and streaming over the one connection. *)
Definition in_process_seam_roundtrip : bool :=
  let source := {| generator_rps := 777; m_tx := None; m_rx := None; m_socket := None; m_http := None; m_burst_tx := None |} in
  let described := into_response {| Seam.engine_kind := "udp"; groups := [GCommon; GTx; GSocket] |} in
  let '(s, event) := recv (control service (Some (KSet 500))) in
  all [assert_eq (fst described) "udp";
       assert_eq (snd described) [stat_group_number GCommon; stat_group_number GTx; stat_group_number GSocket];
       assert_eq event (Some (Set_ 500));
       match moves 8 [Tick source; Enqueue; Forward; Receive; ClearFlag] (stream_start (Seam.is_running s)) with
       | Some st => all [assert_eq (generator_rps <$> Stream.stored st) [777]; negb (Stream.is_running st)]
       | None => false
       end].

Definition network_endpoint_roundtrip : bool :=
  let hosted := serve_tcp (Addr := string) (Ok "127.0.0.1:50051") "127.0.0.1:0" (Ok tt) (Ok tt) in
  let described := into_response {| Seam.engine_kind := "http"; groups := [GCommon; GHttp] |} in
  let '(s, event) := recv (control service (Some (KSet 9000))) in
  let s := control s (Some KStop) in
  all [is_ok (snd hosted); assert_eq (fst described) "http"; assert_eq event (Some (Set_ 9000)); negb (Seam.is_running s)].

Definition seam_tests : list bool :=
  [control_forwards_generator_events; control_stop_flips_run_flag; remote_stat_mirrors_snapshot;
   remote_stat_defaults_to_zero_for_absent_groups; in_process_seam_roundtrip; network_endpoint_roundtrip].

Theorem seam_tests_pass : all seam_tests = true ∧ ∀ powf, remote_stat_reconstructs_histogram powf.
Proof. split; [vm_compute; reflexivity|]. intros powf. by repeat apply Forall_cons_2. Qed.
End SeamTests.

(** ** [dwd-core/src/engine/http/payload/jsonline.rs] *)
Module JsonlineTests.
Definition Record_ : Type := JsonLineRecord (list (bytes * bytes)).

(** What serde and the http crate give on the lines of the tests. *)
Definition ping : Record_ := {|
  Jsonline.uri := {| scheme := None; authority := None; Jsonline.path := b "/ping"; query := Some (b "x=1") |};
  method := b "POST"; Jsonline.host := b "example.com"; headers := [(b "x-test", b "1")] |}.
Definition shadowed : Record_ := {|
  Jsonline.uri := {| scheme := None; authority := None; Jsonline.path := b "/"; query := None |};
  method := b "GET"; Jsonline.host := b "real.host"; headers := [(HOST, b "ignored.host")] |}.

(** [HeaderMap::get]. *)
Definition get (name : bytes) (hs : list (bytes * bytes)) : option bytes :=
  snd <$> List.find (λ p, bool_decide (p.1 = name)) hs.

Definition http3_request_maps_head_and_host : bool :=
  match h3_request Ok ping with
  | Ok req =>
      all [assert_eq (req_method req) (b "POST"); assert_eq (authority (req_uri req)) (Some (b "example.com"));
           assert_eq (scheme (req_uri req)) (Some (b "https")); assert_eq (Jsonline.path (req_uri req)) (b "/ping");
           assert_eq (query (req_uri req)) (Some (b "x=1")); is_none (get HOST (req_headers req));
           assert_eq (get (b "x-test") (req_headers req)) (Some (b "1"))]
  | _ => false
  end.

Definition http3_request_prefers_top_level_host_over_header : bool :=
  match h3_request Ok shadowed with
  | Ok req => all [assert_eq (authority (req_uri req)) (Some (b "real.host")); is_none (get HOST (req_headers req))]
  | _ => false
  end.

Theorem jsonline_tests_pass :
  all [http3_request_maps_head_and_host; http3_request_prefers_top_level_host_over_header] = true.
Proof. vm_compute. reflexivity. Qed.
End JsonlineTests.

(** ** [dwd-core/src/engine/http/tls.rs] and [engine/http3/tls.rs] *)
Module TlsTests.
(** What the tests are about: a name the library takes, and an address. *)
Definition parse_name (name : string) : option (ServerName (Ip := string)) := Some (DnsName name).

Definition advertises_http11_alpn : bool :=
  assert_eq (Transport.alpn_protocols Tls12.insecure_client_config) [ALPN_HTTP11].
Definition builds_with_hostname_sni : bool := is_ok (tls_new parse_name (Some "example.org") "127.0.0.1").
Definition builds_with_ip_fallback : bool := is_ok (tls_new parse_name None "127.0.0.1").
Definition advertises_h3_alpn : bool := assert_eq (Transport.alpn_protocols Tls13.insecure_client_config) [ALPN_H3].

Theorem tls_tests_pass :
  all [advertises_http11_alpn; builds_with_hostname_sni; builds_with_ip_fallback; advertises_h3_alpn] = true.
Proof. vm_compute. reflexivity. Qed.
End TlsTests.

(** ** [dwd-core/src/histogram.rs]

    The logarithms of the mathematical library are parameters: the tests are
    propositions about them, and the theorem says which follow from which. *)
Module HistogramTests.
Section histogram.
Context (ln : f64 → f64) (log : f64 → f64 → f64).

Definition inv_ln_factor_matches_factor : Prop := INV_LN_FACTOR = f64_div f64_one (ln FACTOR).

Definition ref_idx (us len : Z) : Z := Z.min (f64_to_u64 (log (f64_of_u64 us) FACTOR)) (len - 1).
Definition opt_idx (us len : Z) : Z := Z.min (f64_to_u64 (f64_mul (ln (f64_of_u64 us)) INV_LN_FACTOR)) (len - 1).

Definition samples : list Z := [0; 1; 10; 100; 1000; 5000; 50000; 500000; 5000000].

Fixpoint record_all (hist : list Z) (l : list Z) : res (list Z) :=
  match l with [] => Ok hist | us :: l => let! hist := record ln hist us in record_all hist l end.

(** The loop that counts into [expected]. *)
Fixpoint expect (expected : list Z) (l : list Z) : list Z :=
  match l with
  | [] => expected
  | us :: l => expect (alter (λ n, u64_add n 1) (Z.to_nat (ref_idx us (Z.of_nat (length expected)))) expected) l
  end.

Definition record_lands_in_reference_bucket : Prop := record_all default_buckets samples = Ok (expect default_buckets samples).

Lemma record_all_expect hist l :
  hist ≠ [] → Z.of_nat (length hist) < 2 ^ 63 →
  Forall (λ us, opt_idx us (Z.of_nat (length hist)) = ref_idx us (Z.of_nat (length hist))) l →
  record_all hist l = Ok (expect hist l).
Proof.
  revert hist. induction l as [|us l IH]; intros hist Hne Hlen Hall; [done|].
  apply Forall_cons in Hall as [Hus Hl]. cbn [record_all expect].
  destruct (record_clamped ln hist us Hne Hlen) as (i & v & Hlt & Hi & Hidx & ->). cbn [res_bind].
  change (Z.of_nat i = opt_idx us (Z.of_nat (length hist))) in Hidx. rewrite Hus in Hidx. rewrite <-Hidx, Nat2Z.id.
  assert (<[i := u64_add v 1]> hist = alter (λ n, u64_add n 1) i hist) as ->.
  { apply list_eq. intros j. destruct (decide (i = j)) as [<-|Hj].
    - by rewrite list_lookup_insert_eq, list_lookup_alter_eq, Hi by done.
    - by rewrite list_lookup_insert_ne, list_lookup_alter_ne by done. }
  apply IH; rewrite ?length_alter; [|done..]. destruct hist as [|x hist]; [done|]. by destruct i.
Qed.

(** With the logarithm of 3/2 rounded to the nearest double the constant is its
    inverse to the last bit; and where the optimised index is the reference one,
    the samples land in the reference's buckets. *)
Theorem histogram_tests_hold :
  (ln FACTOR = f64_lit 7304210039150668 (-54) → inv_ln_factor_matches_factor) ∧
  (Forall (λ us, opt_idx us 45 = ref_idx us 45) samples → record_lands_in_reference_bucket).
Proof.
  split.
  - intros H. unfold inv_ln_factor_matches_factor. rewrite H. vm_compute. reflexivity.
  - intros H. apply record_all_expect; rewrite default_buckets_eq; [done|cbn; lia|done].
Qed.
End histogram.
End HistogramTests.

(** ** [dwd-backend/src/cli.rs] and [tls.rs] *)
Module BackendTests.
(** The arguments of the test, as clap reads them before it looks at conflicts. *)
Definition config_and_standalone_modes_conflict : bool :=
  negb (cli_accepted {| cli_config := Some "config.toml"; cli_mode := Some ModeHttp; cli_port := None; cli_cert := None;
                        cli_key := None |}).

Definition rejects_incomplete_certificate_pair {Addr} (env : BackendEnv Addr) : bool :=
  match snd (get_cert_and_key env (Some "cert.pem") None) with
  | Err error => String.prefix (kind_name InvalidInput +:+ ": ") error
  | _ => false
  end.

Theorem backend_tests_pass {Addr} (env : BackendEnv Addr) :
  all [config_and_standalone_modes_conflict; rejects_incomplete_certificate_pair env] = true.
Proof. vm_compute. reflexivity. Qed.
End BackendTests.
