(* ===== verification/Bench.v ===== *)
(** * The benchmarks ([dwd-core/benches])

    The closure each benchmark times is a step, what it is timed with the state
    the step starts from; the clock the shaper reads is an argument.  The
    theorems are what the comments of the benchmarks take for granted: that the
    branch meant to be measured is the one that runs. *)
From S2P Require Import Prelude Machine F64 Text Time Shaper Generator Histogram Stat.
#[local] Open Scope Z_scope.

(** ** [benches/generator.rs] *)
Module GeneratorBench.
Section generator.
Context (sin : f64 → f64) (base : Instant).

Definition at_ : Instant := base + duration_from_secs 50.

Definition const_current_at : res (option Z) :=
  let! g := LineGenerator.new 1000 1000 (duration_from_secs 100) base in
  Ok (LineGenerator.current_at (LineGenerator.activate_at g base) at_).

Definition line_current_at : res (option Z) :=
  let! g := LineGenerator.new 1000 1000000 (duration_from_secs 100) base in
  Ok (LineGenerator.current_at (LineGenerator.activate_at g base) at_).

Definition sin_current_at : option Z :=
  let g := {| pps_mid := f64_of_u64 500500; sin_a := f64_of_u64 499500; sin_k := f64_one; phase := f64_zero;
              sin_t0 := base; sin_dur := duration_from_secs 100 |} in
  SinGenerator_current_at sin (SinGenerator_activate_at g base) at_.

(** Wherever the clock stands the query is inside the profile: the constant and
    the middle of the ramp come out exactly, and the sine is evaluated. *)
Theorem live_branch_is_measured :
  const_current_at = Ok (Some 1000) ∧ line_current_at = Ok (Some 500500) ∧ is_Some sin_current_at.
Proof.
  assert (duration_since at_ base = duration_from_secs 50) as He.
  { unfold duration_since, at_. replace (base + duration_from_secs 50 - base) with (duration_from_secs 50) by lia. done. }
  assert (∀ g, LineGenerator.current_at (LineGenerator.activate_at g base) at_ =
    LineGenerator.current_at (LineGenerator.activate_at g 0) (duration_from_secs 50)) as Hb.
  { intros g. unfold LineGenerator.current_at. cbn [LineGenerator.activate_at line_t0 line_dur line_k line_b]. by rewrite He. }
  split_and!.
  - unfold const_current_at. replace (LineGenerator.new _ _ _ base)
      with (Ok {| line_k := 0; line_b := 1000; line_t0 := base; line_dur := duration_from_secs 100 |}) by by vm_compute.
    cbn [res_bind]. rewrite Hb. by vm_compute.
  - unfold line_current_at. replace (LineGenerator.new _ _ _ base)
      with (Ok {| line_k := 9990; line_b := 1000; line_t0 := base; line_dur := duration_from_secs 100 |}) by by vm_compute.
    cbn [res_bind]. rewrite Hb. by vm_compute.
  - unfold sin_current_at, SinGenerator_current_at. cbn [SinGenerator_activate_at sin_t0 sin_dur]. rewrite He.
    by eexists.
Qed.
End generator.
End GeneratorBench.

(** ** [benches/histogram.rs] *)
Module HistogramBench.
Definition samples : list Z := [1; 10; 100; 1000; 5000; 50000; 500000; 5000000].

(** The closure of [record]: the histogram and the running index. *)
Definition record_iter (ln : f64 → f64) (s : list Z * Z) : res (list Z * Z) :=
  let '(hist, i) := s in
  match samples !! Z.to_nat (i `mod` Z.of_nat (length samples)) with
  | Some us => let! hist := record ln hist us in Ok (hist, u64_add i 1)
  | None => Panic "index out of bounds"
  end.

Fixpoint record_iters (ln : f64 → f64) (n : nat) (s : list Z * Z) : res (list Z * Z) :=
  match n with
  | O => Ok s
  | S n => let! s := record_iters ln n s in record_iter ln s
  end.

Definition n_buckets : nat := length default_buckets.
Definition snapshot : list Z := (λ i, Z.of_nat i `mod` 7 + 1) <$> seq 0 n_buckets.

Definition quantiles : list f64 :=
  [f64_lit 1 (-1); f64_div (f64_of_u64 9) (f64_of_u64 10); f64_div (f64_of_u64 99) (f64_of_u64 100);
   f64_div (f64_of_u64 999) (f64_of_u64 1000)].
Definition quantile_name (q : f64) : string :=
  "quantile_p" +:+ fmt_u64 (f64_to_u64 (f64_mul q (f64_of_u64 1000))).
Definition quantile_bench (powf : f64 → f64 → f64) : list (string * res Z) :=
  (λ q, (quantile_name q, quantile powf snapshot q)) <$> quantiles.

(** However long the benchmark runs and whatever the logarithm gives, every
    iteration records one sample and none is out of range. *)
Theorem record_bench_counts ln n :
  ∃ hist i, record_iters ln n (default_buckets, 0) = Ok (hist, i) ∧ length hist = n_buckets ∧ is_u64 i ∧
    as_u64 (zsum hist) = as_u64 (Z.of_nat n).
Proof.
  unfold n_buckets. rewrite default_buckets_eq, length_replicate. induction n as [|n (h & i & IH & Hl & Hi & Hs)].
  - eexists _, _. split_and!; [done..|unfold is_u64; lia|done].
  - cbn [record_iters]. rewrite IH. cbn [res_bind]. unfold record_iter.
    destruct (lookup_lt_is_Some_2 samples (Z.to_nat (i `mod` Z.of_nat (length samples)))) as [us ->].
    { cbn. pose proof (Z.mod_pos_bound i 8). lia. }
    destruct (record_clamped ln h us) as (k & v & _ & _ & _ & Hr); [by destruct h|lia|].
    pose proof (record_mod _ _ _ _ Hr) as Hm. rewrite Hr. cbn. eexists _, _.
    split_and!; [done|by rewrite length_insert|apply as_u64_range|].
    rewrite Hm, Nat2Z.inj_succ, <-Z.add_1_r. unfold as_u64 in Hs |- *. by rewrite Z.add_mod, Hs, <-Z.add_mod by lia.
Qed.

(** The four benchmarks have the names their quantiles suggest, and each
    finds its quantile in the snapshot: the end of the scan is not reached. *)
Theorem quantile_bench_scans powf :
  map fst (quantile_bench powf) = ["quantile_p500"; "quantile_p900"; "quantile_p990"; "quantile_p999"] ∧
  Forall2 (λ q r, ∃ i b sum, snd r = Ok (interpolate powf q (u64_sum snapshot) sum b i) ∧ snapshot !! i = Some b)
    quantiles (quantile_bench powf).
Proof.
  split; [vm_compute; reflexivity|]. unfold quantile_bench, quantiles. cbn [fmap list_fmap].
  repeat apply Forall2_cons_2; try apply Forall2_nil_2.
  all: eexists _, _, _; split; [cbv -[interpolate]; reflexivity|vm_compute; reflexivity].
Qed.
End HistogramBench.

(** ** [benches/shaper.rs] *)
Module ShaperBench.
Definition limit : Z := 1000000.
Definition bench_shaper (now : Instant) : Shaper := Shaper.new 1 now.

Definition tick_iter (s : Shaper) (now : Instant) : Shaper * Z := Shaper.tick s now limit.
Definition consume_iter (s : Shaper) : Shaper := Shaper.consume s 1.
Definition tick_consume_iter (s : Shaper) (now : Instant) : Shaper * Z :=
  let '(s, n) := Shaper.tick s now limit in (Shaper.consume s n, n).

(** What the ticks of a run give, with the clock of each. *)
Fixpoint ticks (iter : Shaper → Instant → Shaper * Z) (s : Shaper) (nows : list Instant) : list Z :=
  match nows with [] => [] | now :: nows => let '(s, n) := iter s now in n :: ticks iter s nows end.

(** [consume] in isolation drifts below zero, by one each time. *)
Example consume_drifts : tokens (Nat.iter 1000 consume_iter (bench_shaper 0)) = f64_of_i64 (-1000).
Proof. vm_compute. reflexivity. Qed.

(** A cycle of 50 ns under a million tokens a second: most ticks give nothing. *)
Example tick_is_mostly_zero :
  ticks tick_consume_iter (bench_shaper 0) ((λ k, 50 * k) <$> seqZ 1 60) =
    replicate 19 0 ++ [1] ++ replicate 19 0 ++ [1] ++ replicate 19 0 ++ [1].
Proof. vm_compute. reflexivity. Qed.
End ShaperBench.
